(** * wimlib: extraction engine (extract.c) and archive writer (write.c)

    A shallow embedding of the two source files and the properties proved
    about them.  Code that the two files call but that lives elsewhere in
    the library (the backends, the XML writer, libc) is a field of a record
    of externals: every theorem holds for all of them. *)

From Stdlib Require Import ZArith List Bool Lia Ascii String Permutation Sorted.
Import ListNotations.
Local Open Scope Z_scope.
Set Warnings "-register-all".

(** ** Return codes

    The functions return [int]; the values are those of
    [enum wimlib_error_code], and a test [if (ret)] asks whether the code is
    not [WIMLIB_ERR_SUCCESS] (= 0). *)
Inductive wimlib_error_code : Type :=
| WIMLIB_ERR_SUCCESS
| WIMLIB_ERR_INVALID_IMAGE
| WIMLIB_ERR_INVALID_PARAM
| WIMLIB_ERR_MKDIR
| WIMLIB_ERR_NOMEM
| WIMLIB_ERR_NOTDIR
| WIMLIB_ERR_NOT_A_REGULAR_FILE
| WIMLIB_ERR_NO_FILENAME
| WIMLIB_ERR_NTFS_3G
| WIMLIB_ERR_OPEN
| WIMLIB_ERR_PATH_DOES_NOT_EXIST
| WIMLIB_ERR_READ
| WIMLIB_ERR_RENAME
| WIMLIB_ERR_STAT
| WIMLIB_ERR_UNSUPPORTED
| WIMLIB_ERR_WRITE
| WIMLIB_ERR_OTHER (code : positive).

Definition is_error (r : wimlib_error_code) : bool :=
  match r with WIMLIB_ERR_SUCCESS => false | _ => true end.

Inductive msg_level : Type := LVL_ERROR | LVL_WARNING.

(** A C function body: it either runs to its end with a value or leaves
    through a [return] on the way. *)
Inductive outcome (A : Type) : Type :=
| Normal (a : A)
| Returned (r : wimlib_error_code).
Arguments Normal {A} a.
Arguments Returned {A} r.

Section Blocks.
Context {world : Type}.

Definition block (A : Type) : Type := world -> outcome A * world.
Definition fn : Type := world -> wimlib_error_code * world.

Definition pure {A} (a : A) : block A := fun s => (Normal a, s).
Definition Return {A} (r : wimlib_error_code) : block A :=
  fun s => (Returned r, s).
Definition bind {A B} (m : block A) (k : A -> block B) : block B :=
  fun s => match m s with
           | (Normal a, s') => k a s'
           | (Returned r, s') => (Returned r, s')
           end.
Definition gets {A} (f : world -> A) : block A := fun s => (Normal (f s), s).
Definition modify (f : world -> world) : block unit :=
  fun s => (Normal tt, f s).
Definition call (f : fn) : block wimlib_error_code :=
  fun s => let (r, s') := f s in (Normal r, s').
Definition when (b : bool) (m : block unit) : block unit :=
  if b then m else pure tt.
(** The body of a function, run to its return value. *)
Definition body (m : block wimlib_error_code) : fn :=
  fun s => match m s with
           | (Normal r, s') => (r, s')
           | (Returned r, s') => (r, s')
           end.
End Blocks.

Declare Scope block_scope.
Delimit Scope block_scope with block.
Notation "x <- m ;; k" := (bind m (fun x => k))
  (at level 100, m at next level, right associativity) : block_scope.
Notation "m ;; k" := (bind m (fun _ => k))
  (at level 100, right associativity) : block_scope.
Local Open Scope block_scope.

(** Case analysis on the next test or external result of a run: the
    innermost scrutinee of the goal. *)
Ltac run_step :=
  match goal with
  | |- context [match ?x with _ => _ end] =>
      lazymatch x with
      | context [match _ with _ => _ end] => fail
      | _ => destruct x eqn:?
      end
  end.

(** ** Runs that stay within a relation

    [R] relates the state before a piece of code to the state after it; it
    is reflexive and transitive, so it holds of a block as soon as it holds
    of the steps of the block. *)
Section Respects.
Context {world : Type} (R : world -> world -> Prop).
Hypothesis R_refl : forall s, R s s.
Hypothesis R_trans : forall a b c, R a b -> R b c -> R a c.

Definition respects {A} (m : @block world A) : Prop :=
  forall s, R s (snd (m s)).

Definition fn_respects (f : @fn world) : Prop :=
  forall s, R s (snd (f s)).

Lemma respects_pure {A} (a : A) : respects (pure a).
Proof. intros s. apply R_refl. Qed.

Lemma respects_Return {A} (r : wimlib_error_code) : respects (@Return _ A r).
Proof. intros s. apply R_refl. Qed.

Lemma respects_gets {A} (f : world -> A) : respects (gets f).
Proof. intros s. apply R_refl. Qed.

Lemma respects_modify (f : world -> world) :
  (forall s, R s (f s)) -> respects (modify f).
Proof. intros H s. apply H. Qed.

Lemma respects_bind {A B} (m : block A) (k : A -> block B) :
  respects m -> (forall a, respects (k a)) -> respects (bind m k).
Proof.
  intros Hm Hk s. unfold bind. specialize (Hm s).
  destruct (m s) as [[a | r] s1]; cbn [snd] in *; [| exact Hm].
  eapply R_trans; [exact Hm | apply Hk].
Qed.

Lemma respects_when (b : bool) (m : block unit) :
  respects m -> respects (when b m).
Proof. intros H. destruct b; [exact H | apply respects_pure]. Qed.

Lemma respects_call (f : fn) : fn_respects f -> respects (call f).
Proof.
  intros H s. unfold call. specialize (H s). destruct (f s). exact H.
Qed.

Lemma fn_respects_body (m : block wimlib_error_code) :
  respects m -> fn_respects (body m).
Proof.
  intros H s. unfold body. specialize (H s).
  destruct (m s) as [[r | r] s1]; exact H.
Qed.
End Respects.

(** Splits a goal [respects R m] along the structure of [m], [refl] and
    [trans] being the proofs that [R] is reflexive and transitive; what is
    left is what the steps themselves have to satisfy. *)
Ltac respects_steps refl trans :=
  repeat first
    [ apply (respects_pure _ refl)
    | apply (respects_Return _ refl)
    | apply (respects_gets _ refl)
    | apply (respects_when _ refl)
    | apply (respects_bind _ trans); [| intros ?]
    | apply respects_call
    | apply fn_respects_body
    | match goal with
      | |- respects _ (if ?c then _ else _) => destruct c
      | |- respects _ (match ?x with _ => _ end) => destruct x
      end ].

(** The same, by the shape of the block alone: a function that is called
    is left to [leaf]. *)
Ltac respects_split refl trans leaf :=
  repeat first
    [ leaf
    | match goal with
      | |- respects _ (pure _) => apply (respects_pure _ refl)
      | |- respects _ (Return _) => apply (respects_Return _ refl)
      | |- respects _ (gets _) => apply (respects_gets _ refl)
      | |- respects _ (when _ _) => apply (respects_when _ refl)
      | |- respects _ (bind _ _) => apply (respects_bind _ trans); [| intros ?]
      | |- respects _ (call _) => apply respects_call
      | |- respects _ (modify _) => apply respects_modify
      | |- fn_respects _ (body _) => apply fn_respects_body
      | |- respects _ (if ?c then _ else _) => destruct c eqn:?
      | |- respects _ (match ?x with _ => _ end) => destruct x eqn:?
      end ].

(** ** Two runs side by side

    [R] relates the states of two runs.  Two blocks simulate each other
    when, started in related states, they leave in the same way (both run to
    their end, with related values, or both return the same code) and in
    related states. *)
Section Simulates.
Context {world : Type} (R : world -> world -> Prop).

Definition outcome_rel {A} (RA : A -> A -> Prop) (o1 o2 : outcome A)
  : Prop :=
  match o1, o2 with
  | Normal a1, Normal a2 => RA a1 a2
  | Returned r1, Returned r2 => r1 = r2
  | _, _ => False
  end.

Definition simulates {A} (RA : A -> A -> Prop) (m1 m2 : @block world A)
  : Prop :=
  forall s1 s2, R s1 s2 ->
    outcome_rel RA (fst (m1 s1)) (fst (m2 s2))
    /\ R (snd (m1 s1)) (snd (m2 s2)).

Definition fn_simulates (f1 f2 : @fn world) : Prop :=
  forall s1 s2, R s1 s2 ->
    fst (f1 s1) = fst (f2 s2) /\ R (snd (f1 s1)) (snd (f2 s2)).

Lemma simulates_pure {A} (RA : A -> A -> Prop) (a1 a2 : A) :
  RA a1 a2 -> simulates RA (pure a1) (pure a2).
Proof. intros H s1 s2 Hs. split; [exact H | exact Hs]. Qed.

Lemma simulates_Return {A} (RA : A -> A -> Prop) (r : wimlib_error_code) :
  simulates RA (Return r) (Return r).
Proof. intros s1 s2 Hs. split; [reflexivity | exact Hs]. Qed.

Lemma simulates_gets {A} (RA : A -> A -> Prop) (g1 g2 : world -> A) :
  (forall s1 s2, R s1 s2 -> RA (g1 s1) (g2 s2)) ->
  simulates RA (gets g1) (gets g2).
Proof. intros H s1 s2 Hs. split; [apply H, Hs | exact Hs]. Qed.

Lemma simulates_modify (f1 f2 : world -> world) :
  (forall s1 s2, R s1 s2 -> R (f1 s1) (f2 s2)) ->
  simulates eq (modify f1) (modify f2).
Proof. intros H s1 s2 Hs. split; [reflexivity | apply H, Hs]. Qed.

Lemma simulates_bind {A B} (RA : A -> A -> Prop) (RB : B -> B -> Prop)
    (m1 m2 : block A) (k1 k2 : A -> block B) :
  simulates RA m1 m2 ->
  (forall a1 a2, RA a1 a2 -> simulates RB (k1 a1) (k2 a2)) ->
  simulates RB (bind m1 k1) (bind m2 k2).
Proof.
  intros Hm Hk s1 s2 Hs. unfold bind. destruct (Hm s1 s2 Hs) as [Ho Hr].
  destruct (m1 s1) as [[a1 | r1] t1], (m2 s2) as [[a2 | r2] t2];
    cbn [fst snd outcome_rel] in *; try contradiction.
  - apply Hk; assumption.
  - split; assumption.
Qed.

Lemma simulates_when (b : bool) (m1 m2 : block unit) :
  simulates eq m1 m2 -> simulates eq (when b m1) (when b m2).
Proof.
  intros H. destruct b; [exact H | apply simulates_pure; reflexivity].
Qed.

Lemma simulates_if {A} (RA : A -> A -> Prop) (b : bool)
    (m1 m2 n1 n2 : block A) :
  simulates RA m1 m2 -> simulates RA n1 n2 ->
  simulates RA (if b then m1 else n1) (if b then m2 else n2).
Proof. intros Hm Hn. destruct b; assumption. Qed.

Lemma simulates_call (f1 f2 : fn) :
  fn_simulates f1 f2 -> simulates eq (call f1) (call f2).
Proof.
  intros H s1 s2 Hs. unfold call. destruct (H s1 s2 Hs) as [Ho Hr].
  destruct (f1 s1), (f2 s2). split; assumption.
Qed.

Lemma fn_simulates_body (m1 m2 : block wimlib_error_code) :
  simulates eq m1 m2 -> fn_simulates (body m1) (body m2).
Proof.
  intros H s1 s2 Hs. unfold body. destruct (H s1 s2 Hs) as [Ho Hr].
  destruct (m1 s1) as [[a1 | r1] t1], (m2 s2) as [[a2 | r2] t2];
    cbn [fst snd outcome_rel] in *; try contradiction;
    split; assumption.
Qed.

Lemma simulates_unit (m1 m2 : block unit) :
  simulates (fun _ _ => True) m1 m2 -> simulates eq m1 m2.
Proof.
  intros H s1 s2 Hs. destruct (H s1 s2 Hs) as [Ho Hr]. split; [| exact Hr].
  destruct (fst (m1 s1)) as [[] |], (fst (m2 s2)) as [[] |];
    cbn [outcome_rel] in *; try contradiction; congruence.
Qed.
End Simulates.

(** Splits a goal [simulates R _ m1 m2] along the common structure of the
    two blocks; [leaf] is tried on the steps, and what is left is what the
    steps have to satisfy. *)
Ltac simulates_steps leaf :=
  repeat first
    [ leaf
    | match goal with
      | |- simulates _ _ (Return _) _ => apply simulates_Return
      | |- simulates _ _ (pure _) _ => apply simulates_pure; reflexivity
      | |- simulates _ _ (when _ _) _ => apply simulates_when
      | |- simulates _ _ (call _) _ => apply simulates_call
      | |- fn_simulates _ (body _) _ => apply fn_simulates_body
      | |- simulates _ _ (bind _ _) _ => eapply simulates_bind
      | |- simulates _ _ (modify _) _ => apply simulates_modify
      | |- simulates _ _ (gets _) _ => apply (simulates_gets _ eq)
      | |- forall _ _, _ -> simulates _ _ _ _ =>
          let a := fresh "a" in
          let b := fresh "b" in
          let H := fresh "H" in
          intros a b H; try subst b
      | |- simulates _ _ (if ?c then _ else _) (if ?c then _ else _) =>
          destruct c
      | |- simulates _ _ (match ?x with _ => _ end)
                         (match ?x with _ => _ end) =>
          destruct x eqn:?
      end ].

(** ** Where a block leaves, and in which state

    [N a s s'] is to hold when the block, started in [s], runs to its end
    with the value [a] in the state [s']; [E r s s'] when it returns [r]
    from the function in the state [s']. *)
Section Runs.
Context {world : Type}.

Definition runs {A} (N : A -> world -> world -> Prop)
    (E : wimlib_error_code -> world -> world -> Prop)
    (m : @block world A) : Prop :=
  forall s, match fst (m s) with
            | Normal a => N a s (snd (m s))
            | Returned r => E r s (snd (m s))
            end.

Definition fn_runs (Q : wimlib_error_code -> world -> world -> Prop)
    (f : @fn world) : Prop :=
  forall s, Q (fst (f s)) s (snd (f s)).

Lemma runs_bind {A B} (N1 : A -> world -> world -> Prop)
    (E1 : wimlib_error_code -> world -> world -> Prop)
    (N2 : A -> B -> world -> world -> Prop)
    (E2 : A -> wimlib_error_code -> world -> world -> Prop)
    (N : B -> world -> world -> Prop)
    (E : wimlib_error_code -> world -> world -> Prop)
    (m : block A) (k : A -> block B) :
  runs N1 E1 m ->
  (forall a, runs (N2 a) (E2 a) (k a)) ->
  (forall a b s s1 s2, N1 a s s1 -> N2 a b s1 s2 -> N b s s2) ->
  (forall r s s1, E1 r s s1 -> E r s s1) ->
  (forall a r s s1 s2, N1 a s s1 -> E2 a r s1 s2 -> E r s s2) ->
  runs N E (bind m k).
Proof.
  intros Hm Hk HN HE1 HE2 s. unfold bind. specialize (Hm s).
  destruct (m s) as [[a | r] s1]; cbn [fst snd] in *.
  - specialize (Hk a s1).
    destruct (k a s1) as [[b | r] s2]; cbn [fst snd] in *.
    + eapply HN; eassumption.
    + eapply HE2; eassumption.
  - apply HE1, Hm.
Qed.

Lemma runs_weaken {A} (N N' : A -> world -> world -> Prop)
    (E E' : wimlib_error_code -> world -> world -> Prop) (m : block A) :
  runs N E m ->
  (forall a s s', N a s s' -> N' a s s') ->
  (forall r s s', E r s s' -> E' r s s') ->
  runs N' E' m.
Proof.
  intros Hm HN HE s. specialize (Hm s).
  destruct (fst (m s)); [apply HN | apply HE]; exact Hm.
Qed.

Lemma runs_body (Q : wimlib_error_code -> world -> world -> Prop)
    (m : block wimlib_error_code) :
  runs Q Q m -> fn_runs Q (body m).
Proof.
  intros Hm s. unfold body. specialize (Hm s).
  destruct (m s) as [[r | r] s1]; exact Hm.
Qed.

(** *** Steps under one relation

    The steps of a block all keep the relation [R] between the state
    before and the state after; a [return] is to leave the function in a
    state [E] relates to the one the block started in, and [E] takes steps
    of [R] before it. *)
Section Steps.
Variable R : world -> world -> Prop.
Variable E : wimlib_error_code -> world -> world -> Prop.
Hypothesis R_refl : forall s, R s s.
Hypothesis R_trans : forall a b c, R a b -> R b c -> R a c.
Hypothesis R_E : forall r a b c, R a b -> E r b c -> E r a c.

Definition steps {A} (m : @block world A) : Prop :=
  runs (fun _ => R) E m.

Lemma steps_bind {A B} (m : block A) (k : A -> block B) :
  steps m -> (forall a, steps (k a)) -> steps (bind m k).
Proof.
  intros Hm Hk.
  apply (runs_bind (fun _ => R) E (fun _ _ => R) (fun _ => E) _ _ m k Hm Hk).
  - intros _ _ a b c. apply R_trans.
  - intros r a b H. exact H.
  - intros _ r a b c. apply R_E.
Qed.

Lemma steps_pure {A} (a : A) : steps (pure a).
Proof. intros s. apply R_refl. Qed.

Lemma steps_gets {A} (f : world -> A) : steps (gets f).
Proof. intros s. apply R_refl. Qed.

Lemma steps_modify (f : world -> world) :
  (forall s, R s (f s)) -> steps (modify f).
Proof. intros H s. apply H. Qed.

Lemma steps_Return {A} (r : wimlib_error_code) :
  (forall s, E r s s) -> steps (@Return world A r).
Proof. intros H s. apply H. Qed.

Lemma steps_when (b : bool) (m : block unit) : steps m -> steps (when b m).
Proof. intros H. destruct b; [exact H | apply steps_pure]. Qed.

Lemma steps_call (f : fn) : fn_respects R f -> steps (call f).
Proof.
  intros H s. unfold call. specialize (H s). destruct (f s). exact H.
Qed.

Lemma steps_respects {A} (m : block A) :
  respects R m -> (forall r s s', R s s' -> E r s s') -> steps m.
Proof.
  intros Hm HE s. specialize (Hm s).
  destruct (fst (m s)); [exact Hm | apply HE, Hm].
Qed.
End Steps.
End Runs.

(** Splits a goal [steps R E m] along the structure of [m]; [refl], [trans]
    and [absorb] are the three facts about [R] and [E], [leaf] is tried on
    the steps first. *)
Ltac steps_split refl trans absorb leaf :=
  repeat first
    [ leaf
    | match goal with
      | |- steps _ _ (pure _) => apply (steps_pure _ _ refl)
      | |- steps _ _ (gets _) => apply (steps_gets _ _ refl)
      | |- steps _ _ (when _ _) => apply (steps_when _ _ refl)
      | |- steps _ _ (call _) => apply steps_call
      | |- steps _ _ (bind _ _) =>
          apply (steps_bind _ _ trans absorb); [| intros ?]
      | |- steps _ _ (modify _) => apply steps_modify
      | |- steps _ _ (Return _) => apply steps_Return
      | |- steps _ _ (if ?c then _ else _) => destruct c eqn:?
      | |- steps _ _ (match ?x with _ => _ end) => destruct x eqn:?
      end ].

(** *** Blocks that do not run to their end

    A block that ends in a [goto] or a [return] on every path leaves the
    function; only the state it leaves in matters. *)
Section Leaving.
Context {world : Type}.
Variable R : world -> world -> Prop.
Variable E : wimlib_error_code -> world -> world -> Prop.
Hypothesis R_E : forall r a b c, R a b -> E r b c -> E r a c.

Definition leaving {A} (m : @block world A) : Prop :=
  runs (fun _ _ _ => False) E m.

Lemma leaving_bind {A B} (m : block A) (k : A -> block B) :
  steps R E m -> (forall a, leaving (k a)) -> leaving (bind m k).
Proof.
  intros Hm Hk.
  apply (runs_bind (fun _ => R) E (fun _ _ _ _ => False) (fun _ => E)
           _ _ m k Hm Hk).
  - intros _ _ a b c _ [].
  - intros r a b H. exact H.
  - intros _ r a b c. apply R_E.
Qed.

Lemma leaving_steps {A} (m : block A) : leaving m -> steps R E m.
Proof.
  intros H. apply (runs_weaken _ _ _ _ m H).
  - intros _ a b [].
  - intros r a b He. exact He.
Qed.

Lemma leaving_Return {A} (r : wimlib_error_code) :
  (forall s, E r s s) -> leaving (@Return world A r).
Proof. intros H s. apply H. Qed.

Lemma leaving_body (m : block wimlib_error_code) :
  leaving m -> fn_runs E (body m).
Proof.
  intros Hm s. unfold body. specialize (Hm s).
  destruct (m s) as [[r | r] s1]; cbn [fst snd] in *;
    [contradiction | exact Hm].
Qed.

(** A block that never returns is a step as soon as it keeps [R]. *)
Lemma steps_normal {A} (m : block A) :
  respects R m -> (forall s, exists a, fst (m s) = Normal a) -> steps R E m.
Proof.
  intros Hm Hn s. specialize (Hm s). destruct (Hn s) as [a Ha].
  rewrite Ha. exact Hm.
Qed.
End Leaving.

Lemma leaving_weaken {world A}
    (E E' : wimlib_error_code -> world -> world -> Prop)
    (m : @block world A) :
  leaving E m -> (forall r s s', E r s s' -> E' r s s') -> leaving E' m.
Proof.
  intros H HE. apply (runs_weaken _ _ _ _ m H).
  - intros _ a b [].
  - exact HE.
Qed.

(** * write.c *)
Module WimWrite.

(** [struct resource_entry]: where a resource lies in the archive. *)
Record resource_entry : Type := {
re_size : Z;
re_flags : Z;
re_offset : Z;
re_original_size : Z }.

(** What [memset(&entry, 0, sizeof(struct resource_entry))] leaves. *)
Definition zero_resource_entry : resource_entry :=
{| re_size := 0; re_flags := 0; re_offset := 0; re_original_size := 0 |}.

(** [struct wim_header], the fields the two files read or write. *)
Record wim_header : Type := {
hdr_flags : Z;
image_count : Z;
boot_idx : Z;
lookup_table_res_entry : resource_entry;
xml_res_entry : resource_entry;
boot_metadata_res_entry : resource_entry;
integrity : resource_entry }.

Record wim_lookup_table_entry : Type := {
output_resource_entry : resource_entry }.

(** One element of the array [w->image_metadata]. *)
Record struct_image_metadata : Type := {
lookup_table_entry : wim_lookup_table_entry }.

(** A [FILE *]: [None] is the null pointer, [Some p] a stream opened on
  the path [p]. *)
Definition FILE : Type := option string.

(** What a call wrote through a stream. *)
Inductive written : Type :=
| W_header (h : wim_header)
| W_lookup_table
| W_xml_data (image total_bytes : Z)
| W_integrity_table (start end_ show_progress : Z)
| W_file_resources (image : Z)
| W_metadata_resource (image : Z).

(** The calls that reach the file system, and the messages, in the order
  the code makes them. *)
Inductive sys_event : Type :=
| Ev_fopen (path mode : string) (ok : bool)
| Ev_write (f : FILE) (what : written) (ret : wimlib_error_code)
| Ev_fseeko (f : FILE) (off : Z) (ret : Z)
| Ev_fclose (f : FILE) (ret : Z)
| Ev_rename (old new : string) (ret : Z)
| Ev_unlink (path : string) (ret : Z)
| Ev_message (level : msg_level) (text : string).

(** ** The files on disk

  A disk maps a path to the contents of the file there, the contents being
  what was written to it, in order.  [fs_step] is the effect of one call on
  the disk: opening for writing creates or empties the file, a write
  through a stream lands in the file the stream was opened on, a successful
  [rename] moves a file over another, a successful [unlink] removes it. *)
Definition disk : Type := string -> option (list written).

Definition disk_set (p : string) (v : option (list written)) (d : disk) : disk :=
fun q => if String.eqb q p then v else d q.

Definition truncating (mode : string) : bool :=
String.eqb mode "wb" || String.eqb mode "w+b".

Definition fs_step (d : disk) (e : sys_event) : disk :=
match e with
| Ev_fopen p mode true =>
    if truncating mode then disk_set p (Some []) d else d
| Ev_write (Some p) what _ =>
    disk_set p (Some (match d p with
                      | Some c => c ++ [what]
                      | None => [what]
                      end)) d
| Ev_rename old new r =>
    if r =? 0 then disk_set old None (disk_set new (d old) d) else d
| Ev_unlink p r =>
    if r =? 0 then disk_set p None d else d
| _ => d
end.

Definition fs_replay (evs : list sys_event) (d : disk) : disk :=
fold_left fs_step evs d.

(** The event leaves every file other than [p] as it is. *)
Definition touches_only (p : string) (e : sys_event) : Prop :=
match e with
| Ev_fopen q _ _ => q = p
| Ev_write f _ _ => f = Some p \/ f = None
| Ev_fseeko _ _ _ | Ev_fclose _ _ | Ev_message _ _ => True
| Ev_rename _ _ _ | Ev_unlink _ _ => False
end.

(** The event is a write, a seek or a close on the stream [f], or a
  message. *)
Definition on_stream (f : FILE) (e : sys_event) : Prop :=
match e with
| Ev_write g _ _ | Ev_fseeko g _ _ | Ev_fclose g _ => g = f
| Ev_message _ _ => True
| Ev_fopen _ _ _ | Ev_rename _ _ _ | Ev_unlink _ _ => False
end.

Definition is_rename (e : sys_event) : Prop :=
match e with Ev_rename _ _ _ => True | _ => False end.

Definition is_alnum (c : ascii) : bool :=
let n := nat_of_ascii c in
((48 <=? n) && (n <=? 57) || (65 <=? n) && (n <=? 90)
 || (97 <=? n) && (n <=? 122))%nat.

Section Model.
(** The lookup table, the XML information and the state of everything
    outside the library (file positions, the disk, the random source)
    are opaque here. *)
Variables (lookup_table_t wim_info_t ext_state : Type).

Record WIMStruct : Type := {
  filename : option string;
  fp : FILE;
  out_fp : FILE;
  hdr : wim_header;
  image_metadata : option (list struct_image_metadata);
  lookup_table : lookup_table_t;
  wim_info : wim_info_t;
  current_image : Z }.

Definition set_fp (f : FILE) (w : WIMStruct) : WIMStruct :=
  {| filename := filename w; fp := f; out_fp := out_fp w; hdr := hdr w;
     image_metadata := image_metadata w; lookup_table := lookup_table w;
     wim_info := wim_info w; current_image := current_image w |}.
Definition set_out_fp (f : FILE) (w : WIMStruct) : WIMStruct :=
  {| filename := filename w; fp := fp w; out_fp := f; hdr := hdr w;
     image_metadata := image_metadata w; lookup_table := lookup_table w;
     wim_info := wim_info w; current_image := current_image w |}.
Definition set_lookup_table (t : lookup_table_t) (w : WIMStruct) : WIMStruct :=
  {| filename := filename w; fp := fp w; out_fp := out_fp w; hdr := hdr w;
     image_metadata := image_metadata w; lookup_table := t;
     wim_info := wim_info w; current_image := current_image w |}.
Definition set_image_metadata (m : option (list struct_image_metadata))
    (w : WIMStruct) : WIMStruct :=
  {| filename := filename w; fp := fp w; out_fp := out_fp w; hdr := hdr w;
     image_metadata := m; lookup_table := lookup_table w;
     wim_info := wim_info w; current_image := current_image w |}.
Definition set_current_image (i : Z) (w : WIMStruct) : WIMStruct :=
  {| filename := filename w; fp := fp w; out_fp := out_fp w; hdr := hdr w;
     image_metadata := image_metadata w; lookup_table := lookup_table w;
     wim_info := wim_info w; current_image := i |}.

(** Constants of the headers and functions of other files and of libc.
    A function returns its result and the new outside state. *)
Record externals : Type := {
  WIM_ALL_IMAGES : Z;
  WIM_HEADER_DISK_SIZE : Z;
  WIM_RESHDR_FLAG_METADATA : Z;
  WIMLIB_WRITE_FLAG_CHECK_INTEGRITY : Z;
  WIMLIB_WRITE_FLAG_SHOW_PROGRESS : Z;
  x_ftello : FILE -> ext_state -> Z;
  x_fseeko : FILE -> Z -> ext_state -> Z * ext_state;
  x_fopen : string -> string -> ext_state -> bool * ext_state;
  x_fclose : FILE -> ext_state -> Z * ext_state;
  x_rename : string -> string -> ext_state -> Z * ext_state;
  x_unlink : string -> ext_state -> Z * ext_state;
  x_rand : ext_state -> Z * ext_state;
  x_write_header :
    wim_header -> FILE -> ext_state -> wimlib_error_code * ext_state;
  x_write_lookup_table :
    lookup_table_t -> FILE -> ext_state -> wimlib_error_code * ext_state;
  x_write_xml_data :
    wim_info_t -> Z -> FILE -> Z -> ext_state ->
    wimlib_error_code * ext_state;
  x_write_integrity_table :
    FILE -> Z -> Z -> Z -> ext_state -> wimlib_error_code * ext_state;
  wim_info_get_total_bytes : wim_info_t -> Z;
  x_zero_out_refcnts : lookup_table_t -> lookup_table_t;
  x_wimlib_select_image :
    WIMStruct -> Z -> ext_state -> wimlib_error_code * ext_state;
  (** [for_dentry_in_tree(wim_root_dentry(w), write_file_resource, w)]:
      the streams go out through [w->out_fp], the entries of the lookup
      table receive their new places. *)
  x_write_file_resource_tree :
    WIMStruct -> ext_state ->
    wimlib_error_code * lookup_table_t * ext_state;
  x_write_metadata_resource :
    WIMStruct -> ext_state ->
    wimlib_error_code * option (list struct_image_metadata) *
    lookup_table_t * ext_state }.

Variable X : externals.

Record world : Type := {
  wim : WIMStruct;
  ext : ext_state;
  trace : list sys_event }.

Definition with_wim (f : WIMStruct -> WIMStruct) (s : world) : world :=
  {| wim := f (wim s); ext := ext s; trace := trace s |}.
Definition log (e : sys_event) (s : world) : world :=
  {| wim := wim s; ext := ext s; trace := trace s ++ [e] |}.
Definition with_ext (e : ext_state) (s : world) : world :=
  {| wim := wim s; ext := e; trace := trace s |}.

Definition ERROR (text : string) : block unit :=
  modify (log (Ev_message LVL_ERROR text)).
Definition WARNING (text : string) : block unit :=
  modify (log (Ev_message LVL_WARNING text)).

(** *** The external calls, each leaving its event in the trace *)

Definition ftello (f : FILE) : block Z :=
  gets (fun s => x_ftello X f (ext s)).

Definition fseeko (f : FILE) (off : Z) : block Z :=
  fun s => let (r, e) := x_fseeko X f off (ext s) in
           (Normal r, log (Ev_fseeko f off r) (with_ext e s)).

Definition fopen (path mode : string) : block FILE :=
  fun s => let (ok, e) := x_fopen X path mode (ext s) in
           (Normal (if ok then Some path else None),
            log (Ev_fopen path mode ok) (with_ext e s)).

Definition fclose (f : FILE) : block Z :=
  fun s => let (r, e) := x_fclose X f (ext s) in
           (Normal r, log (Ev_fclose f r) (with_ext e s)).

Definition rename (old new : string) : block Z :=
  fun s => let (r, e) := x_rename X old new (ext s) in
           (Normal r, log (Ev_rename old new r) (with_ext e s)).

Definition unlink (path : string) : block Z :=
  fun s => let (r, e) := x_unlink X path (ext s) in
           (Normal r, log (Ev_unlink path r) (with_ext e s)).

Definition write_header (h : wim_header) (out : FILE)
  : block wimlib_error_code :=
  fun s => let (r, e) := x_write_header X h out (ext s) in
           (Normal r, log (Ev_write out (W_header h) r) (with_ext e s)).

Definition write_lookup_table (t : lookup_table_t) (out : FILE)
  : block wimlib_error_code :=
  fun s => let (r, e) := x_write_lookup_table X t out (ext s) in
           (Normal r, log (Ev_write out W_lookup_table r) (with_ext e s)).

Definition write_xml_data (info : wim_info_t) (image : Z) (out : FILE)
    (total_bytes : Z) : block wimlib_error_code :=
  fun s => let (r, e) := x_write_xml_data X info image out total_bytes (ext s) in
           (Normal r,
            log (Ev_write out (W_xml_data image total_bytes) r) (with_ext e s)).

Definition write_integrity_table (out : FILE) (start end_ show_progress : Z)
  : block wimlib_error_code :=
  fun s => let (r, e) :=
             x_write_integrity_table X out start end_ show_progress (ext s) in
           (Normal r,
            log (Ev_write out (W_integrity_table start end_ show_progress) r)
                (with_ext e s)).

Definition wimlib_select_image (i : Z) : block wimlib_error_code :=
  fun s => let (r, e) := x_wimlib_select_image X (wim s) i (ext s) in
           (Normal r,
            with_wim (if is_error r then (fun w => w) else set_current_image i)
                     (with_ext e s)).

Definition write_metadata_resource : fn :=
  fun s => match x_write_metadata_resource X (wim s) (ext s) with
           | (r, m, t, e) =>
             (r, log (Ev_write (out_fp (wim s))
                               (W_metadata_resource (current_image (wim s))) r)
                     (with_wim (fun w => set_image_metadata m
                                           (set_lookup_table t w))
                               (with_ext e s)))
           end.

(** *** [write_file_resources] (write.c 247-252) *)
Definition write_file_resources : fn :=
  fun s => match x_write_file_resource_tree X (wim s) (ext s) with
           | (r, t, e) =>
             (r, log (Ev_write (out_fp (wim s))
                               (W_file_resources (current_image (wim s))) r)
                     (with_wim (set_lookup_table t) (with_ext e s)))
           end.

Definition nonzero (z : Z) : bool := negb (z =? 0).

(** Assignments to the fields of the local [struct wim_header hdr]. *)
Definition set_re_offset (v : Z) (e : resource_entry) : resource_entry :=
  {| re_size := re_size e; re_flags := re_flags e; re_offset := v;
     re_original_size := re_original_size e |}.
Definition set_re_size (v : Z) (e : resource_entry) : resource_entry :=
  {| re_size := v; re_flags := re_flags e; re_offset := re_offset e;
     re_original_size := re_original_size e |}.
Definition set_re_original_size (v : Z) (e : resource_entry) : resource_entry :=
  {| re_size := re_size e; re_flags := re_flags e; re_offset := re_offset e;
     re_original_size := v |}.
Definition set_re_flags (v : Z) (e : resource_entry) : resource_entry :=
  {| re_size := re_size e; re_flags := v; re_offset := re_offset e;
     re_original_size := re_original_size e |}.

Definition upd_lookup_table_res_entry (f : resource_entry -> resource_entry)
    (h : wim_header) : wim_header :=
  {| hdr_flags := hdr_flags h; image_count := image_count h;
     boot_idx := boot_idx h;
     lookup_table_res_entry := f (lookup_table_res_entry h);
     xml_res_entry := xml_res_entry h;
     boot_metadata_res_entry := boot_metadata_res_entry h;
     integrity := integrity h |}.
Definition upd_xml_res_entry (f : resource_entry -> resource_entry)
    (h : wim_header) : wim_header :=
  {| hdr_flags := hdr_flags h; image_count := image_count h;
     boot_idx := boot_idx h;
     lookup_table_res_entry := lookup_table_res_entry h;
     xml_res_entry := f (xml_res_entry h);
     boot_metadata_res_entry := boot_metadata_res_entry h;
     integrity := integrity h |}.
Definition upd_integrity (f : resource_entry -> resource_entry)
    (h : wim_header) : wim_header :=
  {| hdr_flags := hdr_flags h; image_count := image_count h;
     boot_idx := boot_idx h;
     lookup_table_res_entry := lookup_table_res_entry h;
     xml_res_entry := xml_res_entry h;
     boot_metadata_res_entry := boot_metadata_res_entry h;
     integrity := f (integrity h) |}.
Definition set_boot_metadata_res_entry (e : resource_entry)
    (h : wim_header) : wim_header :=
  {| hdr_flags := hdr_flags h; image_count := image_count h;
     boot_idx := boot_idx h;
     lookup_table_res_entry := lookup_table_res_entry h;
     xml_res_entry := xml_res_entry h;
     boot_metadata_res_entry := e;
     integrity := integrity h |}.
Definition set_image_count (v : Z) (h : wim_header) : wim_header :=
  {| hdr_flags := hdr_flags h; image_count := v; boot_idx := boot_idx h;
     lookup_table_res_entry := lookup_table_res_entry h;
     xml_res_entry := xml_res_entry h;
     boot_metadata_res_entry := boot_metadata_res_entry h;
     integrity := integrity h |}.
Definition set_boot_idx (v : Z) (h : wim_header) : wim_header :=
  {| hdr_flags := hdr_flags h; image_count := image_count h; boot_idx := v;
     lookup_table_res_entry := lookup_table_res_entry h;
     xml_res_entry := xml_res_entry h;
     boot_metadata_res_entry := boot_metadata_res_entry h;
     integrity := integrity h |}.

(** [w->image_metadata[i].lookup_table_entry->output_resource_entry].
    The array has no element [i] when [i] is out of its bounds or the
    pointer is null; C leaves that read undefined, here it yields the zero
    entry. *)
Definition image_metadata_output_entry (w : WIMStruct) (i : Z)
  : resource_entry :=
  match image_metadata w with
  | Some arr =>
      if i <? 0 then zero_resource_entry
      else match nth_error arr (Z.to_nat i) with
           | Some im => output_resource_entry (lookup_table_entry im)
           | None => zero_resource_entry
           end
  | None => zero_resource_entry
  end.

Definition is_null {A} (p : option A) : bool :=
  match p with None => true | Some _ => false end.

(** *** [finish_write] (write.c 258-372)

    [image] and [hdr.boot_idx] are compared as integers, which is what C
    does for the image numbers 1, 2, ... *)
Definition finish_write (image flags write_lt : Z) : fn :=
  body (
    out <- gets (fun s => out_fp (wim s)) ;;
    lookup_table_offset <-
      (if nonzero write_lt then
         lookup_table_offset <- ftello out ;;
         when (lookup_table_offset =? -1) (Return WIMLIB_ERR_WRITE) ;;
         t <- gets (fun s => lookup_table (wim s)) ;;
         ret <- write_lookup_table t out ;;
         when (is_error ret) (Return ret) ;;
         pure lookup_table_offset
       else
         (* not initialised in C, and not read below *)
         pure 0) ;;
    xml_data_offset <- ftello out ;;
    when (xml_data_offset =? -1) (Return WIMLIB_ERR_WRITE) ;;
    (* memcpy(&hdr, &w->hdr, sizeof(struct wim_header)) *)
    hdr0 <- gets (fun s => hdr (wim s)) ;;
    let hdr1 :=
      if nonzero write_lt then
        let lookup_table_size := xml_data_offset - lookup_table_offset in
        upd_lookup_table_res_entry
          (fun e => set_re_size lookup_table_size
                      (set_re_offset lookup_table_offset e)) hdr0
      else hdr0 in
    let hdr2 :=
      upd_lookup_table_res_entry
        (fun e => set_re_flags (WIM_RESHDR_FLAG_METADATA X)
                    (set_re_original_size (re_size e) e)) hdr1 in
    info <- gets (fun s => wim_info (wim s)) ;;
    ret <- write_xml_data info image out
             (if nonzero write_lt then 0
              else wim_info_get_total_bytes X info) ;;
    when (is_error ret) (Return ret) ;;
    integrity_offset <- ftello out ;;
    when (integrity_offset =? -1) (Return WIMLIB_ERR_WRITE) ;;
    let xml_data_size := integrity_offset - xml_data_offset in
    let hdr3 :=
      upd_xml_res_entry
        (fun e => set_re_flags 0
                    (set_re_original_size xml_data_size
                       (set_re_size xml_data_size
                          (set_re_offset xml_data_offset e)))) hdr2 in
    hdr4 <-
      (if nonzero (Z.land flags (WIMLIB_WRITE_FLAG_CHECK_INTEGRITY X)) then
         ret <- write_integrity_table out (WIM_HEADER_DISK_SIZE X)
                  xml_data_offset
                  (Z.land flags (WIMLIB_WRITE_FLAG_SHOW_PROGRESS X)) ;;
         when (is_error ret) (Return ret) ;;
         end_offset <- ftello out ;;
         when (end_offset =? -1) (Return WIMLIB_ERR_WRITE) ;;
         let integrity_size := end_offset - integrity_offset in
         pure (upd_integrity
                 (fun e => set_re_original_size integrity_size
                             (set_re_size integrity_size
                                (set_re_offset integrity_offset e))) hdr3)
       else
         pure (upd_integrity
                 (fun e => set_re_original_size 0
                             (set_re_size 0 (set_re_offset 0 e))) hdr3)) ;;
    let hdr5 := upd_integrity (set_re_flags 0) hdr4 in
    w <- gets wim ;;
    let hdr6 :=
      if (boot_idx hdr5 =? 0) || is_null (image_metadata w)
         || (negb (image =? WIM_ALL_IMAGES X)
             && negb (image =? boot_idx hdr5))
      then set_boot_metadata_res_entry zero_resource_entry hdr5
      else set_boot_metadata_res_entry
             (image_metadata_output_entry w (boot_idx hdr5 - 1)) hdr5 in
    (* Set image count and boot index correctly for single image writes *)
    let hdr7 :=
      if negb (image =? WIM_ALL_IMAGES X) then
        let h := set_image_count 1 hdr6 in
        if boot_idx h =? image then set_boot_idx 1 h else set_boot_idx 0 h
      else hdr6 in
    r <- fseeko out 0 ;;
    when (nonzero r) (Return WIMLIB_ERR_WRITE) ;;
    write_header hdr7 out).

(** *** [begin_write] (write.c 375-397) *)
Definition begin_write (path : string) (flags : Z) : fn :=
  body (
    let mode :=
      if nonzero (Z.land flags (WIMLIB_WRITE_FLAG_CHECK_INTEGRITY X))
      then "w+b"%string else "wb"%string in
    f <- fopen path mode ;;
    modify (with_wim (set_out_fp f)) ;;
    (if is_null f then
       ERROR "Failed to open the file for writing!" ;;
       Return WIMLIB_ERR_OPEN
     else pure tt) ;;
    h <- gets (fun s => hdr (wim s)) ;;
    write_header h f).

(** Modelled from the spec: [for_image] (wim.c, not under src/) applies the
    visitor to the selected image(s), one image or all of them in index
    order, each selected first; the first failure ends the walk. *)
Fixpoint for_each_image (visitor : fn) (images : list Z) : fn :=
  match images with
  | [] => fun s => (WIMLIB_ERR_SUCCESS, s)
  | i :: rest =>
      body (
        ret <- wimlib_select_image i ;;
        when (is_error ret) (Return ret) ;;
        ret <- call visitor ;;
        when (is_error ret) (Return ret) ;;
        call (for_each_image visitor rest))
  end.

Definition for_image (image : Z) (visitor : fn) : fn :=
  body (
    n <- gets (fun s => image_count (hdr (wim s))) ;;
    if image =? WIM_ALL_IMAGES X then
      call (for_each_image visitor (map Z.of_nat (seq 1 (Z.to_nat n))))
    else if (image <? 1) || (image >? n) then
      Return WIMLIB_ERR_INVALID_IMAGE
    else call (for_each_image visitor [image])).

(** *** [wimlib_write] (write.c 400-444)

    [wimlib_write_steps] is the part of the function between the check of
    the image number and the label [done]: each [goto done] leaves it with
    the value [ret] has then. *)
Definition wimlib_write_steps (path : string) (image flags : Z) : fn :=
  body (
    ret <- call (begin_write path flags) ;;
    when (is_error ret) (Return ret) ;;
    modify (with_wim (fun w =>
              set_lookup_table (x_zero_out_refcnts X (lookup_table w)) w)) ;;
    ret <- call (for_image image write_file_resources) ;;
    (if is_error ret then
       ERROR "Failed to write file resources!" ;; Return ret
     else pure tt) ;;
    ret <- call (for_image image write_metadata_resource) ;;
    (if is_error ret then
       ERROR "Failed to write image metadata!" ;; Return ret
     else pure tt) ;;
    call (finish_write image flags 1)).

Definition wimlib_write (path : string) (image flags : Z) : fn :=
  body (
    n <- gets (fun s => image_count (hdr (wim s))) ;;
    (if negb (image =? WIM_ALL_IMAGES X) && ((image <? 1) || (image >? n))
     then Return WIMLIB_ERR_INVALID_IMAGE else pure tt) ;;
    ret <- call (wimlib_write_steps path image flags) ;;
    (* done: *)
    out <- gets (fun s => out_fp (wim s)) ;;
    if is_null out then pure ret
    else
      r <- fclose out ;;
      ret' <- (if nonzero r then
                 ERROR "Failed to close the file" ;; pure WIMLIB_ERR_WRITE
               else pure ret) ;;
      modify (with_wim (set_out_fp None)) ;;
      pure ret').

Definition alnum_chars : list ascii :=
  list_ascii_of_string
    "0123456789ABCDEFGHIJKLMNOPQRSTUVWXYZabcdefghijklmnopqrstuvwxyz".

(** Modelled from the spec: [randomize_char_array_with_alnum] (util.c, not
    under src/) fills [n] characters, each drawn from [0-9A-Za-z] with the
    C library's random source. *)
Fixpoint randomize_char_array_with_alnum (n : nat) : block (list ascii) :=
  match n with
  | O => pure []
  | S k =>
      c <- (fun s => let (r, e) := x_rand X (ext s) in
                     (Normal (nth (Z.to_nat (r mod 62)) alnum_chars "0"%char),
                      with_ext e s)) ;;
      cs <- randomize_char_array_with_alnum k ;;
      pure (c :: cs)
  end.

(** *** [wimlib_overwrite] (write.c 57-107) *)
Definition wimlib_overwrite (flags : Z) : fn :=
  body (
    wimfile_name <- gets (fun s => filename (wim s)) ;;
    match wimfile_name with
    | None => Return WIMLIB_ERR_NO_FILENAME
    | Some wimfile_name =>
        (* Write the WIM to a temporary file. *)
        suffix <- randomize_char_array_with_alnum 9 ;;
        let tmpfile :=
          (wimfile_name ++ string_of_list_ascii suffix)%string in
        ret <- call (wimlib_write tmpfile (WIM_ALL_IMAGES X) flags) ;;
        (if is_error ret then
           ERROR "Failed to write the WIM file" ;; Return ret
         else pure tt) ;;
        (* Close the original WIM file that was opened for reading. *)
        f <- gets (fun s => fp (wim s)) ;;
        (if is_null f then pure tt
         else
           r <- fclose f ;;
           when (nonzero r) (WARNING "Failed to close the file") ;;
           modify (with_wim (set_fp None))) ;;
        (* Rename the new file to the old file. *)
        r <- rename tmpfile wimfile_name ;;
        if nonzero r then
          ERROR "Failed to rename" ;;
          (* Remove temporary file. *)
          u <- unlink tmpfile ;;
          when (nonzero u) (ERROR "Failed to remove") ;;
          Return WIMLIB_ERR_RENAME
        else pure WIMLIB_ERR_SUCCESS
    end).

(** ** Properties of [finish_write] *)

Lemma is_error_false (r : wimlib_error_code) :
  is_error r = false -> r = WIMLIB_ERR_SUCCESS.
Proof. destruct r; simpl; congruence. Qed.

Lemma nonzero_true (z : Z) : z <> 0 -> nonzero z = true.
Proof. intros H. unfold nonzero. apply negb_true_iff, Z.eqb_neq, H. Qed.

Lemma nonzero_false (z : Z) : nonzero z = false -> z = 0.
Proof.
  unfold nonzero. intros H. apply negb_false_iff, Z.eqb_eq in H. exact H.
Qed.

Ltac header_event H :=
  simpl in H;
  repeat match type of H with
         | _ \/ _ => destruct H as [H | H]
         end;
  try discriminate H; try contradiction.

(** C2: when [finish_write] writes the lookup table ([write_lt] is not
    zero, as in [wimlib_write]), a call that returns success has written
    the lookup table, then the XML data, and last of all a header, each
    with success; and every header the function writes records, for the
    lookup table, the position [ftello] gave immediately before the lookup
    table was written and, as its size, the XML offset minus that position;
    for the XML data, the position before the XML write and the bytes that
    write advanced the file by; and, with [CHECK_INTEGRITY], for the
    integrity table the position before the integrity write, the table
    having been computed over [WIM_HEADER_DISK_SIZE, xml_data_offset). *)
Theorem finish_write_records_positions
    (image flags write_lt : Z) (s : world) :
  let run := finish_write image flags write_lt s in
  let out := out_fp (wim s) in
  write_lt <> 0 ->
  exists evs,
    trace (snd run) = trace s ++ evs /\
    (fst run = WIMLIB_ERR_SUCCESS ->
     exists h mid,
       evs = Ev_write out W_lookup_table WIMLIB_ERR_SUCCESS
             :: Ev_write out (W_xml_data image 0) WIMLIB_ERR_SUCCESS
             :: mid ++ [Ev_write out (W_header h) WIMLIB_ERR_SUCCESS]) /\
    forall f h rh,
      In (Ev_write f (W_header h) rh) evs ->
      exists e1 e2,
        x_write_lookup_table X (lookup_table (wim s)) out (ext s)
          = (WIMLIB_ERR_SUCCESS, e1) /\
        x_write_xml_data X (wim_info (wim s)) image out 0 e1
          = (WIMLIB_ERR_SUCCESS, e2) /\
        re_offset (lookup_table_res_entry h) = x_ftello X out (ext s) /\
        re_size (lookup_table_res_entry h)
          = x_ftello X out e1 - x_ftello X out (ext s) /\
        re_offset (xml_res_entry h) = x_ftello X out e1 /\
        re_size (xml_res_entry h) = x_ftello X out e2 - x_ftello X out e1 /\
        (Z.land flags (WIMLIB_WRITE_FLAG_CHECK_INTEGRITY X) <> 0 ->
         re_offset (integrity h) = x_ftello X out e2 /\
         exists e3,
           x_write_integrity_table X out (WIM_HEADER_DISK_SIZE X)
             (x_ftello X out e1)
             (Z.land flags (WIMLIB_WRITE_FLAG_SHOW_PROGRESS X)) e2
           = (WIMLIB_ERR_SUCCESS, e3) /\
           In (Ev_write out
                 (W_integrity_table (WIM_HEADER_DISK_SIZE X)
                    (x_ftello X out e1)
                    (Z.land flags (WIMLIB_WRITE_FLAG_SHOW_PROGRESS X)))
                 WIMLIB_ERR_SUCCESS) evs /\
           re_size (integrity h) = x_ftello X out e3 - x_ftello X out e2).
Proof.
  cbv zeta. intros Hlt.
  cbv [finish_write body bind when pure Return gets ftello
       write_lookup_table write_xml_data write_integrity_table fseeko
       write_header].
  rewrite (nonzero_true _ Hlt).
  repeat (simpl; run_step); simpl;
    rewrite <- ?app_assoc;
    (eexists; split;
     [first [reflexivity | symmetry; apply app_nil_r] |]);
    (split;
     [ intros Hok;
       try discriminate Hok;
       try (subst; match goal with
                   | H : is_error WIMLIB_ERR_SUCCESS = true |- _ =>
                       discriminate H
                   end);
       subst;
       repeat match goal with
              | H : is_error _ = false |- _ =>
                  apply is_error_false in H; subst
              end;
       eexists;
       first [ eexists [_]; reflexivity | eexists [_; _]; reflexivity ]
     | ]);
    intros f h rh Hin; header_event Hin;
    injection Hin as <- <- <-;
    repeat match goal with
           | H : is_error _ = false |- _ =>
               apply is_error_false in H; subst
           end;
    (do 2 eexists; repeat split; try eassumption; try reflexivity);
    try solve [ exfalso;
                match goal with
                | H : nonzero _ = false, H' : _ <> 0 |- _ =>
                    apply H', nonzero_false, H
                end ];
    (eexists; repeat split;
     first [eassumption | reflexivity | simpl; tauto]).
Qed.

(** C7, as the code has it: in a write of the single image [image] (a
    valid image number, so 1 or more), a call of [finish_write] that
    returns success has written a header, last of all and right after
    the seek to offset 0; and every header the function writes has
    [image_count = 1], has [boot_idx = 1] if [image] is the archive's
    bootable image and [0] otherwise, and has a boot-metadata entry that
    is all zero when the bootable image is not the one written or when
    the archive has no array of image metadata ([w->image_metadata] is
    null), and otherwise the output resource entry of the bootable
    image's metadata stream. *)
Theorem finish_write_single_image
    (image flags write_lt : Z) (s : world) :
  let run := finish_write image flags write_lt s in
  let out := out_fp (wim s) in
  image <> WIM_ALL_IMAGES X ->
  1 <= image ->
  exists evs,
    trace (snd run) = trace s ++ evs /\
    (fst run = WIMLIB_ERR_SUCCESS ->
     exists h before,
       evs = before ++ [Ev_fseeko out 0 0;
                        Ev_write out (W_header h) WIMLIB_ERR_SUCCESS]) /\
    forall f h rh,
      In (Ev_write f (W_header h) rh) evs ->
      image_count h = 1 /\
      boot_idx h = (if image =? boot_idx (hdr (wim s)) then 1 else 0) /\
      (image <> boot_idx (hdr (wim s)) ->
       boot_metadata_res_entry h = zero_resource_entry) /\
      (image_metadata (wim s) = None ->
       boot_metadata_res_entry h = zero_resource_entry) /\
      (image = boot_idx (hdr (wim s)) ->
       forall arr im,
         image_metadata (wim s) = Some arr ->
         nth_error arr (Z.to_nat (image - 1)) = Some im ->
         boot_metadata_res_entry h
         = output_resource_entry (lookup_table_entry im)).
Proof.
  cbv zeta. intros Hsingle Himage.
  cbv [finish_write body bind when pure Return gets ftello
       write_lookup_table write_xml_data write_integrity_table fseeko
       write_header].
  apply Z.eqb_neq in Hsingle.
  destruct (image_metadata (wim s)) as [arr0 |] eqn:Harr.
  all: repeat (simpl; rewrite ?Hsingle, ?Harr; run_step); simpl;
    rewrite <- ?app_assoc;
    (eexists; split;
     [first [reflexivity | symmetry; apply app_nil_r] |]);
    (split;
     [ intros Hok;
       try discriminate Hok;
       try (subst; match goal with
                   | H : is_error WIMLIB_ERR_SUCCESS = true |- _ =>
                       discriminate H
                   end);
       subst;
       repeat match goal with
              | H : nonzero _ = false |- _ =>
                  apply nonzero_false in H; subst
              end;
       eexists;
       first [ eexists []; reflexivity
             | eexists [_]; reflexivity
             | eexists [_; _]; reflexivity
             | eexists [_; _; _]; reflexivity ]
     | ]);
    intros f h rh Hin; header_event Hin;
    injection Hin as <- <- <-; simpl;
    repeat match goal with
           | H : (_ =? _) = true |- _ => apply Z.eqb_eq in H
           | H : (_ =? _) = false |- _ => apply Z.eqb_neq in H
           | H : context [negb true] |- _ => simpl negb in H
           | H : context [negb false] |- _ => simpl negb in H
           | H : context [_ || false] |- _ => rewrite orb_false_r in H
           | H : context [_ || true] |- _ => rewrite orb_true_r in H
           end;
    (repeat split;
     [ try lia; try congruence ..
     | intros Heq arr im Hsome Hnth ]);
    try (exfalso; lia); try (exfalso; congruence);
    try discriminate Hsome;
    injection Hsome as <-;
    unfold image_metadata_output_entry; rewrite Harr, <- Heq;
    (destruct (image - 1 <? 0) eqn:Hneg;
     [ apply Z.ltb_lt in Hneg; lia | rewrite Hnth; reflexivity ]).
Qed.

(** ** Properties of [wimlib_write] and [wimlib_overwrite] *)

(** From [s] to [s'] the output stream stayed the same and everything
    that happened went through it. *)
Definition stream_run (s s' : world) : Prop :=
  out_fp (wim s') = out_fp (wim s) /\
  exists evs, trace s' = trace s ++ evs /\
              Forall (on_stream (out_fp (wim s))) evs.

Lemma stream_run_refl (s : world) : stream_run s s.
Proof.
  split; [reflexivity |]. exists []. split; [symmetry; apply app_nil_r |].
  constructor.
Qed.

Lemma stream_run_trans (a b c : world) :
  stream_run a b -> stream_run b c -> stream_run a c.
Proof.
  intros [Hab [e1 [Ht1 Hf1]]] [Hbc [e2 [Ht2 Hf2]]].
  split; [congruence |].
  exists (e1 ++ e2). split.
  - rewrite Ht2, Ht1, app_assoc. reflexivity.
  - apply Forall_app. split; [exact Hf1 |]. rewrite <- Hab. exact Hf2.
Qed.

Ltac stream_run_now :=
  unfold stream_run; simpl;
  split; [reflexivity |];
  rewrite <- ?app_assoc;
  eexists; split;
  [ first [reflexivity | symmetry; apply app_nil_r]
  | repeat (first [apply Forall_nil | apply Forall_cons]);
    simpl; auto ].

Lemma finish_write_stream (image flags write_lt : Z) (s : world) :
  stream_run s (snd (finish_write image flags write_lt s)).
Proof.
  cbv [finish_write body bind when pure Return gets ftello
       write_lookup_table write_xml_data write_integrity_table fseeko
       write_header].
  repeat (simpl; run_step); simpl; stream_run_now.
Qed.

Lemma write_file_resources_stream (s : world) :
  stream_run s (snd (write_file_resources s)).
Proof.
  unfold write_file_resources. repeat run_step. simpl. stream_run_now.
Qed.

Lemma write_metadata_resource_stream (s : world) :
  stream_run s (snd (write_metadata_resource s)).
Proof.
  unfold write_metadata_resource. repeat run_step. simpl. stream_run_now.
Qed.

Lemma for_each_image_stream (visitor : fn) (images : list Z) :
  (forall s, stream_run s (snd (visitor s))) ->
  forall s, stream_run s (snd (for_each_image visitor images s)).
Proof.
  intros Hv. induction images as [| i rest IH]; intros s; simpl.
  - apply stream_run_refl.
  - cbv [body bind when pure Return call wimlib_select_image].
    destruct (x_wimlib_select_image X (wim s) i (ext s)) as [r e] eqn:Hsel.
    destruct (is_error r) eqn:Hr; simpl.
    + stream_run_now.
    + set (s1 := with_wim (set_current_image i) (with_ext e s)).
      assert (H1 : stream_run s s1) by (subst s1; simpl; stream_run_now).
      specialize (Hv s1). destruct (visitor s1) as [rv s2]. simpl in Hv.
      destruct (is_error rv); simpl.
      * eapply stream_run_trans; eassumption.
      * specialize (IH s2). destruct (for_each_image visitor rest s2).
        simpl in *. eauto using stream_run_trans.
Qed.

Lemma for_image_stream (image : Z) (visitor : fn) :
  (forall s, stream_run s (snd (visitor s))) ->
  forall s, stream_run s (snd (for_image image visitor s)).
Proof.
  intros Hv s. unfold for_image. cbv [body bind gets call Return].
  destruct (image =? WIM_ALL_IMAGES X).
  - match goal with
    | |- context [for_each_image visitor ?l s] =>
        pose proof (for_each_image_stream visitor l Hv s) as H;
        destruct (for_each_image visitor l s); exact H
    end.
  - destruct ((image <? 1) || (image >? image_count (hdr (wim s)))).
    + simpl. apply stream_run_refl.
    + pose proof (for_each_image_stream visitor [image] Hv s) as H.
      destruct (for_each_image visitor [image] s). exact H.
Qed.

(** From [s] to [s'] only the file at [path] was touched, and the output
    stream is on that file or closed. *)
Definition path_run (path : string) (s s' : world) : Prop :=
  (out_fp (wim s') = Some path \/ out_fp (wim s') = None) /\
  exists evs, trace s' = trace s ++ evs /\
              Forall (touches_only path) evs.

Lemma on_stream_touches (path : string) (f : FILE) (e : sys_event) :
  f = Some path \/ f = None -> on_stream f e -> touches_only path e.
Proof.
  intros Hf. destruct e; simpl; intros H; subst; auto; contradiction.
Qed.

Lemma path_run_stream (path : string) (a b c : world) :
  path_run path a b -> stream_run b c -> path_run path a c.
Proof.
  intros [Hb [e1 [Ht1 Hf1]]] [Hc [e2 [Ht2 Hf2]]].
  split; [rewrite Hc; exact Hb |].
  exists (e1 ++ e2). split.
  - rewrite Ht2, Ht1, app_assoc. reflexivity.
  - apply Forall_app. split; [exact Hf1 |].
    eapply Forall_impl; [| exact Hf2].
    intros e. apply on_stream_touches. exact Hb.
Qed.

Lemma path_run_log (path : string) (a b : world) (e : sys_event) :
  path_run path a b -> touches_only path e -> path_run path a (log e b).
Proof.
  intros [Hb [e1 [Ht1 Hf1]]] He. split; [exact Hb |].
  exists (e1 ++ [e]). simpl. split.
  - rewrite Ht1, app_assoc. reflexivity.
  - apply Forall_app. split; [exact Hf1 | repeat constructor; exact He].
Qed.

Lemma begin_write_path (path : string) (flags : Z) (s : world) :
  path_run path s (snd (begin_write path flags s)).
Proof.
  cbv [begin_write body bind pure Return gets modify fopen write_header
       ERROR].
  repeat (simpl; run_step); simpl; unfold path_run; simpl;
    (split; [auto |]); rewrite <- ?app_assoc;
    (eexists; split; [reflexivity |]);
    repeat constructor; simpl; auto.
Qed.

Lemma wimlib_write_steps_path (path : string) (image flags : Z) (s : world) :
  path_run path s (snd (wimlib_write_steps path image flags s)).
Proof.
  cbv [wimlib_write_steps body bind call when pure Return modify ERROR].
  pose proof (begin_write_path path flags s) as H0.
  destruct (begin_write path flags s) as [r0 s0]. simpl in H0.
  destruct (is_error r0); simpl; [exact H0 |].
  match goal with
  | |- context [for_image image write_file_resources ?st] =>
      pose proof (for_image_stream image write_file_resources
                    write_file_resources_stream st) as H1;
      assert (H0' : path_run path s st) by exact H0;
      destruct (for_image image write_file_resources st) as [r1 s1]
  end.
  simpl in H1. pose proof (path_run_stream _ _ _ _ H0' H1) as H01.
  destruct (is_error r1); simpl.
  { apply path_run_log; [exact H01 | exact I]. }
  pose proof (for_image_stream image write_metadata_resource
                write_metadata_resource_stream s1) as H2.
  destruct (for_image image write_metadata_resource s1) as [r2 s2].
  simpl in H2. pose proof (path_run_stream _ _ _ _ H01 H2) as H02.
  destruct (is_error r2); simpl.
  { apply path_run_log; [exact H02 | exact I]. }
  pose proof (finish_write_stream image flags 1 s2) as H3.
  destruct (finish_write image flags 1 s2) as [r3 s3]. simpl in *.
  exact (path_run_stream _ _ _ _ H02 H3).
Qed.

Lemma wimlib_write_path (path : string) (image flags : Z) (s : world) :
  exists evs,
    trace (snd (wimlib_write path image flags s)) = trace s ++ evs /\
    Forall (touches_only path) evs.
Proof.
  cbv [wimlib_write body bind call when pure Return gets modify fclose
       ERROR].
  match goal with
  | |- context [if ?c then _ else _] => destruct c
  end; simpl.
  { exists []. split; [symmetry; apply app_nil_r | constructor]. }
  pose proof (wimlib_write_steps_path path image flags s) as H.
  destruct (wimlib_write_steps path image flags s) as [r1 s1].
  destruct H as [Hout [evs [Ht Hf]]]. simpl in *.
  destruct (is_null (out_fp (wim s1))); simpl.
  { exists evs. auto. }
  destruct (x_fclose X (out_fp (wim s1)) (ext s1)) as [rc e].
  destruct (nonzero rc); simpl; rewrite Ht, <- ?app_assoc;
    (eexists; split; [reflexivity |]);
    (apply Forall_app; split; [exact Hf |]);
    repeat constructor.
Qed.

Lemma alnum_chars_ok : forallb is_alnum alnum_chars = true.
Proof. vm_compute. reflexivity. Qed.

Lemma alnum_pick (r : Z) :
  is_alnum (nth (Z.to_nat (r mod 62)) alnum_chars "0"%char) = true.
Proof.
  pose proof alnum_chars_ok as H. rewrite forallb_forall in H.
  apply H, nth_In.
  assert (Hlen : List.length alnum_chars = 62%nat) by reflexivity.
  rewrite Hlen. pose proof (Z.mod_pos_bound r 62). lia.
Qed.

Lemma randomize_char_array_with_alnum_spec (n : nat) (s : world) :
  exists cs e,
    randomize_char_array_with_alnum n s = (Normal cs, with_ext e s) /\
    List.length cs = n /\ forallb is_alnum cs = true.
Proof.
  revert s. induction n as [| k IH]; intros s;
    cbn [randomize_char_array_with_alnum].
  - exists [], (ext s). destruct s; auto.
  - cbv [bind pure]. destruct (x_rand X (ext s)) as [r e].
    destruct (IH (with_ext e s)) as [cs [e' [Hrun [Hlen Hall]]]].
    rewrite Hrun. eexists (_ :: cs), e'. split; [reflexivity |].
    split; [simpl; congruence |].
    cbn [forallb]. rewrite alnum_pick, Hall. reflexivity.
Qed.

Lemma string_length_append (a b : string) :
  String.length (a ++ b) = (String.length a + String.length b)%nat.
Proof. induction a as [| c a IH]; simpl; [reflexivity | now rewrite IH]. Qed.

Lemma string_length_of_list (l : list ascii) :
  String.length (string_of_list_ascii l) = List.length l.
Proof. induction l as [| c l IH]; simpl; [reflexivity | now rewrite IH]. Qed.

Lemma tmpfile_differs (name : string) (suffix : list ascii) :
  List.length suffix = 9%nat ->
  (name ++ string_of_list_ascii suffix)%string <> name.
Proof.
  intros Hlen Heq. apply (f_equal String.length) in Heq.
  rewrite string_length_append, string_length_of_list in Heq. lia.
Qed.

(** The event leaves the file at [p] as it is, whatever the disk. *)
Definition keeps (p : string) (e : sys_event) : Prop :=
  forall d, fs_step d e p = d p.

Lemma disk_set_other (p q : string) v (d : disk) :
  q <> p -> disk_set p v d q = d q.
Proof.
  intros H. unfold disk_set. destruct (String.eqb_spec q p); congruence.
Qed.

Lemma touches_only_keeps (tmp p : string) (e : sys_event) :
  tmp <> p -> touches_only tmp e -> keeps p e.
Proof.
  intros Hne He d. destruct e as [q m ok | f w r | | | | |]; simpl in *;
    try reflexivity; try contradiction.
  - subst q. destruct ok; [| reflexivity].
    destruct (truncating m); [| reflexivity].
    apply disk_set_other. congruence.
  - destruct He as [-> | ->]; [| reflexivity].
    apply disk_set_other. congruence.
Qed.

Lemma fs_replay_keeps (p : string) (evs : list sys_event) :
  Forall (keeps p) evs -> forall d, fs_replay evs d p = d p.
Proof.
  unfold fs_replay. induction 1 as [| e evs He _ IH]; intros d; simpl.
  - reflexivity.
  - rewrite IH. apply He.
Qed.

Definition commits (e : sys_event) : Prop :=
  exists a b, e = Ev_rename a b 0.

Lemma prefix_keeps (p : string) (evs pre post : list sys_event) :
  Forall (fun e => keeps p e \/ commits e) evs ->
  evs = pre ++ post ->
  (forall a b, ~ In (Ev_rename a b 0) pre) ->
  Forall (keeps p) pre.
Proof.
  intros Hall -> Hno. apply Forall_app in Hall. destruct Hall as [Hpre _].
  rewrite Forall_forall in *. intros e He.
  destruct (Hpre e He) as [Hk | [a [b ->]]]; [exact Hk |].
  exfalso. exact (Hno a b He).
Qed.

Lemma keeps_failed_rename (p a b : string) (r : Z) :
  r <> 0 -> keeps p (Ev_rename a b r).
Proof.
  intros Hr d. simpl. apply Z.eqb_neq in Hr. rewrite Hr. reflexivity.
Qed.

Lemma keeps_unlink_other (p q : string) (r : Z) :
  q <> p -> keeps p (Ev_unlink q r).
Proof.
  intros Hne d. simpl. destruct (r =? 0); [| reflexivity].
  apply disk_set_other. congruence.
Qed.

Lemma keeps_fclose (p : string) (f : FILE) (r : Z) : keeps p (Ev_fclose f r).
Proof. intros d. reflexivity. Qed.

Lemma keeps_message (p : string) (l : msg_level) (t : string) :
  keeps p (Ev_message l t).
Proof. intros d. reflexivity. Qed.


(** ** Further properties of the writer *)

(** A part of the archive other than the header has been written
    through [out], with success. *)
Definition data_written (out : FILE) (e : sys_event) : Prop :=
  match e with
  | Ev_write f what r =>
      f = out /\ r = WIMLIB_ERR_SUCCESS /\
      match what with W_header _ => False | _ => True end
  | _ => False
  end.

(** X12: [finish_write] rewrites the header last and only when all went
    well before: a header it writes is written through the output stream
    right after a successful seek to offset 0, after which nothing
    follows; everything before the seek is a part of the archive written
    with success; and the result of the function is the result of that
    write.  When the function returns success it has written the header.
    The header is built in a copy: the [WIMStruct] is left as it was. *)
Theorem finish_write_header_last (image flags write_lt : Z) (s : world) :
  let result := finish_write image flags write_lt s in
  let out := out_fp (wim s) in
  wim (snd result) = wim s /\
  exists evs,
    trace (snd result) = trace s ++ evs /\
    (forall f h r,
        In (Ev_write f (W_header h) r) evs ->
        fst result = r /\
        exists parts,
          evs = parts ++ [Ev_fseeko out 0 0; Ev_write out (W_header h) r] /\
          Forall (data_written out) parts) /\
    (fst result = WIMLIB_ERR_SUCCESS ->
     exists h, In (Ev_write out (W_header h) WIMLIB_ERR_SUCCESS) evs).
Proof.
  cbv zeta.
  cbv [finish_write body bind when pure Return gets ftello
       write_lookup_table write_xml_data write_integrity_table fseeko
       write_header].
  repeat (simpl; run_step); simpl;
    (split; [reflexivity |]);
    rewrite <- ?app_assoc;
    (eexists; split;
     [first [reflexivity | symmetry; apply app_nil_r] |]);
    repeat match goal with
           | H : is_error _ = false |- _ =>
               apply is_error_false in H; subst
           | H : nonzero _ = false |- _ => apply nonzero_false in H; subst
           end;
    (split;
     [ intros f h rh Hin; header_event Hin;
       injection Hin as <- <- <-;
       (split; [reflexivity |]);
       first [ exists []; split; [reflexivity |]
             | eexists [_]; split; [reflexivity |]
             | eexists [_; _]; split; [reflexivity |]
             | eexists [_; _; _]; split; [reflexivity |] ];
       repeat constructor
     | intros Hok;
       try discriminate Hok;
       try (subst; match goal with
                   | H : is_error WIMLIB_ERR_SUCCESS = true |- _ =>
                       discriminate H
                   end);
       subst; eexists; simpl;
       repeat first [left; reflexivity | right] ]).
Qed.

(** The event is a write or a seek on the stream [f], or a message. *)
Definition writes_to (f : FILE) (e : sys_event) : Prop :=
  match e with
  | Ev_write g _ _ | Ev_fseeko g _ _ => g = f
  | Ev_message _ _ => True
  | Ev_fopen _ _ _ | Ev_fclose _ _ | Ev_rename _ _ _ | Ev_unlink _ _ => False
  end.

(** From [s] to [s'] the output stream stayed open and the same, and
    what happened was written to it. *)
Definition wrote (s s' : world) : Prop :=
  out_fp (wim s') = out_fp (wim s) /\
  exists evs, trace s' = trace s ++ evs /\
              Forall (writes_to (out_fp (wim s))) evs.

Lemma wrote_refl (s : world) : wrote s s.
Proof.
  split; [reflexivity |]. exists []. split; [symmetry; apply app_nil_r |].
  constructor.
Qed.

Lemma wrote_trans (a b c : world) : wrote a b -> wrote b c -> wrote a c.
Proof.
  intros [Hab [e1 [Ht1 Hf1]]] [Hbc [e2 [Ht2 Hf2]]].
  split; [congruence |].
  exists (e1 ++ e2). split.
  - rewrite Ht2, Ht1, app_assoc. reflexivity.
  - apply Forall_app. split; [exact Hf1 |]. rewrite <- Hab. exact Hf2.
Qed.

Ltac wrote_now :=
  unfold wrote; simpl;
  split; [reflexivity |];
  rewrite <- ?app_assoc;
  eexists; split;
  [ first [reflexivity | symmetry; apply app_nil_r]
  | repeat (first [apply Forall_nil | apply Forall_cons]);
    simpl; auto ].

Lemma finish_write_wrote (image flags write_lt : Z) :
  fn_respects wrote (finish_write image flags write_lt).
Proof.
  intros s.
  cbv [finish_write body bind when pure Return gets ftello
       write_lookup_table write_xml_data write_integrity_table fseeko
       write_header].
  repeat (simpl; run_step); simpl; wrote_now.
Qed.

Lemma write_file_resources_wrote : fn_respects wrote write_file_resources.
Proof.
  intros s. unfold write_file_resources. repeat run_step. simpl. wrote_now.
Qed.

Lemma write_metadata_resource_wrote :
  fn_respects wrote write_metadata_resource.
Proof.
  intros s. unfold write_metadata_resource. repeat run_step. simpl.
  wrote_now.
Qed.

Lemma wimlib_select_image_wrote (i : Z) :
  respects wrote (wimlib_select_image i).
Proof.
  intros s. unfold wimlib_select_image.
  destruct (x_wimlib_select_image X (wim s) i (ext s)) as [r e].
  destruct (is_error r); simpl; wrote_now.
Qed.

Lemma for_each_image_wrote (visitor : fn) (images : list Z) :
  fn_respects wrote visitor ->
  fn_respects wrote (for_each_image visitor images).
Proof.
  intros Hv. induction images as [| i rest IH]; cbn [for_each_image].
  - intros s. apply wrote_refl.
  - respects_split wrote_refl wrote_trans
      ltac:(first [ apply wimlib_select_image_wrote
                  | exact Hv | exact IH ]).
Qed.

Lemma for_image_wrote (image : Z) (visitor : fn) :
  fn_respects wrote visitor -> fn_respects wrote (for_image image visitor).
Proof.
  intros Hv. unfold for_image.
  respects_split wrote_refl wrote_trans
    ltac:(apply for_each_image_wrote; exact Hv).
Qed.

(** The file is open for writing on [path] and only that has happened
    to it since it was opened. *)
Definition opened (path mode : string) (s s' : world) : Prop :=
  out_fp (wim s') = Some path /\
  exists mid,
    trace s' = trace s ++ Ev_fopen path mode true :: mid /\
    Forall (writes_to (Some path)) mid.

Lemma opened_wrote (path mode : string) (a b c : world) :
  opened path mode a b -> wrote b c -> opened path mode a c.
Proof.
  intros [Hb [m1 [Ht1 Hf1]]] [Hc [m2 [Ht2 Hf2]]].
  split; [congruence |].
  exists (m1 ++ m2). split.
  - rewrite Ht2, Ht1, <- app_assoc. reflexivity.
  - apply Forall_app. split; [exact Hf1 |]. rewrite <- Hb. exact Hf2.
Qed.

Definition write_mode (flags : Z) : string :=
  if nonzero (Z.land flags (WIMLIB_WRITE_FLAG_CHECK_INTEGRITY X))
  then "w+b"%string else "wb"%string.

(** What the part of [wimlib_write] before the label [done] leaves. *)
Lemma wimlib_write_steps_opened (path : string) (image flags : Z)
    (s : world) :
  let result := wimlib_write_steps path image flags s in
  (fst result = WIMLIB_ERR_OPEN /\
   out_fp (wim (snd result)) = None /\
   trace (snd result)
   = trace s ++ [Ev_fopen path (write_mode flags) false;
                 Ev_message LVL_ERROR
                   "Failed to open the file for writing!"]) \/
  opened path (write_mode flags) s (snd result).
Proof.
  cbv zeta. unfold wimlib_write_steps, begin_write. fold (write_mode flags).
  cbv [body bind call when pure Return modify ERROR fopen gets
       write_header].
  destruct (x_fopen X path (write_mode flags) (ext s)) as [[|] e0];
    cbn [is_null fst snd];
    [| left; cbn; rewrite <- app_assoc; repeat split ].
  right.
  match goal with
  | |- context [x_write_header X ?h ?f (ext ?st)] =>
      destruct (x_write_header X h f (ext st)) as [r0 e1]
  end.
  cbn [fst snd].
  match goal with
  | |- context [is_error r0] =>
      match goal with
      | |- context [log ?ev (with_ext e1 ?st)] =>
          assert (H0 : opened path (write_mode flags) s
                         (log ev (with_ext e1 st)))
      end
  end.
  { split; [reflexivity |]. eexists [_]. cbn. rewrite <- app_assoc.
    split; [reflexivity |]. repeat constructor. }
  destruct (is_error r0); cbn [fst snd]; [exact H0 |].
  match goal with
  | |- context [for_image image write_file_resources ?st] =>
      assert (H0' : opened path (write_mode flags) s st)
        by (eapply opened_wrote; [exact H0 |]; wrote_now);
      pose proof (for_image_wrote image write_file_resources
                    write_file_resources_wrote st) as H1;
      destruct (for_image image write_file_resources st) as [r1 s1]
  end.
  cbn [fst snd] in *. pose proof (opened_wrote _ _ _ _ _ H0' H1) as H01.
  destruct (is_error r1); cbn [fst snd].
  { eapply opened_wrote; [exact H01 |]. wrote_now. }
  pose proof (for_image_wrote image write_metadata_resource
                write_metadata_resource_wrote s1) as H2.
  destruct (for_image image write_metadata_resource s1) as [r2 s2].
  cbn [fst snd] in *. pose proof (opened_wrote _ _ _ _ _ H01 H2) as H02.
  destruct (is_error r2); cbn [fst snd].
  { eapply opened_wrote; [exact H02 |]. wrote_now. }
  pose proof (finish_write_wrote image flags 1 s2) as H3.
  destruct (finish_write image flags 1 s2) as [r3 s3]. cbn [fst snd] in *.
  exact (opened_wrote _ _ _ _ _ H02 H3).
Qed.

(** X13: [wimlib_write] refuses an image number that is neither
    [WIM_ALL_IMAGES] nor within 1 .. [image_count] with
    [WIMLIB_ERR_INVALID_IMAGE], before it has opened or changed anything.
    Otherwise it leaves no output stream open: either the file cannot be
    opened, and [WIMLIB_ERR_OPEN] is returned after the attempt and its
    message, or the file is opened (in the mode [w+b] when the integrity
    table is asked for, [wb] otherwise), written to, and closed exactly
    once, on every way out, with only messages after that; and when the
    close fails the result is [WIMLIB_ERR_WRITE], so that a call which
    returns success has closed the file with success. *)
Theorem wimlib_write_closes_output (path : string) (image flags : Z)
    (s : world) :
  let result := wimlib_write path image flags s in
  if negb (image =? WIM_ALL_IMAGES X)
     && ((image <? 1) || (image >? image_count (hdr (wim s))))
  then result = (WIMLIB_ERR_INVALID_IMAGE, s)
  else
    out_fp (wim (snd result)) = None /\
    ((fst result = WIMLIB_ERR_OPEN /\
      trace (snd result)
      = trace s ++ [Ev_fopen path (write_mode flags) false;
                    Ev_message LVL_ERROR
                      "Failed to open the file for writing!"]) \/
     (exists mid rc msgs,
         trace (snd result)
         = trace s ++ Ev_fopen path (write_mode flags) true
                   :: mid ++ Ev_fclose (Some path) rc :: msgs /\
         Forall (writes_to (Some path)) mid /\
         Forall (fun e => exists l t, e = Ev_message l t) msgs /\
         (rc <> 0 -> fst result = WIMLIB_ERR_WRITE))).
Proof.
  cbv zeta. unfold wimlib_write.
  cbv [body bind call gets pure Return modify ERROR fclose].
  destruct (negb (image =? WIM_ALL_IMAGES X)
            && ((image <? 1) || (image >? image_count (hdr (wim s)))));
    [reflexivity |].
  pose proof (wimlib_write_steps_opened path image flags s) as H.
  cbv zeta in H.
  destruct (wimlib_write_steps path image flags s) as [r1 s1].
  cbn [fst snd] in *.
  destruct H as [[Hr [Hout Ht]] | [Hout [mid [Ht Hmid]]]];
    rewrite Hout; cbn [is_null fst snd].
  { split; [exact Hout |]. left. split; assumption. }
  destruct (x_fclose X (Some path) (ext s1)) as [rc e].
  destruct (nonzero rc) eqn:Hrc;
    cbn [fst snd wim trace out_fp with_wim set_out_fp log with_ext];
    (split; [reflexivity |]); right.
  - exists mid, rc, [Ev_message LVL_ERROR "Failed to close the file"].
    rewrite Ht, <- !app_assoc. cbn [app].
    repeat split; try assumption.
    repeat constructor. eexists; eexists; reflexivity.
  - exists mid, rc, []. rewrite Ht, <- !app_assoc. cbn [app].
    repeat split; try assumption; [constructor |].
    intros Hne. apply nonzero_false in Hrc. contradiction.
Qed.

Lemma finish_write_success (image flags write_lt : Z) (s : world) :
  fst (finish_write image flags write_lt s) = WIMLIB_ERR_SUCCESS ->
  exists parts h,
    trace (snd (finish_write image flags write_lt s))
    = trace s ++ parts
      ++ [Ev_fseeko (out_fp (wim s)) 0 0;
          Ev_write (out_fp (wim s)) (W_header h) WIMLIB_ERR_SUCCESS] /\
    Forall (data_written (out_fp (wim s))) parts.
Proof.
  cbv [finish_write body bind when pure Return gets ftello
       write_lookup_table write_xml_data write_integrity_table fseeko
       write_header].
  repeat (simpl; run_step); simpl; intros Hok;
    try discriminate Hok;
    try (subst; match goal with
                | H : is_error WIMLIB_ERR_SUCCESS = true |- _ =>
                    discriminate H
                end);
    repeat match goal with
           | H : is_error _ = false |- _ =>
               apply is_error_false in H; subst
           | H : nonzero _ = false |- _ => apply nonzero_false in H; subst
           end;
    subst; rewrite <- ?app_assoc;
    first [ exists []; eexists; split; [reflexivity |]
          | eexists [_]; eexists; split; [reflexivity |]
          | eexists [_; _]; eexists; split; [reflexivity |]
          | eexists [_; _; _]; eexists; split; [reflexivity |] ];
    repeat constructor.
Qed.

Lemma data_written_writes_to (f : FILE) (e : sys_event) :
  data_written f e -> writes_to f e.
Proof. destruct e; cbn; tauto. Qed.

Lemma error_not_success (r : wimlib_error_code) :
  is_error r = true -> r = WIMLIB_ERR_SUCCESS -> False.
Proof. intros H ->. discriminate H. Qed.

(** What the part of [wimlib_write] before the label [done] has done when
    it ends with success. *)
Lemma wimlib_write_steps_success (path : string) (image flags : Z)
    (s : world) :
  let result := wimlib_write_steps path image flags s in
  fst result = WIMLIB_ERR_SUCCESS ->
  out_fp (wim (snd result)) = Some path /\
  exists mid h,
    trace (snd result)
    = trace s
      ++ Ev_fopen path (write_mode flags) true
      :: Ev_write (Some path) (W_header (hdr (wim s))) WIMLIB_ERR_SUCCESS
      :: mid
      ++ [Ev_fseeko (Some path) 0 0;
          Ev_write (Some path) (W_header h) WIMLIB_ERR_SUCCESS] /\
    Forall (writes_to (Some path)) mid.
Proof.
  cbv zeta. unfold wimlib_write_steps, begin_write. fold (write_mode flags).
  cbv [body bind call when pure Return modify ERROR fopen gets
       write_header].
  destruct (x_fopen X path (write_mode flags) (ext s)) as [[|] e0];
    cbn [is_null fst snd]; [| intros H; discriminate H].
  match goal with
  | |- context [x_write_header X ?h ?f (ext ?st)] =>
      change h with (hdr (wim s));
      destruct (x_write_header X (hdr (wim s)) f (ext st)) as [r0 e1]
  end.
  cbn [fst snd].
  destruct (is_error r0) eqn:Hr0; cbn [fst snd];
    [intros H; destruct (error_not_success _ Hr0 H) |].
  apply is_error_false in Hr0. subst r0.
  match goal with
  | |- context [for_image image write_file_resources ?st] =>
      remember st as st0 eqn:Est;
      assert (H0 : out_fp (wim st0) = Some path /\
                   trace st0
                   = trace s
                     ++ [Ev_fopen path (write_mode flags) true;
                         Ev_write (Some path) (W_header (hdr (wim s)))
                           WIMLIB_ERR_SUCCESS])
        by (subst st0; split;
            [reflexivity | cbn; rewrite <- app_assoc; reflexivity]);
      clear Est
  end.
  destruct H0 as [Hout0 Ht0].
  assert (Hnext : forall (a b : world) (evs : list sys_event),
             out_fp (wim a) = Some path ->
             trace a = trace s ++ evs ->
             wrote a b ->
             out_fp (wim b) = Some path /\
             exists more, trace b = trace s ++ evs ++ more /\
                          Forall (writes_to (Some path)) more).
  { intros a b evs Ha Hta [Hb [more [Htb Hmore]]].
    split; [congruence |]. exists more. rewrite Htb, Hta, <- app_assoc.
    split; [reflexivity |]. rewrite <- Ha. exact Hmore. }
  pose proof (for_image_wrote image write_file_resources
                write_file_resources_wrote st0) as H1.
  destruct (for_image image write_file_resources st0) as [r1 s1].
  cbn [fst snd] in *.
  destruct (Hnext _ _ _ Hout0 Ht0 H1) as [Hout1 [m1 [Ht1 Hm1]]].
  destruct (is_error r1) eqn:Hr1; cbn [fst snd];
    [intros H; destruct (error_not_success _ Hr1 H) |].
  pose proof (for_image_wrote image write_metadata_resource
                write_metadata_resource_wrote s1) as H2.
  destruct (for_image image write_metadata_resource s1) as [r2 s2].
  cbn [fst snd] in *.
  destruct (Hnext _ _ _ Hout1 Ht1 H2) as [Hout2 [m2 [Ht2 Hm2]]].
  destruct (is_error r2) eqn:Hr2; cbn [fst snd];
    [intros H; destruct (error_not_success _ Hr2 H) |].
  pose proof (finish_write_success image flags 1 s2) as H3.
  pose proof (finish_write_wrote image flags 1 s2) as [Hout3 _].
  destruct (finish_write image flags 1 s2) as [r3 s3].
  cbn [fst snd] in *. intros Hok.
  destruct (H3 Hok) as [parts [h [Ht3 Hparts]]].
  split; [congruence |].
  exists (m1 ++ m2 ++ parts), h. rewrite Ht3, Ht2, Hout2.
  rewrite <- !app_assoc. cbn [app]. split; [reflexivity |].
  repeat (apply Forall_app; split); try assumption.
  eapply Forall_impl; [| exact Hparts].
  intros e. rewrite Hout2. apply data_written_writes_to.
Qed.

(** X14: a call of [wimlib_write] that returns success has opened the
    file, written the header of the archive as it stood (the dummy header)
    with success, written the rest through the same stream, then sought
    offset 0 with success and written the final header with success as
    its last write, and closed the file with success; nothing follows the
    close, and no output stream is left open. *)
Theorem wimlib_write_success (path : string) (image flags : Z) (s : world) :
  fst (wimlib_write path image flags s) = WIMLIB_ERR_SUCCESS ->
  out_fp (wim (snd (wimlib_write path image flags s))) = None /\
  exists mid h,
    trace (snd (wimlib_write path image flags s))
    = trace s
      ++ Ev_fopen path (write_mode flags) true
      :: Ev_write (Some path) (W_header (hdr (wim s))) WIMLIB_ERR_SUCCESS
      :: mid
      ++ [Ev_fseeko (Some path) 0 0;
          Ev_write (Some path) (W_header h) WIMLIB_ERR_SUCCESS;
          Ev_fclose (Some path) 0] /\
    Forall (writes_to (Some path)) mid.
Proof.
  unfold wimlib_write.
  cbv [body bind call gets pure Return modify ERROR fclose].
  destruct (negb (image =? WIM_ALL_IMAGES X)
            && ((image <? 1) || (image >? image_count (hdr (wim s)))));
    [intros H; discriminate H |].
  pose proof (wimlib_write_steps_success path image flags s) as H.
  pose proof (wimlib_write_steps_opened path image flags s) as Ho.
  cbv zeta in H, Ho.
  destruct (wimlib_write_steps path image flags s) as [r1 s1].
  cbn [fst snd] in *.
  destruct Ho as [[Hr [Hout _]] | [Hout _]]; rewrite Hout;
    cbn [is_null fst snd].
  { intros Hok. subst r1. discriminate Hok. }
  destruct (x_fclose X (Some path) (ext s1)) as [rc e].
  destruct (nonzero rc) eqn:Hrc;
    cbn [fst snd wim trace out_fp with_wim set_out_fp log with_ext];
    intros Hok; [discriminate Hok |].
  destruct (H Hok) as [_ [mid [h [Ht Hmid]]]].
  apply nonzero_false in Hrc. subst rc.
  split; [reflexivity |]. exists mid, h. rewrite Ht.
  rewrite <- !app_assoc. cbn [app]. rewrite <- app_assoc. cbn [app].
  split; [reflexivity | exact Hmid].
Qed.


(** ** [reopen_rw] and [wimlib_overwrite_xml_and_header]

    The two functions call, besides what the writer calls, [MALLOC] and
    [FREE], [read_uncompressed_resource], [fwrite], [fflush] and
    [ftruncate]; their trace holds the events of the writer and these. *)
Inductive io_event : Type :=
| Io (e : sys_event)
| Io_malloc (size : Z) (ok : bool)
| Io_free
| Io_read (f : FILE) (offset size : Z) (ret : wimlib_error_code)
| Io_fwrite (f : FILE) (size written : Z)
| Io_fflush (f : FILE) (ret : Z)
| Io_ftruncate (f : FILE) (len ret : Z).

Record rw_externals : Type := {
  x_malloc : Z -> ext_state -> bool;
  x_read_uncompressed_resource :
    FILE -> Z -> Z -> ext_state -> wimlib_error_code * ext_state;
  (** [fwrite] of the saved integrity table: the number of bytes
      written *)
  x_fwrite : FILE -> Z -> ext_state -> Z * ext_state;
  x_fflush : FILE -> ext_state -> Z * ext_state;
  (** [ftruncate(fileno(fp), length)] *)
  x_ftruncate : FILE -> Z -> ext_state -> Z * ext_state }.

Section Rewrite.
Variable Y : rw_externals.

Record rw_world : Type := {
  rw_wim : WIMStruct;
  rw_ext : ext_state;
  rw_trace : list io_event }.

(** A call the functions share with the writer: it runs on the writer's
    state, and its events are taken over. *)
Definition io {A} (m : @block world A) : @block rw_world A :=
  fun s =>
    let (o, w') := m {| wim := rw_wim s; ext := rw_ext s; trace := [] |} in
    (o, {| rw_wim := wim w'; rw_ext := ext w';
           rw_trace := rw_trace s ++ map Io (trace w') |}).

Definition rw_log (e : io_event) (s : rw_world) : rw_world :=
  {| rw_wim := rw_wim s; rw_ext := rw_ext s;
     rw_trace := rw_trace s ++ [e] |}.
Definition rw_with_ext (e : ext_state) (s : rw_world) : rw_world :=
  {| rw_wim := rw_wim s; rw_ext := e; rw_trace := rw_trace s |}.
Definition rw_with_wim (f : WIMStruct -> WIMStruct) (s : rw_world)
  : rw_world :=
  {| rw_wim := f (rw_wim s); rw_ext := rw_ext s; rw_trace := rw_trace s |}.

Definition set_hdr (h : wim_header) (w : WIMStruct) : WIMStruct :=
  {| filename := filename w; fp := fp w; out_fp := out_fp w; hdr := h;
     image_metadata := image_metadata w; lookup_table := lookup_table w;
     wim_info := wim_info w; current_image := current_image w |}.

(** Assignments to the fields of [w->hdr]. *)
Definition upd_hdr (f : wim_header -> wim_header) : @block rw_world unit :=
  modify (rw_with_wim (fun w => set_hdr (f (hdr w)) w)).

Definition MALLOC (size : Z) : @block rw_world bool :=
  fun s => let ok := x_malloc Y size (rw_ext s) in
           (Normal ok, rw_log (Io_malloc size ok) s).

(** [FREE(p)]: nothing happens when [p] is null. *)
Definition FREE (allocated : bool) : @block rw_world unit :=
  when allocated (modify (rw_log Io_free)).

Definition read_uncompressed_resource (f : FILE) (offset size : Z)
  : @block rw_world wimlib_error_code :=
  fun s => let (r, e) :=
             x_read_uncompressed_resource Y f offset size (rw_ext s) in
           (Normal r, rw_log (Io_read f offset size r) (rw_with_ext e s)).

Definition fwrite (f : FILE) (size : Z) : @block rw_world Z :=
  fun s => let (n, e) := x_fwrite Y f size (rw_ext s) in
           (Normal n, rw_log (Io_fwrite f size n) (rw_with_ext e s)).

Definition fflush (f : FILE) : @block rw_world Z :=
  fun s => let (r, e) := x_fflush Y f (rw_ext s) in
           (Normal r, rw_log (Io_fflush f r) (rw_with_ext e s)).

Definition ftruncate (f : FILE) (len : Z) : @block rw_world Z :=
  fun s => let (r, e) := x_ftruncate Y f len (rw_ext s) in
           (Normal r, rw_log (Io_ftruncate f len r) (rw_with_ext e s)).

Definition rw_goto {A} (label : @fn rw_world) : @block rw_world A :=
  fun s => let (r, s') := label s in (Returned r, s').

(** *** [reopen_rw] (write.c 36-52)

    The caller has checked that [w->filename] is not null; [fopen] of a
    null name is taken to fail. *)
Definition reopen_rw : @fn rw_world :=
  body (
    f <- gets (fun s => fp (rw_wim s)) ;;
    r <- io (fclose f) ;;
    when (nonzero r) (io (ERROR "Failed to close the file")) ;;
    name <- gets (fun s => filename (rw_wim s)) ;;
    f' <- (match name with
           | Some name => io (fopen name "r+b")
           | None => pure None
           end) ;;
    if is_null f' then
      io (ERROR "Failed to open for reading and writing") ;;
      Return WIMLIB_ERR_OPEN
    else
      modify (rw_with_wim (set_fp f')) ;;
      pure WIMLIB_ERR_SUCCESS).

(** *** [wimlib_overwrite_xml_and_header] (write.c 110-243)

    [integrity_table] is known by whether it is allocated; the label
    [err] is the code [FREE(integrity_table); return ret]. *)
Definition err (integrity_table : bool) (ret : wimlib_error_code)
  : @fn rw_world :=
  body (FREE integrity_table ;; pure ret).

Definition wimlib_overwrite_xml_and_header (flags : Z) : @fn rw_world :=
  body (
    name <- gets (fun s => filename (rw_wim s)) ;;
    when (is_null name) (Return WIMLIB_ERR_NO_FILENAME) ;;
    ret <- call reopen_rw ;;
    when (is_error ret) (Return ret) ;;
    f <- gets (fun s => fp (rw_wim s)) ;;
    h <- gets (fun s => hdr (rw_wim s)) ;;
    (* The old integrity table is saved if it exists and an integrity
       table was required. *)
    integrity_table <-
      (if nonzero (Z.land flags (WIMLIB_WRITE_FLAG_CHECK_INTEGRITY X))
          && nonzero (re_offset (integrity h))
       then
         ok <- MALLOC (re_size (integrity h)) ;;
         when (negb ok) (Return WIMLIB_ERR_NOMEM) ;;
         ret <- read_uncompressed_resource f (re_offset (integrity h))
                  (re_original_size (integrity h)) ;;
         (if is_error ret then rw_goto (err true ret) else pure tt) ;;
         pure true
       else pure false) ;;
    (* Overwrite the XML data. *)
    r <- io (fseeko f (re_offset (xml_res_entry h))) ;;
    (if nonzero r then
       io (ERROR "Failed to seek for XML data") ;;
       rw_goto (err integrity_table WIMLIB_ERR_WRITE)
     else pure tt) ;;
    info <- gets (fun s => wim_info (rw_wim s)) ;;
    ret <- io (write_xml_data info (WIM_ALL_IMAGES X) f 0) ;;
    (if is_error ret then rw_goto (err integrity_table ret) else pure tt) ;;
    (* Update the XML resource entry in the WIM header. *)
    xml_end <- io (ftello f) ;;
    (if xml_end =? -1 then rw_goto (err integrity_table WIMLIB_ERR_WRITE)
     else pure tt) ;;
    let xml_size := xml_end - re_offset (xml_res_entry h) in
    upd_hdr (upd_xml_res_entry
               (fun e => set_re_original_size xml_size
                           (set_re_size xml_size e))) ;;
    (if nonzero (Z.land flags (WIMLIB_WRITE_FLAG_CHECK_INTEGRITY X)) then
       upd_hdr (upd_integrity (set_re_offset xml_end)) ;;
       if integrity_table then
         (* The existing integrity table was saved. *)
         size <- gets (fun s => re_size (integrity (hdr (rw_wim s)))) ;;
         bytes_written <- fwrite f size ;;
         (if negb (bytes_written =? size) then
            io (ERROR "Failed to write integrity table") ;;
            rw_goto (err integrity_table WIMLIB_ERR_WRITE)
          else pure tt) ;;
         FREE integrity_table
       else
         (* There was no existing integrity table, so a new one must be
            calculated. *)
         h <- gets (fun s => hdr (rw_wim s)) ;;
         ret <- io (write_integrity_table f (WIM_HEADER_DISK_SIZE X)
                      (re_offset (lookup_table_res_entry h)
                       + re_size (lookup_table_res_entry h))
                      (Z.land flags (WIMLIB_WRITE_FLAG_SHOW_PROGRESS X))) ;;
         (if is_error ret then rw_goto (err integrity_table ret)
          else pure tt) ;;
         pos <- io (ftello f) ;;
         let integrity_size := pos - xml_end in
         upd_hdr (upd_integrity
                    (fun e => set_re_flags 0
                                (set_re_original_size integrity_size
                                   (set_re_size integrity_size e))))
     else
       (* No integrity table to write: the file is truncated to the end
          of the XML data. *)
       r <- fflush f ;;
       (if nonzero r then
          io (ERROR "Failed to flush stream") ;; Return WIMLIB_ERR_WRITE
        else pure tt) ;;
       r <- ftruncate f xml_end ;;
       (if nonzero r then
          io (ERROR "Failed to truncate") ;; Return WIMLIB_ERR_WRITE
        else pure tt) ;;
       upd_hdr (upd_integrity (fun _ => zero_resource_entry))) ;;
    (* Overwrite the header. *)
    r <- io (fseeko f 0) ;;
    (if nonzero r then
       io (ERROR "Failed to seek to beginning") ;; Return WIMLIB_ERR_WRITE
     else pure tt) ;;
    h <- gets (fun s => hdr (rw_wim s)) ;;
    ret <- io (write_header h f) ;;
    when (is_error ret) (Return ret) ;;
    r <- io (fclose f) ;;
    (if nonzero r then
       io (ERROR "Failed to close") ;; Return WIMLIB_ERR_WRITE
     else pure tt) ;;
    modify (rw_with_wim (set_fp None)) ;;
    pure WIMLIB_ERR_SUCCESS).

Definition is_free (e : io_event) : bool :=
  match e with Io_free => true | _ => false end.

Definition is_allocation (e : io_event) : bool :=
  match e with Io_malloc _ true => true | _ => false end.

Ltac rw_run :=
  cbv [wimlib_overwrite_xml_and_header reopen_rw err body bind call when
       pure Return gets modify io rw_goto MALLOC FREE upd_hdr
       read_uncompressed_resource fwrite fflush ftruncate
       ERROR fclose fopen fseeko ftello write_xml_data
       write_integrity_table write_header];
  repeat (simpl; run_step); simpl.

(** X15: [wimlib_overwrite_xml_and_header] does not leak the buffer in
    which it saves the old integrity table and does not free it twice:
    on every way out, the buffer has been freed exactly once if it was
    allocated, and nothing has been freed if it was not. *)
Theorem overwrite_xml_and_header_frees (flags : Z) (s : rw_world) :
  exists evs,
    rw_trace (snd (wimlib_overwrite_xml_and_header flags s))
    = rw_trace s ++ evs /\
    List.length (filter is_free evs)
    = List.length (filter is_allocation evs) /\
    (List.length (filter is_allocation evs) <= 1)%nat.
Proof.
  rw_run;
    rewrite <- ?app_assoc;
    (eexists; split;
     [first [reflexivity | symmetry; apply app_nil_r] |]);
    simpl;
    repeat match goal with
           | H : negb ?b = _ |- context [?b] =>
               destruct b; simpl in H; try discriminate H; simpl
           end;
    split; first [reflexivity | lia].
Qed.


(** The step has not failed; the close of the stream that is reopened
    is only reported when it fails. *)
Definition went_well (e : io_event) : Prop :=
  match e with
  | Io (Ev_fopen _ _ ok) => ok = true
  | Io (Ev_write _ _ r) => r = WIMLIB_ERR_SUCCESS
  | Io (Ev_fseeko _ _ r) => r = 0
  | Io_malloc _ ok => ok = true
  | Io_read _ _ _ r => r = WIMLIB_ERR_SUCCESS
  | Io_fwrite _ size written => written = size
  | Io_fflush _ r => r = 0
  | Io_ftruncate _ _ r => r = 0
  | _ => True
  end.

Definition closing (e : io_event) : Prop :=
  match e with
  | Io (Ev_fclose _ _) | Io (Ev_message _ _) => True
  | _ => False
  end.

(** X17: [wimlib_overwrite_xml_and_header] overwrites the header last and
    only when everything before went well: a header it writes is written
    right after a successful seek to offset 0; every step before it has
    succeeded (the file was reopened, the XML data written, the integrity
    table read back and written or computed, or the file flushed and
    truncated); after it the file is closed, or nothing happens when the
    write of the header has failed, which is then the result of the
    function.  So a failure on the way leaves the old header in place. *)
Theorem overwrite_xml_and_header_header_last (flags : Z) (s : rw_world) :
  let result := wimlib_overwrite_xml_and_header flags s in
  exists evs,
    rw_trace (snd result) = rw_trace s ++ evs /\
    forall f h r,
      In (Io (Ev_write f (W_header h) r)) evs ->
      exists before after,
        evs = before
              ++ Io (Ev_fseeko f 0 0) :: Io (Ev_write f (W_header h) r)
              :: after /\
        In (Io (Ev_write f (W_xml_data (WIM_ALL_IMAGES X) 0)
                  WIMLIB_ERR_SUCCESS)) before /\
        Forall went_well before /\
        Forall closing after /\
        (is_error r = true -> after = [] /\ fst result = r).
Proof.
  cbv zeta. rw_run;
    rewrite <- ?app_assoc;
    (eexists; split;
     [first [reflexivity | symmetry; apply app_nil_r] |]);
    intros f h rh Hin; header_event Hin;
    injection Hin as <- <- <-;
    repeat match goal with
           | H : is_error _ = false |- _ =>
               apply is_error_false in H; subst
           | H : nonzero _ = false |- _ => apply nonzero_false in H; subst
           | H : negb (_ =? _) = false |- _ =>
               apply negb_false_iff, Z.eqb_eq in H
           | H : negb ?b = false |- _ =>
               apply negb_false_iff in H
           end;
    match goal with
    | |- exists before after, ?L = before ++ _ /\ _ =>
        first
          [ exists (removelast (removelast L)), [];
            split; [reflexivity |]
          | exists (removelast (removelast (removelast L)));
            eexists [_]; split; [reflexivity |]
          | exists (removelast (removelast (removelast (removelast L))));
            eexists [_; _]; split; [reflexivity |] ]
    end;
    simpl;
    (split; [repeat first [left; reflexivity | right] |]);
    (split;
     [ repeat first [apply Forall_nil | apply Forall_cons]; simpl;
       first [reflexivity | assumption | exact I] |]);
    (split;
     [ repeat first [apply Forall_nil | apply Forall_cons]; exact I |]);
    intros Herr; first [discriminate Herr | split; reflexivity].
Qed.

(** X18: [wimlib_overwrite_xml_and_header] on an archive without file
    name returns [WIMLIB_ERR_NO_FILENAME] and does nothing.  When the file
    of the archive cannot be reopened for reading and writing it returns
    [WIMLIB_ERR_OPEN] without having read or written anything: the stream
    of the archive has been closed, which [w->fp] still points to, and the
    header in memory is as it was. *)
Theorem overwrite_xml_and_header_not_reopened (flags : Z) (s : rw_world) :
  let result := wimlib_overwrite_xml_and_header flags s in
  match filename (rw_wim s) with
  | None => result = (WIMLIB_ERR_NO_FILENAME, s)
  | Some name =>
      let closed := x_fclose X (fp (rw_wim s)) (rw_ext s) in
      fst (x_fopen X name "r+b" (snd closed)) = false ->
      fst result = WIMLIB_ERR_OPEN /\
      rw_wim (snd result) = rw_wim s /\
      exists msgs,
        rw_trace (snd result)
        = rw_trace s
          ++ Io (Ev_fclose (fp (rw_wim s)) (fst closed))
          :: msgs
          ++ [Io (Ev_fopen name "r+b" false);
              Io (Ev_message LVL_ERROR
                    "Failed to open for reading and writing")] /\
        Forall (fun e => exists l t, e = Io (Ev_message l t)) msgs
  end.
Proof.
  cbv zeta.
  destruct (filename (rw_wim s)) as [name |] eqn:Hname.
  - intros Hopen.
    cbv [wimlib_overwrite_xml_and_header reopen_rw body bind call when
         pure Return gets modify io ERROR fclose fopen].
    rewrite Hname. cbn [is_null]. simpl.
    destruct (x_fclose X (fp (rw_wim s)) (rw_ext s)) as [rc e].
    cbn [fst snd] in *.
    destruct (nonzero rc); simpl; rewrite ?Hname; simpl;
      destruct (x_fopen X name "r+b" e) as [ok e']; cbn [fst] in Hopen;
      subst ok; simpl;
      (split; [reflexivity |]); (split; [destruct s; reflexivity |]);
      rewrite <- ?app_assoc.
    + eexists [_]. split; [reflexivity |].
      repeat constructor. eexists; eexists; reflexivity.
    + exists []. split; [reflexivity | constructor].
  - cbv [wimlib_overwrite_xml_and_header body bind when pure Return gets].
    rewrite Hname. reflexivity.
Qed.

End Rewrite.

End Model.

Arguments wim {_ _ _} _.
Arguments ext {_ _ _} _.
Arguments trace {_ _ _} _.

(** ** A small archive to run the writer on

  The outside state is the position of the output stream; the header takes
  208 bytes, the lookup table 50, the XML data 30, the integrity table 20,
  and every call succeeds. *)
Module Demo.
Definition X : externals unit unit Z :=
  {| WIM_ALL_IMAGES := -1;
     WIM_HEADER_DISK_SIZE := 208;
     WIM_RESHDR_FLAG_METADATA := 2;
     WIMLIB_WRITE_FLAG_CHECK_INTEGRITY := 1;
     WIMLIB_WRITE_FLAG_SHOW_PROGRESS := 2;
     x_ftello := fun _ pos => pos;
     x_fseeko := fun _ off _ => (0, off);
     x_fopen := fun _ _ _ => (true, 0);
     x_fclose := fun _ pos => (0, pos);
     x_rename := fun _ _ pos => (0, pos);
     x_unlink := fun _ pos => (0, pos);
     x_rand := fun pos => (7 * pos + 3, pos + 1);
     x_write_header := fun _ _ pos => (WIMLIB_ERR_SUCCESS, pos + 208);
     x_write_lookup_table := fun _ _ pos => (WIMLIB_ERR_SUCCESS, pos + 50);
     x_write_xml_data := fun _ _ _ _ pos => (WIMLIB_ERR_SUCCESS, pos + 30);
     x_write_integrity_table :=
       fun _ _ _ _ pos => (WIMLIB_ERR_SUCCESS, pos + 20);
     wim_info_get_total_bytes := fun _ => 0;
     x_zero_out_refcnts := fun t => t;
     x_wimlib_select_image := fun _ _ pos => (WIMLIB_ERR_SUCCESS, pos);
     x_write_file_resource_tree :=
       fun _ pos => (WIMLIB_ERR_SUCCESS, tt, pos + 1000);
     x_write_metadata_resource :=
       fun w pos => (WIMLIB_ERR_SUCCESS, image_metadata _ _ w, tt, pos + 100)
  |}.

Definition entry (off sz : Z) : resource_entry :=
  {| re_size := sz; re_flags := 0; re_offset := off;
     re_original_size := sz |}.

(** Two images, the second one bootable. *)
Definition header : wim_header :=
  {| hdr_flags := 0; image_count := 2; boot_idx := 2;
     lookup_table_res_entry := zero_resource_entry;
     xml_res_entry := zero_resource_entry;
     boot_metadata_res_entry := zero_resource_entry;
     integrity := zero_resource_entry |}.

Definition metadata : list struct_image_metadata :=
  [ {| lookup_table_entry := {| output_resource_entry := entry 1208 100 |} |};
    {| lookup_table_entry := {| output_resource_entry := entry 2308 100 |} |} ].

Definition archive : WIMStruct unit unit :=
  {| filename := Some "a.wim"%string; fp := Some "a.wim"%string;
     out_fp := Some "out.wim"%string; hdr := header;
     image_metadata := Some metadata; lookup_table := tt; wim_info := tt;
     current_image := 1 |}.

(** The state in which [finish_write] is entered: the resources are
    written, the stream stands at 2408. *)
Definition start : world unit unit Z :=
  {| wim := archive; ext := 2408; trace := [] |}.

Definition written_headers (t : list sys_event) : list wim_header :=
  flat_map (fun e => match e with
                     | Ev_write _ (W_header h) _ => [h]
                     | _ => []
                     end) t.

Example finish_write_all_images :
  written_headers (trace (snd (finish_write _ _ _ X (-1) 1 1 start)))
  = [ {| hdr_flags := 0; image_count := 2; boot_idx := 2;
         lookup_table_res_entry :=
           {| re_size := 50; re_flags := 2; re_offset := 2408;
              re_original_size := 50 |};
         xml_res_entry := entry 2458 30;
         boot_metadata_res_entry := entry 2308 100;
         integrity := entry 2488 20 |} ].
Proof. reflexivity. Qed.

Example finish_write_first_image :
  written_headers (trace (snd (finish_write _ _ _ X 1 0 1 start)))
  = [ {| hdr_flags := 0; image_count := 1; boot_idx := 0;
         lookup_table_res_entry :=
           {| re_size := 50; re_flags := 2; re_offset := 2408;
              re_original_size := 50 |};
         xml_res_entry := entry 2458 30;
         boot_metadata_res_entry := zero_resource_entry;
         integrity := zero_resource_entry |} ].
Proof. reflexivity. Qed.

Example finish_write_boot_image :
  written_headers (trace (snd (finish_write _ _ _ X 2 0 1 start)))
  = [ {| hdr_flags := 0; image_count := 1; boot_idx := 1;
         lookup_table_res_entry :=
           {| re_size := 50; re_flags := 2; re_offset := 2408;
              re_original_size := 50 |};
         xml_res_entry := entry 2458 30;
         boot_metadata_res_entry := entry 2308 100;
         integrity := zero_resource_entry |} ].
Proof. reflexivity. Qed.

(** On the demo archive, written whole with an integrity table: the
    call succeeds, and the header it has written records the lookup table
    at 2408 with 50 bytes, the XML data at 2458 with 30 bytes, the
    integrity table at 2488. *)
Lemma finish_write_records_positions_witness :
  1 <> 0 /\
  fst (finish_write _ _ _ X (-1) 1 1 start) = WIMLIB_ERR_SUCCESS /\
  exists evs h,
    trace (snd (finish_write _ _ _ X (-1) 1 1 start)) = trace start ++ evs /\
    In (Ev_write (Some "out.wim"%string) (W_header h) WIMLIB_ERR_SUCCESS)
       evs /\
    re_offset (lookup_table_res_entry h) = 2408 /\
    re_size (lookup_table_res_entry h) = 50 /\
    re_offset (xml_res_entry h) = 2458 /\
    re_size (xml_res_entry h) = 30 /\
    re_offset (integrity h) = 2488.
Proof.
  split; [lia |]. split; [reflexivity |].
  destruct (finish_write_records_positions _ _ _ X (-1) 1 1 start
              ltac:(lia)) as [evs [Ht [Hdone H]]].
  destruct (Hdone eq_refl) as [h [mid Hevs]].
  assert (Hin : In (Ev_write (Some "out.wim"%string) (W_header h)
                      WIMLIB_ERR_SUCCESS) evs).
  { rewrite Hevs. right. right. apply in_or_app. right. left. reflexivity. }
  exists evs, h. split; [exact Ht |]. split; [exact Hin |].
  destruct (H _ h _ Hin)
    as [e1 [e2 [H1 [H2 [Ho [Hs [Hxo [Hxs Hint]]]]]]]].
  simpl in *. injection H1 as <-. injection H2 as <-.
  destruct Hint as [Hio _]; [discriminate |].
  repeat split; lia.
Defined.

(** On the demo archive, of which the bootable image 2 alone is
    written: the call succeeds and the header carries the entry of the
    metadata of image 2. *)
Lemma finish_write_single_image_witness :
  2 <> WIM_ALL_IMAGES _ _ _ X /\ 1 <= 2 /\
  fst (finish_write _ _ _ X 2 0 1 start) = WIMLIB_ERR_SUCCESS /\
  exists evs h,
    trace (snd (finish_write _ _ _ X 2 0 1 start)) = trace start ++ evs /\
    In (Ev_write (Some "out.wim"%string) (W_header h) WIMLIB_ERR_SUCCESS)
       evs /\
    image_count h = 1 /\ boot_idx h = 1 /\
    boot_metadata_res_entry h = entry 2308 100.
Proof.
  split; [discriminate |]. split; [lia |]. split; [reflexivity |].
  destruct (finish_write_single_image _ _ _ X 2 0 1 start
              ltac:(discriminate) ltac:(lia)) as [evs [Ht [Hdone H]]].
  destruct (Hdone eq_refl) as [h [before Hevs]].
  assert (Hin : In (Ev_write (Some "out.wim"%string) (W_header h)
                      WIMLIB_ERR_SUCCESS) evs).
  { rewrite Hevs. apply in_or_app. right. right. left. reflexivity. }
  exists evs, h. split; [exact Ht |]. split; [exact Hin |].
  destruct (H _ h _ Hin) as [Hc [Hb [_ [_ Hcopy]]]].
  repeat split; [exact Hc | exact Hb |].
  exact (Hcopy eq_refl metadata _ eq_refl eq_refl).
Defined.

(** The demo archive with no array of image metadata. *)
Definition unloaded : world unit unit Z :=
  {| wim := set_image_metadata _ _ None archive; ext := 2408; trace := [] |}.

(** The bootable image 2 is the one written and the header says so
    ([boot_idx = 1]), yet its boot-metadata entry is all zero: the
    archive has no array of image metadata to copy the entry from. *)
Lemma boot_entry_zeroed_without_metadata :
  boot_idx (hdr _ _ (wim unloaded)) = 2 /\
  image_metadata _ _ (wim unloaded) = None /\
  fst (finish_write _ _ _ X 2 0 1 unloaded) = WIMLIB_ERR_SUCCESS /\
  written_headers (trace (snd (finish_write _ _ _ X 2 0 1 unloaded)))
  = [ {| hdr_flags := 0; image_count := 1; boot_idx := 1;
         lookup_table_res_entry :=
           {| re_size := 50; re_flags := 2; re_offset := 2408;
              re_original_size := 50 |};
         xml_res_entry := entry 2458 30;
         boot_metadata_res_entry := zero_resource_entry;
         integrity := zero_resource_entry |} ].
Proof. repeat split. Qed.

(** The demo archive written whole to [new.wim], with an integrity
    table. *)
Lemma wimlib_write_success_witness :
  fst (wimlib_write _ _ _ X "new.wim" (-1) 1 start) = WIMLIB_ERR_SUCCESS /\
  out_fp _ _ (wim (snd (wimlib_write _ _ _ X "new.wim" (-1) 1 start)))
  = None /\
  exists mid h,
    trace (snd (wimlib_write _ _ _ X "new.wim" (-1) 1 start))
    = trace start
      ++ Ev_fopen "new.wim" (write_mode _ _ _ X 1) true
      :: Ev_write (Some "new.wim"%string) (W_header (hdr _ _ (wim start)))
           WIMLIB_ERR_SUCCESS
      :: mid
      ++ [Ev_fseeko (Some "new.wim"%string) 0 0;
          Ev_write (Some "new.wim"%string) (W_header h) WIMLIB_ERR_SUCCESS;
          Ev_fclose (Some "new.wim"%string) 0] /\
    Forall (writes_to (Some "new.wim"%string)) mid.
Proof.
  split; [reflexivity |].
  apply (wimlib_write_success _ _ _ X "new.wim" (-1) 1 start eq_refl).
Defined.

(** The same externals with an [fopen] that fails. *)
Definition X_noopen : externals unit unit Z :=
  {| WIM_ALL_IMAGES := WIM_ALL_IMAGES _ _ _ X;
     WIM_HEADER_DISK_SIZE := WIM_HEADER_DISK_SIZE _ _ _ X;
     WIM_RESHDR_FLAG_METADATA := WIM_RESHDR_FLAG_METADATA _ _ _ X;
     WIMLIB_WRITE_FLAG_CHECK_INTEGRITY := WIMLIB_WRITE_FLAG_CHECK_INTEGRITY _ _ _ X;
     WIMLIB_WRITE_FLAG_SHOW_PROGRESS := WIMLIB_WRITE_FLAG_SHOW_PROGRESS _ _ _ X;
     x_ftello := x_ftello _ _ _ X;
     x_fseeko := x_fseeko _ _ _ X;
     x_fopen := fun _ _ pos => (false, pos);
     x_fclose := x_fclose _ _ _ X;
     x_rename := x_rename _ _ _ X;
     x_unlink := x_unlink _ _ _ X;
     x_rand := x_rand _ _ _ X;
     x_write_header := x_write_header _ _ _ X;
     x_write_lookup_table := x_write_lookup_table _ _ _ X;
     x_write_xml_data := x_write_xml_data _ _ _ X;
     x_write_integrity_table := x_write_integrity_table _ _ _ X;
     wim_info_get_total_bytes := wim_info_get_total_bytes _ _ _ X;
     x_zero_out_refcnts := x_zero_out_refcnts _ _ _ X;
     x_wimlib_select_image := x_wimlib_select_image _ _ _ X;
     x_write_file_resource_tree := x_write_file_resource_tree _ _ _ X;
     x_write_metadata_resource := x_write_metadata_resource _ _ _ X |}.

(** The calls of [wimlib_overwrite_xml_and_header]: all succeed. *)
Definition Y : rw_externals Z :=
  {| x_malloc := fun _ _ => true;
     x_read_uncompressed_resource :=
       fun _ _ _ pos => (WIMLIB_ERR_SUCCESS, pos);
     x_fwrite := fun _ size pos => (size, pos + size);
     x_fflush := fun _ pos => (0, pos);
     x_ftruncate := fun _ _ pos => (0, pos) |}.

(** The archive, read from [a.wim], whose XML data is to be rewritten
    at offset 2458. *)
Definition reading : rw_world unit unit Z :=
  {| rw_wim :=
       set_hdr _ _
         (upd_xml_res_entry (fun _ => entry 2458 30) header) archive;
     rw_ext := 0; rw_trace := [] |}.


Lemma overwrite_xml_and_header_not_reopened_witness :
  fst (x_fopen _ _ _ X_noopen "a.wim" "r+b"
         (snd (x_fclose _ _ _ X_noopen (Some "a.wim"%string) 0)))
  = false /\
  fst (wimlib_overwrite_xml_and_header _ _ _ X_noopen Y 0 reading)
  = WIMLIB_ERR_OPEN /\
  rw_wim _ _ _ (snd (wimlib_overwrite_xml_and_header _ _ _ X_noopen Y 0
                       reading))
  = rw_wim _ _ _ reading.
Proof.
  split; [reflexivity |].
  pose proof (overwrite_xml_and_header_not_reopened _ _ _ X_noopen Y 0
                reading) as H.
  cbv zeta in H. cbn [filename rw_wim reading set_hdr archive] in H.
  destruct (H eq_refl) as [Hr [Hw _]]. split; [exact Hr | exact Hw].
Defined.
End Demo.
End WimWrite.

(** * extract.c *)
Module WimExtract.

(** [tchar]: a character of a path. *)
Definition tchar : Type := ascii.

(** Stream descriptors ([struct wim_lookup_table_entry]), inodes and
  dentries live in memory and are known by their addresses. *)
Abbreviation lte_ptr := nat (only parsing).
Abbreviation inode_ptr := nat (only parsing).

(** [struct wim_ads_entry], the fields read here. *)
Record wim_ads_entry : Type := {
stream_name_nbytes : Z;
lte : option lte_ptr }.

(** [struct wim_inode]: the array [i_ads_entries] with its [i_num_ads]
  elements.  [inode_resolve_ltes] has replaced the hashes by pointers to
  the descriptors; in the model the inode holds the pointers from the
  start. *)
Record wim_inode : Type := {
i_ads_entries : list wim_ads_entry }.

Definition i_num_ads (inode : wim_inode) : nat :=
List.length (i_ads_entries inode).

(** [struct wim_dentry].  A null [_full_path] is excluded by the assertion
  in [do_apply_op]. *)
Inductive wim_dentry : Type := mk_dentry {
d_addr : nat;
d_inode : inode_ptr;
_full_path : list tchar;
full_path_nbytes : Z;
d_children : list wim_dentry }.

(** The static part of a descriptor: its place in the archive. *)
Record wim_lookup_table_entry : Type := {
resource_entry_offset : Z;
resource_entry_original_size : Z }.

Inductive wimlib_progress_msg : Type :=
| WIMLIB_PROGRESS_MSG_EXTRACT_IMAGE_BEGIN
| WIMLIB_PROGRESS_MSG_EXTRACT_TREE_BEGIN
| WIMLIB_PROGRESS_MSG_EXTRACT_DIR_STRUCTURE_BEGIN
| WIMLIB_PROGRESS_MSG_EXTRACT_DIR_STRUCTURE_END
| WIMLIB_PROGRESS_MSG_EXTRACT_DENTRY
| WIMLIB_PROGRESS_MSG_EXTRACT_STREAMS
| WIMLIB_PROGRESS_MSG_APPLY_TIMESTAMPS
| WIMLIB_PROGRESS_MSG_EXTRACT_IMAGE_END
| WIMLIB_PROGRESS_MSG_EXTRACT_TREE_END.

(** [union wimlib_progress_info], member [extract]. *)
Record progress_extract : Type := {
wimfile_name : option (list tchar);
image : Z;
p_extract_flags : Z;
image_name : list tchar;
extract_root_wim_source_path : list tchar;
p_target : list tchar;
cur_path : list tchar;
num_streams : Z;
total_bytes : Z;
completed_bytes : Z }.

Definition zero_progress : progress_extract :=
{| wimfile_name := None; image := 0; p_extract_flags := 0;
   image_name := []; extract_root_wim_source_path := [];
   p_target := []; cur_path := []; num_streams := 0; total_bytes := 0;
   completed_bytes := 0 |}.

(** The two values the function pointer [args->apply_dentry] takes. *)
Inductive apply_dentry_ptr : Type :=
| ptr_null
| ptr_apply_dentry_normal
| ptr_apply_dentry_ntfs.

(** What reaches the outside, in the order the code does it. *)
Inductive event : Type :=
| Ev_progress (msg : wimlib_progress_msg) (info : progress_extract)
| Ev_do_apply_dentry (output_path : list tchar) (len : Z) (dentry : nat)
  (ret : wimlib_error_code)
| Ev_do_apply_dentry_timestamps (output_path : list tchar) (len : Z)
  (dentry : nat) (ret : wimlib_error_code)
| Ev_apply_dentry_ntfs (dentry : nat) (ret : wimlib_error_code)
| Ev_apply_dentry_timestamps_ntfs (dentry : nat) (ret : wimlib_error_code)
| Ev_extract_to_stdout (lte : lte_ptr) (size : Z) (ret : wimlib_error_code)
| Ev_ntfs_mount (target : list tchar) (ok : bool)
| Ev_ntfs_umount (ret : Z)
| Ev_mkdir (path : list tchar) (ret : Z)
| Ev_merge_lookup_tables
| Ev_unmerge_lookup_table
| Ev_free_extracted_files
| Ev_message (level : msg_level) (text : string).

Definition u64 (z : Z) : Z := z mod 2 ^ 64.
Definition u32 (z : Z) : Z := z mod 2 ^ 32.
Definition nonzero (z : Z) : bool := negb (z =? 0).
Definition is_null {A} (p : option A) : bool :=
match p with None => true | Some _ => false end.

Section Model.
(** The state of everything outside the two files: the target file
    system, the NTFS volume, the archive on disk. *)
Variable ext_state : Type.

(** A progress function of the caller. *)
Definition wimlib_progress_func_t : Type :=
  wimlib_progress_msg -> progress_extract -> ext_state -> ext_state.

(** [struct apply_args]. *)
Record apply_args : Type := {
  target : list tchar;
  target_nchars : Z;
  wim_source_path_nchars : Z;
  a_extract_flags : Z;
  progress_func : option wimlib_progress_func_t;
  progress : progress_extract;
  extract_root : option nat;
  apply_dentry : apply_dentry_ptr;
  target_realpath : option (list tchar);
  target_realpath_len : Z;
  vol_mounted : bool }.

Definition zero_args : apply_args :=
  {| target := []; target_nchars := 0; wim_source_path_nchars := 0;
     a_extract_flags := 0; progress_func := None; progress := zero_progress;
     extract_root := None; apply_dentry := ptr_null;
     target_realpath := None; target_realpath_len := 0;
     vol_mounted := false |}.

(** [struct find_streams_ctx]. *)
Record find_streams_ctx : Type := {
  stream_list : list lte_ptr;
  ctx_extract_flags : Z }.

(** The fields of [WIMStruct] read here. *)
Record WIMStruct : Type := {
  filename : option (list tchar);
  current_image : Z;
  hdr_flags : Z;
  hdr_image_count : Z }.

(** Memory and the outside.  [args] and [ctx] are the structures the
    running [extract_tree] and [find_streams_for_extraction] keep on their
    stacks and hand to the visitors by address. *)
Record world : Type := {
  out_refcnt : lte_ptr -> Z;
  lte_dentry_list : lte_ptr -> list wim_dentry;
  i_visited : inode_ptr -> bool;
  needs_extraction : nat -> bool;
  args : apply_args;
  ctx : find_streams_ctx;
  wim : WIMStruct;
  ext : ext_state;
  trace : list event }.

(** Constants of the headers, the build configuration, and the functions of
    other files, of libc and of libntfs-3g. *)
Record externals : Type := {
  WITH_NTFS_3G : bool;
  WIN32 : bool;
  sizeof_tchar : Z;
  sizeof_pointer : Z;
  sizeof_extract_command : Z;
  WIMLIB_ALL_IMAGES : Z;
  WIM_HDR_FLAG_RP_FIX : Z;
  WIMLIB_EXTRACT_FLAG_NTFS : Z;
  WIMLIB_EXTRACT_FLAG_SYMLINK : Z;
  WIMLIB_EXTRACT_FLAG_HARDLINK : Z;
  WIMLIB_EXTRACT_FLAG_SEQUENTIAL : Z;
  WIMLIB_EXTRACT_FLAG_VERBOSE : Z;
  WIMLIB_EXTRACT_FLAG_UNIX_DATA : Z;
  WIMLIB_EXTRACT_FLAG_RPFIX : Z;
  WIMLIB_EXTRACT_FLAG_NORPFIX : Z;
  WIMLIB_EXTRACT_FLAG_TO_STDOUT : Z;
  WIMLIB_EXTRACT_FLAG_NO_STREAMS : Z;
  WIMLIB_EXTRACT_FLAG_MULTI_IMAGE : Z;
  WIMLIB_EXTRACT_MASK_PUBLIC : Z;
  (** the inodes and descriptors in memory *)
  inode_at : inode_ptr -> wim_inode;
  lte_at : lte_ptr -> wim_lookup_table_entry;
  (** inline functions of the headers *)
  inode_unnamed_lte_resolved : wim_inode -> option lte_ptr;
  inode_stream_lte_resolved : wim_inode -> nat -> option lte_ptr;
  dentry_is_directory : wim_dentry -> bool;
  dentry_is_regular_file : wim_dentry -> bool;
  wim_resource_size : wim_lookup_table_entry -> Z;
  cmp_streams_by_wim_position :
    wim_lookup_table_entry -> wim_lookup_table_entry -> Z;
  (** [lte->extracted_file], a field the backends own *)
  x_extracted_file : lte_ptr -> ext_state -> bool;
  (** the backends: result, [completed_bytes] afterwards, outside state *)
  unix_do_apply_dentry :
    list tchar -> Z -> wim_dentry -> apply_args -> ext_state ->
    wimlib_error_code * Z * ext_state;
  unix_do_apply_dentry_timestamps :
    list tchar -> Z -> wim_dentry -> apply_args -> ext_state ->
    wimlib_error_code * Z * ext_state;
  win32_do_apply_dentry :
    list tchar -> Z -> wim_dentry -> apply_args -> ext_state ->
    wimlib_error_code * Z * ext_state;
  win32_do_apply_dentry_timestamps :
    list tchar -> Z -> wim_dentry -> apply_args -> ext_state ->
    wimlib_error_code * Z * ext_state;
  x_apply_dentry_ntfs :
    wim_dentry -> apply_args -> ext_state ->
    wimlib_error_code * Z * ext_state;
  x_apply_dentry_timestamps_ntfs :
    wim_dentry -> apply_args -> ext_state ->
    wimlib_error_code * Z * ext_state;
  x_extract_wim_resource_to_fd :
    lte_ptr -> Z -> ext_state -> wimlib_error_code * ext_state;
  x_ntfs_mount : list tchar -> ext_state -> bool * ext_state;
  x_ntfs_umount : ext_state -> Z * ext_state;
  x_realpath : list tchar -> ext_state -> option (list tchar);
  x_malloc : Z -> ext_state -> bool;
  qsort :
    (lte_ptr -> lte_ptr -> Z) -> list lte_ptr -> list lte_ptr;
  x_get_dentry : Z -> list tchar -> ext_state -> option wim_dentry;
  x_calculate_dentry_tree_full_paths :
    wim_dentry -> ext_state -> wimlib_error_code * ext_state;
  wimlib_get_image_name : Z -> ext_state -> option (list tchar);
  x_select_wim_image : Z -> ext_state -> wimlib_error_code * ext_state;
  x_wim_checksum_unhashed_streams :
    ext_state -> wimlib_error_code * ext_state;
  x_verify_swm_set : nat -> ext_state -> wimlib_error_code;
  x_merge_lookup_tables : nat -> ext_state -> ext_state;
  x_unmerge_lookup_table : ext_state -> ext_state;
  x_free_extracted_files : ext_state -> ext_state;
  canonicalize_wim_path : list tchar -> ext_state -> option (list tchar);
  canonicalize_fs_path : list tchar -> ext_state -> option (list tchar);
  x_tstat : list tchar -> ext_state -> Z * bool * bool;
  x_tmkdir : list tchar -> ext_state -> Z * ext_state;
  xml_get_max_image_name_len : ext_state -> Z;
  decimal : Z -> list tchar }.

Variable X : externals.

(** Memory indexed by addresses: [upd m k v] is [m] after a store of [v]
    at [k]. *)
Definition upd {A} (m : nat -> A) (k : nat) (v : A) : nat -> A :=
  fun k' => if Nat.eqb k' k then v else m k'.

Definition set_out_refcnt (f : lte_ptr -> Z) (s : world) : world :=
  {| out_refcnt := f; lte_dentry_list := lte_dentry_list s;
     i_visited := i_visited s; needs_extraction := needs_extraction s;
     args := args s; ctx := ctx s; wim := wim s; ext := ext s;
     trace := trace s |}.
Definition set_lte_dentry_list (f : lte_ptr -> list wim_dentry) (s : world)
  : world :=
  {| out_refcnt := out_refcnt s; lte_dentry_list := f;
     i_visited := i_visited s; needs_extraction := needs_extraction s;
     args := args s; ctx := ctx s; wim := wim s; ext := ext s;
     trace := trace s |}.
Definition set_i_visited (f : inode_ptr -> bool) (s : world) : world :=
  {| out_refcnt := out_refcnt s; lte_dentry_list := lte_dentry_list s;
     i_visited := f; needs_extraction := needs_extraction s;
     args := args s; ctx := ctx s; wim := wim s; ext := ext s;
     trace := trace s |}.
Definition set_needs_extraction (f : nat -> bool) (s : world) : world :=
  {| out_refcnt := out_refcnt s; lte_dentry_list := lte_dentry_list s;
     i_visited := i_visited s; needs_extraction := f;
     args := args s; ctx := ctx s; wim := wim s; ext := ext s;
     trace := trace s |}.
Definition set_args (a : apply_args) (s : world) : world :=
  {| out_refcnt := out_refcnt s; lte_dentry_list := lte_dentry_list s;
     i_visited := i_visited s; needs_extraction := needs_extraction s;
     args := a; ctx := ctx s; wim := wim s; ext := ext s;
     trace := trace s |}.
Definition set_ctx (c : find_streams_ctx) (s : world) : world :=
  {| out_refcnt := out_refcnt s; lte_dentry_list := lte_dentry_list s;
     i_visited := i_visited s; needs_extraction := needs_extraction s;
     args := args s; ctx := c; wim := wim s; ext := ext s;
     trace := trace s |}.
Definition set_wim (w : WIMStruct) (s : world) : world :=
  {| out_refcnt := out_refcnt s; lte_dentry_list := lte_dentry_list s;
     i_visited := i_visited s; needs_extraction := needs_extraction s;
     args := args s; ctx := ctx s; wim := w; ext := ext s;
     trace := trace s |}.
Definition with_ext (e : ext_state) (s : world) : world :=
  {| out_refcnt := out_refcnt s; lte_dentry_list := lte_dentry_list s;
     i_visited := i_visited s; needs_extraction := needs_extraction s;
     args := args s; ctx := ctx s; wim := wim s; ext := e;
     trace := trace s |}.
Definition log (ev : event) (s : world) : world :=
  {| out_refcnt := out_refcnt s; lte_dentry_list := lte_dentry_list s;
     i_visited := i_visited s; needs_extraction := needs_extraction s;
     args := args s; ctx := ctx s; wim := wim s; ext := ext s;
     trace := trace s ++ [ev] |}.
Definition with_args (f : apply_args -> apply_args) (s : world) : world :=
  set_args (f (args s)) s.

(** Assignments to the fields of [struct apply_args]. *)
Definition set_extract_flags (v : Z) (a : apply_args) : apply_args :=
  {| target := target a; target_nchars := target_nchars a;
     wim_source_path_nchars := wim_source_path_nchars a;
     a_extract_flags := v; progress_func := progress_func a;
     progress := progress a; extract_root := extract_root a;
     apply_dentry := apply_dentry a; target_realpath := target_realpath a;
     target_realpath_len := target_realpath_len a;
     vol_mounted := vol_mounted a |}.
Definition set_progress (v : progress_extract) (a : apply_args) : apply_args :=
  {| target := target a; target_nchars := target_nchars a;
     wim_source_path_nchars := wim_source_path_nchars a;
     a_extract_flags := a_extract_flags a; progress_func := progress_func a;
     progress := v; extract_root := extract_root a;
     apply_dentry := apply_dentry a; target_realpath := target_realpath a;
     target_realpath_len := target_realpath_len a;
     vol_mounted := vol_mounted a |}.
Definition set_extract_root (v : option nat) (a : apply_args) : apply_args :=
  {| target := target a; target_nchars := target_nchars a;
     wim_source_path_nchars := wim_source_path_nchars a;
     a_extract_flags := a_extract_flags a; progress_func := progress_func a;
     progress := progress a; extract_root := v;
     apply_dentry := apply_dentry a; target_realpath := target_realpath a;
     target_realpath_len := target_realpath_len a;
     vol_mounted := vol_mounted a |}.
Definition set_apply_dentry (v : apply_dentry_ptr) (a : apply_args)
  : apply_args :=
  {| target := target a; target_nchars := target_nchars a;
     wim_source_path_nchars := wim_source_path_nchars a;
     a_extract_flags := a_extract_flags a; progress_func := progress_func a;
     progress := progress a; extract_root := extract_root a;
     apply_dentry := v; target_realpath := target_realpath a;
     target_realpath_len := target_realpath_len a;
     vol_mounted := vol_mounted a |}.
Definition set_target_realpath (v : option (list tchar)) (len : Z)
    (a : apply_args) : apply_args :=
  {| target := target a; target_nchars := target_nchars a;
     wim_source_path_nchars := wim_source_path_nchars a;
     a_extract_flags := a_extract_flags a; progress_func := progress_func a;
     progress := progress a; extract_root := extract_root a;
     apply_dentry := apply_dentry a; target_realpath := v;
     target_realpath_len := len; vol_mounted := vol_mounted a |}.
Definition set_vol_mounted (v : bool) (a : apply_args) : apply_args :=
  {| target := target a; target_nchars := target_nchars a;
     wim_source_path_nchars := wim_source_path_nchars a;
     a_extract_flags := a_extract_flags a; progress_func := progress_func a;
     progress := progress a; extract_root := extract_root a;
     apply_dentry := apply_dentry a; target_realpath := target_realpath a;
     target_realpath_len := target_realpath_len a; vol_mounted := v |}.

(** Assignments to the fields of [args->progress.extract]. *)
Definition set_cur_path (v : list tchar) (p : progress_extract)
  : progress_extract :=
  {| wimfile_name := wimfile_name p; image := image p;
     p_extract_flags := p_extract_flags p; image_name := image_name p;
     extract_root_wim_source_path := extract_root_wim_source_path p;
     p_target := p_target p; cur_path := v; num_streams := num_streams p;
     total_bytes := total_bytes p; completed_bytes := completed_bytes p |}.
Definition set_completed_bytes (v : Z) (p : progress_extract)
  : progress_extract :=
  {| wimfile_name := wimfile_name p; image := image p;
     p_extract_flags := p_extract_flags p; image_name := image_name p;
     extract_root_wim_source_path := extract_root_wim_source_path p;
     p_target := p_target p; cur_path := cur_path p;
     num_streams := num_streams p; total_bytes := total_bytes p;
     completed_bytes := v |}.
Definition set_totals (n t : Z) (p : progress_extract) : progress_extract :=
  {| wimfile_name := wimfile_name p; image := image p;
     p_extract_flags := p_extract_flags p; image_name := image_name p;
     extract_root_wim_source_path := extract_root_wim_source_path p;
     p_target := p_target p; cur_path := cur_path p;
     num_streams := n; total_bytes := t; completed_bytes := 0 |}.
Definition with_progress (f : progress_extract -> progress_extract)
    (a : apply_args) : apply_args :=
  set_progress (f (progress a)) a.

Definition ERROR (text : string) : block unit :=
  modify (log (Ev_message LVL_ERROR text)).
Definition WARNING (text : string) : block unit :=
  modify (log (Ev_message LVL_WARNING text)).

(** [goto label]: the rest of the function is the code at the label. *)
Definition goto {A} (label : @fn world) : block A :=
  fun s => let (r, s') := label s in (Returned r, s').

(** A call of the caller's progress function with [&args->progress]. *)
Definition call_progress (f : wimlib_progress_func_t)
    (msg : wimlib_progress_msg) : block unit :=
  fun s =>
    let info := progress (args s) in
    (Normal tt, log (Ev_progress msg info) (with_ext (f msg info (ext s)) s)).

Definition tstrlen (p : list tchar) : Z := Z.of_nat (List.length p).

(** [tmemcpy(p, src, n)]: the [n] characters at [src]. *)
Definition tmemcpy (src : list tchar) (n : Z) : list tchar :=
  firstn (Z.to_nat n) src.

Definition is_extract_root (dentry : wim_dentry) (a : apply_args) : bool :=
  match extract_root a with
  | Some r => Nat.eqb (d_addr dentry) r
  | None => false
  end.

(** *** [do_apply_op] (extract.c 52-80)

    The sizes are [size_t] values; they are computed here as integers,
    which is what the machine computes as long as the full path is at
    least as long as the source path. *)
Definition do_apply_op (dentry : wim_dentry)
    (apply_dentry_func : list tchar -> Z -> wim_dentry -> @fn world)
  : fn :=
  fun s =>
    let a := args s in
    let full_path := skipn 1 (_full_path dentry) in
    let full_path_nchars := full_path_nbytes dentry / sizeof_tchar X - 1 in
    let n := full_path_nchars - wim_source_path_nchars a in
    let p0 := tmemcpy (target a) (target_nchars a) in
    if negb (is_extract_root dentry a) then
      let p1 :=
        p0 ++ "/"%char
           :: tmemcpy (skipn (Z.to_nat (wim_source_path_nchars a)) full_path)
                      n in
      apply_dentry_func p1 (target_nchars a + 1 + n) dentry s
    else
      apply_dentry_func p0 (target_nchars a) dentry s.

(** A backend applied to a dentry: it reports its result, may have
    advanced [args->progress.extract.completed_bytes], and has changed the
    outside. *)
Definition run_backend
    (r : wimlib_error_code * Z * ext_state) (ev : wimlib_error_code -> event)
    (s : world) : wimlib_error_code * world :=
  match r with
  | (ret, completed, e) =>
      (ret, log (ev ret)
                (with_ext e (with_args (with_progress
                                          (set_completed_bytes completed)) s)))
  end.

Definition platform_do_apply_dentry (path : list tchar) (len : Z)
    (dentry : wim_dentry) : fn :=
  fun s =>
    run_backend
      ((if WIN32 X then win32_do_apply_dentry X else unix_do_apply_dentry X)
         path len dentry (args s) (ext s))
      (Ev_do_apply_dentry path len (d_addr dentry)) s.

Definition platform_do_apply_dentry_timestamps (path : list tchar) (len : Z)
    (dentry : wim_dentry) : fn :=
  fun s =>
    run_backend
      ((if WIN32 X then win32_do_apply_dentry_timestamps X
        else unix_do_apply_dentry_timestamps X)
         path len dentry (args s) (ext s))
      (Ev_do_apply_dentry_timestamps path len (d_addr dentry)) s.

Definition apply_dentry_ntfs (dentry : wim_dentry) : fn :=
  fun s =>
    run_backend (x_apply_dentry_ntfs X dentry (args s) (ext s))
                (Ev_apply_dentry_ntfs (d_addr dentry)) s.

Definition apply_dentry_timestamps_ntfs (dentry : wim_dentry) : fn :=
  fun s =>
    run_backend (x_apply_dentry_timestamps_ntfs X dentry (args s) (ext s))
                (Ev_apply_dentry_timestamps_ntfs (d_addr dentry)) s.

(** *** [apply_dentry_normal], [apply_dentry_timestamps_normal]
    (extract.c 84-104) *)
Definition apply_dentry_normal (dentry : wim_dentry) : fn :=
  do_apply_op dentry platform_do_apply_dentry.

Definition apply_dentry_timestamps_normal (dentry : wim_dentry) : fn :=
  do_apply_op dentry platform_do_apply_dentry_timestamps.

(** A call through the pointer [args->apply_dentry]. *)
Definition call_apply_dentry (p : apply_dentry_ptr) (dentry : wim_dentry)
  : fn :=
  match p with
  | ptr_apply_dentry_normal => apply_dentry_normal dentry
  | ptr_apply_dentry_ntfs => apply_dentry_ntfs dentry
  | ptr_null => fun s => (WIMLIB_ERR_SUCCESS, s)
  end.

(** *** [maybe_apply_dentry] (extract.c 109-133) *)
Definition maybe_apply_dentry (dentry : wim_dentry) : fn :=
  body (
    needed <- gets (fun s => needs_extraction s (d_addr dentry)) ;;
    when (negb needed) (Return WIMLIB_ERR_SUCCESS) ;;
    a <- gets args ;;
    when (nonzero (Z.land (a_extract_flags a)
                          (WIMLIB_EXTRACT_FLAG_NO_STREAMS X))
          && negb (dentry_is_directory X dentry)
          && negb (is_null (inode_unnamed_lte_resolved X
                              (inode_at X (d_inode dentry)))))
         (Return WIMLIB_ERR_SUCCESS) ;;
    (match progress_func a with
     | Some f =>
         if nonzero (Z.land (a_extract_flags a)
                            (WIMLIB_EXTRACT_FLAG_VERBOSE X)) then
           modify (with_args (with_progress
                                (set_cur_path (_full_path dentry)))) ;;
           call_progress f WIMLIB_PROGRESS_MSG_EXTRACT_DENTRY
         else pure tt
     | None => pure tt
     end) ;;
    ret <- call (call_apply_dentry (apply_dentry a) dentry) ;;
    when (negb (is_error ret))
         (modify (fun s => set_needs_extraction
                             (upd (needs_extraction s) (d_addr dentry) false)
                             s)) ;;
    pure ret).

(** *** Tree walks

    Modelled from the spec: [for_dentry_in_tree] and
    [for_dentry_in_tree_depth] (dentry.c, not under src/) call the visitor
    on every dentry of the tree, a dentry before its children (pre-order)
    or after them (post-order); the first result that is not zero ends the
    walk and is returned. *)
Fixpoint dentry_preorder (d : wim_dentry) : list wim_dentry :=
  match d with
  | mk_dentry _ _ _ _ children => d :: flat_map dentry_preorder children
  end.

Fixpoint dentry_postorder (d : wim_dentry) : list wim_dentry :=
  match d with
  | mk_dentry _ _ _ _ children => flat_map dentry_postorder children ++ [d]
  end.

Fixpoint visit_each (visitor : wim_dentry -> @fn world)
    (l : list wim_dentry) : fn :=
  match l with
  | [] => fun s => (WIMLIB_ERR_SUCCESS, s)
  | d :: rest =>
      fun s => let (ret, s') := visitor d s in
               if is_error ret then (ret, s')
               else visit_each visitor rest s'
  end.

Definition for_dentry_in_tree (root : wim_dentry)
    (visitor : wim_dentry -> @fn world) : fn :=
  visit_each visitor (dentry_preorder root).

Definition for_dentry_in_tree_depth (root : wim_dentry)
    (visitor : wim_dentry -> @fn world) : fn :=
  visit_each visitor (dentry_postorder root).

(** *** [calculate_bytes_to_extract] (extract.c 135-165) *)
Definition calculate_bytes_to_extract (stream_list : list lte_ptr)
    (extract_flags : Z) : block unit :=
  modify (fun s =>
    let step (acc : Z * Z) (l : lte_ptr) : Z * Z :=
      let (total_bytes, num_streams) := acc in
      if nonzero (Z.land extract_flags
                    (Z.lor (WIMLIB_EXTRACT_FLAG_SYMLINK X)
                           (WIMLIB_EXTRACT_FLAG_HARDLINK X)))
      then
        if negb (x_extracted_file X l (ext s)) then
          (u64 (total_bytes + wim_resource_size X (lte_at X l)),
           u64 (num_streams + 1))
        else acc
      else
        (u64 (total_bytes
              + u64 (out_refcnt s l * wim_resource_size X (lte_at X l))),
         u64 (num_streams + out_refcnt s l)) in
    let (total_bytes, num_streams) := fold_left step stream_list (0, 0) in
    with_args (with_progress (set_totals num_streams total_bytes)) s).

(** [list_add_tail(&dentry->tmp_list, &lte->lte_dentry_list)] *)
Definition add_dentry_to_lte (dentry : wim_dentry) (l : lte_ptr)
  : block unit :=
  modify (fun s =>
    set_lte_dentry_list
      (upd (lte_dentry_list s) l (lte_dentry_list s l ++ [dentry])) s).

(** *** [maybe_add_stream_for_extraction] (extract.c 167-175)

    The list is [ctx.stream_list]; [out_refcnt] is a 32-bit counter. *)
Definition maybe_add_stream_for_extraction (l : lte_ptr) : block unit :=
  fun s =>
    let r := u32 (out_refcnt s l + 1) in
    let s1 := set_out_refcnt (upd (out_refcnt s) l r) s in
    if r =? 1 then
      (Normal tt,
       set_ctx {| stream_list := stream_list (ctx s1) ++ [l];
                  ctx_extract_flags := ctx_extract_flags (ctx s1) |}
               (set_lte_dentry_list (upd (lte_dentry_list s1) l []) s1))
    else (Normal tt, s1).

(** Whether the alternate data streams are extracted at all: the
    [#if] chain of [dentry_find_streams_to_extract]. *)
Definition ads_included (extract_flags : Z) : bool :=
  if WITH_NTFS_3G X then
    nonzero (Z.land extract_flags (WIMLIB_EXTRACT_FLAG_NTFS X))
  else if WIN32 X then true
  else false.

(** The loop over [inode->i_ads_entries]; the result is [dentry_added]. *)
Fixpoint find_ads_streams (dentry : wim_dentry)
    (entries : list wim_ads_entry) (dentry_added : bool) : block bool :=
  match entries with
  | [] => pure dentry_added
  | e :: rest =>
      added <-
        (if nonzero (stream_name_nbytes e) then
           match lte e with
           | Some l =>
               visited <- gets (fun s => i_visited s (d_inode dentry)) ;;
               when (negb visited) (maybe_add_stream_for_extraction l) ;;
               if negb dentry_added then
                 add_dentry_to_lte dentry l ;; pure true
               else pure dentry_added
           | None => pure dentry_added
           end
         else pure dentry_added) ;;
      find_ads_streams dentry rest added
  end.

(** *** [dentry_find_streams_to_extract] (extract.c 182-235) *)
Definition dentry_find_streams_to_extract (dentry : wim_dentry) : fn :=
  body (
    let inode := inode_at X (d_inode dentry) in
    extract_flags <- gets (fun s => ctx_extract_flags (ctx s)) ;;
    modify (fun s => set_needs_extraction
                       (upd (needs_extraction s) (d_addr dentry) true) s) ;;
    dentry_added <-
      (match inode_unnamed_lte_resolved X inode with
       | Some l =>
           visited <- gets (fun s => i_visited s (d_inode dentry)) ;;
           when (negb visited) (maybe_add_stream_for_extraction l) ;;
           add_dentry_to_lte dentry l ;;
           pure true
       | None => pure false
       end) ;;
    (if ads_included extract_flags then
       find_ads_streams dentry (i_ads_entries inode) dentry_added
     else pure dentry_added) ;;
    modify (fun s => set_i_visited (upd (i_visited s) (d_inode dentry) true) s) ;;
    pure WIMLIB_ERR_SUCCESS).

(** *** [dentry_resolve_and_zero_lte_refcnt] (extract.c 237-251) *)
Definition dentry_resolve_and_zero_lte_refcnt (dentry : wim_dentry) : fn :=
  fun s =>
    let inode := inode_at X (d_inode dentry) in
    (WIMLIB_ERR_SUCCESS,
     fold_left
       (fun s i =>
          match inode_stream_lte_resolved X inode i with
          | Some l => set_out_refcnt (upd (out_refcnt s) l 0) s
          | None => s
          end)
       (seq 0 (S (i_num_ads inode))) s).

(** *** [find_streams_for_extraction] (extract.c 253-266)

    The result is the list handed over to the caller's [stream_list]. *)
Definition find_streams_for_extraction (root : wim_dentry)
    (extract_flags : Z) : block (list lte_ptr) :=
  modify (set_ctx {| stream_list := [];
                     ctx_extract_flags := extract_flags |}) ;;
  call (for_dentry_in_tree root dentry_resolve_and_zero_lte_refcnt) ;;
  call (for_dentry_in_tree root dentry_find_streams_to_extract) ;;
  gets (fun s => stream_list (ctx s)).

(** *** [dentry_reset_needs_extraction] (extract.c 268-274) *)
Definition dentry_reset_needs_extraction (dentry : wim_dentry) : fn :=
  fun s =>
    (WIMLIB_ERR_SUCCESS,
     set_i_visited (upd (i_visited s) (d_inode dentry) false)
       (set_needs_extraction
          (upd (needs_extraction s) (d_addr dentry) false) s)).

(** [struct apply_operations] and its two values. *)
Record apply_operations : Type := {
  ops_apply_dentry : apply_dentry_ptr;
  ops_apply_dentry_timestamps : wim_dentry -> @fn world }.

Definition normal_apply_operations : apply_operations :=
  {| ops_apply_dentry := ptr_apply_dentry_normal;
     ops_apply_dentry_timestamps := apply_dentry_timestamps_normal |}.

Definition ntfs_apply_operations : apply_operations :=
  {| ops_apply_dentry := ptr_apply_dentry_ntfs;
     ops_apply_dentry_timestamps := apply_dentry_timestamps_ntfs |}.

Definition UINT64_MAX : Z := 2 ^ 64 - 1.

(** The body of the inner loop of [apply_stream_list], run for the
    dentries of one descriptor; the value is [next_progress]. *)
Fixpoint apply_stream_dentries (dentries : list wim_dentry)
    (progress_func : option wimlib_progress_func_t)
    (bytes_per_progress next_progress : Z) : block Z :=
  match dentries with
  | [] => pure next_progress
  | dentry :: rest =>
      ret <- call (maybe_apply_dentry dentry) ;;
      when (is_error ret) (Return ret) ;;
      p <- gets (fun s => progress (args s)) ;;
      next <-
        (match progress_func with
         | Some f =>
             if next_progress <=? completed_bytes p then
               call_progress f WIMLIB_PROGRESS_MSG_EXTRACT_STREAMS ;;
               p <- gets (fun s => progress (args s)) ;;
               if total_bytes p <=? completed_bytes p then pure UINT64_MAX
               else pure (Z.min (u64 (completed_bytes p + bytes_per_progress))
                                (total_bytes p))
             else pure next_progress
         | None => pure next_progress
         end) ;;
      apply_stream_dentries rest progress_func bytes_per_progress next
  end.

Fixpoint apply_streams (streams : list lte_ptr)
    (progress_func : option wimlib_progress_func_t)
    (bytes_per_progress next_progress : Z) : block Z :=
  match streams with
  | [] => pure next_progress
  | l :: rest =>
      dentries <- gets (fun s => lte_dentry_list s l) ;;
      next <- apply_stream_dentries dentries progress_func
                bytes_per_progress next_progress ;;
      apply_streams rest progress_func bytes_per_progress next
  end.

(** *** [apply_stream_list] (extract.c 293-342) *)
Definition apply_stream_list (stream_list : list lte_ptr)
    (ops : apply_operations)
    (progress_func : option wimlib_progress_func_t) : fn :=
  body (
    total <- gets (fun s => total_bytes (progress (args s))) ;;
    let bytes_per_progress := total / 100 in
    let next_progress := bytes_per_progress in
    apply_streams stream_list progress_func bytes_per_progress
                  next_progress ;;
    pure WIMLIB_ERR_SUCCESS).

(** *** [sort_stream_list_by_wim_position] (extract.c 344-376)

    The value is the result and the list as the function leaves it. *)
Definition sort_stream_list_by_wim_position (stream_list : list lte_ptr)
  : block (wimlib_error_code * list lte_ptr) :=
  let num_streams := Z.of_nat (List.length stream_list) in
  let array_size := num_streams * sizeof_pointer X in
  ok <- gets (fun s => x_malloc X array_size (ext s)) ;;
  if negb ok then
    ERROR "Failed to allocate bytes to sort stream entries" ;;
    pure (WIMLIB_ERR_NOMEM, stream_list)
  else
    let array := stream_list in
    let array :=
      qsort X (fun a b => cmp_streams_by_wim_position X
                            (lte_at X a) (lte_at X b)) array in
    pure (WIMLIB_ERR_SUCCESS, array).

(** *** [extract_dentry_to_stdout] (extract.c 385-403) *)
Definition extract_dentry_to_stdout (dentry : wim_dentry) : fn :=
  body (
    if negb (dentry_is_regular_file X dentry) then
      ERROR "not a regular file and therefore cannot be extracted to standard output" ;;
      pure WIMLIB_ERR_NOT_A_REGULAR_FILE
    else
      match inode_unnamed_lte_resolved X (inode_at X (d_inode dentry)) with
      | Some l =>
          fun s =>
            let size := wim_resource_size X (lte_at X l) in
            let (ret, e) := x_extract_wim_resource_to_fd X l size (ext s) in
            (Normal ret, log (Ev_extract_to_stdout l size ret) (with_ext e s))
      | None => pure WIMLIB_ERR_SUCCESS
      end).

(** *** [extract_tree] (extract.c 440-594)

    The labels at the end of the function, each a piece of code that runs
    on to the next; [extract_flags] and [ret] are the locals of
    [extract_tree] as they are when control arrives. *)
Definition out_ntfs_umount (extract_flags : Z) (ret : wimlib_error_code)
  : fn :=
  if WITH_NTFS_3G X
     && nonzero (Z.land extract_flags (WIMLIB_EXTRACT_FLAG_NTFS X))
  then
    body (
      r <- (fun s => let (r, e) := x_ntfs_umount X (ext s) in
                     (Normal r, log (Ev_ntfs_umount r) (with_ext e s))) ;;
      if nonzero r then
        ERROR "Failed to unmount NTFS volume" ;;
        pure (if is_error ret then ret else WIMLIB_ERR_NTFS_3G)
      else pure ret)
  else fun s => (ret, s).

Definition out_dentry_reset_needs_extraction (root : wim_dentry)
    (extract_flags : Z) (ret : wimlib_error_code) : fn :=
  body (
    call (for_dentry_in_tree root dentry_reset_needs_extraction) ;;
    call (out_ntfs_umount extract_flags ret)).

Definition out_free_target_realpath (root : wim_dentry)
    (extract_flags : Z) (ret : wimlib_error_code) : fn :=
  (* FREE(args.target_realpath) *)
  out_dentry_reset_needs_extraction root extract_flags ret.

Definition extract_tree (wim_source_path target : list tchar)
    (extract_flags : Z) (progress_func : option wimlib_progress_func_t)
  : fn :=
  body (
    (* memset(&args, 0, sizeof(args)) and the assignments below it *)
    w <- gets wim ;;
    modify (set_args
      {| target := target;
         target_nchars := tstrlen target;
         wim_source_path_nchars := tstrlen wim_source_path;
         a_extract_flags := extract_flags;
         progress_func := progress_func;
         progress := zero_progress;
         extract_root := None;
         apply_dentry := ptr_null;
         target_realpath := None;
         target_realpath_len := 0;
         vol_mounted := false |}) ;;
    when (negb (is_null progress_func))
      (modify (fun s => with_args (set_progress
         {| wimfile_name := filename w;
            image := current_image w;
            p_extract_flags :=
              Z.land extract_flags (WIMLIB_EXTRACT_MASK_PUBLIC X);
            image_name :=
              match wimlib_get_image_name X (current_image w) (ext s) with
              | Some n => n
              | None => []
              end;
            extract_root_wim_source_path := wim_source_path;
            p_target := target;
            cur_path := []; num_streams := 0; total_bytes := 0;
            completed_bytes := 0 |}) s)) ;;
    ops <-
      (if WITH_NTFS_3G X
          && nonzero (Z.land extract_flags (WIMLIB_EXTRACT_FLAG_NTFS X))
       then
         ok <- (fun s => let (ok, e) := x_ntfs_mount X target (ext s) in
                         (Normal ok,
                          log (Ev_ntfs_mount target ok)
                              (with_args (set_vol_mounted ok)
                                         (with_ext e s)))) ;;
         (if negb ok then
            ERROR "Failed to mount NTFS volume" ;;
            (* goto out *)
            Return WIMLIB_ERR_NTFS_3G
          else pure tt) ;;
         pure ntfs_apply_operations
       else pure normal_apply_operations) ;;
    root <- gets (fun s => x_get_dentry X (current_image w)
                             wim_source_path (ext s)) ;;
    match root with
    | None =>
        ERROR "Path does not exist in WIM image" ;;
        goto (out_ntfs_umount extract_flags WIMLIB_ERR_PATH_DOES_NOT_EXIST)
    | Some root =>
        modify (with_args (set_extract_root (Some (d_addr root)))) ;;
        ret <- (fun s =>
                  let (r, e) :=
                    x_calculate_dentry_tree_full_paths X root (ext s) in
                  (Normal r, with_ext e s)) ;;
        (if is_error ret then goto (out_ntfs_umount extract_flags ret)
         else pure tt) ;;
        (* Build a list of the streams that need to be extracted *)
        stream_list <- find_streams_for_extraction root extract_flags ;;
        (* Calculate the number of bytes of data that will be extracted *)
        calculate_bytes_to_extract stream_list extract_flags ;;
        (if nonzero (Z.land extract_flags
                            (WIMLIB_EXTRACT_FLAG_TO_STDOUT X)) then
           ret <- call (extract_dentry_to_stdout root) ;;
           goto (out_dentry_reset_needs_extraction root extract_flags ret)
         else pure tt) ;;
        (match progress_func with
         | Some f =>
             call_progress f
               (if negb (Nat.eqb (List.length wim_source_path) 0)
                then WIMLIB_PROGRESS_MSG_EXTRACT_TREE_BEGIN
                else WIMLIB_PROGRESS_MSG_EXTRACT_IMAGE_BEGIN)
         | None => pure tt
         end) ;;
        (* If a sequential extraction was specified, sort the streams *)
        sorted <-
          (if nonzero (Z.land extract_flags
                              (WIMLIB_EXTRACT_FLAG_SEQUENTIAL X)) then
             r <- sort_stream_list_by_wim_position stream_list ;;
             if is_error (fst r) then
               WARNING "Falling back to non-sequential extraction" ;;
               pure (snd r,
                     Z.land extract_flags
                            (Z.lnot (WIMLIB_EXTRACT_FLAG_SEQUENTIAL X)))
             else pure (snd r, extract_flags)
           else pure (stream_list, extract_flags)) ;;
        let stream_list := fst sorted in
        let extract_flags := snd sorted in
        (match progress_func with
         | Some f =>
             call_progress f WIMLIB_PROGRESS_MSG_EXTRACT_DIR_STRUCTURE_BEGIN
         | None => pure tt
         end) ;;
        (* Make the directory structure and extract empty files *)
        modify (with_args (fun a =>
                  set_apply_dentry (ops_apply_dentry ops)
                    (set_extract_flags
                       (Z.lor (a_extract_flags a)
                              (WIMLIB_EXTRACT_FLAG_NO_STREAMS X)) a))) ;;
        ret <- call (for_dentry_in_tree root maybe_apply_dentry) ;;
        modify (with_args (fun a =>
                  set_extract_flags
                    (Z.land (a_extract_flags a)
                            (Z.lnot (WIMLIB_EXTRACT_FLAG_NO_STREAMS X))) a)) ;;
        (if is_error ret then
           goto (out_dentry_reset_needs_extraction root extract_flags ret)
         else pure tt) ;;
        (match progress_func with
         | Some f =>
             call_progress f WIMLIB_PROGRESS_MSG_EXTRACT_DIR_STRUCTURE_END
         | None => pure tt
         end) ;;
        (if nonzero (Z.land extract_flags (WIMLIB_EXTRACT_FLAG_RPFIX X)) then
           rp <- gets (fun s => x_realpath X target (ext s)) ;;
           match rp with
           | None =>
               goto (out_dentry_reset_needs_extraction root extract_flags
                       WIMLIB_ERR_NOMEM)
           | Some path =>
               modify (with_args (set_target_realpath (Some path)
                                                      (tstrlen path)))
           end
         else pure tt) ;;
        (* Extract non-empty files *)
        ret <- call (apply_stream_list stream_list ops progress_func) ;;
        (if is_error ret then
           goto (out_free_target_realpath root extract_flags ret)
         else pure tt) ;;
        (match progress_func with
         | Some f => call_progress f WIMLIB_PROGRESS_MSG_APPLY_TIMESTAMPS
         | None => pure tt
         end) ;;
        (* Apply timestamps *)
        ret <- call (for_dentry_in_tree_depth root
                       (ops_apply_dentry_timestamps ops)) ;;
        (if is_error ret then
           goto (out_free_target_realpath root extract_flags ret)
         else pure tt) ;;
        (match progress_func with
         | Some f =>
             call_progress f
               (if negb (Nat.eqb (List.length wim_source_path) 0)
                then WIMLIB_PROGRESS_MSG_EXTRACT_TREE_END
                else WIMLIB_PROGRESS_MSG_EXTRACT_IMAGE_END)
         | None => pure tt
         end) ;;
        goto (out_free_target_realpath root extract_flags ret)
    end).

(** [struct wimlib_extract_command]. *)
Record wimlib_extract_command : Type := {
  cmd_wim_source_path : list tchar;
  cmd_fs_dest_path : list tchar;
  cmd_extract_flags : Z }.

Definition is_empty_path (p : list tchar) : bool :=
  Nat.eqb (List.length p) 0.

Definition link_flags : Z :=
  Z.lor (WIMLIB_EXTRACT_FLAG_SYMLINK X) (WIMLIB_EXTRACT_FLAG_HARDLINK X).

Definition rpfix_flags : Z :=
  Z.lor (WIMLIB_EXTRACT_FLAG_RPFIX X) (WIMLIB_EXTRACT_FLAG_NORPFIX X).

(** *** [check_extract_command] (extract.c 598-685)

    The value is the command as the function leaves it; a failure is a
    [return] of the error. *)
Definition check_extract_command (cmd : wimlib_extract_command)
    (wim_header_flags : Z) : block wimlib_extract_command :=
  let is_entire_image := is_empty_path (cmd_wim_source_path cmd) in
  (* Empty destination path? *)
  when (is_empty_path (cmd_fs_dest_path cmd))
       (Return WIMLIB_ERR_INVALID_PARAM) ;;
  let extract_flags := cmd_extract_flags cmd in
  (* Specified both symlink and hardlink modes? *)
  when (Z.land extract_flags link_flags =? link_flags)
       (Return WIMLIB_ERR_INVALID_PARAM) ;;
  (if WIN32 X then
     (if nonzero (Z.land extract_flags (WIMLIB_EXTRACT_FLAG_UNIX_DATA X))
      then
        ERROR "Extracting UNIX data is not supported on Windows" ;;
        Return WIMLIB_ERR_INVALID_PARAM
      else pure tt) ;;
     (if nonzero (Z.land extract_flags link_flags) then
        ERROR "Linked extraction modes are not supported on Windows" ;;
        Return WIMLIB_ERR_INVALID_PARAM
      else pure tt)
   else pure tt) ;;
  (if nonzero (Z.land extract_flags (WIMLIB_EXTRACT_FLAG_NTFS X)) then
     (* NTFS-3g extraction mode requested *)
     if WITH_NTFS_3G X then
       (if nonzero (Z.land extract_flags link_flags) then
          ERROR "Cannot specify symlink or hardlink flags when applying directly to a NTFS volume" ;;
          Return WIMLIB_ERR_INVALID_PARAM
        else pure tt) ;;
       (if negb is_entire_image
           && nonzero (Z.land extract_flags (WIMLIB_EXTRACT_FLAG_NTFS X))
        then
          ERROR "When applying directly to a NTFS volume you can only extract a full image, not part of one" ;;
          Return WIMLIB_ERR_INVALID_PARAM
        else pure tt) ;;
       (if nonzero (Z.land extract_flags (WIMLIB_EXTRACT_FLAG_UNIX_DATA X))
        then
          ERROR "Cannot restore UNIX-specific data in the NTFS extraction mode" ;;
          Return WIMLIB_ERR_INVALID_PARAM
        else pure tt)
     else
       ERROR "wimlib was compiled without support for NTFS-3g, so" ;;
       ERROR "we cannot apply a WIM image directly to a NTFS volume" ;;
       Return WIMLIB_ERR_UNSUPPORTED
   else pure tt) ;;
  (if Z.land extract_flags rpfix_flags =? rpfix_flags then
     ERROR "Cannot specify RPFIX and NORPFIX flags at the same time!" ;;
     Return WIMLIB_ERR_INVALID_PARAM
   else pure tt) ;;
  let extract_flags :=
    if Z.land extract_flags rpfix_flags =? 0 then
      (* Do reparse point fixups by default if the WIM header says they
         are enabled and we are extracting a full image. *)
      if nonzero (Z.land wim_header_flags (WIM_HDR_FLAG_RP_FIX X))
         && is_entire_image
      then Z.lor extract_flags (WIMLIB_EXTRACT_FLAG_RPFIX X)
      else extract_flags
    else extract_flags in
  (if negb is_entire_image
      && nonzero (Z.land extract_flags (WIMLIB_EXTRACT_FLAG_RPFIX X))
   then
     ERROR "Cannot specify --rpfix when not extracting entire image" ;;
     Return WIMLIB_ERR_INVALID_PARAM
   else pure tt) ;;
  pure {| cmd_wim_source_path := cmd_wim_source_path cmd;
          cmd_fs_dest_path := cmd_fs_dest_path cmd;
          cmd_extract_flags := extract_flags |}.

Definition select_wim_image (image : Z) : block wimlib_error_code :=
  fun s =>
    let (r, e) := x_select_wim_image X image (ext s) in
    (Normal r,
     if is_error r then with_ext e s
     else set_wim {| filename := filename (wim s);
                     current_image := image;
                     hdr_flags := hdr_flags (wim s);
                     hdr_image_count := hdr_image_count (wim s) |}
                  (with_ext e s)).

Definition wim_checksum_unhashed_streams : block wimlib_error_code :=
  fun s =>
    let (r, e) := x_wim_checksum_unhashed_streams X (ext s) in
    (Normal r, with_ext e s).

(** The first loop of [do_wimlib_extract_files]; the value is the array
    of commands as the checks leave it. *)
Fixpoint check_commands (cmds : list wimlib_extract_command)
    (found_link_cmd found_nolink_cmd : bool)
  : block (list wimlib_extract_command) :=
  match cmds with
  | [] => pure []
  | c :: rest =>
      flags <- gets (fun s => hdr_flags (wim s)) ;;
      c' <- check_extract_command c flags ;;
      let linked := nonzero (Z.land (cmd_extract_flags c') link_flags) in
      let found_link_cmd := if linked then true else found_link_cmd in
      let found_nolink_cmd := if linked then found_nolink_cmd else true in
      (if found_link_cmd && found_nolink_cmd then
         ERROR "Symlink or hardlink extraction mode must be set on all extraction commands" ;;
         Return WIMLIB_ERR_INVALID_PARAM
       else pure tt) ;;
      rest' <- check_commands rest found_link_cmd found_nolink_cmd ;;
      pure (c' :: rest')
  end.

(** The second loop of [do_wimlib_extract_files]. *)
Fixpoint execute_commands (cmds : list wimlib_extract_command)
    (progress_func : option wimlib_progress_func_t)
  : block wimlib_error_code :=
  match cmds with
  | [] => pure WIMLIB_ERR_SUCCESS
  | c :: rest =>
      ret <- call (extract_tree (cmd_wim_source_path c) (cmd_fs_dest_path c)
                                (cmd_extract_flags c) progress_func) ;;
      when (is_error ret) (Return ret) ;;
      execute_commands rest progress_func
  end.

(** *** [do_wimlib_extract_files] (extract.c 689-740) *)
Definition do_wimlib_extract_files (image : Z)
    (cmds : list wimlib_extract_command)
    (progress_func : option wimlib_progress_func_t) : fn :=
  body (
    (* Select the image from which we are extracting files *)
    ret <- select_wim_image image ;;
    when (is_error ret) (Return ret) ;;
    ret <- wim_checksum_unhashed_streams ;;
    when (is_error ret) (Return ret) ;;
    (* Check for problems with the extraction commands *)
    cmds <- check_commands cmds false false ;;
    (* Execute the extraction commands *)
    execute_commands cmds progress_func).

Definition merge_lookup_tables (num_additional_swms : nat) : block unit :=
  modify (fun s => log Ev_merge_lookup_tables
                     (with_ext (x_merge_lookup_tables X num_additional_swms
                                  (ext s)) s)).

Definition unmerge_lookup_table : block unit :=
  modify (fun s => log Ev_unmerge_lookup_table
                     (with_ext (x_unmerge_lookup_table X (ext s)) s)).

(** [for_lookup_table_entry(wim->lookup_table, lte_free_extracted_file,
    NULL)] *)
Definition free_extracted_files : block unit :=
  modify (fun s => log Ev_free_extracted_files
                     (with_ext (x_free_extracted_files X (ext s)) s)).

(** The loop of [wimlib_extract_files] that fills [cmds_copy]: the copy
    and [all_flags], or nothing when a path could not be allocated. *)
Fixpoint copy_commands (cmds : list wimlib_extract_command)
    (default_extract_flags all_flags : Z) (e : ext_state)
  : option (list wimlib_extract_command * Z) :=
  match cmds with
  | [] => Some ([], all_flags)
  | c :: rest =>
      let flags :=
        Z.land (Z.lor default_extract_flags (cmd_extract_flags c))
               (WIMLIB_EXTRACT_MASK_PUBLIC X) in
      let all_flags := Z.lor all_flags flags in
      match canonicalize_wim_path X (cmd_wim_source_path c) e with
      | None => None
      | Some src =>
          match canonicalize_fs_path X (cmd_fs_dest_path c) e with
          | None => None
          | Some dst =>
              match copy_commands rest default_extract_flags all_flags e with
              | None => None
              | Some (copy, all_flags) =>
                  Some ({| cmd_wim_source_path := src;
                           cmd_fs_dest_path := dst;
                           cmd_extract_flags := flags |} :: copy,
                        all_flags)
              end
          end
      end
  end.

(** *** [wimlib_extract_files] (extract.c 743-815)

    [additional_swms] is known by its length. *)
Definition wimlib_extract_files (image : Z)
    (cmds : list wimlib_extract_command) (default_extract_flags : Z)
    (num_additional_swms : nat)
    (progress_func : option wimlib_progress_func_t) : fn :=
  body (
    let default_extract_flags :=
      Z.land default_extract_flags (WIMLIB_EXTRACT_MASK_PUBLIC X) in
    ret <- gets (fun s => x_verify_swm_set X num_additional_swms (ext s)) ;;
    when (is_error ret) (Return ret) ;;
    when (Nat.eqb (List.length cmds) 0) (Return ret) ;;
    when (negb (Nat.eqb num_additional_swms 0))
         (merge_lookup_tables num_additional_swms) ;;
    ok <- gets (fun s =>
                  x_malloc X (Z.of_nat (List.length cmds)
                              * sizeof_extract_command X)
                           (ext s)) ;;
    ret <-
      (if negb ok then pure WIMLIB_ERR_NOMEM
       else
         copy <- gets (fun s => copy_commands cmds default_extract_flags 0
                                              (ext s)) ;;
         match copy with
         | None => pure WIMLIB_ERR_NOMEM
         | Some (cmds_copy, all_flags) =>
             ret <- call (do_wimlib_extract_files image cmds_copy
                                                  progress_func) ;;
             when (nonzero (Z.land all_flags link_flags))
                  free_extracted_files ;;
             pure ret
         end) ;;
    (* out_restore_lookup_table: *)
    when (negb (Nat.eqb num_additional_swms 0)) unmerge_lookup_table ;;
    pure ret).

(** *** [extract_single_image] (extract.c 833-850) *)
Definition extract_single_image (image : Z) (target : list tchar)
    (extract_flags : Z) (progress_func : option wimlib_progress_func_t)
  : fn :=
  body (
    target_copy <- gets (fun s => canonicalize_fs_path X target (ext s)) ;;
    match target_copy with
    | None => Return WIMLIB_ERR_NOMEM
    | Some target_copy =>
        let cmd := {| cmd_wim_source_path := [];
                      cmd_fs_dest_path := target_copy;
                      cmd_extract_flags := extract_flags |} in
        call (do_wimlib_extract_files image [cmd] progress_func)
    end).

Definition filename_forbidden_chars : list tchar :=
  if WIN32 X then
    list_ascii_of_string "<>:" ++ [ascii_of_nat 34]
    ++ list_ascii_of_string "/\|?*"
  else list_ascii_of_string "/".

Definition tstr_eqb (a b : list tchar) : bool :=
  if list_eq_dec ascii_dec a b then true else false.

(** *** [image_name_ok_as_dir] (extract.c 863-870) *)
Definition image_name_ok_as_dir (image_name : option (list tchar)) : bool :=
  match image_name with
  | None => false
  | Some name =>
      negb (is_empty_path name)
      && negb (existsb (fun c => existsb (Ascii.eqb c)
                                   filename_forbidden_chars) name)
      && negb (tstr_eqb name (list_ascii_of_string "."))
      && negb (tstr_eqb name (list_ascii_of_string ".."))
  end.

(** The loop of [extract_all_images] over the images. *)
Fixpoint extract_images (images : list Z) (target : list tchar)
    (extract_flags : Z) (progress_func : option wimlib_progress_func_t)
  : block wimlib_error_code :=
  match images with
  | [] => pure WIMLIB_ERR_SUCCESS
  | image :: rest =>
      image_name <- gets (fun s => wimlib_get_image_name X image (ext s)) ;;
      let buf :=
        target ++ "/"%char
               :: (if image_name_ok_as_dir image_name then
                     match image_name with
                     | Some n => n
                     | None => []
                     end
                   else
                     (* Image name is empty or contains forbidden
                        characters.  Use image number instead. *)
                     decimal X image) in
      ret <- call (extract_single_image image buf extract_flags
                                        progress_func) ;;
      when (is_error ret) (Return ret) ;;
      extract_images rest target extract_flags progress_func
  end.

(** *** [extract_all_images] (extract.c 874-923)

    [x_tstat] gives the result of [tstat], whether [errno] is [ENOENT],
    and whether the path is a directory. *)
Definition extract_all_images (target : list tchar) (extract_flags : Z)
    (progress_func : option wimlib_progress_func_t) : fn :=
  body (
    st <- gets (fun s => x_tstat X target (ext s)) ;;
    (match st with
     | (r, enoent, isdir) =>
         if nonzero r then
           if enoent then
             m <- (fun s => let (m, e) := x_tmkdir X target (ext s) in
                            (Normal m, log (Ev_mkdir target m) (with_ext e s))) ;;
             if nonzero m then
               ERROR "Failed to create directory" ;;
               Return WIMLIB_ERR_MKDIR
             else pure tt
           else
             ERROR "Failed to stat" ;;
             Return WIMLIB_ERR_STAT
         else if negb isdir then
           ERROR "is not a directory" ;;
           Return WIMLIB_ERR_NOTDIR
         else pure tt
     end) ;;
    n <- gets (fun s => hdr_image_count (wim s)) ;;
    extract_images (map Z.of_nat (seq 1 (Z.to_nat n))) target extract_flags
                   progress_func).

(** *** [wimlib_extract_image] (extract.c 927-966) *)
Definition wimlib_extract_image (image : Z) (target : list tchar)
    (extract_flags : Z) (num_additional_swms : nat)
    (progress_func : option wimlib_progress_func_t) : fn :=
  body (
    let extract_flags :=
      Z.land extract_flags (WIMLIB_EXTRACT_MASK_PUBLIC X) in
    ret <- gets (fun s => x_verify_swm_set X num_additional_swms (ext s)) ;;
    when (is_error ret) (Return ret) ;;
    when (negb (Nat.eqb num_additional_swms 0))
         (merge_lookup_tables num_additional_swms) ;;
    ret <-
      (if image =? WIMLIB_ALL_IMAGES X then
         call (extract_all_images target
                 (Z.lor extract_flags (WIMLIB_EXTRACT_FLAG_MULTI_IMAGE X))
                 progress_func)
       else
         call (extract_single_image image target extract_flags
                                    progress_func)) ;;
    when (nonzero (Z.land extract_flags link_flags)) free_extracted_files ;;
    when (negb (Nat.eqb num_additional_swms 0)) unmerge_lookup_table ;;
    pure ret).

(** ** The public flags *)

Definition mask_public (f : Z) : Z :=
  Z.land f (WIMLIB_EXTRACT_MASK_PUBLIC X).

Definition mask_command (c : wimlib_extract_command)
  : wimlib_extract_command :=
  {| cmd_wim_source_path := cmd_wim_source_path c;
     cmd_fs_dest_path := cmd_fs_dest_path c;
     cmd_extract_flags := mask_public (cmd_extract_flags c) |}.

Lemma mask_public_idem (f : Z) : mask_public (mask_public f) = mask_public f.
Proof.
  unfold mask_public. rewrite <- Z.land_assoc, Z.land_diag. reflexivity.
Qed.

Lemma mask_public_lor (d c : Z) :
  mask_public (Z.lor d (mask_public c)) = mask_public (Z.lor d c).
Proof.
  unfold mask_public.
  rewrite !Z.land_lor_distr_l, <- Z.land_assoc, Z.land_diag. reflexivity.
Qed.

Lemma copy_commands_masked (cmds : list wimlib_extract_command)
    (d all_flags : Z) (e : ext_state) :
  copy_commands (map mask_command cmds) d all_flags e
  = copy_commands cmds d all_flags e.
Proof.
  revert all_flags. induction cmds as [| c rest IH]; intros all_flags.
  - reflexivity.
  - cbn [map copy_commands mask_command cmd_extract_flags
         cmd_wim_source_path cmd_fs_dest_path].
    fold (mask_public (Z.lor d (mask_public (cmd_extract_flags c)))).
    fold (mask_public (Z.lor d (cmd_extract_flags c))).
    rewrite mask_public_lor, IH. reflexivity.
Qed.

Lemma copy_commands_public (cmds : list wimlib_extract_command)
    (d all_flags : Z) (e : ext_state)
    (copy : list wimlib_extract_command) (all : Z) :
  copy_commands cmds d all_flags e = Some (copy, all) ->
  Forall (fun c => mask_public (cmd_extract_flags c) = cmd_extract_flags c)
         copy.
Proof.
  revert all_flags copy all.
  induction cmds as [| c rest IH]; intros all_flags copy all; simpl.
  - intros H. injection H as <- _. constructor.
  - destruct (canonicalize_wim_path X (cmd_wim_source_path c) e);
      [| discriminate].
    destruct (canonicalize_fs_path X (cmd_fs_dest_path c) e);
      [| discriminate].
    destruct (copy_commands rest d _ e) as [[copy' all'] |] eqn:Hrest;
      [| discriminate].
    intros H. injection H as <- _. constructor.
    + simpl. apply mask_public_idem.
    + eapply IH. exact Hrest.
Qed.

(** C10: a call of [wimlib_extract_image] or [wimlib_extract_files] does
    what the same call does with the flags (the default flags and the
    flags of each command) cut down to [WIMLIB_EXTRACT_MASK_PUBLIC]; and
    every command [wimlib_extract_files] hands on carries public flags
    only. *)
Theorem public_flags_only
    (image : Z) (target : list tchar) (f : Z)
    (cmds : list wimlib_extract_command) (num_additional_swms : nat)
    (progress_func : option wimlib_progress_func_t) (s : world) :
  wimlib_extract_image image target f num_additional_swms progress_func s
  = wimlib_extract_image image target (mask_public f) num_additional_swms
      progress_func s
  /\ wimlib_extract_files image cmds f num_additional_swms progress_func s
     = wimlib_extract_files image (map mask_command cmds) (mask_public f)
         num_additional_swms progress_func s
  /\ forall e copy all,
       copy_commands cmds (mask_public f) 0 e = Some (copy, all) ->
       Forall (fun c => mask_public (cmd_extract_flags c)
                        = cmd_extract_flags c) copy.
Proof.
  split; [| split].
  - unfold wimlib_extract_image.
    fold (mask_public f). fold (mask_public (mask_public f)).
    rewrite mask_public_idem. reflexivity.
  - unfold wimlib_extract_files.
    fold (mask_public f). fold (mask_public (mask_public f)).
    rewrite mask_public_idem, length_map.
    cbv [body bind gets when pure Return].
    repeat (rewrite ?copy_commands_masked; try reflexivity; run_step).
  - intros e copy all. apply copy_commands_public.
Qed.

(** ** The output path *)

Lemma tmemcpy_all (l : list tchar) : tmemcpy l (tstrlen l) = l.
Proof.
  unfold tmemcpy, tstrlen. rewrite Nat2Z.id. apply firstn_all.
Qed.

Lemma skipn_tstrlen_app (a b : list tchar) :
  skipn (Z.to_nat (tstrlen a)) (a ++ b) = b.
Proof.
  unfold tstrlen. rewrite Nat2Z.id, skipn_app, skipn_all, Nat.sub_diag.
  reflexivity.
Qed.


(** ** Sorting by position in the archive *)

(** The sort key of a descriptor: the offset of its resource. *)
Definition wim_position (l : lte_ptr) : Z :=
  resource_entry_offset (lte_at X l).

(** What the C library promises of [qsort]: the array holds the elements
    it held, in an order the comparison function agrees with, whenever
    that function is a total preorder.  The order of elements that compare
    equal is not specified. *)
Definition qsort_contract : Prop :=
  forall (cmp : lte_ptr -> lte_ptr -> Z) (l : list lte_ptr),
    Permutation (qsort X cmp l) l /\
    ((forall a b, cmp a b <= 0 \/ cmp b a <= 0) ->
     (forall a b c, cmp a b <= 0 -> cmp b c <= 0 -> cmp a c <= 0) ->
     StronglySorted (fun a b => cmp a b <= 0) (qsort X cmp l)).

(** [cmp_streams_by_wim_position] orders two descriptors by the offsets
    of their resources. *)
Definition cmp_by_offset : Prop :=
  forall a b : wim_lookup_table_entry,
    cmp_streams_by_wim_position X a b <= 0
    <-> resource_entry_offset a <= resource_entry_offset b.

(** [a] stands before [b] in [l]. *)
Definition precedes (a b : lte_ptr) (l : list lte_ptr) : Prop :=
  exists l1 l2 l3, l = l1 ++ a :: l2 ++ b :: l3.

(** [l'] keeps the elements of equal key in the order they have in [l]. *)
Definition stable_by (key : lte_ptr -> Z) (l l' : list lte_ptr) : Prop :=
  forall a b, key a = key b -> precedes a b l -> precedes a b l'.

Lemma StronglySorted_impl {A} (P Q : A -> A -> Prop) (l : list A) :
  (forall a b, P a b -> Q a b) -> StronglySorted P l -> StronglySorted Q l.
Proof.
  intros HPQ. induction 1 as [| a l _ IH Hall]; constructor.
  - exact IH.
  - eapply Forall_impl; [| exact Hall]. intros b. apply HPQ.
Qed.

(** C4, as the code has it: when the array can be allocated,
    [sort_stream_list_by_wim_position] succeeds, and the list it leaves is
    what [qsort] makes of the list, taken in its order, with the
    comparison [cmp_streams_by_wim_position]; nothing else changes.  So,
    [qsort] doing what the C library promises, the list holds the
    descriptors it held, each as often as before, in non-decreasing order
    of archive offset.  The order among descriptors of equal offset is the
    one [qsort] happens to give. *)
Theorem sort_stream_list_sorted (stream_list : list lte_ptr) (s : world) :
  let sorted :=
    qsort X (fun a b => cmp_streams_by_wim_position X
                          (lte_at X a) (lte_at X b)) stream_list in
  x_malloc X (Z.of_nat (List.length stream_list) * sizeof_pointer X) (ext s)
    = true ->
  sort_stream_list_by_wim_position stream_list s
  = (Normal (WIMLIB_ERR_SUCCESS, sorted), s) /\
  (qsort_contract ->
   cmp_by_offset ->
   Permutation sorted stream_list /\
   StronglySorted (fun a b => wim_position a <= wim_position b) sorted).
Proof.
  intros sorted Hm. subst sorted. split.
  { unfold sort_stream_list_by_wim_position.
    cbv [bind gets pure]. rewrite Hm. reflexivity. }
  intros Hq Hc.
  destruct (Hq (fun a b => cmp_streams_by_wim_position X
                             (lte_at X a) (lte_at X b)) stream_list)
    as [Hperm Hsorted].
  split; [exact Hperm |].
  eapply StronglySorted_impl; [| apply Hsorted].
  - intros a b H. apply Hc in H. exact H.
  - intros a b.
    destruct (Z.le_ge_cases (wim_position a) (wim_position b)) as [H | H];
      [left | right]; apply Hc; unfold wim_position in H; lia.
  - intros a b c Hab Hbc. apply Hc in Hab, Hbc. apply Hc. lia.
Qed.

(** When the array cannot be allocated the list stays as it is and the
    error is reported. *)
Lemma sort_stream_list_nomem (stream_list : list lte_ptr) (s : world) :
  x_malloc X (Z.of_nat (List.length stream_list) * sizeof_pointer X) (ext s)
    = false ->
  sort_stream_list_by_wim_position stream_list s
  = (Normal (WIMLIB_ERR_NOMEM, stream_list),
     log (Ev_message LVL_ERROR
            "Failed to allocate bytes to sort stream entries") s).
Proof.
  intros Hm. unfold sort_stream_list_by_wim_position.
  cbv [bind gets pure ERROR modify]. rewrite Hm. reflexivity.
Qed.

(** ** The extraction planner *)

(** The elements of a list in the order of their first occurrences. *)
Definition add_new (acc : list nat) (x : nat) : list nat :=
  if in_dec Nat.eq_dec x acc then acc else acc ++ [x].

Definition distinct (l : list nat) : list nat := fold_left add_new l [].

Definition zsum (l : list Z) : Z := fold_right Z.add 0 l.

Lemma fold_add_new_in (l acc : list nat) (x : nat) :
  In x (fold_left add_new l acc) <-> In x acc \/ In x l.
Proof.
  revert acc. induction l as [| y l IH]; intros acc; simpl.
  - tauto.
  - rewrite IH. unfold add_new.
    destruct (in_dec Nat.eq_dec y acc) as [Hy | Hy].
    + split; [tauto |]. intros [H | [-> | H]]; auto.
    + rewrite in_app_iff. simpl. tauto.
Qed.

Lemma fold_add_new_nodup (l acc : list nat) :
  NoDup acc -> NoDup (fold_left add_new l acc).
Proof.
  revert acc. induction l as [| y l IH]; intros acc Hacc; simpl.
  - exact Hacc.
  - apply IH. unfold add_new.
    destruct (in_dec Nat.eq_dec y acc) as [Hy | Hy]; [exact Hacc |].
    apply NoDup_app; [exact Hacc | repeat constructor; simpl; tauto |].
    intros x Hx [<- | []]. exact (Hy Hx).
Qed.

Lemma fold_add_new_extends (l acc : list nat) :
  exists k, fold_left add_new l acc = acc ++ k.
Proof.
  revert acc. induction l as [| y l IH]; intros acc; simpl.
  - exists []. symmetry. apply app_nil_r.
  - destruct (IH (add_new acc y)) as [k Hk]. rewrite Hk. unfold add_new.
    destruct (in_dec Nat.eq_dec y acc).
    + exists k. reflexivity.
    + exists (y :: k). rewrite <- app_assoc. reflexivity.
Qed.

Lemma in_distinct (l : list nat) (x : nat) : In x (distinct l) <-> In x l.
Proof. unfold distinct. rewrite fold_add_new_in. simpl. tauto. Qed.

Lemma NoDup_distinct (l : list nat) : NoDup (distinct l).
Proof. apply fold_add_new_nodup. constructor. Qed.

Lemma distinct_snoc (l : list nat) (x : nat) :
  distinct (l ++ [x]) = add_new (distinct l) x.
Proof. unfold distinct. rewrite fold_left_app. reflexivity. Qed.

Lemma distinct_app_extends (l m : list nat) :
  exists k, distinct (l ++ m) = distinct l ++ k.
Proof.
  unfold distinct. rewrite fold_left_app. apply fold_add_new_extends.
Qed.

Lemma zsum_map_add {A} (f g : A -> Z) (l : list A) :
  zsum (map (fun x => f x + g x) l) = zsum (map f l) + zsum (map g l).
Proof. induction l as [| x l IH]; simpl; [reflexivity | rewrite IH; lia]. Qed.

Lemma zsum_indicator_out (x : nat) (D : list nat) :
  ~ In x D ->
  zsum (map (fun l => if Nat.eq_dec x l then 1 else 0) D) = 0.
Proof.
  induction D as [| d D IH]; simpl; intros H; [reflexivity |].
  destruct (Nat.eq_dec x d) as [-> | _]; [tauto |].
  rewrite IH; tauto.
Qed.

Lemma zsum_indicator_in (x : nat) (D : list nat) :
  NoDup D -> In x D ->
  zsum (map (fun l => if Nat.eq_dec x l then 1 else 0) D) = 1.
Proof.
  induction 1 as [| d D Hd _ IH]; simpl; intros Hin; [contradiction |].
  destruct (Nat.eq_dec x d) as [-> | Hne].
  - rewrite zsum_indicator_out by exact Hd. reflexivity.
  - destruct Hin as [-> | Hin]; [congruence |]. rewrite IH by exact Hin.
    reflexivity.
Qed.

(** Counting each element of [P] under its own name counts [P]. *)
Lemma zsum_count_occ (D P : list nat) :
  NoDup D -> incl P D ->
  zsum (map (fun l => Z.of_nat (count_occ Nat.eq_dec P l)) D)
  = Z.of_nat (List.length P).
Proof.
  intros HD. induction P as [| x P IH]; intros Hincl.
  - simpl. clear HD Hincl.
    induction D as [| d D IHD]; simpl; [reflexivity | exact IHD].
  - rewrite (map_ext _ (fun l => (if Nat.eq_dec x l then 1 else 0)
                                 + Z.of_nat (count_occ Nat.eq_dec P l))).
    + rewrite zsum_map_add, IH, zsum_indicator_in.
      * simpl List.length. lia.
      * exact HD.
      * apply Hincl. left. reflexivity.
      * intros y Hy. apply Hincl. right. exact Hy.
    + intros l. simpl. destruct (Nat.eq_dec x l); lia.
Qed.

(** The descriptors [dentry_find_streams_to_extract] counts for an inode
    on the first visit: the unnamed stream, then, when the alternate data
    streams are included, each named entry that has a descriptor. *)
Definition ads_streams (entries : list wim_ads_entry) : list lte_ptr :=
  flat_map (fun e => if nonzero (stream_name_nbytes e) then
                       match lte e with Some l => [l] | None => [] end
                     else []) entries.

Definition counted_streams (extract_flags : Z) (inode : wim_inode)
  : list lte_ptr :=
  match inode_unnamed_lte_resolved X inode with
  | Some l => [l]
  | None => []
  end
  ++ (if ads_included extract_flags then ads_streams (i_ads_entries inode)
      else []).

(** The (inode, stream) references of a tree: those of its inodes, each
    inode taken once however many dentries name it. *)
Definition inode_stream_pairs (extract_flags : Z) (root : wim_dentry)
  : list lte_ptr :=
  flat_map (fun i => counted_streams extract_flags (inode_at X i))
           (distinct (map d_inode (dentry_preorder root))).

(** The (dentry, stream) references of a tree: those of the inode of each
    dentry, a hard-linked inode taken once for each of its dentries. *)
Definition dentry_stream_pairs (extract_flags : Z) (root : wim_dentry)
  : list lte_ptr :=
  flat_map (fun d => counted_streams extract_flags (inode_at X (d_inode d)))
           (dentry_preorder root).

(** The planner has counted the references [P], starting from the counts
    [base]. *)
Definition planned (base : lte_ptr -> Z) (P : list lte_ptr) (s : world)
  : Prop :=
  (forall l, out_refcnt s l = base l + Z.of_nat (count_occ Nat.eq_dec P l))
  /\ stream_list (ctx s) = distinct P.

Lemma u32_small (z : Z) : 0 <= z < 2 ^ 32 -> u32 z = z.
Proof. intros H. unfold u32. apply Z.mod_small. exact H. Qed.

Lemma maybe_add_stream_planned (base : lte_ptr -> Z) (P : list lte_ptr)
    (l : lte_ptr) (s : world) :
  planned base P s ->
  base l = 0 ->
  Z.of_nat (List.length P) + 1 < 2 ^ 32 ->
  exists s',
    maybe_add_stream_for_extraction l s = (Normal tt, s') /\
    planned base (P ++ [l]) s' /\
    i_visited s' = i_visited s /\
    ctx_extract_flags (ctx s') = ctx_extract_flags (ctx s).
Proof.
  intros [Hcnt Hlist] Hbase Hlen. unfold maybe_add_stream_for_extraction.
  pose proof (count_occ_bound Nat.eq_dec l P) as Hb.
  assert (Hr : u32 (out_refcnt s l + 1)
               = Z.of_nat (count_occ Nat.eq_dec P l) + 1).
  { rewrite Hcnt, Hbase. apply u32_small.
    change (2 ^ 32) with 4294967296 in *. lia. }
  rewrite Hr.
  assert (Hnew : forall l',
             upd (out_refcnt s) l
                 (Z.of_nat (count_occ Nat.eq_dec P l) + 1) l'
             = base l' + Z.of_nat (count_occ Nat.eq_dec (P ++ [l]) l')).
  { intros l'. unfold upd. rewrite count_occ_app. simpl.
    destruct (Nat.eqb_spec l' l) as [-> | Hne].
    - destruct (Nat.eq_dec l l); [| congruence]. rewrite Hbase. lia.
    - destruct (Nat.eq_dec l l'); [congruence |]. rewrite Hcnt. lia. }
  destruct (Z.eqb_spec (Z.of_nat (count_occ Nat.eq_dec P l) + 1) 1)
    as [H1 | H1]; eexists; (split; [reflexivity |]);
    unfold planned; simpl;
    (split; [split; [exact Hnew |] | split; reflexivity]);
    rewrite distinct_snoc, Hlist; unfold add_new;
    destruct (in_dec Nat.eq_dec l (distinct P)) as [Hin | Hin];
    try reflexivity; exfalso.
  - apply (proj1 (in_distinct _ _)) in Hin.
    assert (count_occ Nat.eq_dec P l = 0%nat) as H0 by lia.
    apply count_occ_not_In in H0. exact (H0 Hin).
  - assert (Hin' : ~ In l P).
    { intros H. apply Hin, in_distinct, H. }
    apply (count_occ_not_In Nat.eq_dec) in Hin'. lia.
Qed.

Lemma ads_streams_cons (e : wim_ads_entry) (rest : list wim_ads_entry) :
  ads_streams (e :: rest)
  = (if nonzero (stream_name_nbytes e) then
       match lte e with Some l => [l] | None => [] end
     else []) ++ ads_streams rest.
Proof. reflexivity. Qed.

(** On a dentry of an inode seen before, the loop over the alternate data
    streams counts nothing. *)
Lemma find_ads_streams_visited (d : wim_dentry)
    (entries : list wim_ads_entry) (added : bool) (s : world) :
  i_visited s (d_inode d) = true ->
  exists b s',
    find_ads_streams d entries added s = (Normal b, s') /\
    out_refcnt s' = out_refcnt s /\ ctx s' = ctx s /\
    i_visited s' = i_visited s.
Proof.
  revert added s. induction entries as [| e rest IH]; intros added s Hv.
  - exists added, s. repeat split.
  - cbn [find_ads_streams].
    cbv [bind gets when pure add_dentry_to_lte modify].
    destruct (nonzero (stream_name_nbytes e)); [destruct (lte e) as [l |] |];
      rewrite ?Hv; cbn [negb]; try (apply IH; exact Hv).
    destruct added; cbn [negb]; [apply IH; exact Hv |].
    match goal with
    | |- context [find_ads_streams d rest true ?st] =>
        destruct (IH true st Hv) as [b [s' [Hrun [H1 [H2 H3]]]]]
    end.
    exists b, s'. rewrite Hrun. repeat split; assumption.
Qed.

(** On the first dentry of an inode it counts the named entries that have
    a descriptor, in order. *)
Lemma find_ads_streams_planned (base : lte_ptr -> Z) (d : wim_dentry)
    (entries : list wim_ads_entry) (added : bool) (P : list lte_ptr)
    (s : world) :
  planned base P s ->
  i_visited s (d_inode d) = false ->
  (forall l, In l (ads_streams entries) -> base l = 0) ->
  Z.of_nat (List.length (P ++ ads_streams entries)) < 2 ^ 32 ->
  exists b s',
    find_ads_streams d entries added s = (Normal b, s') /\
    planned base (P ++ ads_streams entries) s' /\
    i_visited s' = i_visited s /\
    ctx_extract_flags (ctx s') = ctx_extract_flags (ctx s).
Proof.
  revert added P s.
  induction entries as [| e rest IH]; intros added P s Hp Hv Hbase Hlen.
  - exists added, s. rewrite app_nil_r. repeat split; apply Hp.
  - rewrite ads_streams_cons in Hbase, Hlen |- *.
    cbn [find_ads_streams]. cbv [bind gets when pure].
    destruct (nonzero (stream_name_nbytes e));
      [destruct (lte e) as [l |] |]; cbn [app] in *;
      try (apply IH; assumption).
    rewrite Hv. cbn [negb].
    destruct (maybe_add_stream_planned base P l s Hp) as
      [s1 [Hrun [Hp1 [Hv1 Hf1]]]].
    { apply Hbase. left. reflexivity. }
    { rewrite length_app in Hlen. simpl in Hlen. lia. }
    rewrite Hrun.
    assert (Hstep : forall b st,
               planned base (P ++ [l]) st ->
               i_visited st = i_visited s1 ->
               ctx_extract_flags (ctx st) = ctx_extract_flags (ctx s1) ->
               exists b' s',
                 find_ads_streams d rest b st = (Normal b', s') /\
                 planned base (P ++ l :: ads_streams rest) s' /\
                 i_visited s' = i_visited s /\
                 ctx_extract_flags (ctx s') = ctx_extract_flags (ctx s)).
    { intros b st Hpst Hvst Hfst.
      destruct (IH b (P ++ [l]) st Hpst) as [b' [s' [Hr [Hp' [Hv' Hf']]]]].
      - rewrite Hvst, Hv1. exact Hv.
      - intros l' Hl'. apply Hbase. right. exact Hl'.
      - rewrite <- app_assoc. exact Hlen.
      - exists b', s'. rewrite <- app_assoc in Hp'.
        repeat split; try apply Hp'; congruence. }
    destruct added; cbn [negb].
    + apply Hstep; [exact Hp1 | reflexivity | reflexivity].
    + cbv [add_dentry_to_lte modify].
      match goal with
      | |- context [find_ads_streams d rest true ?st] =>
          destruct (Hstep true st) as [b' [s' [Hr H]]];
          [exact Hp1 | reflexivity | reflexivity |]
      end.
      exists b', s'. rewrite Hr. split; [reflexivity | exact H].
Qed.

Lemma dentry_find_streams_visited (d : wim_dentry) (s : world) :
  i_visited s (d_inode d) = true ->
  exists s',
    dentry_find_streams_to_extract d s = (WIMLIB_ERR_SUCCESS, s') /\
    out_refcnt s' = out_refcnt s /\ ctx s' = ctx s /\
    i_visited s' = upd (i_visited s) (d_inode d) true.
Proof.
  intros Hv. unfold dentry_find_streams_to_extract.
  cbv [body bind gets modify when pure add_dentry_to_lte].
  destruct (inode_unnamed_lte_resolved X (inode_at X (d_inode d)));
    destruct (ads_included _); cbn [i_visited set_needs_extraction];
    rewrite ?Hv; cbn [negb];
    try (eexists; split; [reflexivity | repeat split]);
    match goal with
    | |- context [find_ads_streams d ?en ?b ?st] =>
        destruct (find_ads_streams_visited d en b st Hv)
          as [b' [s' [Hrun [H1 [H2 H3]]]]]; rewrite Hrun
    end;
    (eexists; split; [reflexivity |]); cbn; rewrite H1, H2, H3;
    repeat split.
Qed.

Lemma dentry_find_streams_planned (base : lte_ptr -> Z) (d : wim_dentry)
    (P : list lte_ptr) (s : world) :
  let streams :=
    counted_streams (ctx_extract_flags (ctx s)) (inode_at X (d_inode d)) in
  planned base P s ->
  i_visited s (d_inode d) = false ->
  (forall l, In l streams -> base l = 0) ->
  Z.of_nat (List.length (P ++ streams)) < 2 ^ 32 ->
  exists s',
    dentry_find_streams_to_extract d s = (WIMLIB_ERR_SUCCESS, s') /\
    planned base (P ++ streams) s' /\
    i_visited s' = upd (i_visited s) (d_inode d) true /\
    ctx_extract_flags (ctx s') = ctx_extract_flags (ctx s).
Proof.
  intros streams Hp Hv Hbase Hlen. subst streams.
  unfold counted_streams in *.
  unfold dentry_find_streams_to_extract.
  cbv [body bind gets modify when pure add_dentry_to_lte].
  set (s0 := set_needs_extraction _ s).
  assert (Hp0 : planned base P s0) by exact Hp.
  assert (Hv0 : i_visited s0 (d_inode d) = false) by exact Hv.
  change (ctx s0) with (ctx s).
  destruct (inode_unnamed_lte_resolved X (inode_at X (d_inode d)))
    as [l |].
  - rewrite Hv0. cbn [negb].
    destruct (maybe_add_stream_planned base P l s0 Hp0)
      as [s1 [Hrun [Hp1 [Hv1 Hf1]]]].
    { apply Hbase. left. reflexivity. }
    { rewrite !length_app in Hlen. simpl in Hlen. lia. }
    rewrite Hrun. cbn [app] in *.
    destruct (ads_included (ctx_extract_flags (ctx s))).
    + set (s2 := set_lte_dentry_list _ s1).
      destruct (find_ads_streams_planned base d
                  (i_ads_entries (inode_at X (d_inode d))) true
                  (P ++ [l]) s2) as [b [s3 [Hr3 [Hp3 [Hv3 Hf3]]]]].
      * exact Hp1.
      * subst s2. cbn. rewrite Hv1. exact Hv.
      * intros l' Hl'. apply Hbase. right. exact Hl'.
      * rewrite <- app_assoc. exact Hlen.
      * rewrite Hr3. eexists. split; [reflexivity |].
        rewrite <- app_assoc in Hp3. cbn.
        split; [exact Hp3 |]. rewrite Hv3, Hf3. subst s2. cbn.
        rewrite Hv1, Hf1. split; reflexivity.
    + eexists. split; [reflexivity |]. cbn.
      split; [exact Hp1 |]. rewrite Hv1, Hf1. split; reflexivity.
  - cbn [app] in *. destruct (ads_included (ctx_extract_flags (ctx s))).
    + destruct (find_ads_streams_planned base d
                  (i_ads_entries (inode_at X (d_inode d))) false P s0)
        as [b [s3 [Hr3 [Hp3 [Hv3 Hf3]]]]]; try assumption.
      rewrite Hr3. eexists. split; [reflexivity |]. cbn.
      split; [exact Hp3 |]. rewrite Hv3, Hf3. split; reflexivity.
    + eexists. split; [reflexivity |]. cbn. rewrite app_nil_r.
      split; [exact Hp |]. split; reflexivity.
Qed.

(** The descriptors of the streams 0 .. [i_num_ads] of an inode: those
    [dentry_resolve_and_zero_lte_refcnt] sets to zero. *)
Definition stream_slots (inode : wim_inode) : list lte_ptr :=
  flat_map (fun i => match inode_stream_lte_resolved X inode i with
                     | Some l => [l]
                     | None => []
                     end)
           (seq 0 (S (i_num_ads inode))).

Lemma zero_slots (inode : wim_inode) (idxs : list nat) (s : world) :
  let s' :=
    fold_left
      (fun s i => match inode_stream_lte_resolved X inode i with
                  | Some l => set_out_refcnt (upd (out_refcnt s) l 0) s
                  | None => s
                  end) idxs s in
  (forall l,
      In l (flat_map (fun i => match inode_stream_lte_resolved X inode i with
                               | Some l => [l]
                               | None => []
                               end) idxs) ->
      out_refcnt s' l = 0) /\
  (forall l, out_refcnt s l = 0 -> out_refcnt s' l = 0) /\
  i_visited s' = i_visited s /\ ctx s' = ctx s.
Proof.
  revert s. induction idxs as [| i idxs IH]; intros s; cbn zeta.
  - simpl. repeat split; [contradiction | auto].
  - cbn [fold_left flat_map].
    destruct (inode_stream_lte_resolved X inode i) as [l0 |].
    + destruct (IH (set_out_refcnt (upd (out_refcnt s) l0 0) s))
        as [Hz [Hkeep [Hv Hc]]].
      split; [| split; [| split; assumption]].
      * intros l Hl. cbn [app In] in Hl. destruct Hl as [<- | Hl].
        -- apply Hkeep. simpl. unfold upd. rewrite Nat.eqb_refl.
           reflexivity.
        -- apply Hz. exact Hl.
      * intros l Hl. apply Hkeep. simpl. unfold upd.
        destruct (Nat.eqb l l0); [reflexivity | exact Hl].
    + apply IH.
Qed.

(** The first walk leaves at zero the count of every stream of every
    inode it passes, and nothing else changed. *)
Lemma resolve_walk (ds : list wim_dentry) (s : world) :
  exists s',
    visit_each dentry_resolve_and_zero_lte_refcnt ds s
      = (WIMLIB_ERR_SUCCESS, s') /\
    (forall d l, In d ds -> In l (stream_slots (inode_at X (d_inode d))) ->
                 out_refcnt s' l = 0) /\
    (forall l, out_refcnt s l = 0 -> out_refcnt s' l = 0) /\
    i_visited s' = i_visited s /\ ctx s' = ctx s.
Proof.
  revert s. induction ds as [| d ds IH]; intros s.
  - exists s. split; [reflexivity |]. repeat split; [contradiction | auto].
  - cbn [visit_each]. unfold dentry_resolve_and_zero_lte_refcnt at 1.
    cbn [is_error].
    destruct (zero_slots (inode_at X (d_inode d))
                (seq 0 (S (i_num_ads (inode_at X (d_inode d))))) s)
      as [Hz [Hkeep [Hv Hc]]].
    match goal with
    | |- context [visit_each _ ds ?st] =>
        destruct (IH st) as [s' [Hrun [Hz' [Hkeep' [Hv' Hc']]]]]
    end.
    exists s'. split; [exact Hrun |].
    split; [| split; [| split; congruence]].
    + intros d' l [<- | Hd] Hl.
      * apply Hkeep', Hz. exact Hl.
      * eapply Hz'; eassumption.
    + intros l Hl. apply Hkeep', Hkeep, Hl.
Qed.

Definition pairs_of (extract_flags : Z) (inodes : list inode_ptr)
  : list lte_ptr :=
  flat_map (fun i => counted_streams extract_flags (inode_at X i))
           (distinct inodes).

Lemma pairs_of_prefix (extract_flags : Z) (l m : list inode_ptr) :
  (List.length (pairs_of extract_flags l)
   <= List.length (pairs_of extract_flags (l ++ m)))%nat.
Proof.
  unfold pairs_of. destruct (distinct_app_extends l m) as [k ->].
  rewrite flat_map_app, length_app. lia.
Qed.

Lemma pairs_of_snoc (extract_flags : Z) (l : list inode_ptr)
    (i : inode_ptr) :
  pairs_of extract_flags (l ++ [i])
  = if in_dec Nat.eq_dec i l then pairs_of extract_flags l
    else pairs_of extract_flags l
         ++ counted_streams extract_flags (inode_at X i).
Proof.
  unfold pairs_of. rewrite distinct_snoc. unfold add_new.
  destruct (in_dec Nat.eq_dec i (distinct l)) as [H | H];
    destruct (in_dec Nat.eq_dec i l) as [H' | H']; try reflexivity.
  - exfalso. apply H', in_distinct, H.
  - exfalso. apply H, in_distinct, H'.
  - rewrite flat_map_app. simpl. rewrite app_nil_r. reflexivity.
Qed.

(** The second walk, after the dentries whose inodes are [seen]: the
    counts are those of the references of the inodes met so far. *)
Lemma find_streams_walk (base : lte_ptr -> Z) (extract_flags : Z)
    (ds : list wim_dentry) (seen : list inode_ptr) (s : world) :
  planned base (pairs_of extract_flags seen) s ->
  ctx_extract_flags (ctx s) = extract_flags ->
  (forall d, In d ds ->
             (i_visited s (d_inode d) = true <-> In (d_inode d) seen)) ->
  (forall d l, In d ds ->
               In l (counted_streams extract_flags (inode_at X (d_inode d)))
               -> base l = 0) ->
  Z.of_nat (List.length (pairs_of extract_flags (seen ++ map d_inode ds)))
    < 2 ^ 32 ->
  exists s',
    visit_each dentry_find_streams_to_extract ds s
      = (WIMLIB_ERR_SUCCESS, s') /\
    planned base (pairs_of extract_flags (seen ++ map d_inode ds)) s'.
Proof.
  revert seen s.
  induction ds as [| d ds IH]; intros seen s Hp Hf Hvis Hbase Hlen.
  - exists s. simpl. rewrite app_nil_r. split; [reflexivity | exact Hp].
  - cbn [visit_each map]. cbn [map] in Hlen.
    replace (seen ++ d_inode d :: map d_inode ds)
      with ((seen ++ [d_inode d]) ++ map d_inode ds) in *
      by (rewrite <- app_assoc; reflexivity).
    assert (Hstep : exists s1,
               dentry_find_streams_to_extract d s
                 = (WIMLIB_ERR_SUCCESS, s1) /\
               planned base (pairs_of extract_flags (seen ++ [d_inode d]))
                       s1 /\
               i_visited s1 = upd (i_visited s) (d_inode d) true /\
               ctx_extract_flags (ctx s1) = extract_flags).
    { rewrite pairs_of_snoc.
      destruct (in_dec Nat.eq_dec (d_inode d) seen) as [Hin | Hin].
      - assert (Hv : i_visited s (d_inode d) = true)
          by (apply Hvis; [left; reflexivity | exact Hin]).
        destruct (dentry_find_streams_visited d s Hv)
          as [s1 [Hrun [Ho [Hc Hi]]]].
        exists s1. split; [exact Hrun |].
        split; [| split; [exact Hi | congruence]].
        destruct Hp as [Hcnt Hlist]. split; [| congruence].
        intros l. rewrite Ho. apply Hcnt.
      - assert (Hv : i_visited s (d_inode d) = false).
        { destruct (i_visited s (d_inode d)) eqn:E; [| reflexivity].
          exfalso. apply Hin, Hvis; [left; reflexivity | exact E]. }
        destruct (dentry_find_streams_planned base d
                    (pairs_of extract_flags seen) s)
          as [s1 [Hrun [Hp1 [Hi Hc]]]];
          rewrite ?Hf; try assumption.
        + intros l Hl. eapply Hbase; [left; reflexivity | exact Hl].
        + pose proof (pairs_of_prefix extract_flags (seen ++ [d_inode d])
                        (map d_inode ds)) as Hle.
          rewrite pairs_of_snoc in Hle.
          destruct (in_dec Nat.eq_dec (d_inode d) seen); [contradiction |].
          lia.
        + exists s1. rewrite Hf in *. repeat split; try assumption;
            apply Hp1. }
    destruct Hstep as [s1 [Hrun [Hp1 [Hi Hc]]]].
    rewrite Hrun. cbn [is_error].
    apply IH; try assumption.
    + intros d' Hd'. rewrite Hi, in_app_iff. unfold upd. simpl.
      destruct (Nat.eqb_spec (d_inode d') (d_inode d)) as [E | E].
      * split; [intros _; right; left; congruence | reflexivity].
      * rewrite (Hvis d' (or_intror Hd')).
        split; [tauto |]. intros [H | [H | []]]; [exact H | congruence].
    + intros d' l Hd'. apply Hbase. right. exact Hd'.
Qed.

(** C1, as the code has it: when no inode of the tree is marked visited
    (the state every [extract_tree] leaves behind), after
    [find_streams_for_extraction] the stream list holds each referenced
    descriptor once, in the order of discovery; the [out_refcnt] of every
    descriptor of the tree is the number of (inode, stream) references to
    it, an inode counting once however many hard-linked dentries name it;
    and the sum of [out_refcnt] over the stream list is the number of
    (inode, stream) references of the tree. *)
Theorem planner_counts_inode_references
    (root : wim_dentry) (extract_flags : Z) (s : world) :
  let pairs := inode_stream_pairs extract_flags root in
  (forall d, In d (dentry_preorder root) ->
             i_visited s (d_inode d) = false) ->
  (forall d, In d (dentry_preorder root) ->
             incl (counted_streams extract_flags (inode_at X (d_inode d)))
                  (stream_slots (inode_at X (d_inode d)))) ->
  Z.of_nat (List.length pairs) < 2 ^ 32 ->
  exists stream_list s',
    find_streams_for_extraction root extract_flags s
      = (Normal stream_list, s') /\
    stream_list = distinct pairs /\
    (forall d l, In d (dentry_preorder root) ->
                 In l (stream_slots (inode_at X (d_inode d))) ->
                 out_refcnt s' l
                 = Z.of_nat (count_occ Nat.eq_dec pairs l)) /\
    zsum (map (out_refcnt s') stream_list) = Z.of_nat (List.length pairs).
Proof.
  intros pairs Hvis Hslots Hlen.
  unfold find_streams_for_extraction, for_dentry_in_tree.
  cbv [bind modify call gets].
  set (s0 := set_ctx _ s).
  destruct (resolve_walk (dentry_preorder root) s0)
    as [s1 [Hrun1 [Hz [_ [Hv1 Hc1]]]]].
  rewrite Hrun1.
  destruct (find_streams_walk (out_refcnt s1) extract_flags
              (dentry_preorder root) [] s1)
    as [s2 [Hrun2 [Hcnt Hlist]]].
  - split; [intros l; simpl; lia | rewrite Hc1; reflexivity].
  - rewrite Hc1. reflexivity.
  - intros d Hd. rewrite Hv1. subst s0. cbn [i_visited set_ctx].
    rewrite (Hvis d Hd). split; [discriminate | contradiction].
  - intros d l Hd Hl. eapply Hz; [exact Hd |]. apply (Hslots d Hd), Hl.
  - exact Hlen.
  - rewrite Hrun2. cbn [app] in *.
    change (pairs_of extract_flags (map d_inode (dentry_preorder root)))
      with pairs in *.
    exists (stream_list (ctx s2)), s2. split; [reflexivity |].
    split; [exact Hlist |].
    assert (Hall : forall l, In l pairs ->
              out_refcnt s2 l = Z.of_nat (count_occ Nat.eq_dec pairs l)).
    { intros l Hl. rewrite Hcnt.
      apply in_flat_map in Hl. destruct Hl as [i [Hi Hl]].
      apply in_distinct, in_map_iff in Hi. destruct Hi as [d [<- Hd]].
      rewrite (Hz d l Hd (Hslots d Hd l Hl)). lia. }
    split.
    + intros d l Hd Hl. rewrite Hcnt, (Hz d l Hd Hl). lia.
    + rewrite Hlist.
      rewrite (map_ext_in _
                 (fun l => Z.of_nat (count_occ Nat.eq_dec pairs l))).
      * apply zsum_count_occ; [apply NoDup_distinct |].
        intros l Hl. apply in_distinct. exact Hl.
      * intros l Hl. apply Hall, in_distinct, Hl.
Qed.

(** ** Progress during the extraction of the streams *)

(** The [EXTRACT_STREAMS] reports among some events. *)
Definition streams_infos (evs : list event) : list progress_extract :=
  flat_map (fun e => match e with
                     | Ev_progress WIMLIB_PROGRESS_MSG_EXTRACT_STREAMS i => [i]
                     | _ => []
                     end) evs.

(** The threshold in force after the report [i]: none any more once the
    report says the extraction is complete, else one hundredth of the
    total beyond the bytes reported, and the total at most. *)
Definition next_threshold (bytes_per_progress : Z) (i : progress_extract)
  : Z :=
  if total_bytes i <=? completed_bytes i then UINT64_MAX
  else Z.min (u64 (completed_bytes i + bytes_per_progress)) (total_bytes i).

(** Every report was made with the bytes completed at or above the
    threshold in force. *)
Fixpoint spaced (bytes_per_progress threshold : Z)
    (l : list progress_extract) : Prop :=
  match l with
  | [] => True
  | i :: rest =>
      threshold <= completed_bytes i /\
      spaced bytes_per_progress (next_threshold bytes_per_progress i) rest
  end.

Definition last_threshold (bytes_per_progress threshold : Z)
    (l : list progress_extract) : Z :=
  fold_left (fun _ i => next_threshold bytes_per_progress i) l threshold.

Lemma spaced_snoc (bpp th : Z) (l : list progress_extract)
    (i : progress_extract) :
  spaced bpp th l -> last_threshold bpp th l <= completed_bytes i ->
  spaced bpp th (l ++ [i]).
Proof.
  revert th. induction l as [| j l IH]; intros th; simpl.
  - intros _ H. split; [exact H | exact I].
  - intros [Hj Hl] H. split; [exact Hj |]. apply IH; assumption.
Qed.

Lemma last_threshold_snoc (bpp th : Z) (l : list progress_extract)
    (i : progress_extract) :
  last_threshold bpp th (l ++ [i]) = next_threshold bpp i.
Proof. unfold last_threshold. rewrite fold_left_app. reflexivity. Qed.

Lemma streams_infos_app (a b : list event) :
  streams_infos (a ++ b) = streams_infos a ++ streams_infos b.
Proof. apply flat_map_app. Qed.

(** From [s] to [s'] no [EXTRACT_STREAMS] report was made, and the lists
    of dentries and the total stayed as they were. *)
Definition quiet (s s' : world) : Prop :=
  lte_dentry_list s' = lte_dentry_list s /\
  total_bytes (progress (args s')) = total_bytes (progress (args s)) /\
  exists evs, trace s' = trace s ++ evs /\ streams_infos evs = [].

Lemma maybe_apply_dentry_quiet (d : wim_dentry) (s : world) :
  quiet s (snd (maybe_apply_dentry d s)).
Proof.
  cbv [maybe_apply_dentry body bind gets when pure Return modify call
       call_apply_dentry apply_dentry_normal apply_dentry_ntfs do_apply_op
       platform_do_apply_dentry run_backend call_progress].
  repeat (simpl; run_step); simpl; unfold quiet; simpl;
    (split; [reflexivity |]); (split; [reflexivity |]);
    rewrite <- ?app_assoc;
    (eexists; split;
     [first [reflexivity | symmetry; apply app_nil_r] | reflexivity]).
Qed.

Section ProgressLoop.
(** The state in which [apply_stream_list] is entered, and the progress
    function. *)
Variables (s0 : world) (f : wimlib_progress_func_t).
Let total := total_bytes (progress (args s0)).
Let bpp := total / 100.
Hypothesis total_nonneg : 0 <= total.

(** The loop invariant: [next] is [next_progress]. *)
Definition loop_inv (next : Z) (s : world) : Prop :=
  lte_dentry_list s = lte_dentry_list s0 /\
  total_bytes (progress (args s)) = total /\
  exists evs,
    trace s = trace s0 ++ evs /\
    spaced bpp bpp (streams_infos evs) /\
    next = last_threshold bpp bpp (streams_infos evs) /\
    Forall (fun i => total_bytes i = total) (streams_infos evs).

(** If the extraction is complete, that has been reported. *)
Definition reported (s : world) : Prop :=
  total <= completed_bytes (progress (args s)) ->
  exists evs i,
    trace s = trace s0 ++ evs /\ In i (streams_infos evs) /\
    total_bytes i <= completed_bytes i.

Definition loop_trace (s : world) : Prop :=
  exists evs, trace s = trace s0 ++ evs /\
              spaced bpp bpp (streams_infos evs).

Lemma loop_inv_trace (next : Z) (s : world) :
  loop_inv next s -> loop_trace s.
Proof.
  intros [_ [_ [evs [Ht [Hs _]]]]]. exists evs. split; assumption.
Qed.

Lemma loop_inv_quiet (next : Z) (s s1 : world) :
  loop_inv next s -> quiet s s1 -> loop_inv next s1.
Proof.
  intros [Hl [Ht [evs [Htr [Hsp [Hn Hall]]]]]] [Hl1 [Ht1 [evs1 [Htr1 Hq]]]].
  split; [congruence |]. split; [congruence |].
  exists (evs ++ evs1). rewrite streams_infos_app, Hq, app_nil_r.
  rewrite Htr1, Htr, app_assoc. repeat split; assumption.
Qed.

Lemma bpp_le_total : bpp <= total.
Proof.
  subst bpp. pose proof (Z.div_le_upper_bound total 100 total).
  apply H; lia.
Qed.

(** After the test that follows an application, a complete extraction
    has been reported: either just now, or by the report that switched
    the threshold off. *)
Lemma reported_after_check (next : Z) (s : world) :
  loop_inv next s ->
  completed_bytes (progress (args s)) < next ->
  reported s.
Proof.
  intros [_ [Ht [evs [Htr [_ [Hn Hall]]]]]] Hlt Hdone.
  destruct (streams_infos evs) as [| j l] eqn:E.
  - exfalso. simpl in Hn. pose proof bpp_le_total. lia.
  - assert (Hne : j :: l <> []) by discriminate.
    destruct (exists_last Hne) as [l0 [i0 E2]]. rewrite E2 in *.
    rewrite last_threshold_snoc in Hn.
    apply Forall_app in Hall. destruct Hall as [_ Hi].
    apply Forall_inv in Hi. unfold next_threshold in Hn. rewrite Hi in Hn.
    destruct (Z.leb_spec total (completed_bytes i0)) as [Hc | Hc].
    + exists evs, i0. rewrite E, in_app_iff, Hi. simpl. auto.
    + exfalso. lia.
Qed.

Lemma dentries_loop (dentries : list wim_dentry) (next : Z) (s : world)
    (ran : bool) :
  loop_inv next s ->
  (ran = true -> reported s) ->
  match apply_stream_dentries dentries (Some f) bpp next s with
  | (Normal next', s') =>
      loop_inv next' s' /\
      (ran = true \/ dentries <> [] -> reported s')
  | (Returned r, s') => is_error r = true /\ loop_trace s'
  end.
Proof.
  revert next s ran.
  induction dentries as [| d rest IH]; intros next s ran Hinv Hrep.
  - simpl. split; [exact Hinv |]. intros [H | H]; [auto | congruence].
  - cbn [apply_stream_dentries]. cbv [bind call when pure Return gets].
    pose proof (maybe_apply_dentry_quiet d s) as Hq.
    destruct (maybe_apply_dentry d s) as [ret s1]. cbn [snd] in Hq.
    pose proof (loop_inv_quiet _ _ _ Hinv Hq) as Hinv1.
    destruct (is_error ret) eqn:Hret.
    { split; [exact Hret |]. eapply loop_inv_trace. exact Hinv1. }
    set (p := progress (args s1)).
    assert (Hstep : forall next2 s2,
               loop_inv next2 s2 -> reported s2 ->
               match apply_stream_dentries rest (Some f) bpp next2 s2 with
               | (Normal next', s') =>
                   loop_inv next' s' /\
                   (ran = true \/ d :: rest <> [] -> reported s')
               | (Returned r, s') => is_error r = true /\ loop_trace s'
               end).
    { intros next2 s2 H2 R2. specialize (IH next2 s2 true H2 (fun _ => R2)).
      destruct (apply_stream_dentries rest (Some f) bpp next2 s2)
        as [[next' | r] s']; [| exact IH].
      destruct IH as [Hi Hr]. split; [exact Hi |]. intros _. apply Hr.
      left. reflexivity. }
    destruct (Z.leb_spec next (completed_bytes p)) as [Hle | Hgt].
    + (* the report is made *)
      cbv [call_progress]. cbn [args log with_ext progress].
      fold p.
      set (s2 := log (Ev_progress WIMLIB_PROGRESS_MSG_EXTRACT_STREAMS p)
                     (with_ext (f WIMLIB_PROGRESS_MSG_EXTRACT_STREAMS p
                                  (ext s1)) s1)).
      destruct Hinv1 as [Hl [Ht [evs [Htr [Hsp [Hn Hall]]]]]].
      assert (Hinv2 : loop_inv (next_threshold bpp p) s2).
      { split; [exact Hl |]. split; [exact Ht |].
        exists (evs ++ [Ev_progress WIMLIB_PROGRESS_MSG_EXTRACT_STREAMS p]).
        rewrite streams_infos_app. cbn [streams_infos flat_map app].
        subst s2. cbn [trace log with_ext]. rewrite Htr, app_assoc.
        split; [reflexivity |].
        split; [apply spaced_snoc; [exact Hsp | rewrite <- Hn; exact Hle] |].
        split; [symmetry; apply last_threshold_snoc |].
        apply Forall_app. split; [exact Hall |].
        repeat constructor. exact Ht. }
      assert (Hrep2 : reported s2).
      { intros Hdone.
        exists (evs ++ [Ev_progress WIMLIB_PROGRESS_MSG_EXTRACT_STREAMS p]), p.
        subst s2. cbn [trace log with_ext]. rewrite Htr, app_assoc.
        split; [reflexivity |]. rewrite streams_infos_app, in_app_iff.
        split; [right; left; reflexivity |].
        change (total_bytes p) with (total_bytes (progress (args s1))).
        rewrite Ht. exact Hdone. }
      unfold next_threshold in Hinv2.
      destruct (total_bytes p <=? completed_bytes p);
        apply Hstep; assumption.
    + apply Hstep; [exact Hinv1 |].
      apply (reported_after_check next); [exact Hinv1 | exact Hgt].
Qed.

Lemma streams_loop (streams : list lte_ptr) (next : Z) (s : world)
    (ran : bool) :
  loop_inv next s ->
  (ran = true -> reported s) ->
  match apply_streams streams (Some f) bpp next s with
  | (Normal next', s') =>
      loop_inv next' s' /\
      (ran = true
       \/ (exists l, In l streams /\ lte_dentry_list s0 l <> []) ->
       reported s')
  | (Returned r, s') => is_error r = true /\ loop_trace s'
  end.
Proof.
  revert next s ran.
  induction streams as [| l rest IH]; intros next s ran Hinv Hrep.
  - simpl. split; [exact Hinv |].
    intros [H | [l [[] _]]]. auto.
  - cbn [apply_streams]. cbv [bind gets].
    pose proof (dentries_loop (lte_dentry_list s l) next s ran Hinv Hrep)
      as Hd.
    destruct (apply_stream_dentries (lte_dentry_list s l) (Some f) bpp
                next s) as [[next1 | r] s1]; [| exact Hd].
    destruct Hd as [Hinv1 Hrep1].
    destruct Hinv as [Hl _].
    destruct (lte_dentry_list s0 l) as [| d ds] eqn:El.
    + (* no dentry under this descriptor *)
      specialize (IH next1 s1 ran Hinv1).
      rewrite Hl, El in Hrep1.
      destruct (apply_streams rest (Some f) bpp next1 s1)
        as [[next' | r] s']; [| apply IH; intros H; apply Hrep1; auto].
      destruct IH as [Hi Hr]; [intros H; apply Hrep1; auto |].
      split; [exact Hi |]. intros [H | [l' [[<- | Hin] Hne]]].
      * apply Hr. left. exact H.
      * congruence.
      * apply Hr. right. exists l'. split; assumption.
    + assert (R1 : reported s1).
      { apply Hrep1. right. rewrite Hl, El. discriminate. }
      specialize (IH next1 s1 true Hinv1 (fun _ => R1)).
      destruct (apply_streams rest (Some f) bpp next1 s1)
        as [[next' | r] s']; [| exact IH].
      destruct IH as [Hi Hr]. split; [exact Hi |]. intros _.
      apply Hr. left. reflexivity.
Qed.
End ProgressLoop.

Lemma apply_streams_idle (streams : list lte_ptr)
    (progress_func : option wimlib_progress_func_t) (bpp next : Z)
    (s : world) :
  (forall l, In l streams -> lte_dentry_list s l = []) ->
  apply_streams streams progress_func bpp next s = (Normal next, s).
Proof.
  induction streams as [| l rest IH]; intros H; [reflexivity |].
  cbn [apply_streams]. cbv [bind gets].
  rewrite (H l (or_introl eq_refl)). cbn [apply_stream_dentries pure].
  apply IH. intros l' Hl'. apply H. right. exact Hl'.
Qed.

(** The reports of [apply_stream_list] are spaced by the thresholds; a
    complete extraction that applied a dentry has been reported; without
    dentries nothing is reported. *)
Lemma progress_spacing
    (stream_list : list lte_ptr) (ops : apply_operations)
    (f : wimlib_progress_func_t) (s : world) :
  let total := total_bytes (progress (args s)) in
  let r := apply_stream_list stream_list ops (Some f) s in
  0 <= total ->
  exists evs,
    trace (snd r) = trace s ++ evs /\
    spaced (total / 100) (total / 100) (streams_infos evs) /\
    (fst r = WIMLIB_ERR_SUCCESS ->
     (exists l, In l stream_list /\ lte_dentry_list s l <> []) ->
     total <= completed_bytes (progress (args (snd r))) ->
     exists i, In i (streams_infos evs) /\
               total_bytes i <= completed_bytes i) /\
    ((forall l, In l stream_list -> lte_dentry_list s l = []) ->
     evs = []).
Proof.
  intros total r Htotal. subst r. unfold apply_stream_list.
  cbv [body bind gets pure]. fold total.
  assert (Hinv : loop_inv s (total / 100) s).
  { split; [reflexivity |]. split; [reflexivity |].
    exists []. rewrite app_nil_r. repeat split. constructor. }
  pose proof (streams_loop s f Htotal stream_list (total / 100) s false
                Hinv ltac:(discriminate)) as Hloop.
  pose proof (apply_streams_idle stream_list (Some f) (total / 100)
                (total / 100) s) as Hidle.
  fold total in Hloop.
  destruct (apply_streams stream_list (Some f) (total / 100) (total / 100) s)
    as [[next' | ret] s'] eqn:Hrun; cbn [fst snd].
  - destruct Hloop as [[_ [_ [evs [Htr [Hsp _]]]]] Hrep].
    exists evs. split; [exact Htr |]. split; [exact Hsp |]. split.
    + intros _ Hsome Hdone.
      destruct (Hrep (or_intror Hsome) Hdone) as [evs' [i [Htr' [Hin Hi]]]].
      rewrite Htr in Htr'. apply app_inv_head in Htr'. subst evs'.
      exists i. split; assumption.
    + intros Hnone. specialize (Hidle Hnone).
      injection Hidle as _ Hs. subst s'.
      apply (app_inv_head (trace s)). rewrite app_nil_r. symmetry.
      exact Htr.
  - destruct Hloop as [Herr [evs [Htr Hsp]]].
    exists evs. split; [exact Htr |]. split; [exact Hsp |]. split.
    + intros ->. discriminate Herr.
    + intros Hnone. specialize (Hidle Hnone). discriminate Hidle.
Qed.

(** ** Extraction to standard output *)

(** Events that put nothing on standard output and hand nothing to a
    backend: messages, and the mounting and unmounting of the volume. *)
Definition no_output (e : event) : Prop :=
  match e with
  | Ev_message _ _ | Ev_ntfs_mount _ _ | Ev_ntfs_umount _ => True
  | _ => False
  end.

(** From [s] to [s'] nothing reached the outside. *)
Definition silent (s s' : world) : Prop :=
  ext s' = ext s /\ trace s' = trace s /\ wim s' = wim s.

Lemma silent_refl (s : world) : silent s s.
Proof. repeat split. Qed.

Lemma silent_trans (a b c : world) : silent a b -> silent b c -> silent a c.
Proof. unfold silent. intuition congruence. Qed.


Lemma visit_each_respects (R : world -> world -> Prop)
    (visitor : wim_dentry -> @fn world) (ds : list wim_dentry) :
  (forall s, R s s) ->
  (forall a b c, R a b -> R b c -> R a c) ->
  (forall d, fn_respects R (visitor d)) ->
  fn_respects R (visit_each visitor ds).
Proof.
  intros Hrefl Htrans Hv. induction ds as [| d ds IH]; intros s;
    cbn [visit_each].
  - apply Hrefl.
  - specialize (Hv d s). destruct (visitor d s) as [r s1]. cbn [snd] in Hv.
    destruct (is_error r); [exact Hv |].
    eapply Htrans; [exact Hv | apply IH].
Qed.

Ltac silent_steps := respects_steps silent_refl silent_trans.

Lemma resolve_silent (d : wim_dentry) :
  fn_respects silent (dentry_resolve_and_zero_lte_refcnt d).
Proof.
  intros s. unfold dentry_resolve_and_zero_lte_refcnt. cbn [snd].
  generalize (seq 0 (S (i_num_ads (inode_at X (d_inode d))))).
  intros idxs. revert s. induction idxs as [| i idxs IH]; intros s.
  - apply silent_refl.
  - cbn [fold_left].
    destruct (inode_stream_lte_resolved X (inode_at X (d_inode d)) i).
    + eapply silent_trans; [| apply IH]. repeat split.
    + apply IH.
Qed.

Lemma maybe_add_stream_silent (l : lte_ptr) :
  respects silent (maybe_add_stream_for_extraction l).
Proof.
  intros s. unfold maybe_add_stream_for_extraction.
  destruct (u32 (out_refcnt s l + 1) =? 1); repeat split.
Qed.

Lemma add_dentry_to_lte_silent (d : wim_dentry) (l : lte_ptr) :
  respects silent (add_dentry_to_lte d l).
Proof. intros s. repeat split. Qed.

Lemma find_ads_streams_silent (d : wim_dentry)
    (entries : list wim_ads_entry) (added : bool) :
  respects silent (find_ads_streams d entries added).
Proof.
  revert added. induction entries as [| e rest IH]; intros added;
    cbn [find_ads_streams]; silent_steps;
    first [ apply IH | apply maybe_add_stream_silent
          | apply add_dentry_to_lte_silent ].
Qed.

Lemma find_streams_visitor_silent (d : wim_dentry) :
  fn_respects silent (dentry_find_streams_to_extract d).
Proof.
  unfold dentry_find_streams_to_extract. silent_steps;
    first [ apply find_ads_streams_silent | apply maybe_add_stream_silent
          | apply add_dentry_to_lte_silent
          | apply respects_modify; intros s; repeat split ].
Qed.

Lemma find_streams_for_extraction_silent (root : wim_dentry)
    (extract_flags : Z) :
  respects silent (find_streams_for_extraction root extract_flags).
Proof.
  unfold find_streams_for_extraction, for_dentry_in_tree. silent_steps.
  - apply respects_modify. intros s. repeat split.
  - apply visit_each_respects;
      [apply silent_refl | apply silent_trans | apply resolve_silent].
  - apply visit_each_respects;
      [apply silent_refl | apply silent_trans
      | apply find_streams_visitor_silent].
Qed.

Lemma find_streams_for_extraction_normal (root : wim_dentry)
    (extract_flags : Z) (s : world) :
  exists stream_list,
    fst (find_streams_for_extraction root extract_flags s)
    = Normal stream_list.
Proof.
  unfold find_streams_for_extraction, for_dentry_in_tree.
  cbv [bind modify call gets].
  repeat match goal with
         | |- context [visit_each ?v ?l ?st] => destruct (visit_each v l st)
         end.
  eexists. reflexivity.
Qed.

Lemma calculate_bytes_silent (stream_list : list lte_ptr)
    (extract_flags : Z) :
  respects silent (calculate_bytes_to_extract stream_list extract_flags).
Proof.
  intros s. unfold calculate_bytes_to_extract, modify. cbn [snd].
  destruct (fold_left _ stream_list (0, 0)). repeat split.
Qed.

Lemma reset_walk_silent (root : wim_dentry) :
  fn_respects silent
    (for_dentry_in_tree root dentry_reset_needs_extraction).
Proof.
  apply visit_each_respects;
    [apply silent_refl | apply silent_trans |].
  intros d s. repeat split.
Qed.

(** From [s] to [s'] nothing was put on standard output or into the
    target. *)
Definition meek (s s' : world) : Prop :=
  exists evs, trace s' = trace s ++ evs /\ Forall no_output evs.

Lemma meek_refl (s : world) : meek s s.
Proof. exists []. split; [symmetry; apply app_nil_r | constructor]. Qed.

Lemma meek_trans (a b c : world) : meek a b -> meek b c -> meek a c.
Proof.
  intros [e1 [H1 F1]] [e2 [H2 F2]]. exists (e1 ++ e2).
  rewrite H2, H1, app_assoc. split; [reflexivity |].
  apply Forall_app. split; assumption.
Qed.

Lemma same_trace_meek (s s' : world) : trace s' = trace s -> meek s s'.
Proof.
  intros Ht. exists []. rewrite Ht, app_nil_r.
  split; [reflexivity | constructor].
Qed.

Lemma silent_meek (s s' : world) : silent s s' -> meek s s'.
Proof. intros [_ [Ht _]]. apply same_trace_meek, Ht. Qed.

Lemma meek_log (s s' : world) (e : event) :
  meek s s' -> no_output e -> meek s (log e s').
Proof.
  intros [evs [Ht Hf]] He. exists (evs ++ [e]). cbn [trace log].
  rewrite Ht, app_assoc. split; [reflexivity |].
  apply Forall_app. split; [exact Hf | repeat constructor; exact He].
Qed.

Lemma out_ntfs_umount_meek (extract_flags : Z) (ret : wimlib_error_code)
    (s : world) :
  is_error ret = true ->
  fst (out_ntfs_umount extract_flags ret s) = ret /\
  meek s (snd (out_ntfs_umount extract_flags ret s)).
Proof.
  intros Hret. unfold out_ntfs_umount.
  destruct (WITH_NTFS_3G X && _); [| split; [reflexivity | apply meek_refl]].
  cbv [body bind pure ERROR modify].
  destruct (x_ntfs_umount X (ext s)) as [r e].
  destruct (nonzero r); cbn [fst snd]; rewrite ?Hret;
    (split; [reflexivity |]); repeat apply meek_log;
    try exact I; apply same_trace_meek; reflexivity.
Qed.

Lemma out_dentry_reset_meek (root : wim_dentry) (extract_flags : Z)
    (ret : wimlib_error_code) (s : world) :
  is_error ret = true ->
  fst (out_dentry_reset_needs_extraction root extract_flags ret s) = ret /\
  meek s (snd (out_dentry_reset_needs_extraction root extract_flags ret s)).
Proof.
  intros Hret. unfold out_dentry_reset_needs_extraction.
  cbv [body bind call].
  pose proof (reset_walk_silent root s) as H1.
  destruct (for_dentry_in_tree root dentry_reset_needs_extraction s)
    as [r1 s1]. cbn [snd] in H1.
  destruct (out_ntfs_umount_meek extract_flags ret s1 Hret) as [H2 H3].
  destruct (out_ntfs_umount extract_flags ret s1) as [r2 s2].
  cbn [fst snd] in *. split; [exact H2 |].
  eapply meek_trans; [apply silent_meek; exact H1 | exact H3].
Qed.

(** Events that write nothing, neither to standard output nor into the
    target: a message; and, in the NTFS mode only, the mounting and the
    unmounting of the volume. *)
Definition writes_nothing (ntfs : bool) (e : event) : Prop :=
  match e with
  | Ev_message _ _ => True
  | Ev_ntfs_mount _ _ | Ev_ntfs_umount _ => ntfs = true
  | _ => False
  end.

(** From [s] to [s'] nothing was written. *)
Definition idle (ntfs : bool) (s s' : world) : Prop :=
  exists evs, trace s' = trace s ++ evs /\ Forall (writes_nothing ntfs) evs.

Lemma idle_refl (ntfs : bool) (s : world) : idle ntfs s s.
Proof. exists []. split; [symmetry; apply app_nil_r | constructor]. Qed.

Lemma idle_trans (ntfs : bool) (a b c : world) :
  idle ntfs a b -> idle ntfs b c -> idle ntfs a c.
Proof.
  intros [e1 [H1 F1]] [e2 [H2 F2]]. exists (e1 ++ e2).
  rewrite H2, H1, app_assoc. split; [reflexivity |].
  apply Forall_app. split; assumption.
Qed.

Lemma same_trace_idle (ntfs : bool) (s s' : world) :
  trace s' = trace s -> idle ntfs s s'.
Proof.
  intros Ht. exists []. rewrite Ht, app_nil_r.
  split; [reflexivity | constructor].
Qed.

Lemma idle_log (ntfs : bool) (s s' : world) (e : event) :
  idle ntfs s s' -> writes_nothing ntfs e -> idle ntfs s (log e s').
Proof.
  intros [evs [Ht Hf]] He. exists (evs ++ [e]). cbn [trace log].
  rewrite Ht, app_assoc. split; [reflexivity |].
  apply Forall_app. split; [exact Hf | repeat constructor; exact He].
Qed.

(** The label [out_ntfs_umount], reached with an error: the error is
    the result, and the volume is unmounted in the NTFS mode only. *)
Lemma out_ntfs_umount_idle (extract_flags : Z) (ret : wimlib_error_code)
    (s : world) :
  is_error ret = true ->
  fst (out_ntfs_umount extract_flags ret s) = ret /\
  idle (WITH_NTFS_3G X
        && nonzero (Z.land extract_flags (WIMLIB_EXTRACT_FLAG_NTFS X)))
       s (snd (out_ntfs_umount extract_flags ret s)).
Proof.
  intros Hret. unfold out_ntfs_umount.
  destruct (WITH_NTFS_3G X && _); [| split; [reflexivity | apply idle_refl]].
  cbv [body bind pure ERROR modify].
  destruct (x_ntfs_umount X (ext s)) as [r e].
  destruct (nonzero r); cbn [fst snd]; rewrite ?Hret;
    (split; [reflexivity |]); repeat apply idle_log;
    try exact I; try reflexivity; apply same_trace_idle; reflexivity.
Qed.

Lemma out_dentry_reset_idle (root : wim_dentry) (extract_flags : Z)
    (ret : wimlib_error_code) (s : world) :
  is_error ret = true ->
  fst (out_dentry_reset_needs_extraction root extract_flags ret s) = ret /\
  idle (WITH_NTFS_3G X
        && nonzero (Z.land extract_flags (WIMLIB_EXTRACT_FLAG_NTFS X)))
       s (snd (out_dentry_reset_needs_extraction root extract_flags ret s)).
Proof.
  intros Hret. unfold out_dentry_reset_needs_extraction.
  cbv [body bind call].
  pose proof (reset_walk_silent root s) as H1.
  destruct (for_dentry_in_tree root dentry_reset_needs_extraction s)
    as [r1 s1]. cbn [snd] in H1.
  destruct (out_ntfs_umount_idle extract_flags ret s1 Hret) as [H2 H3].
  destruct (out_ntfs_umount extract_flags ret s1) as [r2 s2].
  cbn [fst snd] in *. split; [exact H2 |].
  eapply idle_trans; [| exact H3].
  apply same_trace_idle. destruct H1 as [_ [Ht _]]. exact Ht.
Qed.

(** C9, as the code has it: an extraction to standard output whose root
    is not a regular file fails and writes nothing, neither to standard
    output nor into the target: all it does is to print messages and, in
    the NTFS mode, to mount and unmount the volume.  The error is
    [WIMLIB_ERR_NTFS_3G] when the volume cannot be mounted, else the error
    of [calculate_dentry_tree_full_paths] when the full paths cannot be
    computed, and [WIMLIB_ERR_NOT_A_REGULAR_FILE] otherwise.  The root is
    what [get_dentry] gives once the volume is mounted. *)
Theorem to_stdout_not_regular_file
    (wim_source_path target : list tchar) (extract_flags : Z)
    (progress_func : option wimlib_progress_func_t) (s : world)
    (root : wim_dentry) :
  let ntfs :=
    WITH_NTFS_3G X
    && nonzero (Z.land extract_flags (WIMLIB_EXTRACT_FLAG_NTFS X)) in
  let mounted :=
    if ntfs then fst (x_ntfs_mount X target (ext s)) else true in
  let e1 := if ntfs then snd (x_ntfs_mount X target (ext s)) else ext s in
  let paths := fst (x_calculate_dentry_tree_full_paths X root e1) in
  let r := extract_tree wim_source_path target extract_flags progress_func
                        s in
  nonzero (Z.land extract_flags (WIMLIB_EXTRACT_FLAG_TO_STDOUT X)) = true ->
  x_get_dentry X (current_image (wim s)) wim_source_path e1 = Some root ->
  dentry_is_regular_file X root = false ->
  fst r = (if negb mounted then WIMLIB_ERR_NTFS_3G
           else if is_error paths then paths
           else WIMLIB_ERR_NOT_A_REGULAR_FILE) /\
  is_error (fst r) = true /\
  exists evs,
    trace (snd r) = trace s ++ evs /\ Forall (writes_nothing ntfs) evs.
Proof.
  intros ntfs mounted e1 paths r Hstdout Hroot Hnotreg.
  assert (Hgoal :
            fst r = (if negb mounted then WIMLIB_ERR_NTFS_3G
                     else if is_error paths then paths
                     else WIMLIB_ERR_NOT_A_REGULAR_FILE) /\
            idle ntfs s (snd r)).
  2: { destruct Hgoal as [Hr Hidle]. split; [exact Hr |].
       split; [| exact Hidle]. rewrite Hr.
       destruct (negb mounted); [reflexivity |].
       destruct (is_error paths) eqn:E; [exact E | reflexivity]. }
  subst r. unfold extract_tree.
  cbv [body bind gets modify when pure Return goto ERROR call].
  fold ntfs.
  assert (Hn : ntfs = true ->
               x_ntfs_mount X target (ext s) = (mounted, e1)).
  { intros Ht. subst mounted e1. rewrite Ht.
    destruct (x_ntfs_mount X target (ext s)); reflexivity. }
  assert (Hf : ntfs = false -> mounted = true /\ e1 = ext s).
  { intros Hfalse. subst mounted e1. rewrite Hfalse. split; reflexivity. }
  assert (Hdef : WITH_NTFS_3G X
                 && nonzero (Z.land extract_flags
                               (WIMLIB_EXTRACT_FLAG_NTFS X)) = ntfs)
    by reflexivity.
  subst paths. clearbody mounted e1. clearbody ntfs.
  destruct (negb (is_null progress_func));
    cbn [ext wim args trace with_args set_args with_ext log set_progress];
    (destruct ntfs;
     [ specialize (Hn eq_refl); clear Hf; cbn [ext wim args trace with_args set_args with_ext log
            set_progress];
       rewrite Hn; destruct mounted; cbn [negb]
     | destruct (Hf eq_refl) as [-> ->]; clear Hn Hf; cbn [negb] ];
     cbn [ext wim args trace with_args set_args with_ext log set_progress
          fst snd]).
  (* the volume cannot be mounted *)
  all: try (split; [reflexivity |];
            repeat (apply idle_log; [| first [exact I | reflexivity]]);
            apply same_trace_idle; reflexivity).
  all: rewrite Hroot.
  all: cbv beta iota.
  all: match goal with
       | |- fst _ = (if is_error (fst (x_calculate_dentry_tree_full_paths
                                         X ?d ?E)) then _ else _)
            /\ idle ?b ?s0 _ =>
           match goal with
           | |- context [x_calculate_dentry_tree_full_paths X d
                           (ext ?st)] =>
               set (st0 := st);
               assert (H0 : idle b s0 st0)
                 by (subst st0;
                     repeat (apply idle_log;
                             [| first [exact I | reflexivity]]);
                     apply same_trace_idle; reflexivity);
               assert (E0 : ext st0 = E) by reflexivity;
               clearbody st0; rewrite E0;
               destruct (x_calculate_dentry_tree_full_paths X d E)
                 as [rc e2]; cbn [fst]
           end
       end.
  all: destruct (is_error rc) eqn:Erc; cbv beta iota.
  (* the full paths cannot be computed *)
  all: try match goal with
       | |- context [out_ntfs_umount ?f ?r ?st] =>
           destruct (out_ntfs_umount_idle f r st Erc) as [R3 M3];
           rewrite Hdef in M3;
           destruct (out_ntfs_umount f r st) as [r3 s3];
           cbn [fst snd] in R3, M3 |- *;
           (split; [exact R3 |]);
           eapply idle_trans; [| exact M3];
           eapply idle_trans; [exact H0 |];
           apply same_trace_idle; reflexivity
       end.
  all: match goal with
       | |- context [find_streams_for_extraction ?d ?f ?st] =>
           assert (H1 : trace st = trace st0) by reflexivity;
           pose proof (find_streams_for_extraction_silent d f st) as S1;
           destruct (find_streams_for_extraction_normal d f st)
             as [sl N1];
           destruct (find_streams_for_extraction d f st) as [o1 s1];
           cbn [fst snd] in S1, N1; subst o1
       end.
  all: match goal with
       | |- context [calculate_bytes_to_extract ?l ?f ?st] =>
           pose proof (calculate_bytes_silent l f st) as S2;
           assert (N2 : fst (calculate_bytes_to_extract l f st) = Normal tt)
             by reflexivity;
           destruct (calculate_bytes_to_extract l f st) as [o2 s2];
           cbn [fst snd] in S2, N2; subst o2
       end.
  all: rewrite Hstdout; cbv beta iota.
  all: unfold extract_dentry_to_stdout; rewrite Hnotreg;
       cbv [negb body bind ERROR pure modify]; cbv beta iota.
  all: match goal with
       | |- context [out_dentry_reset_needs_extraction ?d ?f ?r ?st] =>
           destruct (out_dentry_reset_idle d f r st eq_refl) as [R3 M3];
           rewrite Hdef in M3;
           destruct (out_dentry_reset_needs_extraction d f r st)
             as [r3 s3]; cbn [fst snd] in R3, M3 |- *
       end.
  all: split; [exact R3 |].
  all: eapply idle_trans; [| exact M3].
  all: apply idle_log; [| exact I].
  all: eapply idle_trans; [exact H0 |].
  all: apply same_trace_idle.
  all: destruct S1 as [_ [Ht1 _]]; destruct S2 as [_ [Ht2 _]]; congruence.
Qed.

(** ** The fall-back from a sequential extraction

    Two runs of [extract_tree] are compared: one with the flag
    [WIMLIB_EXTRACT_FLAG_SEQUENTIAL] in which the array of the sort cannot
    be allocated, one without the flag.  The runs differ in the two
    messages of the fall-back and in the bit of the flag, which the first
    run keeps in
    [args.extract_flags] and in the flags it reports to the progress
    function. *)
Definition clear_sequential (flags : Z) : Z :=
  Z.land flags (Z.lnot (WIMLIB_EXTRACT_FLAG_SEQUENTIAL X)).

Definition erase_progress (p : progress_extract) : progress_extract :=
  {| wimfile_name := wimfile_name p; image := image p;
     p_extract_flags := clear_sequential (p_extract_flags p);
     image_name := image_name p;
     extract_root_wim_source_path := extract_root_wim_source_path p;
     p_target := p_target p; cur_path := cur_path p;
     num_streams := num_streams p; total_bytes := total_bytes p;
     completed_bytes := completed_bytes p |}.

Definition erase_args (a : apply_args) : apply_args :=
  {| target := target a; target_nchars := target_nchars a;
     wim_source_path_nchars := wim_source_path_nchars a;
     a_extract_flags := clear_sequential (a_extract_flags a);
     progress_func := progress_func a;
     progress := erase_progress (progress a);
     extract_root := extract_root a;
     apply_dentry := apply_dentry a; target_realpath := target_realpath a;
     target_realpath_len := target_realpath_len a;
     vol_mounted := vol_mounted a |}.

Definition erase_event (e : event) : event :=
  match e with
  | Ev_progress msg info => Ev_progress msg (erase_progress info)
  | _ => e
  end.

Definition is_message (e : event) : bool :=
  match e with Ev_message _ _ => true | _ => false end.

(** The two messages of the fall-back: the one of the sort and the one
    of [extract_tree]. *)
Definition fallback_messages : list event :=
  [Ev_message LVL_ERROR "Failed to allocate bytes to sort stream entries";
   Ev_message LVL_WARNING "Falling back to non-sequential extraction"].

Definition is_fallback_message (e : event) : bool :=
  match e with
  | Ev_message LVL_ERROR text =>
      String.eqb text "Failed to allocate bytes to sort stream entries"
  | Ev_message LVL_WARNING text =>
      String.eqb text "Falling back to non-sequential extraction"
  | _ => false
  end.

(** What a run did, the two messages of the fall-back and the bit of the
    flag apart: every other event stands as it is, in its place. *)
Definition visible (t : list event) : list event :=
  map erase_event (filter (fun e => negb (is_fallback_message e)) t).

(** The flags the code tests have no bit in common with
    [WIMLIB_EXTRACT_FLAG_SEQUENTIAL]. *)
Definition flags_apart : Prop :=
  Forall (fun F => Z.land (WIMLIB_EXTRACT_FLAG_SEQUENTIAL X) F = 0)
    [WIMLIB_EXTRACT_FLAG_NTFS X; WIMLIB_EXTRACT_FLAG_SYMLINK X;
     WIMLIB_EXTRACT_FLAG_HARDLINK X; WIMLIB_EXTRACT_FLAG_VERBOSE X;
     WIMLIB_EXTRACT_FLAG_RPFIX X; WIMLIB_EXTRACT_FLAG_TO_STDOUT X;
     WIMLIB_EXTRACT_FLAG_NO_STREAMS X].

(** A backend does not look at the bit of the flag. *)
Definition ignores_sequential {A}
    (backend : apply_args -> ext_state -> A) : Prop :=
  forall a1 a2 e, erase_args a1 = erase_args a2 ->
                  backend a1 e = backend a2 e.

Definition backends_ignore_sequential : Prop :=
  (forall p n d, ignores_sequential (unix_do_apply_dentry X p n d)) /\
  (forall p n d,
      ignores_sequential (unix_do_apply_dentry_timestamps X p n d)) /\
  (forall p n d, ignores_sequential (win32_do_apply_dentry X p n d)) /\
  (forall p n d,
      ignores_sequential (win32_do_apply_dentry_timestamps X p n d)) /\
  (forall d, ignores_sequential (x_apply_dentry_ntfs X d)) /\
  (forall d, ignores_sequential (x_apply_dentry_timestamps_ntfs X d)).

(** Nor does the progress function of the caller. *)
Definition progress_ignores_sequential
    (progress_func : option wimlib_progress_func_t) : Prop :=
  forall f, progress_func = Some f ->
    forall msg p1 p2 e, erase_progress p1 = erase_progress p2 ->
                        f msg p1 e = f msg p2 e.

Lemma clear_sequential_land (flags F : Z) :
  Z.land (WIMLIB_EXTRACT_FLAG_SEQUENTIAL X) F = 0 ->
  Z.land (clear_sequential flags) F = Z.land flags F.
Proof.
  intros H. unfold clear_sequential. apply Z.bits_inj'. intros n Hn.
  apply (f_equal (fun z => Z.testbit z n)) in H.
  rewrite Z.land_spec, Z.bits_0 in H.
  rewrite !Z.land_spec, Z.lnot_spec by exact Hn.
  destruct (Z.testbit flags n), (Z.testbit F n),
    (Z.testbit (WIMLIB_EXTRACT_FLAG_SEQUENTIAL X) n);
    cbn in *; congruence.
Qed.

Lemma clear_sequential_bit (flags : Z) :
  Z.land (clear_sequential flags) (WIMLIB_EXTRACT_FLAG_SEQUENTIAL X) = 0.
Proof.
  unfold clear_sequential. rewrite <- Z.land_assoc.
  rewrite (Z.land_comm (Z.lnot _)), Z.land_lnot_diag, Z.land_0_r.
  reflexivity.
Qed.

Lemma clear_sequential_lor (x y : Z) :
  clear_sequential (Z.lor x y)
  = Z.lor (clear_sequential x) (clear_sequential y).
Proof. unfold clear_sequential. apply Z.land_lor_distr_l. Qed.

Lemma clear_sequential_mask (x m : Z) :
  clear_sequential (Z.land x m) = Z.land (clear_sequential x) m.
Proof.
  unfold clear_sequential.
  rewrite <- !Z.land_assoc, (Z.land_comm m). reflexivity.
Qed.

Lemma clear_sequential_idem (x : Z) :
  clear_sequential (clear_sequential x) = clear_sequential x.
Proof.
  unfold clear_sequential. rewrite <- Z.land_assoc, Z.land_diag.
  reflexivity.
Qed.

Lemma same_test (x y F : Z) :
  clear_sequential x = clear_sequential y ->
  Z.land (WIMLIB_EXTRACT_FLAG_SEQUENTIAL X) F = 0 ->
  Z.land x F = Z.land y F.
Proof.
  intros Hxy HF.
  rewrite <- (clear_sequential_land x F HF),
          <- (clear_sequential_land y F HF), Hxy.
  reflexivity.
Qed.

Lemma visible_app (t u : list event) :
  visible (t ++ u) = visible t ++ visible u.
Proof. unfold visible. rewrite filter_app, map_app. reflexivity. Qed.

(** A run only adds to the trace. *)
Definition grows (s s' : world) : Prop :=
  exists evs, trace s' = trace s ++ evs.

Lemma grows_refl (s : world) : grows s s.
Proof. exists []. symmetry. apply app_nil_r. Qed.

Lemma grows_trans (a b c : world) : grows a b -> grows b c -> grows a c.
Proof.
  intros [e1 H1] [e2 H2]. exists (e1 ++ e2).
  rewrite H2, H1, app_assoc. reflexivity.
Qed.

Lemma grows_same (s s' : world) : trace s' = trace s -> grows s s'.
Proof. intros H. exists []. rewrite H, app_nil_r. reflexivity. Qed.

Lemma grows_log (s s' : world) (e : event) :
  grows s s' -> grows s (log e s').
Proof.
  intros [evs H]. exists (evs ++ [e]). cbn [trace log].
  rewrite H, app_assoc. reflexivity.
Qed.

Lemma grows_In (s s' : world) (e : event) :
  grows s s' -> In e (trace s) -> In e (trace s').
Proof. intros [evs H] Hin. rewrite H. apply in_or_app. left. exact Hin. Qed.

Ltac grows_steps := respects_steps grows_refl grows_trans.

Ltac grows_leaf :=
  first [ apply respects_modify; intros ?; apply grows_same; reflexivity
        | apply respects_modify; intros ?; apply grows_log, grows_same;
          reflexivity ].

Lemma call_progress_grows (f : wimlib_progress_func_t)
    (msg : wimlib_progress_msg) :
  respects grows (call_progress f msg).
Proof.
  intros s. unfold call_progress. cbn [snd].
  apply grows_log, grows_same. reflexivity.
Qed.

Lemma run_backend_grows (r : wimlib_error_code * Z * ext_state)
    (ev : wimlib_error_code -> event) (s : world) :
  grows s (snd (run_backend r ev s)).
Proof.
  destruct r as [[ret c] e]. cbn [run_backend snd].
  apply grows_log, grows_same. reflexivity.
Qed.

Lemma do_apply_op_grows (dentry : wim_dentry)
    (func : list tchar -> Z -> wim_dentry -> @fn world) :
  (forall path len, fn_respects grows (func path len dentry)) ->
  fn_respects grows (do_apply_op dentry func).
Proof.
  intros H s. unfold do_apply_op. cbv zeta.
  destruct (negb _); apply H.
Qed.

Lemma call_apply_dentry_grows (ptr : apply_dentry_ptr)
    (dentry : wim_dentry) :
  fn_respects grows (call_apply_dentry ptr dentry).
Proof.
  destruct ptr; cbn [call_apply_dentry].
  - intros s. apply grows_refl.
  - apply do_apply_op_grows. intros path len s. apply run_backend_grows.
  - intros s. apply run_backend_grows.
Qed.

Lemma maybe_apply_dentry_grows (dentry : wim_dentry) :
  fn_respects grows (maybe_apply_dentry dentry).
Proof.
  unfold maybe_apply_dentry. grows_steps.
  all: first [ apply call_progress_grows
             | apply call_apply_dentry_grows
             | grows_leaf ].
Qed.

Lemma apply_stream_dentries_grows (dentries : list wim_dentry)
    (progress_func : option wimlib_progress_func_t)
    (bytes_per_progress : Z) :
  forall next_progress,
    respects grows (apply_stream_dentries dentries progress_func
                      bytes_per_progress next_progress).
Proof.
  induction dentries as [| d rest IH]; intros next;
    cbn [apply_stream_dentries]; grows_steps.
  all: first [ apply maybe_apply_dentry_grows
             | apply call_progress_grows
             | apply call_apply_dentry_grows
             | apply IH
             | grows_leaf ].
Qed.

Lemma apply_streams_grows (streams : list lte_ptr)
    (progress_func : option wimlib_progress_func_t)
    (bytes_per_progress : Z) :
  forall next_progress,
    respects grows (apply_streams streams progress_func
                      bytes_per_progress next_progress).
Proof.
  induction streams as [| l rest IH]; intros next;
    cbn [apply_streams]; grows_steps.
  all: first [ apply apply_stream_dentries_grows | apply IH ].
Qed.

Lemma apply_stream_list_grows (stream_list : list lte_ptr)
    (ops : apply_operations)
    (progress_func : option wimlib_progress_func_t) :
  fn_respects grows (apply_stream_list stream_list ops progress_func).
Proof.
  unfold apply_stream_list. grows_steps. apply apply_streams_grows.
Qed.

Lemma out_ntfs_umount_grows (extract_flags : Z)
    (ret : wimlib_error_code) :
  fn_respects grows (out_ntfs_umount extract_flags ret).
Proof.
  unfold out_ntfs_umount.
  destruct (WITH_NTFS_3G X && _); [| intros s; apply grows_refl].
  grows_steps.
  - intros s. destruct (x_ntfs_umount X (ext s)) as [r e]. cbn [snd].
    apply grows_log, grows_same. reflexivity.
  - unfold ERROR. grows_leaf.
Qed.

Lemma out_dentry_reset_needs_extraction_grows (root : wim_dentry)
    (extract_flags : Z) (ret : wimlib_error_code) :
  fn_respects grows
    (out_dentry_reset_needs_extraction root extract_flags ret).
Proof.
  unfold out_dentry_reset_needs_extraction. grows_steps.
  - apply visit_each_respects;
      [apply grows_refl | apply grows_trans |].
    intros d s. apply grows_same. reflexivity.
  - apply out_ntfs_umount_grows.
Qed.

Lemma goto_respects {A} (R : world -> world -> Prop) (label : @fn world) :
  fn_respects R label -> respects R (@goto A label).
Proof.
  intros H s. unfold goto. specialize (H s). destruct (label s). exact H.
Qed.

(** A block that, when it returns from the function, returns an error,
    and whose value satisfies [P] when it runs to its end. *)
Definition yields {A} (P : A -> Prop) (m : @block world A) : Prop :=
  forall s, match fst (m s) with
            | Normal a => P a
            | Returned r => is_error r = true
            end.

Definition harmless {A} (m : @block world A) : Prop :=
  yields (fun _ => True) m.

(** A block after which the event is in the trace, unless it has
    returned an error. *)
Definition leaves {A} (e : event) (m : @block world A) : Prop :=
  forall s, match fst (m s) with
            | Normal _ => In e (trace (snd (m s)))
            | Returned r => is_error r = true \/ In e (trace (snd (m s)))
            end.

Lemma leaves_bind_later {A B} (P : A -> Prop) (e : event)
    (m : @block world A) (k : A -> @block world B) :
  yields P m -> (forall a, P a -> leaves e (k a)) -> leaves e (bind m k).
Proof.
  intros Hm Hk s. unfold bind. specialize (Hm s).
  destruct (m s) as [[a | r] s1]; cbn [fst snd] in *.
  - apply Hk, Hm.
  - left. exact Hm.
Qed.

Lemma leaves_bind_now {A B} (e : event) (m : @block world A)
    (k : A -> @block world B) :
  leaves e m -> (forall a, respects grows (k a)) -> leaves e (bind m k).
Proof.
  intros Hm Hk s. unfold bind. specialize (Hm s).
  destruct (m s) as [[a | r] s1]; cbn [fst snd] in *.
  - specialize (Hk a s1).
    destruct (k a s1) as [[b | r] s2]; cbn [fst snd] in *;
      [| right]; eapply grows_In; eassumption.
  - exact Hm.
Qed.

Lemma leaves_body (e : event) (m : @block world wimlib_error_code)
    (s : world) :
  leaves e m ->
  is_error (fst (body m s)) = false -> In e (trace (snd (body m s))).
Proof.
  intros Hm. unfold body. specialize (Hm s).
  destruct (m s) as [[r | r] s1]; cbn [fst snd] in *; intros Hr;
    [exact Hm |].
  destruct Hm as [Hm | Hm]; [congruence | exact Hm].
Qed.

Lemma harmless_gets {A} (f : world -> A) : harmless (gets f).
Proof. intros s. exact I. Qed.

Lemma harmless_modify (f : world -> world) : harmless (modify f).
Proof. intros s. exact I. Qed.

Lemma harmless_pure {A} (a : A) : harmless (@pure world A a).
Proof. intros s. exact I. Qed.

Lemma harmless_goto_umount {A} (extract_flags : Z)
    (ret : wimlib_error_code) :
  is_error ret = true ->
  harmless (@goto A (out_ntfs_umount extract_flags ret)).
Proof.
  intros Hret s. unfold goto.
  destruct (out_ntfs_umount_meek extract_flags ret s Hret) as [H _].
  destruct (out_ntfs_umount extract_flags ret s) as [r s1].
  cbn [fst] in *. subst r. exact Hret.
Qed.

Lemma leaves_goto_umount {A} (e : event) (extract_flags : Z)
    (ret : wimlib_error_code) :
  is_error ret = true ->
  leaves e (@goto A (out_ntfs_umount extract_flags ret)).
Proof.
  intros Hret s. pose proof (harmless_goto_umount (A := A) extract_flags
                               ret Hret s) as H.
  unfold goto in *.
  destruct (out_ntfs_umount extract_flags ret s) as [r s1].
  cbn [fst snd] in *. left. exact H.
Qed.

(** The warning of [extract_tree] is in the trace of every run that asks
    for a sequential extraction, cannot allocate the array, and returns
    success without having been sent to standard output. *)
Lemma fallback_warning (wim_source_path target : list tchar)
    (extract_flags : Z) (q : option wimlib_progress_func_t) (s : world) :
  nonzero (Z.land extract_flags (WIMLIB_EXTRACT_FLAG_SEQUENTIAL X)) = true ->
  (forall size e, x_malloc X size e = false) ->
  nonzero (Z.land extract_flags (WIMLIB_EXTRACT_FLAG_TO_STDOUT X)) = false ->
  is_error (fst (extract_tree wim_source_path target extract_flags q s))
  = false ->
  In (Ev_message LVL_WARNING "Falling back to non-sequential extraction")
     (trace (snd (extract_tree wim_source_path target extract_flags q s))).
Proof.
  intros Hseq Hmalloc Hstdout. unfold extract_tree.
  rewrite Hseq, Hstdout. cbv iota.
  apply leaves_body.
  eapply leaves_bind_later; [apply harmless_gets | intros w _].
  eapply leaves_bind_later; [apply harmless_modify | intros _ _].
  eapply leaves_bind_later;
    [ destruct (negb (is_null q));
      [apply harmless_modify | apply harmless_pure]
    | intros _ _ ].
  eapply (leaves_bind_later
            (fun ops => ops = normal_apply_operations
                        \/ ops = ntfs_apply_operations)).
  { destruct (WITH_NTFS_3G X && _); [| intros st; left; reflexivity].
    intros st. cbv [bind pure Return ERROR modify].
    destruct (x_ntfs_mount X target (ext st)) as [[|] e];
      cbn; [right |]; reflexivity. }
  intros ops Hops.
  eapply leaves_bind_later; [apply harmless_gets | intros root _].
  destruct root as [root |].
  2: { eapply leaves_bind_later; [apply harmless_modify | intros _ _].
       apply leaves_goto_umount. reflexivity. }
  eapply leaves_bind_later; [apply harmless_modify | intros _ _].
  eapply (leaves_bind_later (fun _ => True)).
  { intros st.
    destruct (x_calculate_dentry_tree_full_paths X root (ext st)).
    exact I. }
  intros ret _.
  eapply leaves_bind_later;
    [ destruct (is_error ret) eqn:E;
      [apply harmless_goto_umount, E | apply harmless_pure]
    | intros _ _ ].
  eapply (leaves_bind_later (fun _ => True)).
  { intros st.
    destruct (find_streams_for_extraction_normal root extract_flags st)
      as [sl Hsl].
    rewrite Hsl. exact I. }
  intros stream_list _.
  eapply leaves_bind_later; [apply harmless_modify | intros _ _].
  eapply leaves_bind_later; [apply harmless_pure | intros _ _].
  eapply (leaves_bind_later (fun _ => True));
    [ destruct q; [intros st; exact I | apply harmless_pure]
    | intros _ _ ].
  apply leaves_bind_now.
  { intros st. cbv [bind].
    rewrite sort_stream_list_nomem by apply Hmalloc.
    cbn [is_error fst snd]. cbv [WARNING modify pure].
    cbn [fst snd trace log].
    apply in_or_app. right. left. reflexivity. }
  intros sorted.
  destruct Hops as [-> | ->]; grows_steps.
  all: first
    [ apply call_progress_grows
    | grows_leaf
    | apply goto_respects, out_dentry_reset_needs_extraction_grows
    | apply apply_streams_grows
    | apply visit_each_respects;
      [ apply grows_refl | apply grows_trans | intros d ];
      first [ apply maybe_apply_dentry_grows
            | apply do_apply_op_grows; intros path len st;
              apply run_backend_grows
            | intros st; apply run_backend_grows ] ].
Qed.

Section Fallback.
Variable pf : option wimlib_progress_func_t.
Hypothesis Hflags : flags_apart.
Hypothesis Hbackends : backends_ignore_sequential.
Hypothesis Hprogress : progress_ignores_sequential pf.

(** The states of the two runs, side by side. *)
Definition sim (s1 s2 : world) : Prop :=
  out_refcnt s1 = out_refcnt s2 /\
  lte_dentry_list s1 = lte_dentry_list s2 /\
  i_visited s1 = i_visited s2 /\
  needs_extraction s1 = needs_extraction s2 /\
  erase_args (args s1) = erase_args (args s2) /\
  progress_func (args s1) = pf /\
  stream_list (ctx s1) = stream_list (ctx s2) /\
  clear_sequential (ctx_extract_flags (ctx s1))
  = clear_sequential (ctx_extract_flags (ctx s2)) /\
  wim s1 = wim s2 /\
  ext s1 = ext s2 /\
  visible (trace s1) = visible (trace s2).

Lemma erase_progress_fields (p1 p2 : progress_extract) :
  erase_progress p1 = erase_progress p2 ->
  wimfile_name p1 = wimfile_name p2 /\ image p1 = image p2 /\
  clear_sequential (p_extract_flags p1)
  = clear_sequential (p_extract_flags p2) /\
  image_name p1 = image_name p2 /\
  extract_root_wim_source_path p1 = extract_root_wim_source_path p2 /\
  p_target p1 = p_target p2 /\ cur_path p1 = cur_path p2 /\
  num_streams p1 = num_streams p2 /\ total_bytes p1 = total_bytes p2 /\
  completed_bytes p1 = completed_bytes p2.
Proof.
  intros H. unfold erase_progress in H. injection H. intros.
  repeat split; assumption.
Qed.

Lemma erase_args_fields (a1 a2 : apply_args) :
  erase_args a1 = erase_args a2 ->
  target a1 = target a2 /\ target_nchars a1 = target_nchars a2 /\
  wim_source_path_nchars a1 = wim_source_path_nchars a2 /\
  clear_sequential (a_extract_flags a1)
  = clear_sequential (a_extract_flags a2) /\
  progress_func a1 = progress_func a2 /\
  erase_progress (progress a1) = erase_progress (progress a2) /\
  extract_root a1 = extract_root a2 /\
  apply_dentry a1 = apply_dentry a2 /\
  target_realpath a1 = target_realpath a2 /\
  target_realpath_len a1 = target_realpath_len a2 /\
  vol_mounted a1 = vol_mounted a2.
Proof.
  intros H. unfold erase_args in H. injection H. intros.
  repeat split; try assumption. unfold erase_progress. congruence.
Qed.

Lemma apart (F : Z) :
  In F [WIMLIB_EXTRACT_FLAG_NTFS X; WIMLIB_EXTRACT_FLAG_SYMLINK X;
        WIMLIB_EXTRACT_FLAG_HARDLINK X; WIMLIB_EXTRACT_FLAG_VERBOSE X;
        WIMLIB_EXTRACT_FLAG_RPFIX X; WIMLIB_EXTRACT_FLAG_TO_STDOUT X;
        WIMLIB_EXTRACT_FLAG_NO_STREAMS X] ->
  Z.land (WIMLIB_EXTRACT_FLAG_SEQUENTIAL X) F = 0.
Proof.
  intros HF. unfold flags_apart in Hflags.
  rewrite Forall_forall in Hflags. apply Hflags, HF.
Qed.

Lemma sim_with_args (g1 g2 : apply_args -> apply_args) :
  (forall a1 a2, erase_args a1 = erase_args a2 ->
                 erase_args (g1 a1) = erase_args (g2 a2)) ->
  (forall a, progress_func (g1 a) = progress_func a) ->
  forall s1 s2, sim s1 s2 -> sim (with_args g1 s1) (with_args g2 s2).
Proof.
  intros Hg Hp s1 s2 (Hrc & Hdl & Hiv & Hne & Ha & Hpf & Hsl & Hcf & Hw
                      & He & Ht).
  unfold sim, with_args, set_args. cbn.
  repeat split; try assumption.
  - apply Hg, Ha.
  - rewrite Hp. exact Hpf.
Qed.

Lemma sim_log (e1 e2 : event) :
  is_fallback_message e1 = is_fallback_message e2 ->
  erase_event e1 = erase_event e2 ->
  forall s1 s2, sim s1 s2 -> sim (log e1 s1) (log e2 s2).
Proof.
  intros Hm Hev s1 s2 (Hrc & Hdl & Hiv & Hne & Ha & Hpf & Hsl & Hcf & Hw
                       & He & Ht).
  unfold sim, log. cbn [out_refcnt lte_dentry_list i_visited
    needs_extraction args ctx wim ext trace].
  repeat split; try assumption.
  rewrite !visible_app, Ht. f_equal. unfold visible. cbn [filter].
  rewrite Hm. destruct (is_fallback_message e2); cbn; congruence.
Qed.

Lemma sim_message_l (e : event) (s1 s2 : world) :
  is_fallback_message e = true -> sim s1 s2 -> sim (log e s1) s2.
Proof.
  intros Hm (Hrc & Hdl & Hiv & Hne & Ha & Hpf & Hsl & Hcf & Hw & He & Ht).
  unfold sim, log. cbn [out_refcnt lte_dentry_list i_visited
    needs_extraction args ctx wim ext trace].
  repeat split; try assumption.
  rewrite visible_app, Ht. unfold visible at 2. cbn [filter].
  rewrite Hm. cbn. apply app_nil_r.
Qed.

Lemma sim_with_ext (e : ext_state) (s1 s2 : world) :
  sim s1 s2 -> sim (with_ext e s1) (with_ext e s2).
Proof.
  intros (Hrc & Hdl & Hiv & Hne & Ha & Hpf & Hsl & Hcf & Hw & He & Ht).
  unfold sim, with_ext. cbn. repeat split; assumption.
Qed.

Lemma sim_ERROR (text : string) :
  simulates sim eq (ERROR text) (ERROR text).
Proof.
  apply simulates_modify. intros s1 s2 Hs.
  apply sim_log; [reflexivity | reflexivity | exact Hs].
Qed.

Lemma sim_call_progress (f : wimlib_progress_func_t)
    (msg : wimlib_progress_msg) :
  pf = Some f ->
  simulates sim eq (call_progress f msg) (call_progress f msg).
Proof.
  intros Hf s1 s2 Hs. unfold call_progress. cbn [fst snd].
  split; [reflexivity |].
  pose proof Hs as (_ & _ & _ & _ & Ha & _ & _ & _ & _ & He & _).
  apply erase_args_fields in Ha.
  destruct Ha as (_ & _ & _ & _ & _ & Hp & _).
  rewrite (Hprogress f Hf msg _ _ (ext s1) Hp), He.
  apply sim_log; [reflexivity | cbn; f_equal; exact Hp |].
  apply sim_with_ext, Hs.
Qed.

Lemma sim_goto {A} (RA : A -> A -> Prop) (l1 l2 : @fn world) :
  fn_simulates sim l1 l2 -> simulates sim RA (goto l1) (goto l2).
Proof.
  intros H s1 s2 Hs. unfold goto. destruct (H s1 s2 Hs) as [Hr Hs'].
  destruct (l1 s1), (l2 s2). cbn [fst snd outcome_rel] in *.
  split; assumption.
Qed.

Lemma sim_visit_each (v1 v2 : wim_dentry -> @fn world)
    (l : list wim_dentry) :
  (forall d, fn_simulates sim (v1 d) (v2 d)) ->
  fn_simulates sim (visit_each v1 l) (visit_each v2 l).
Proof.
  intros Hv. induction l as [| d l IH]; intros s1 s2 Hs;
    cbn [visit_each].
  - split; [reflexivity | exact Hs].
  - destruct (Hv d s1 s2 Hs) as [Hr Hs'].
    destruct (v1 d s1) as [r1 t1], (v2 d s2) as [r2 t2].
    cbn [fst snd] in *. subst r2.
    destruct (is_error r1); [split; [reflexivity | exact Hs'] |].
    apply IH, Hs'.
Qed.

Ltac erase_fields H :=
  apply erase_args_fields in H;
  let Hp := fresh "Hp" in
  destruct H as (? & ? & ? & ? & ? & Hp & ? & ? & ? & ? & ?);
  pose proof (erase_progress_fields _ _ Hp)
    as (? & ? & ? & ? & ? & ? & ? & ? & ? & ?).

Ltac erase_solve :=
  let H := fresh "H" in
  intros ? ? H; erase_fields H;
  unfold erase_args, erase_progress, with_progress, set_progress,
    set_completed_bytes, set_cur_path, set_totals, set_extract_flags,
    set_extract_root, set_apply_dentry, set_target_realpath,
    set_vol_mounted;
  cbn;
  rewrite ?clear_sequential_lor, ?clear_sequential_mask,
    ?clear_sequential_idem;
  congruence.

Lemma sim_run_backend (r : wimlib_error_code * Z * ext_state)
    (ev : wimlib_error_code -> event) (s1 s2 : world) :
  sim s1 s2 ->
  fst (run_backend r ev s1) = fst (run_backend r ev s2)
  /\ sim (snd (run_backend r ev s1)) (snd (run_backend r ev s2)).
Proof.
  intros Hs. destruct r as [[ret completed] e]. cbn [run_backend fst snd].
  split; [reflexivity |].
  apply sim_log; [reflexivity | reflexivity |].
  apply sim_with_ext.
  apply sim_with_args; [erase_solve | reflexivity | exact Hs].
Qed.

Lemma sim_backend {A} (backend : apply_args -> ext_state -> A)
    (s1 s2 : world) :
  ignores_sequential backend -> sim s1 s2 ->
  backend (args s1) (ext s1) = backend (args s2) (ext s2).
Proof.
  intros Hb (_ & _ & _ & _ & Ha & _ & _ & _ & _ & He & _).
  rewrite He. apply Hb, Ha.
Qed.

Lemma sim_platform_do_apply_dentry (path : list tchar) (len : Z)
    (dentry : wim_dentry) :
  fn_simulates sim (platform_do_apply_dentry path len dentry)
                   (platform_do_apply_dentry path len dentry).
Proof.
  intros s1 s2 Hs. unfold platform_do_apply_dentry.
  destruct Hbackends as (Hu & _ & Hw & _).
  destruct (WIN32 X);
    [rewrite (sim_backend _ s1 s2 (Hw path len dentry) Hs)
    | rewrite (sim_backend _ s1 s2 (Hu path len dentry) Hs)];
    apply sim_run_backend, Hs.
Qed.

Lemma sim_platform_do_apply_dentry_timestamps (path : list tchar)
    (len : Z) (dentry : wim_dentry) :
  fn_simulates sim (platform_do_apply_dentry_timestamps path len dentry)
                   (platform_do_apply_dentry_timestamps path len dentry).
Proof.
  intros s1 s2 Hs. unfold platform_do_apply_dentry_timestamps.
  destruct Hbackends as (_ & Hu & _ & Hw & _).
  destruct (WIN32 X);
    [rewrite (sim_backend _ s1 s2 (Hw path len dentry) Hs)
    | rewrite (sim_backend _ s1 s2 (Hu path len dentry) Hs)];
    apply sim_run_backend, Hs.
Qed.

Lemma sim_apply_dentry_ntfs (dentry : wim_dentry) :
  fn_simulates sim (apply_dentry_ntfs dentry) (apply_dentry_ntfs dentry).
Proof.
  intros s1 s2 Hs. unfold apply_dentry_ntfs.
  destruct Hbackends as (_ & _ & _ & _ & Hn & _).
  rewrite (sim_backend _ s1 s2 (Hn dentry) Hs).
  apply sim_run_backend, Hs.
Qed.

Lemma sim_apply_dentry_timestamps_ntfs (dentry : wim_dentry) :
  fn_simulates sim (apply_dentry_timestamps_ntfs dentry)
                   (apply_dentry_timestamps_ntfs dentry).
Proof.
  intros s1 s2 Hs. unfold apply_dentry_timestamps_ntfs.
  destruct Hbackends as (_ & _ & _ & _ & _ & Hn).
  rewrite (sim_backend _ s1 s2 (Hn dentry) Hs).
  apply sim_run_backend, Hs.
Qed.

Lemma sim_do_apply_op (dentry : wim_dentry)
    (func : list tchar -> Z -> wim_dentry -> @fn world) :
  (forall path len, fn_simulates sim (func path len dentry)
                                     (func path len dentry)) ->
  fn_simulates sim (do_apply_op dentry func) (do_apply_op dentry func).
Proof.
  intros Hf s1 s2 Hs. unfold do_apply_op, is_extract_root.
  pose proof Hs as (_ & _ & _ & _ & Ha & _).
  erase_fields Ha.
  repeat match goal with
         | E : _ (args s1) = _ (args s2) |- _ => rewrite E; clear E
         end.
  cbv zeta.
  match goal with
  | |- context [if ?c then _ else _] => destruct c
  end; apply Hf, Hs.
Qed.

Lemma sim_call_apply_dentry (ptr : apply_dentry_ptr)
    (dentry : wim_dentry) :
  fn_simulates sim (call_apply_dentry ptr dentry)
                   (call_apply_dentry ptr dentry).
Proof.
  destruct ptr; cbn [call_apply_dentry].
  - intros s1 s2 Hs. split; [reflexivity | exact Hs].
  - apply sim_do_apply_op. intros path len.
    apply sim_platform_do_apply_dentry.
  - apply sim_apply_dentry_ntfs.
Qed.

Definition args_alike (a1 a2 : apply_args) : Prop :=
  erase_args a1 = erase_args a2 /\ progress_func a1 = pf.

Lemma sim_gets_args : simulates sim args_alike (gets args) (gets args).
Proof.
  apply simulates_gets.
  intros s1 s2 (_ & _ & _ & _ & Ha & Hpf & _). split; assumption.
Qed.

Lemma sim_needs_extraction (f : (nat -> bool) -> nat -> bool)
    (s1 s2 : world) :
  sim s1 s2 ->
  sim (set_needs_extraction (f (needs_extraction s1)) s1)
      (set_needs_extraction (f (needs_extraction s2)) s2).
Proof.
  intros (Hrc & Hdl & Hiv & Hne & Ha & Hpf & Hsl & Hcf & Hw & He & Ht).
  unfold sim, set_needs_extraction. cbn. rewrite Hne.
  repeat split; assumption.
Qed.

Lemma sim_maybe_apply_dentry (dentry : wim_dentry) :
  fn_simulates sim (maybe_apply_dentry dentry)
                   (maybe_apply_dentry dentry).
Proof.
  unfold maybe_apply_dentry. apply fn_simulates_body.
  eapply simulates_bind.
  { apply (simulates_gets _ eq).
    intros s1 s2 (_ & _ & _ & Hne & _). rewrite Hne. reflexivity. }
  intros needed ? <-.
  eapply simulates_bind; [simulates_steps fail |]. intros _ _ _.
  eapply simulates_bind; [apply sim_gets_args |].
  intros a1 a2 [Ha Hpf]. erase_fields Ha.
  rewrite (same_test (a_extract_flags a1) (a_extract_flags a2)
             (WIMLIB_EXTRACT_FLAG_NO_STREAMS X))
    by (try assumption; apply apart; simpl; tauto).
  rewrite (same_test (a_extract_flags a1) (a_extract_flags a2)
             (WIMLIB_EXTRACT_FLAG_VERBOSE X))
    by (try assumption; apply apart; simpl; tauto).
  repeat match goal with
         | E : _ a1 = _ a2 |- _ => rewrite <- E; clear E
         end.
  simulates_steps
    ltac:(first [ apply sim_call_apply_dentry
                | apply sim_call_progress; congruence ]).
  all: intros s1 s2 Hs;
    first [ apply sim_with_args; [erase_solve | reflexivity | exact Hs]
          | apply (sim_needs_extraction
                     (fun m => upd m (d_addr dentry) false)), Hs ].
Qed.

Definition progress_alike (p1 p2 : progress_extract) : Prop :=
  erase_progress p1 = erase_progress p2.

Lemma sim_gets_progress :
  simulates sim progress_alike (gets (fun s => progress (args s)))
                               (gets (fun s => progress (args s))).
Proof.
  apply simulates_gets.
  intros s1 s2 (_ & _ & _ & _ & Ha & _). erase_fields Ha. assumption.
Qed.

Lemma sim_apply_stream_dentries (q : option wimlib_progress_func_t)
    (dentries : list wim_dentry) (bytes_per_progress : Z) :
  q = pf ->
  forall next_progress,
    simulates sim eq
      (apply_stream_dentries dentries q bytes_per_progress next_progress)
      (apply_stream_dentries dentries q bytes_per_progress next_progress).
Proof.
  intros Hq.
  induction dentries as [| d rest IH]; intros next;
    cbn [apply_stream_dentries].
  - apply simulates_pure; reflexivity.
  - eapply simulates_bind;
      [apply simulates_call, sim_maybe_apply_dentry |].
    intros ret ? <-.
    eapply simulates_bind; [simulates_steps fail |]. intros _ _ _.
    eapply simulates_bind; [apply sim_gets_progress |].
    intros p1 p2 Hp.
    pose proof (erase_progress_fields _ _ Hp)
      as (_ & _ & _ & _ & _ & _ & _ & _ & _ & Hc).
    eapply (simulates_bind sim eq); [| intros n ? <-; apply IH].
    destruct q as [f |]; [| apply simulates_pure; reflexivity].
    rewrite <- Hc.
    destruct (next <=? completed_bytes p1);
      [| apply simulates_pure; reflexivity].
    eapply simulates_bind;
      [apply sim_call_progress; congruence |]. intros _ _ _.
    eapply simulates_bind; [apply sim_gets_progress |].
    intros q1 q2 Hq'.
    pose proof (erase_progress_fields _ _ Hq')
      as (_ & _ & _ & _ & _ & _ & _ & _ & Ht & Hc').
    rewrite <- Ht, <- Hc'.
    destruct (total_bytes q1 <=? completed_bytes q1);
      apply simulates_pure; reflexivity.
Qed.

Lemma sim_apply_streams (q : option wimlib_progress_func_t)
    (streams : list lte_ptr) (bytes_per_progress : Z) :
  q = pf ->
  forall next_progress,
    simulates sim eq
      (apply_streams streams q bytes_per_progress next_progress)
      (apply_streams streams q bytes_per_progress next_progress).
Proof.
  intros Hq.
  induction streams as [| l rest IH]; intros next; cbn [apply_streams].
  - apply simulates_pure; reflexivity.
  - eapply simulates_bind.
    { apply (simulates_gets _ eq).
      intros s1 s2 (_ & Hdl & _). rewrite Hdl. reflexivity. }
    intros dentries ? <-.
    eapply simulates_bind;
      [apply sim_apply_stream_dentries, Hq | intros n ? <-; apply IH].
Qed.

Lemma sim_apply_stream_list (stream_list : list lte_ptr)
    (ops : apply_operations) (q : option wimlib_progress_func_t) :
  q = pf ->
  fn_simulates sim (apply_stream_list stream_list ops q)
                   (apply_stream_list stream_list ops q).
Proof.
  intros Hq. unfold apply_stream_list. apply fn_simulates_body.
  eapply simulates_bind.
  { apply (simulates_gets _ eq).
    intros s1 s2 (_ & _ & _ & _ & Ha & _). erase_fields Ha. assumption. }
  intros total ? <-.
  eapply simulates_bind; [apply sim_apply_streams, Hq |].
  intros _ _ _. apply simulates_pure; reflexivity.
Qed.

Lemma sim_apply_dentry_timestamps_normal (dentry : wim_dentry) :
  fn_simulates sim (apply_dentry_timestamps_normal dentry)
                   (apply_dentry_timestamps_normal dentry).
Proof.
  apply sim_do_apply_op. intros path len.
  apply sim_platform_do_apply_dentry_timestamps.
Qed.

(** The labels at the end of [extract_tree]. *)
Lemma out_ntfs_umount_clear (extract_flags : Z)
    (ret : wimlib_error_code) :
  out_ntfs_umount (clear_sequential extract_flags) ret
  = out_ntfs_umount extract_flags ret.
Proof.
  unfold out_ntfs_umount.
  rewrite clear_sequential_land by (apply apart; simpl; tauto).
  reflexivity.
Qed.

Lemma sim_out_ntfs_umount (extract_flags : Z) (ret : wimlib_error_code) :
  fn_simulates sim (out_ntfs_umount extract_flags ret)
                   (out_ntfs_umount extract_flags ret).
Proof.
  unfold out_ntfs_umount.
  destruct (WITH_NTFS_3G X && _);
    [| intros s1 s2 Hs; split; [reflexivity | exact Hs]].
  apply fn_simulates_body.
  eapply simulates_bind.
  { intros s1 s2 Hs.
    pose proof Hs as (_ & _ & _ & _ & _ & _ & _ & _ & _ & He & _).
    rewrite He. destruct (x_ntfs_umount X (ext s2)) as [r e].
    cbn [fst snd outcome_rel]. split; [reflexivity |].
    apply sim_log; [reflexivity | reflexivity |].
    apply sim_with_ext, Hs. }
  intros r ? <-.
  simulates_steps ltac:(apply sim_ERROR).
Qed.

Lemma sim_dentry_reset_needs_extraction (dentry : wim_dentry) :
  fn_simulates sim (dentry_reset_needs_extraction dentry)
                   (dentry_reset_needs_extraction dentry).
Proof.
  intros s1 s2 (Hrc & Hdl & Hiv & Hne & Ha & Hpf & Hsl & Hcf & Hw & He
                & Ht).
  unfold dentry_reset_needs_extraction, sim. cbn. rewrite Hiv, Hne.
  repeat split; assumption.
Qed.

Lemma sim_out_dentry_reset_needs_extraction (root : wim_dentry)
    (extract_flags : Z) (ret : wimlib_error_code) :
  fn_simulates sim
    (out_dentry_reset_needs_extraction root extract_flags ret)
    (out_dentry_reset_needs_extraction root extract_flags ret).
Proof.
  unfold out_dentry_reset_needs_extraction.
  simulates_steps
    ltac:(first [ apply sim_out_ntfs_umount
                | apply sim_visit_each;
                  apply sim_dentry_reset_needs_extraction ]).
Qed.

Lemma sim_extract_dentry_to_stdout (dentry : wim_dentry) :
  fn_simulates sim (extract_dentry_to_stdout dentry)
                   (extract_dentry_to_stdout dentry).
Proof.
  unfold extract_dentry_to_stdout. apply fn_simulates_body.
  destruct (negb (dentry_is_regular_file X dentry)).
  - simulates_steps ltac:(apply sim_ERROR).
  - destruct (inode_unnamed_lte_resolved X _) as [l |];
      [| apply simulates_pure; reflexivity].
    intros s1 s2 Hs.
    pose proof Hs as (_ & _ & _ & _ & _ & _ & _ & _ & _ & He & _).
    cbv zeta. rewrite He.
    destruct (x_extract_wim_resource_to_fd X l _ (ext s2)) as [ret e].
    cbn [fst snd outcome_rel]. split; [reflexivity |].
    apply sim_log; [reflexivity | reflexivity |].
    apply sim_with_ext, Hs.
Qed.

(** The planner. *)
Lemma sim_set_out_refcnt (f : (lte_ptr -> Z) -> lte_ptr -> Z)
    (s1 s2 : world) :
  sim s1 s2 ->
  sim (set_out_refcnt (f (out_refcnt s1)) s1)
      (set_out_refcnt (f (out_refcnt s2)) s2).
Proof.
  intros (Hrc & Hdl & Hiv & Hne & Ha & Hpf & Hsl & Hcf & Hw & He & Ht).
  unfold sim, set_out_refcnt. cbn. rewrite Hrc.
  repeat split; assumption.
Qed.

Lemma sim_dentry_resolve_and_zero_lte_refcnt (dentry : wim_dentry) :
  fn_simulates sim (dentry_resolve_and_zero_lte_refcnt dentry)
                   (dentry_resolve_and_zero_lte_refcnt dentry).
Proof.
  intros s1 s2 Hs. unfold dentry_resolve_and_zero_lte_refcnt.
  cbn [fst snd]. split; [reflexivity |].
  revert s1 s2 Hs.
  induction (seq 0 (S (i_num_ads (inode_at X (d_inode dentry)))))
    as [| i l IH]; intros s1 s2 Hs; cbn [fold_left]; [exact Hs |].
  apply IH.
  destruct (inode_stream_lte_resolved X _ i) as [l0 |]; [| exact Hs].
  apply (sim_set_out_refcnt (fun m => upd m l0 0)), Hs.
Qed.

Lemma sim_maybe_add_stream_for_extraction (l : lte_ptr) :
  simulates sim eq (maybe_add_stream_for_extraction l)
                   (maybe_add_stream_for_extraction l).
Proof.
  intros s1 s2 Hs. unfold maybe_add_stream_for_extraction. cbv zeta.
  pose proof Hs as (Hrc & Hdl & Hiv & Hne & Ha & Hpf & Hsl & Hcf & Hw
                    & He & Ht).
  rewrite Hrc.
  destruct (u32 (out_refcnt s2 l + 1) =? 1);
    cbn [fst snd outcome_rel]; (split; [reflexivity |]);
    unfold sim, set_ctx, set_lte_dentry_list, set_out_refcnt; cbn;
    rewrite ?Hrc, ?Hdl, ?Hsl; repeat split; assumption.
Qed.

Lemma sim_add_dentry_to_lte (dentry : wim_dentry) (l : lte_ptr) :
  simulates sim eq (add_dentry_to_lte dentry l)
                   (add_dentry_to_lte dentry l).
Proof.
  apply simulates_modify.
  intros s1 s2 (Hrc & Hdl & Hiv & Hne & Ha & Hpf & Hsl & Hcf & Hw & He
                & Ht).
  unfold sim, set_lte_dentry_list. cbn. rewrite Hdl.
  repeat split; assumption.
Qed.

Lemma sim_gets_i_visited (i : inode_ptr) :
  simulates sim eq (gets (fun s => i_visited s i))
                   (gets (fun s => i_visited s i)).
Proof.
  apply simulates_gets. intros s1 s2 (_ & _ & Hiv & _).
  rewrite Hiv. reflexivity.
Qed.

Lemma sim_find_ads_streams (dentry : wim_dentry)
    (entries : list wim_ads_entry) :
  forall dentry_added,
    simulates sim eq (find_ads_streams dentry entries dentry_added)
                     (find_ads_streams dentry entries dentry_added).
Proof.
  induction entries as [| e rest IH]; intros added;
    cbn [find_ads_streams].
  - apply simulates_pure; reflexivity.
  - eapply (simulates_bind sim eq); [| intros b ? <-; apply IH].
    simulates_steps
      ltac:(first [ apply sim_gets_i_visited
                  | apply sim_maybe_add_stream_for_extraction
                  | apply sim_add_dentry_to_lte ]).
Qed.

Lemma ads_included_alike (f1 f2 : Z) :
  clear_sequential f1 = clear_sequential f2 ->
  ads_included f1 = ads_included f2.
Proof.
  intros H. unfold ads_included.
  rewrite (same_test f1 f2 _ H) by (apply apart; simpl; tauto).
  reflexivity.
Qed.

Lemma sim_dentry_find_streams_to_extract (dentry : wim_dentry) :
  fn_simulates sim (dentry_find_streams_to_extract dentry)
                   (dentry_find_streams_to_extract dentry).
Proof.
  unfold dentry_find_streams_to_extract. apply fn_simulates_body.
  cbv zeta.
  eapply (simulates_bind sim
            (fun f1 f2 => clear_sequential f1 = clear_sequential f2)).
  { apply simulates_gets. intros s1 s2 (_ & _ & _ & _ & _ & _ & _ & Hcf
                                         & _). exact Hcf. }
  intros f1 f2 Hf. rewrite (ads_included_alike f1 f2 Hf).
  simulates_steps
    ltac:(first [ apply sim_gets_i_visited
                | apply sim_maybe_add_stream_for_extraction
                | apply sim_add_dentry_to_lte
                | apply sim_find_ads_streams ]).
  - intros s1 s2 Hs.
    apply (sim_needs_extraction
             (fun m => upd m (d_addr dentry) true)), Hs.
  - intros s1 s2 (Hrc & Hdl & Hiv & Hne & Ha & Hpf & Hsl & Hcf & Hw & He
                  & Ht).
    unfold sim, set_i_visited. cbn. rewrite Hiv.
    repeat split; assumption.
Qed.

Lemma sim_find_streams_for_extraction (root : wim_dentry) (f1 f2 : Z) :
  clear_sequential f1 = clear_sequential f2 ->
  simulates sim eq (find_streams_for_extraction root f1)
                   (find_streams_for_extraction root f2).
Proof.
  intros Hf. unfold find_streams_for_extraction, for_dentry_in_tree.
  simulates_steps
    ltac:(first [ apply sim_visit_each;
                  first [ apply sim_dentry_resolve_and_zero_lte_refcnt
                        | apply sim_dentry_find_streams_to_extract ] ]).
  - intros s1 s2 (Hrc & Hdl & Hiv & Hne & Ha & Hpf & Hsl & Hcf & Hw & He
                  & Ht).
    unfold sim, set_ctx. cbn. repeat split; assumption.
  - intros s1 s2 (_ & _ & _ & _ & _ & _ & Hsl & _). exact Hsl.
Qed.

Lemma calculate_bytes_to_extract_clear (stream_list : list lte_ptr)
    (extract_flags : Z) :
  calculate_bytes_to_extract stream_list (clear_sequential extract_flags)
  = calculate_bytes_to_extract stream_list extract_flags.
Proof.
  unfold calculate_bytes_to_extract.
  rewrite clear_sequential_land; [reflexivity |].
  rewrite Z.land_lor_distr_r.
  rewrite !apart by (simpl; tauto). reflexivity.
Qed.

Lemma sim_calculate_bytes_to_extract (stream_list : list lte_ptr)
    (extract_flags : Z) :
  simulates sim eq (calculate_bytes_to_extract stream_list extract_flags)
                   (calculate_bytes_to_extract stream_list extract_flags).
Proof.
  apply simulates_modify. intros s1 s2 Hs.
  pose proof Hs as (Hrc & _ & _ & _ & _ & _ & _ & _ & _ & He & _).
  cbv zeta. rewrite Hrc, He.
  match goal with
  | |- context [fold_left ?f stream_list (0, 0)] =>
      destruct (fold_left f stream_list (0, 0)) as [total n]
  end.
  apply sim_with_args; [erase_solve | reflexivity | exact Hs].
Qed.

Lemma sim_calculate_bytes_to_extract_clear (stream_list : list lte_ptr)
    (extract_flags : Z) :
  simulates sim eq
    (calculate_bytes_to_extract stream_list extract_flags)
    (calculate_bytes_to_extract stream_list
       (clear_sequential extract_flags)).
Proof.
  rewrite calculate_bytes_to_extract_clear.
  apply sim_calculate_bytes_to_extract.
Qed.

Lemma sim_out_ntfs_umount_clear (extract_flags : Z)
    (ret : wimlib_error_code) :
  fn_simulates sim
    (out_ntfs_umount extract_flags ret)
    (out_ntfs_umount (clear_sequential extract_flags) ret).
Proof. rewrite out_ntfs_umount_clear. apply sim_out_ntfs_umount. Qed.

Lemma sim_out_dentry_reset_needs_extraction_clear (root : wim_dentry)
    (extract_flags : Z) (ret : wimlib_error_code) :
  fn_simulates sim
    (out_dentry_reset_needs_extraction root extract_flags ret)
    (out_dentry_reset_needs_extraction root
       (clear_sequential extract_flags) ret).
Proof.
  unfold out_dentry_reset_needs_extraction.
  rewrite out_ntfs_umount_clear.
  apply (sim_out_dentry_reset_needs_extraction root extract_flags ret).
Qed.

(** The steps of [extract_tree] that call the outside. *)
Lemma sim_ntfs_mount (target : list tchar) :
  simulates sim eq
    (fun s => let (ok, e) := x_ntfs_mount X target (ext s) in
              (Normal ok,
               log (Ev_ntfs_mount target ok)
                   (with_args (set_vol_mounted ok) (with_ext e s))))
    (fun s => let (ok, e) := x_ntfs_mount X target (ext s) in
              (Normal ok,
               log (Ev_ntfs_mount target ok)
                   (with_args (set_vol_mounted ok) (with_ext e s)))).
Proof.
  intros s1 s2 Hs.
  pose proof Hs as (_ & _ & _ & _ & _ & _ & _ & _ & _ & He & _).
  rewrite He. destruct (x_ntfs_mount X target (ext s2)) as [ok e].
  cbn [fst snd outcome_rel]. split; [reflexivity |].
  apply sim_log; [reflexivity | reflexivity |].
  apply sim_with_args; [erase_solve | reflexivity |].
  apply sim_with_ext, Hs.
Qed.

Lemma sim_calculate_dentry_tree_full_paths (root : wim_dentry) :
  simulates sim eq
    (fun s => let (r, e) :=
                x_calculate_dentry_tree_full_paths X root (ext s) in
              (Normal r, with_ext e s))
    (fun s => let (r, e) :=
                x_calculate_dentry_tree_full_paths X root (ext s) in
              (Normal r, with_ext e s)).
Proof.
  intros s1 s2 Hs.
  pose proof Hs as (_ & _ & _ & _ & _ & _ & _ & _ & _ & He & _).
  rewrite He.
  destruct (x_calculate_dentry_tree_full_paths X root (ext s2))
    as [r e].
  cbn [fst snd outcome_rel]. split; [reflexivity |].
  apply sim_with_ext, Hs.
Qed.

(** The sort, when the array cannot be allocated, against no sort at
    all. *)
Lemma sim_sort_falls_back (stream_list : list lte_ptr)
    (extract_flags : Z) :
  (forall size e, x_malloc X size e = false) ->
  simulates sim eq
    (r <- sort_stream_list_by_wim_position stream_list ;;
     if is_error (fst r) then
       WARNING "Falling back to non-sequential extraction" ;;
       pure (snd r, clear_sequential extract_flags)
     else pure (snd r, extract_flags))
    (pure (stream_list, clear_sequential extract_flags)).
Proof.
  intros Hmalloc s1 s2 Hs. cbv [bind].
  rewrite sort_stream_list_nomem by apply Hmalloc.
  cbn [fst snd is_error]. cbv [WARNING modify pure].
  cbn [fst snd outcome_rel]. split; [reflexivity |].
  apply sim_message_l; [reflexivity |].
  apply sim_message_l; [reflexivity | exact Hs].
Qed.

Definition ops_alike (o1 o2 : apply_operations) : Prop :=
  o1 = o2 /\ (o1 = normal_apply_operations \/ o1 = ntfs_apply_operations).

Lemma body_start {W} (g : world -> W) (h1 h2 : world -> world)
    (k1 k2 : W -> block wimlib_error_code) (s : world) :
  sim (h1 s) (h2 s) ->
  (forall w, simulates sim eq (k1 w) (k2 w)) ->
  fst (body (w <- gets g ;; modify h1 ;; k1 w) s)
  = fst (body (w <- gets g ;; modify h2 ;; k2 w) s)
  /\ sim (snd (body (w <- gets g ;; modify h1 ;; k1 w) s))
         (snd (body (w <- gets g ;; modify h2 ;; k2 w) s)).
Proof.
  intros Hs Hk.
  exact (fn_simulates_body sim _ _ (Hk (g s)) (h1 s) (h2 s) Hs).
Qed.

Lemma sim_set_args (a1 a2 : apply_args) (s1 s2 : world) :
  sim s1 s2 -> erase_args a1 = erase_args a2 -> progress_func a1 = pf ->
  sim (set_args a1 s1) (set_args a2 s2).
Proof.
  intros (Hrc & Hdl & Hiv & Hne & Ha & Hpf & Hsl & Hcf & Hw & He & Ht)
         Ha' Hpf'.
  unfold sim, set_args. cbn. repeat split; assumption.
Qed.

Ltac tree_leaf :=
  idtac;
  match goal with
  | H : ops_alike _ _ |- _ => destruct H as [<- [-> | ->]]
  | |- simulates _ _ (pure ntfs_apply_operations) _ =>
      apply (simulates_pure sim ops_alike);
      split; [reflexivity | right; reflexivity]
  | |- simulates _ _ (pure normal_apply_operations) _ =>
      apply (simulates_pure sim ops_alike);
      split; [reflexivity | left; reflexivity]
  | |- simulates _ _ (bind (sort_stream_list_by_wim_position _) _)
                     (pure _) =>
      apply sim_sort_falls_back; assumption
  | |- simulates _ _ (ERROR _) _ => apply sim_ERROR
  | |- simulates _ _ (goto _) _ => apply sim_goto
  | |- simulates _ _ (call_progress _ _) _ =>
      apply sim_call_progress; congruence
  | |- simulates _ _ (find_streams_for_extraction _ _) _ =>
      apply sim_find_streams_for_extraction;
      symmetry; apply clear_sequential_idem
  | |- simulates _ _ (calculate_bytes_to_extract _ _) _ =>
      apply sim_calculate_bytes_to_extract_clear
  | |- simulates _ _ ?m _ =>
      lazymatch m with
      | bind _ _ => fail
      | context [x_ntfs_mount] => apply sim_ntfs_mount
      | context [x_calculate_dentry_tree_full_paths] =>
          apply sim_calculate_dentry_tree_full_paths
      end
  | |- fn_simulates _ (out_ntfs_umount _ _) _ =>
      apply sim_out_ntfs_umount_clear
  | |- fn_simulates _ (out_dentry_reset_needs_extraction _ _ _) _ =>
      first [ apply sim_out_dentry_reset_needs_extraction_clear
            | apply sim_out_dentry_reset_needs_extraction ]
  | |- fn_simulates _ (out_free_target_realpath _ _ _) _ =>
      apply sim_out_dentry_reset_needs_extraction
  | |- fn_simulates _ (extract_dentry_to_stdout _) _ =>
      apply sim_extract_dentry_to_stdout
  | |- fn_simulates _ (apply_stream_list _ _ _) _ =>
      apply sim_apply_stream_list; congruence
  | |- fn_simulates _ (for_dentry_in_tree _ _) _ =>
      apply sim_visit_each; intros ?; apply sim_maybe_apply_dentry
  | |- fn_simulates _ (for_dentry_in_tree_depth _ _) _ =>
      apply sim_visit_each; intros ?;
      first [ apply sim_apply_dentry_timestamps_normal
            | apply sim_apply_dentry_timestamps_ntfs ]
  end.

Lemma extract_tree_simulates (wim_source_path target : list tchar)
    (extract_flags : Z) (q : option wimlib_progress_func_t)
    (s : world) :
  q = pf ->
  nonzero (Z.land extract_flags (WIMLIB_EXTRACT_FLAG_SEQUENTIAL X))
  = true ->
  (forall size e, x_malloc X size e = false) ->
  fst (extract_tree wim_source_path target extract_flags q s)
  = fst (extract_tree wim_source_path target
           (clear_sequential extract_flags) q s)
  /\ sim (snd (extract_tree wim_source_path target extract_flags q s))
         (snd (extract_tree wim_source_path target
                 (clear_sequential extract_flags) q s)).
Proof.
  intros Hq Hseq Hmalloc. unfold extract_tree.
  rewrite !(clear_sequential_land extract_flags
              (WIMLIB_EXTRACT_FLAG_NTFS X))
    by (apply apart; simpl; tauto).
  rewrite !(clear_sequential_land extract_flags
              (WIMLIB_EXTRACT_FLAG_TO_STDOUT X))
    by (apply apart; simpl; tauto).
  rewrite clear_sequential_bit, Hseq.
  change (nonzero 0) with false. cbv iota.
  apply body_start.
  - unfold sim, set_args.
    cbn [out_refcnt lte_dentry_list i_visited needs_extraction args ctx
         wim ext trace].
    repeat split; try congruence; [| exact Hq].
    unfold erase_args. cbn -[clear_sequential].
    rewrite clear_sequential_idem. reflexivity.
  - intros w.
    simulates_steps tree_leaf.
    all: intros s1 s2 Hs;
      pose proof Hs as (Hrc & Hdl & Hiv & Hne & Ha & Hpf & Hsl & Hcf & Hw
                        & He & Ht).
    all: try (rewrite He; reflexivity).
    all: try rewrite (f_equal (wimlib_get_image_name X (current_image w))
                        He).
    all: apply sim_set_args;
      [ exact Hs
      | revert Ha; generalize (args s1) (args s2); erase_solve
      | cbn; exact Hpf ].
Qed.

End Fallback.

(** A step whose value is known to satisfy [Q] when it runs to its end. *)
Lemma respects_bind_yields {A B} (R : world -> world -> Prop)
    (Q : A -> Prop) (m : @block world A) (k : A -> @block world B) :
  (forall a b c, R a b -> R b c -> R a c) ->
  yields Q m -> respects R m -> (forall a, Q a -> respects R (k a)) ->
  respects R (bind m k).
Proof.
  intros Htrans Hq Hm Hk s. unfold bind. specialize (Hq s). specialize (Hm s).
  destruct (m s) as [[a | r] s1]; cbn [fst snd] in *; [| exact Hm].
  eapply Htrans; [exact Hm | apply Hk, Hq].
Qed.

(** The value of the step of [extract_tree] that chooses the operations. *)
Ltac ops_known :=
  match goal with
  | |- yields _ (if ?c then _ else _) =>
      destruct c; [| intros ?st; left; reflexivity];
      intros ?st; cbv [bind pure Return ERROR modify];
      match goal with
      | |- context [x_ntfs_mount ?X0 ?t ?e0] =>
          destruct (x_ntfs_mount X0 t e0) as [[|] ?e]
      end;
      cbn; [right |]; reflexivity
  end.

(** ** What the functions put into the trace

    [adds P s s']: from [s] to [s'] the trace has grown by events that all
    satisfy [P].  Each function is shown to add only events of the kinds
    it can produce; the hypotheses on [P] name those kinds. *)
Section Adds.
Variable P : event -> Prop.

Definition adds (s s' : world) : Prop :=
  exists evs, trace s' = trace s ++ evs /\ Forall P evs.

Lemma adds_refl (s : world) : adds s s.
Proof. exists []. split; [symmetry; apply app_nil_r | constructor]. Qed.

Lemma adds_trans (a b c : world) : adds a b -> adds b c -> adds a c.
Proof.
  intros [e1 [H1 F1]] [e2 [H2 F2]]. exists (e1 ++ e2).
  rewrite H2, H1, app_assoc. split; [reflexivity |].
  apply Forall_app. split; assumption.
Qed.

Lemma adds_same (s s' : world) : trace s' = trace s -> adds s s'.
Proof.
  intros H. exists []. rewrite H, app_nil_r. split; [reflexivity | constructor].
Qed.

Lemma adds_log (s s' : world) (e : event) :
  adds s s' -> P e -> adds s (log e s').
Proof.
  intros [evs [Ht Hf]] He. exists (evs ++ [e]). cbn [trace log].
  rewrite Ht, app_assoc. split; [reflexivity |].
  apply Forall_app. split; [exact Hf | repeat constructor; exact He].
Qed.

Lemma silent_adds (s s' : world) : silent s s' -> adds s s'.
Proof. intros [_ [Ht _]]. apply adds_same, Ht. Qed.

Ltac adds_leaf :=
  first [ apply respects_modify; intros ?; apply adds_same; reflexivity
        | apply respects_modify; intros ?; apply adds_log;
          [apply adds_same; reflexivity | auto] ].

Ltac adds_split leaf := respects_split adds_refl adds_trans leaf.

Hypothesis P_message : forall level text, P (Ev_message level text).

Lemma ERROR_adds (text : string) : respects adds (ERROR text).
Proof. unfold ERROR. adds_leaf. Qed.

Lemma WARNING_adds (text : string) : respects adds (WARNING text).
Proof. unfold WARNING. adds_leaf. Qed.

Hypothesis P_progress : forall msg info, P (Ev_progress msg info).

Lemma call_progress_adds (f : wimlib_progress_func_t)
    (msg : wimlib_progress_msg) :
  respects adds (call_progress f msg).
Proof.
  intros s. unfold call_progress. cbn [snd].
  apply adds_log; [apply adds_same; reflexivity | apply P_progress].
Qed.

Lemma run_backend_adds (r : wimlib_error_code * Z * ext_state)
    (ev : wimlib_error_code -> event) (s : world) :
  (forall ret, P (ev ret)) -> adds s (snd (run_backend r ev s)).
Proof.
  intros Hev. destruct r as [[ret c] e]. cbn [run_backend snd].
  apply adds_log; [apply adds_same; reflexivity | apply Hev].
Qed.

Lemma do_apply_op_adds (dentry : wim_dentry)
    (func : list tchar -> Z -> wim_dentry -> @fn world) :
  (forall path len, fn_respects adds (func path len dentry)) ->
  fn_respects adds (do_apply_op dentry func).
Proof.
  intros H s. unfold do_apply_op. cbv zeta. destruct (negb _); apply H.
Qed.

Hypothesis P_apply :
  forall path len d ret, P (Ev_do_apply_dentry path len d ret).
Hypothesis P_apply_ntfs : forall d ret, P (Ev_apply_dentry_ntfs d ret).

Lemma call_apply_dentry_adds (ptr : apply_dentry_ptr) (dentry : wim_dentry) :
  fn_respects adds (call_apply_dentry ptr dentry).
Proof.
  destruct ptr; cbn [call_apply_dentry].
  - intros s. apply adds_refl.
  - apply do_apply_op_adds. intros path len s.
    apply run_backend_adds. intros ret. apply P_apply.
  - intros s. apply run_backend_adds. intros ret. apply P_apply_ntfs.
Qed.

Lemma maybe_apply_dentry_adds (dentry : wim_dentry) :
  fn_respects adds (maybe_apply_dentry dentry).
Proof.
  unfold maybe_apply_dentry.
  adds_split ltac:(first [ apply call_progress_adds
                         | apply call_apply_dentry_adds ]).
  all: intros s; apply adds_same; reflexivity.
Qed.

Lemma apply_stream_dentries_adds (dentries : list wim_dentry)
    (progress_func : option wimlib_progress_func_t)
    (bytes_per_progress : Z) :
  forall next_progress,
    respects adds (apply_stream_dentries dentries progress_func
                     bytes_per_progress next_progress).
Proof.
  induction dentries as [| d rest IH]; intros next;
    cbn [apply_stream_dentries];
    adds_split ltac:(first [ apply maybe_apply_dentry_adds
                           | apply call_progress_adds
                           | apply IH ]).
Qed.

Lemma apply_streams_adds (streams : list lte_ptr)
    (progress_func : option wimlib_progress_func_t)
    (bytes_per_progress : Z) :
  forall next_progress,
    respects adds (apply_streams streams progress_func
                     bytes_per_progress next_progress).
Proof.
  induction streams as [| l rest IH]; intros next; cbn [apply_streams];
    adds_split ltac:(first [ apply apply_stream_dentries_adds | apply IH ]).
Qed.

Lemma apply_stream_list_adds (stream_list : list lte_ptr)
    (ops : apply_operations)
    (progress_func : option wimlib_progress_func_t) :
  fn_respects adds (apply_stream_list stream_list ops progress_func).
Proof.
  unfold apply_stream_list.
  adds_split ltac:(apply apply_streams_adds).
Qed.

Lemma planner_adds (root : wim_dentry) (extract_flags : Z) :
  respects adds (find_streams_for_extraction root extract_flags).
Proof.
  intros s. apply silent_adds, find_streams_for_extraction_silent.
Qed.

Lemma calculate_bytes_adds (stream_list : list lte_ptr) (extract_flags : Z) :
  respects adds (calculate_bytes_to_extract stream_list extract_flags).
Proof. intros s. apply silent_adds, calculate_bytes_silent. Qed.

Lemma reset_walk_adds (root : wim_dentry) :
  fn_respects adds (for_dentry_in_tree root dentry_reset_needs_extraction).
Proof. intros s. apply silent_adds, reset_walk_silent. Qed.

Lemma goto_adds {A} (label : @fn world) :
  fn_respects adds label -> respects adds (@goto A label).
Proof.
  intros H s. unfold goto. specialize (H s). destruct (label s). exact H.
Qed.

Hypothesis P_stamp :
  forall path len d ret, P (Ev_do_apply_dentry_timestamps path len d ret).
Hypothesis P_stamp_ntfs :
  forall d ret, P (Ev_apply_dentry_timestamps_ntfs d ret).

Lemma apply_dentry_timestamps_normal_adds (dentry : wim_dentry) :
  fn_respects adds (apply_dentry_timestamps_normal dentry).
Proof.
  apply do_apply_op_adds. intros path len s.
  apply run_backend_adds. intros ret. apply P_stamp.
Qed.

Lemma apply_dentry_timestamps_ntfs_adds (dentry : wim_dentry) :
  fn_respects adds (apply_dentry_timestamps_ntfs dentry).
Proof. intros s. apply run_backend_adds. intros ret. apply P_stamp_ntfs. Qed.

Hypothesis P_stdout : forall l size ret, P (Ev_extract_to_stdout l size ret).

Lemma extract_dentry_to_stdout_adds (dentry : wim_dentry) :
  fn_respects adds (extract_dentry_to_stdout dentry).
Proof.
  unfold extract_dentry_to_stdout.
  adds_split ltac:(apply ERROR_adds).
  intros s. cbv zeta.
  destruct (x_extract_wim_resource_to_fd X _ _ (ext s)) as [ret e].
  cbn [snd]. apply adds_log; [apply adds_same; reflexivity | apply P_stdout].
Qed.

Hypothesis P_umount : forall r, P (Ev_ntfs_umount r).

Lemma out_ntfs_umount_adds (extract_flags : Z) (ret : wimlib_error_code) :
  fn_respects adds (out_ntfs_umount extract_flags ret).
Proof.
  unfold out_ntfs_umount.
  destruct (WITH_NTFS_3G X && _); [| intros s; apply adds_refl].
  adds_split ltac:(apply ERROR_adds).
  intros s. destruct (x_ntfs_umount X (ext s)) as [r e]. cbn [snd].
  apply adds_log; [apply adds_same; reflexivity | apply P_umount].
Qed.

Lemma out_dentry_reset_needs_extraction_adds (root : wim_dentry)
    (extract_flags : Z) (ret : wimlib_error_code) :
  fn_respects adds (out_dentry_reset_needs_extraction root extract_flags ret).
Proof.
  unfold out_dentry_reset_needs_extraction.
  adds_split ltac:(first [ apply reset_walk_adds
                         | apply out_ntfs_umount_adds ]).
Qed.

Hypothesis P_mount : forall target ok, P (Ev_ntfs_mount target ok).

Lemma sort_stream_list_adds (stream_list : list lte_ptr) :
  respects adds (sort_stream_list_by_wim_position stream_list).
Proof.
  unfold sort_stream_list_by_wim_position. cbv zeta.
  adds_split ltac:(apply ERROR_adds).
Qed.

Lemma extract_tree_adds (wim_source_path target : list tchar)
    (extract_flags : Z) (progress_func : option wimlib_progress_func_t) :
  fn_respects adds
    (extract_tree wim_source_path target extract_flags progress_func).
Proof.
  unfold extract_tree.
  adds_split
    ltac:(first
      [ apply ERROR_adds
      | apply WARNING_adds
      | apply call_progress_adds
      | apply planner_adds
      | apply calculate_bytes_adds
      | apply sort_stream_list_adds
      | apply extract_dentry_to_stdout_adds
      | apply apply_stream_list_adds
      | apply goto_adds;
        first [ apply out_ntfs_umount_adds
              | apply out_dentry_reset_needs_extraction_adds ]
      | match goal with
        | |- respects _ (bind (if _ then _
                               else pure normal_apply_operations) _) =>
            apply (respects_bind_yields adds
                     (fun ops => ops = normal_apply_operations
                                 \/ ops = ntfs_apply_operations)
                     _ _ adds_trans);
            [ ops_known | | intros ? [-> | ->] ]
        | |- fn_respects _ (for_dentry_in_tree _ maybe_apply_dentry) =>
            apply visit_each_respects;
            [ apply adds_refl | apply adds_trans
            | apply maybe_apply_dentry_adds ]
        | |- fn_respects _ (for_dentry_in_tree_depth _ _) =>
            apply visit_each_respects;
            [ apply adds_refl | apply adds_trans
            | first [ apply apply_dentry_timestamps_normal_adds
                    | apply apply_dentry_timestamps_ntfs_adds ] ]
        | |- respects _ ?m =>
            lazymatch m with
            | bind _ _ => fail
            | context [x_ntfs_mount] =>
                intros ?s; destruct (x_ntfs_mount X target (ext s));
                cbn [snd];
                apply adds_log; [apply adds_same; reflexivity | apply P_mount]
            | context [x_calculate_dentry_tree_full_paths] =>
                intros ?s;
                match goal with
                | |- context [x_calculate_dentry_tree_full_paths X ?w ?e] =>
                    destruct (x_calculate_dentry_tree_full_paths X w e)
                end;
                apply adds_same; reflexivity
            end
        end ]).
  all: intros s; apply adds_same; reflexivity.
Qed.
End Adds.

(** ** Further properties of the extraction

    [only_messages s s']: [s'] is [s] with messages added to the trace,
    and nothing else has changed. *)
Definition only_messages (s s' : world) : Prop :=
  exists msgs,
    s' = fold_left (fun st e => log e st) msgs s /\
    Forall (fun e => is_message e = true) msgs.

Lemma only_messages_refl (s : world) : only_messages s s.
Proof. exists []. split; [reflexivity | constructor]. Qed.

Lemma only_messages_trans (a b c : world) :
  only_messages a b -> only_messages b c -> only_messages a c.
Proof.
  intros [m1 [H1 F1]] [m2 [H2 F2]]. exists (m1 ++ m2).
  rewrite fold_left_app, <- H1, <- H2. split; [reflexivity |].
  apply Forall_app. split; assumption.
Qed.

Lemma only_messages_log (s : world) (level : msg_level) (text : string) :
  only_messages s (log (Ev_message level text) s).
Proof.
  exists [Ev_message level text]. split; [reflexivity |].
  repeat constructor.
Qed.

Lemma ERROR_only_messages (text : string) :
  respects only_messages (ERROR text).
Proof. intros s. apply only_messages_log. Qed.

Lemma fold_log_trace (msgs : list event) (s : world) :
  trace (fold_left (fun st e => log e st) msgs s) = trace s ++ msgs.
Proof.
  revert s. induction msgs as [| e msgs IH]; intros s; cbn [fold_left].
  - symmetry. apply app_nil_r.
  - rewrite IH. cbn [trace log]. rewrite <- app_assoc. reflexivity.
Qed.

Lemma fold_log_fields (msgs : list event) (s : world) :
  let s' := fold_left (fun st e => log e st) msgs s in
  out_refcnt s' = out_refcnt s /\ lte_dentry_list s' = lte_dentry_list s /\
  i_visited s' = i_visited s /\ needs_extraction s' = needs_extraction s /\
  args s' = args s /\ ctx s' = ctx s /\ wim s' = wim s /\ ext s' = ext s.
Proof.
  revert s. induction msgs as [| e msgs IH]; intros s; cbn [fold_left].
  - repeat split.
  - exact (IH (log e s)).
Qed.

Ltac flag_facts :=
  repeat match goal with
         | H : (_ =? _) = true |- _ => apply Z.eqb_eq in H
         | H : (_ =? _) = false |- _ => apply Z.eqb_neq in H
         | H : nonzero _ = true |- _ =>
             unfold nonzero in H; apply negb_true_iff, Z.eqb_neq in H
         | H : nonzero _ = false |- _ =>
             unfold nonzero in H; apply negb_false_iff, Z.eqb_eq in H
         | H : negb _ = true |- _ => apply negb_true_iff in H
         | H : negb _ = false |- _ => apply negb_false_iff in H
         | H : _ && _ = true |- _ => apply andb_true_iff in H; destruct H
         | H : is_empty_path _ = true |- _ =>
             unfold is_empty_path in H; apply Nat.eqb_eq, length_zero_iff_nil in H
         end.

(** X1: a command that [check_extract_command] accepts has a destination
    path that is not empty, does not ask for both link modes nor for both
    RPFIX and NORPFIX, asks for NTFS only when the library has NTFS-3g, the
    whole image is extracted and neither a link mode nor UNIX data is asked
    for, and on Windows asks for neither UNIX data nor a link mode; its
    paths are left as they are, its flags too, RPFIX apart, which is added
    exactly when neither RPFIX nor NORPFIX was given, the archive's header
    enables the fixups and the whole image is extracted; RPFIX is never left
    on a command that extracts part of an image; and nothing else has
    happened.  A command that is refused is refused with INVALID_PARAM, or
    with UNSUPPORTED when NTFS is asked of a library without NTFS-3g, and
    nothing but messages has been produced. *)
Theorem check_extract_command_validates (cmd : wimlib_extract_command)
    (wim_header_flags : Z) (s : world) :
  let flags := cmd_extract_flags cmd in
  let whole := cmd_wim_source_path cmd = [] in
  match fst (check_extract_command cmd wim_header_flags s) with
  | Normal cmd' =>
      snd (check_extract_command cmd wim_header_flags s) = s /\
      cmd_wim_source_path cmd' = cmd_wim_source_path cmd /\
      cmd_fs_dest_path cmd' = cmd_fs_dest_path cmd /\
      cmd_fs_dest_path cmd <> [] /\
      Z.land flags link_flags <> link_flags /\
      Z.land flags rpfix_flags <> rpfix_flags /\
      (Z.land flags (WIMLIB_EXTRACT_FLAG_NTFS X) <> 0 ->
       WITH_NTFS_3G X = true /\ whole /\
       Z.land flags link_flags = 0 /\
       Z.land flags (WIMLIB_EXTRACT_FLAG_UNIX_DATA X) = 0) /\
      (WIN32 X = true ->
       Z.land flags (WIMLIB_EXTRACT_FLAG_UNIX_DATA X) = 0 /\
       Z.land flags link_flags = 0) /\
      cmd_extract_flags cmd'
      = (if (Z.land flags rpfix_flags =? 0)
            && nonzero (Z.land wim_header_flags (WIM_HDR_FLAG_RP_FIX X))
            && is_empty_path (cmd_wim_source_path cmd)
         then Z.lor flags (WIMLIB_EXTRACT_FLAG_RPFIX X)
         else flags) /\
      (Z.land (cmd_extract_flags cmd') (WIMLIB_EXTRACT_FLAG_RPFIX X) <> 0 ->
       whole)
  | Returned r =>
      (r = WIMLIB_ERR_INVALID_PARAM \/
       r = WIMLIB_ERR_UNSUPPORTED /\ WITH_NTFS_3G X = false /\
       Z.land flags (WIMLIB_EXTRACT_FLAG_NTFS X) <> 0) /\
      only_messages s (snd (check_extract_command cmd wim_header_flags s))
  end.
Proof.
  cbv zeta. unfold check_extract_command.
  cbv [bind when pure Return ERROR modify].
  assert (Hdest : is_empty_path (cmd_fs_dest_path cmd) = false ->
                  cmd_fs_dest_path cmd <> []).
  { intros H Hnil. rewrite Hnil in H. discriminate H. }
  destruct (Z.land (cmd_extract_flags cmd) rpfix_flags =? 0) eqn:Hrp,
    (nonzero (Z.land wim_header_flags (WIM_HDR_FLAG_RP_FIX X))) eqn:Hhdr,
    (is_empty_path (cmd_wim_source_path cmd)) eqn:Hwhole;
    cbn [andb negb];
    repeat (cbn [fst snd andb negb]; run_step);
    cbn [fst snd cmd_wim_source_path cmd_fs_dest_path cmd_extract_flags];
    try solve
      [ split;
        [ first [ left; reflexivity
                | right; repeat split;
                  match goal with
                  | H : nonzero _ = true |- _ <> 0 =>
                      unfold nonzero in H;
                      apply negb_true_iff, Z.eqb_neq in H; exact H
                  end ]
        | first [ apply only_messages_refl
                | apply only_messages_log
                | eapply only_messages_trans; apply only_messages_log ] ] ];
    flag_facts;
    repeat match goal with |- _ /\ _ => split end;
    try reflexivity; try assumption; try congruence;
    intros; try solve [repeat split; first [assumption | congruence]];
    apply Hdest; reflexivity.
Qed.

(** What [check_extract_command] answers does not depend on the state,
    and a refusal is an error that has left messages only. *)
Lemma check_extract_command_answer (cmd : wimlib_extract_command)
    (wim_header_flags : Z) (s s0 : world) :
  fst (check_extract_command cmd wim_header_flags s)
  = fst (check_extract_command cmd wim_header_flags s0) /\
  match fst (check_extract_command cmd wim_header_flags s) with
  | Normal _ => snd (check_extract_command cmd wim_header_flags s) = s
  | Returned r =>
      is_error r = true /\
      only_messages s (snd (check_extract_command cmd wim_header_flags s))
  end.
Proof.
  unfold check_extract_command.
  cbv [bind when pure Return ERROR modify].
  repeat (cbn [fst snd andb negb]; run_step);
    cbn [fst snd]; (split; [reflexivity |]);
    first [ reflexivity
          | split;
            [ reflexivity
            | first [ apply only_messages_refl
                    | apply only_messages_log
                    | eapply only_messages_trans; apply only_messages_log ] ] ].
Qed.

Definition message_only (e : event) : Prop := is_message e = true.

Lemma only_messages_adds (s s' : world) :
  only_messages s s' -> adds message_only s s'.
Proof.
  intros [msgs [-> Hf]]. exists msgs. split; [apply fold_log_trace | exact Hf].
Qed.

(** The first loop of [do_wimlib_extract_files] does not run to its end
    when one of the commands is refused. *)
Lemma check_commands_refuses (c : wimlib_extract_command)
    (cmds : list wimlib_extract_command) :
  forall (found_link_cmd found_nolink_cmd : bool) (s : world),
    In c cmds ->
    (exists r, fst (check_extract_command c (hdr_flags (wim s)) s)
               = Returned r) ->
    match fst (check_commands cmds found_link_cmd found_nolink_cmd s) with
    | Normal _ => False
    | Returned r =>
        is_error r = true /\
        only_messages s
          (snd (check_commands cmds found_link_cmd found_nolink_cmd s))
    end.
Proof.
  induction cmds as [| c0 rest IH]; intros fl fnl s Hin [r Hr];
    [contradiction |].
  cbn [check_commands]. cbv [bind gets].
  destruct (check_extract_command_answer c0 (hdr_flags (wim s)) s s)
    as [_ H0].
  destruct (check_extract_command c0 (hdr_flags (wim s)) s)
    as [[c' | r0] s1] eqn:Hc0; cbn [fst snd] in *; [| exact H0].
  subst s1.
  assert (Hrest : In c rest).
  { destruct Hin as [-> | Hin]; [| exact Hin].
    rewrite Hc0 in Hr. discriminate Hr. }
  match goal with
  | |- context [if ?b then _ else _] => destruct b
  end.
  - cbv [ERROR modify Return]. cbn [fst snd].
    split; [reflexivity | apply only_messages_log].
  - cbv [pure]. cbn [fst snd].
    match goal with
    | |- context [check_commands rest ?a ?b s] =>
        specialize (IH a b s Hrest (ex_intro _ r Hr));
        destruct (check_commands rest a b s) as [[l | r1] s2]
    end; cbn [fst snd] in *; [contradiction | exact IH].
Qed.

(** X2: [do_wimlib_extract_files] checks every command before it
    executes the first one: when one command of the list is refused by
    [check_extract_command], wherever it stands in the list, the function
    returns an error and extracts nothing, also not for the commands
    before it; only messages are added to the trace, and the reference
    counts and the marks on dentries and inodes are as they were. *)
Theorem extract_files_checks_first (image : Z)
    (cmds : list wimlib_extract_command)
    (progress_func : option wimlib_progress_func_t) (s : world)
    (c : wimlib_extract_command) (r : wimlib_error_code) :
  In c cmds ->
  fst (check_extract_command c (hdr_flags (wim s)) s) = Returned r ->
  let result := do_wimlib_extract_files image cmds progress_func s in
  is_error (fst result) = true /\
  adds message_only s (snd result) /\
  out_refcnt (snd result) = out_refcnt s /\
  lte_dentry_list (snd result) = lte_dentry_list s /\
  needs_extraction (snd result) = needs_extraction s /\
  i_visited (snd result) = i_visited s.
Proof.
  intros Hin Hr. cbv zeta. unfold do_wimlib_extract_files.
  cbv [body bind when Return pure select_wim_image
       wim_checksum_unhashed_streams].
  destruct (x_select_wim_image X image (ext s)) as [r1 e1].
  destruct (is_error r1) eqn:Hr1; cbn [fst snd].
  { split; [exact Hr1 |]. split; [apply adds_same; reflexivity |].
    repeat split. }
  match goal with
  | |- context [x_wim_checksum_unhashed_streams X (ext ?st)] =>
      set (s1 := st);
      destruct (x_wim_checksum_unhashed_streams X (ext s1)) as [r2 e2]
  end.
  destruct (is_error r2) eqn:Hr2; cbn [fst snd].
  { split; [exact Hr2 |]. split; [apply adds_same; reflexivity |].
    repeat split. }
  set (s2 := with_ext e2 s1).
  assert (Hr' : exists r', fst (check_extract_command c (hdr_flags (wim s2)) s2)
                           = Returned r').
  { exists r.
    destruct (check_extract_command_answer c (hdr_flags (wim s)) s2 s)
      as [Heq _].
    change (hdr_flags (wim s2)) with (hdr_flags (wim s)).
    rewrite Heq. exact Hr. }
  pose proof (check_commands_refuses c cmds false false s2 Hin Hr') as H.
  destruct (check_commands cmds false false s2) as [[l | r3] s3];
    cbn [fst snd] in *; [contradiction |].
  destruct H as [Herr Hmsgs]. split; [exact Herr |].
  destruct Hmsgs as [msgs [-> Hf]].
  split.
  - exists msgs. split; [| exact Hf]. rewrite fold_log_trace. reflexivity.
  - destruct (fold_log_fields msgs s2) as [H1 [H2 [H3 [H4 _]]]].
    cbv zeta in *. rewrite H1, H2, H3, H4. repeat split.
Qed.

(** ** The marks on dentries and inodes

    [dentry->needs_extraction] and [inode->i_visited] are set by the
    planner and cleared at the labels at the end of [extract_tree]. *)
Definition same_marks (s s' : world) : Prop :=
  needs_extraction s' = needs_extraction s /\ i_visited s' = i_visited s.

(** No mark has appeared. *)
Definition marks_within (s s' : world) : Prop :=
  (forall k, needs_extraction s' k = true -> needs_extraction s k = true) /\
  (forall i, i_visited s' i = true -> i_visited s i = true).

Definition tree_addrs (root : wim_dentry) : list nat :=
  map d_addr (dentry_preorder root).
Definition tree_inodes (root : wim_dentry) : list inode_ptr :=
  map d_inode (dentry_preorder root).

(** The marks that have appeared are on the tree under [root]. *)
Definition marks_in_tree (root : wim_dentry) (s s' : world) : Prop :=
  (forall k, needs_extraction s' k = true ->
             needs_extraction s k = true \/ In k (tree_addrs root)) /\
  (forall i, i_visited s' i = true ->
             i_visited s i = true \/ In i (tree_inodes root)).

(** No mark has appeared and none is left on the tree under [root]. *)
Definition tree_cleared (root : wim_dentry) (s s' : world) : Prop :=
  (forall k, needs_extraction s' k = true ->
             needs_extraction s k = true /\ ~ In k (tree_addrs root)) /\
  (forall i, i_visited s' i = true ->
             i_visited s i = true /\ ~ In i (tree_inodes root)).

Lemma same_marks_refl (s : world) : same_marks s s.
Proof. split; reflexivity. Qed.

Lemma same_marks_trans (a b c : world) :
  same_marks a b -> same_marks b c -> same_marks a c.
Proof. intros [H1 H2] [H3 H4]. split; congruence. Qed.

Lemma marks_within_refl (s : world) : marks_within s s.
Proof. split; auto. Qed.

Lemma marks_within_trans (a b c : world) :
  marks_within a b -> marks_within b c -> marks_within a c.
Proof. intros [H1 H2] [H3 H4]. split; auto. Qed.

Lemma marks_in_tree_refl (root : wim_dentry) (s : world) :
  marks_in_tree root s s.
Proof. split; auto. Qed.

Lemma marks_in_tree_trans (root : wim_dentry) (a b c : world) :
  marks_in_tree root a b -> marks_in_tree root b c -> marks_in_tree root a c.
Proof.
  intros [H1 H2] [H3 H4]. split.
  - intros k Hk. destruct (H3 k Hk) as [Hb | Hin]; auto.
  - intros i Hi. destruct (H4 i Hi) as [Hb | Hin]; auto.
Qed.

Lemma same_marks_within (s s' : world) : same_marks s s' -> marks_within s s'.
Proof. intros [H1 H2]. split; intros k; rewrite ?H1, ?H2; auto. Qed.

Lemma marks_within_in_tree (root : wim_dentry) (s s' : world) :
  marks_within s s' -> marks_in_tree root s s'.
Proof. intros [H1 H2]. split; auto. Qed.

Lemma tree_cleared_within (root : wim_dentry) (s s' : world) :
  tree_cleared root s s' -> marks_within s s'.
Proof.
  intros [H1 H2]. split; intros k Hk; [apply (H1 k Hk) | apply (H2 k Hk)].
Qed.

Lemma marks_in_tree_cleared (root : wim_dentry) (a b c : world) :
  marks_in_tree root a b -> tree_cleared root b c -> tree_cleared root a c.
Proof.
  intros [H1 H2] [H3 H4]. split.
  - intros k Hk. destruct (H3 k Hk) as [Hb Hout]. split; [| exact Hout].
    destruct (H1 k Hb) as [Ha | Hin]; [exact Ha | contradiction].
  - intros i Hi. destruct (H4 i Hi) as [Hb Hout]. split; [| exact Hout].
    destruct (H2 i Hb) as [Ha | Hin]; [exact Ha | contradiction].
Qed.

Lemma tree_cleared_after (root : wim_dentry) (a b c : world) :
  tree_cleared root a b -> same_marks b c -> tree_cleared root a c.
Proof.
  intros [H1 H2] [H3 H4]. split; intros k; rewrite ?H3, ?H4; auto.
Qed.

Ltac same_marks_leaf :=
  idtac; match goal with
  | |- forall s, same_marks s _ => intros ?s; split; reflexivity
  | |- respects same_marks (ERROR _) => intros ?s; split; reflexivity
  | |- respects same_marks (WARNING _) => intros ?s; split; reflexivity
  | |- respects same_marks (call_progress _ _) =>
      intros ?s; split; reflexivity
  end.

Ltac same_marks_split leaf :=
  respects_split same_marks_refl same_marks_trans
    ltac:(first [ same_marks_leaf | leaf ]).

Lemma run_backend_same_marks (r : wimlib_error_code * Z * ext_state)
    (ev : wimlib_error_code -> event) (s : world) :
  same_marks s (snd (run_backend r ev s)).
Proof. destruct r as [[ret c] e]. split; reflexivity. Qed.

Lemma do_apply_op_same_marks (dentry : wim_dentry)
    (func : list tchar -> Z -> wim_dentry -> @fn world) :
  (forall path len, fn_respects same_marks (func path len dentry)) ->
  fn_respects same_marks (do_apply_op dentry func).
Proof.
  intros H s. unfold do_apply_op. cbv zeta. destruct (negb _); apply H.
Qed.

Lemma call_apply_dentry_same_marks (ptr : apply_dentry_ptr)
    (dentry : wim_dentry) :
  fn_respects same_marks (call_apply_dentry ptr dentry).
Proof.
  destruct ptr; cbn [call_apply_dentry].
  - intros s. apply same_marks_refl.
  - apply do_apply_op_same_marks. intros path len s.
    apply run_backend_same_marks.
  - intros s. apply run_backend_same_marks.
Qed.

Lemma apply_dentry_timestamps_same_marks (ops : apply_operations)
    (dentry : wim_dentry) :
  ops = normal_apply_operations \/ ops = ntfs_apply_operations ->
  fn_respects same_marks (ops_apply_dentry_timestamps ops dentry).
Proof.
  intros [-> | ->]; cbn [ops_apply_dentry_timestamps].
  - apply do_apply_op_same_marks. intros path len s.
    apply run_backend_same_marks.
  - intros s. apply run_backend_same_marks.
Qed.

Lemma unmark_within (d : nat) (s : world) :
  marks_within s
    (set_needs_extraction (upd (needs_extraction s) d false) s).
Proof.
  split; cbn [needs_extraction i_visited set_needs_extraction]; [| auto].
  intros k. unfold upd. destruct (Nat.eqb k d); [discriminate | auto].
Qed.

Lemma maybe_apply_dentry_marks (dentry : wim_dentry) :
  fn_respects marks_within (maybe_apply_dentry dentry).
Proof.
  unfold maybe_apply_dentry.
  respects_split marks_within_refl marks_within_trans
    ltac:(idtac; match goal with
          | |- respects marks_within (call_progress _ _) =>
              intros ?s; apply same_marks_within; split; reflexivity
          | |- fn_respects marks_within (call_apply_dentry _ _) =>
              intros ?s; apply same_marks_within,
                           call_apply_dentry_same_marks
          | |- forall s, marks_within s (set_needs_extraction _ s) =>
              intros ?s; apply unmark_within
          | |- forall s, marks_within s _ =>
              intros ?s; apply same_marks_within; split; reflexivity
          end).
Qed.

Lemma apply_stream_dentries_marks (dentries : list wim_dentry)
    (progress_func : option wimlib_progress_func_t)
    (bytes_per_progress : Z) :
  forall next_progress,
    respects marks_within (apply_stream_dentries dentries progress_func
                             bytes_per_progress next_progress).
Proof.
  induction dentries as [| d rest IH]; intros next;
    cbn [apply_stream_dentries];
    respects_split marks_within_refl marks_within_trans
      ltac:(first [ apply maybe_apply_dentry_marks
                  | apply IH
                  | match goal with
                    | |- respects marks_within (call_progress _ _) =>
                        intros ?s; apply same_marks_within; split;
                        reflexivity
                    end ]).
Qed.

Lemma apply_streams_marks (streams : list lte_ptr)
    (progress_func : option wimlib_progress_func_t)
    (bytes_per_progress : Z) :
  forall next_progress,
    respects marks_within (apply_streams streams progress_func
                             bytes_per_progress next_progress).
Proof.
  induction streams as [| l rest IH]; intros next; cbn [apply_streams];
    respects_split marks_within_refl marks_within_trans
      ltac:(first [ apply apply_stream_dentries_marks | apply IH ]).
Qed.

Lemma apply_stream_list_marks (stream_list : list lte_ptr)
    (ops : apply_operations)
    (progress_func : option wimlib_progress_func_t) :
  fn_respects marks_within (apply_stream_list stream_list ops progress_func).
Proof.
  unfold apply_stream_list.
  respects_split marks_within_refl marks_within_trans
    ltac:(apply apply_streams_marks).
Qed.

(** A walk whose visitor keeps [R] on the dentries of the list. *)
Lemma visit_each_respects_in (R : world -> world -> Prop)
    (visitor : wim_dentry -> @fn world) (ds : list wim_dentry) :
  (forall s, R s s) ->
  (forall a b c, R a b -> R b c -> R a c) ->
  (forall d, In d ds -> fn_respects R (visitor d)) ->
  fn_respects R (visit_each visitor ds).
Proof.
  intros Hrefl Htrans. induction ds as [| d ds IH]; intros Hv s;
    cbn [visit_each].
  - apply Hrefl.
  - pose proof (Hv d (or_introl eq_refl) s) as Hd.
    destruct (visitor d s) as [r s1]. cbn [snd] in Hd.
    destruct (is_error r); [exact Hd |].
    eapply Htrans; [exact Hd |].
    apply IH. intros d' Hin. apply Hv. right. exact Hin.
Qed.

Lemma resolve_same_marks (d : wim_dentry) :
  fn_respects same_marks (dentry_resolve_and_zero_lte_refcnt d).
Proof.
  intros s. unfold dentry_resolve_and_zero_lte_refcnt. cbn [snd].
  generalize (seq 0 (S (i_num_ads (inode_at X (d_inode d))))).
  intros idxs. revert s. induction idxs as [| i idxs IH]; intros s.
  - apply same_marks_refl.
  - cbn [fold_left].
    destruct (inode_stream_lte_resolved X (inode_at X (d_inode d)) i).
    + eapply same_marks_trans; [| apply IH]. split; reflexivity.
    + apply IH.
Qed.

Lemma maybe_add_stream_same_marks (l : lte_ptr) :
  respects same_marks (maybe_add_stream_for_extraction l).
Proof.
  intros s. unfold maybe_add_stream_for_extraction. cbv zeta.
  destruct (_ =? 1); split; reflexivity.
Qed.

Lemma add_dentry_same_marks (dentry : wim_dentry) (l : lte_ptr) :
  respects same_marks (add_dentry_to_lte dentry l).
Proof. intros s. split; reflexivity. Qed.

Lemma find_ads_streams_same_marks (dentry : wim_dentry)
    (entries : list wim_ads_entry) :
  forall dentry_added,
    respects same_marks (find_ads_streams dentry entries dentry_added).
Proof.
  induction entries as [| e rest IH]; intros added;
    cbn [find_ads_streams];
    same_marks_split ltac:(first [ apply maybe_add_stream_same_marks
                                 | apply add_dentry_same_marks
                                 | apply IH ]).
Qed.

Lemma mark_needed_in_tree (root d : wim_dentry) (s : world) :
  In d (dentry_preorder root) ->
  marks_in_tree root s
    (set_needs_extraction (upd (needs_extraction s) (d_addr d) true) s).
Proof.
  intros Hin. split; cbn [needs_extraction i_visited set_needs_extraction];
    [| auto].
  intros k. unfold upd. destruct (Nat.eqb_spec k (d_addr d)) as [-> | _];
    [| auto].
  intros _. right. apply (in_map d_addr), Hin.
Qed.

Lemma mark_visited_in_tree (root d : wim_dentry) (s : world) :
  In d (dentry_preorder root) ->
  marks_in_tree root s
    (set_i_visited (upd (i_visited s) (d_inode d) true) s).
Proof.
  intros Hin. split; cbn [needs_extraction i_visited set_i_visited];
    [auto |].
  intros k. unfold upd. destruct (Nat.eqb_spec k (d_inode d)) as [-> | _];
    [| auto].
  intros _. right. apply (in_map d_inode), Hin.
Qed.

Lemma find_streams_marks (root d : wim_dentry) :
  In d (dentry_preorder root) ->
  fn_respects (marks_in_tree root) (dentry_find_streams_to_extract d).
Proof.
  intros Hin. unfold dentry_find_streams_to_extract. cbv zeta.
  assert (Hsame : forall A (m : @block world A),
             respects same_marks m -> respects (marks_in_tree root) m).
  { intros A m H s. apply marks_within_in_tree, same_marks_within, H. }
  respects_split (marks_in_tree_refl root) (marks_in_tree_trans root)
    ltac:(first
      [ apply Hsame;
        first [ apply maybe_add_stream_same_marks
              | apply find_ads_streams_same_marks
              | apply add_dentry_same_marks ]
      | intros ?s; apply mark_needed_in_tree; exact Hin
      | intros ?s; apply mark_visited_in_tree; exact Hin ]).
Qed.

Lemma planner_marks (root : wim_dentry) (extract_flags : Z) :
  respects (marks_in_tree root)
    (find_streams_for_extraction root extract_flags).
Proof.
  unfold find_streams_for_extraction.
  respects_split (marks_in_tree_refl root) (marks_in_tree_trans root)
    ltac:(idtac; match goal with
          | |- fn_respects _ (for_dentry_in_tree _
                                dentry_resolve_and_zero_lte_refcnt) =>
              apply visit_each_respects;
              [ apply marks_in_tree_refl | apply marks_in_tree_trans
              | intros ?d ?s;
                apply marks_within_in_tree, same_marks_within,
                      resolve_same_marks ]
          | |- fn_respects _ (for_dentry_in_tree _
                                dentry_find_streams_to_extract) =>
              apply visit_each_respects_in;
              [ apply marks_in_tree_refl | apply marks_in_tree_trans
              | intros ?d ?Hd; apply find_streams_marks; assumption ]
          | |- forall s, marks_in_tree _ s _ =>
              intros ?s; apply marks_within_in_tree, same_marks_within;
              split; reflexivity
          end).
Qed.

(** The walk at the label [out_dentry_reset_needs_extraction] clears
    every mark on the dentries it visits and on their inodes. *)
Lemma reset_walk_clears (ds : list wim_dentry) :
  forall s,
    let s' := snd (visit_each dentry_reset_needs_extraction ds s) in
    (forall k, needs_extraction s' k = true ->
               needs_extraction s k = true /\ ~ In k (map d_addr ds)) /\
    (forall i, i_visited s' i = true ->
               i_visited s i = true /\ ~ In i (map d_inode ds)).
Proof.
  induction ds as [| d ds IH]; intros s; cbv zeta; cbn [visit_each map].
  - cbn [snd]. split; intros k Hk; (split; [exact Hk | intros []]).
  - unfold dentry_reset_needs_extraction at 1. cbn [is_error].
    match goal with
    | |- context [visit_each _ ds ?st] =>
        specialize (IH st); cbv zeta in IH; destruct IH as [IH1 IH2];
        set (s1 := st) in *
    end.
    split.
    + intros k Hk. destruct (IH1 k Hk) as [Hs1 Hout].
      subst s1. cbn [needs_extraction set_i_visited set_needs_extraction]
        in Hs1.
      unfold upd in Hs1. destruct (Nat.eqb_spec k (d_addr d)) as [-> | Hne];
        [discriminate |].
      split; [exact Hs1 |]. intros [Heq | Hin]; [congruence | auto].
    + intros i Hi. destruct (IH2 i Hi) as [Hs1 Hout].
      subst s1. cbn [i_visited set_i_visited set_needs_extraction] in Hs1.
      unfold upd in Hs1. destruct (Nat.eqb_spec i (d_inode d)) as [-> | Hne];
        [discriminate |].
      split; [exact Hs1 |]. intros [Heq | Hin]; [congruence | auto].
Qed.

Lemma out_ntfs_umount_same_marks (extract_flags : Z)
    (ret : wimlib_error_code) :
  fn_respects same_marks (out_ntfs_umount extract_flags ret).
Proof.
  unfold out_ntfs_umount.
  destruct (WITH_NTFS_3G X && _); [| intros s; apply same_marks_refl].
  same_marks_split fail.
  intros s. destruct (x_ntfs_umount X (ext s)) as [r e]. split; reflexivity.
Qed.

Lemma out_reset_clears (root : wim_dentry) (extract_flags : Z)
    (ret : wimlib_error_code) (s : world) :
  tree_cleared root s
    (snd (out_dentry_reset_needs_extraction root extract_flags ret s)).
Proof.
  unfold out_dentry_reset_needs_extraction, for_dentry_in_tree.
  cbv [body bind call].
  pose proof (reset_walk_clears (dentry_preorder root) s) as H.
  cbv zeta in H.
  destruct (visit_each dentry_reset_needs_extraction (dentry_preorder root) s)
    as [r0 s1].
  cbn [snd] in H.
  pose proof (out_ntfs_umount_same_marks extract_flags ret s1) as Hu.
  destruct (out_ntfs_umount extract_flags ret s1) as [r1 s2].
  cbn [snd] in *. eapply tree_cleared_after; [| exact Hu]. exact H.
Qed.

Lemma extract_dentry_to_stdout_same_marks (dentry : wim_dentry) :
  fn_respects same_marks (extract_dentry_to_stdout dentry).
Proof.
  unfold extract_dentry_to_stdout.
  same_marks_split fail.
  intros s. cbv zeta.
  destruct (x_extract_wim_resource_to_fd X _ _ (ext s)) as [ret e].
  split; reflexivity.
Qed.

Lemma sort_stream_list_same_marks (stream_list : list lte_ptr) :
  respects same_marks (sort_stream_list_by_wim_position stream_list).
Proof.
  unfold sort_stream_list_by_wim_position. cbv zeta.
  same_marks_split fail.
Qed.

Lemma calculate_bytes_same_marks (stream_list : list lte_ptr)
    (extract_flags : Z) :
  respects same_marks (calculate_bytes_to_extract stream_list extract_flags).
Proof.
  intros s. unfold calculate_bytes_to_extract, modify. cbn [snd].
  cbv zeta. destruct (fold_left _ stream_list (0, 0)). split; reflexivity.
Qed.

Lemma runs_goto {A} (N : A -> world -> world -> Prop)
    (E : wimlib_error_code -> world -> world -> Prop) (label : @fn world) :
  fn_runs E label -> runs N E (@goto A label).
Proof.
  intros H s. unfold goto. specialize (H s).
  destruct (label s) as [r s1]. exact H.
Qed.

Lemma leaving_bind_yields {A B} (R : world -> world -> Prop)
    (E : wimlib_error_code -> world -> world -> Prop) (Q : A -> Prop)
    (m : @block world A) (k : A -> @block world B) :
  (forall r a b c, R a b -> E r b c -> E r a c) ->
  yields Q m -> steps R E m -> (forall a, Q a -> leaving E (k a)) ->
  leaving E (bind m k).
Proof.
  intros HRE Hq Hm Hk s. unfold bind.
  specialize (Hq s). specialize (Hm s).
  destruct (m s) as [[a | r] s1]; cbn [fst snd] in *; [| exact Hm].
  specialize (Hk a Hq s1).
  destruct (k a s1) as [[b | r] s2]; cbn [fst snd] in *;
    [contradiction |].
  eapply HRE; eassumption.
Qed.

Lemma leaving_pure_bind {A B}
    (E : wimlib_error_code -> world -> world -> Prop) (v : A)
    (k : A -> @block world B) :
  leaving E (k v) -> leaving E (bind (pure v) k).
Proof. intros H s. exact (H s). Qed.

Lemma planner_normal (root : wim_dentry) (extract_flags : Z) (s : world) :
  exists l, fst (find_streams_for_extraction root extract_flags s) = Normal l.
Proof.
  unfold find_streams_for_extraction. cbv [bind modify call gets].
  repeat match goal with
         | |- context [for_dentry_in_tree ?r ?v ?st] =>
             destruct (for_dentry_in_tree r v st)
         end.
  eexists. reflexivity.
Qed.

Lemma same_marks_absorb (a b c : world) :
  same_marks a b -> marks_within b c -> marks_within a c.
Proof.
  intros H. apply marks_within_trans, same_marks_within, H.
Qed.

(** The steps of [extract_tree] before the planner. *)
Ltac before_planner :=
  steps_split same_marks_refl same_marks_trans
    (fun (_ : wimlib_error_code) => same_marks_absorb)
    ltac:(idtac;
          match goal with
          | |- forall s, same_marks s _ => intros ?s; split; reflexivity
          | |- forall s, marks_within s s => apply marks_within_refl
          | |- steps _ _ (ERROR _) => unfold ERROR
          | |- steps _ _ (goto _) =>
              apply runs_goto; intros ?s;
              apply same_marks_within, out_ntfs_umount_same_marks
          | |- steps _ _ (fun s => let (_, _) := _ in _) =>
              apply steps_normal;
              [ intros ?s;
                match goal with
                | |- context [let (_, _) := ?x in _] => destruct x
                end; split; reflexivity
              | intros ?s;
                match goal with
                | |- context [let (_, _) := ?x in _] => destruct x
                end; eexists; reflexivity ]
          end).

Ltac in_tree_of_same :=
  apply marks_within_in_tree, same_marks_within.

(** The steps from the planner on. *)
Ltac after_planner root Hops :=
  steps_split (marks_in_tree_refl root) (marks_in_tree_trans root)
    (fun (_ : wimlib_error_code) => marks_in_tree_cleared root)
    ltac:(idtac;
          match goal with
          | |- forall s, marks_in_tree _ s _ =>
              intros ?s; in_tree_of_same; split; reflexivity
          | |- steps _ _ (ERROR _) => unfold ERROR
          | |- steps _ _ (WARNING _) => unfold WARNING
          | |- steps _ _ (sort_stream_list_by_wim_position _) =>
              unfold sort_stream_list_by_wim_position; cbv zeta
          | |- steps _ _ (find_streams_for_extraction _ _) =>
              apply steps_normal;
              [apply planner_marks | apply planner_normal]
          | |- steps _ _ (calculate_bytes_to_extract _ _) =>
              apply steps_normal;
              [ intros ?s; in_tree_of_same; apply calculate_bytes_same_marks
              | intros ?s; eexists; reflexivity ]
          | |- steps _ _ (call_progress _ _) =>
              apply steps_normal;
              [ intros ?s; in_tree_of_same; split; reflexivity
              | intros ?s; eexists; reflexivity ]
          | |- steps _ _ (goto _) =>
              apply runs_goto; intros ?s; apply out_reset_clears
          | |- fn_respects _ (extract_dentry_to_stdout _) =>
              intros ?s; in_tree_of_same;
              apply extract_dentry_to_stdout_same_marks
          | |- fn_respects _ (for_dentry_in_tree _ maybe_apply_dentry) =>
              apply visit_each_respects;
              [ apply marks_in_tree_refl | apply marks_in_tree_trans
              | intros ?d ?s; apply marks_within_in_tree,
                                    maybe_apply_dentry_marks ]
          | |- fn_respects _ (apply_stream_list _ _ _) =>
              intros ?s; apply marks_within_in_tree, apply_stream_list_marks
          | |- fn_respects _ (for_dentry_in_tree_depth _ _) =>
              apply visit_each_respects;
              [ apply marks_in_tree_refl | apply marks_in_tree_trans
              | intros ?d ?s; in_tree_of_same;
                apply apply_dentry_timestamps_same_marks; exact Hops ]
          end).

(** X3: [extract_tree] leaves no mark behind: whatever way it returns, a
    dentry that is marked as needing extraction afterwards was marked so
    before the call, and an inode that is marked visited afterwards was
    marked so before the call.  In particular a call that starts without
    marks ends without marks, which is what the planner of the next call
    relies on. *)
Theorem extract_tree_restores_marks (wim_source_path target : list tchar)
    (extract_flags : Z) (progress_func : option wimlib_progress_func_t)
    (s : world) :
  let s' := snd (extract_tree wim_source_path target extract_flags
                   progress_func s) in
  (forall k, needs_extraction s' k = true -> needs_extraction s k = true) /\
  (forall i, i_visited s' i = true -> i_visited s i = true).
Proof.
  cbv zeta. revert s.
  change (fn_runs (fun _ => marks_within)
            (extract_tree wim_source_path target extract_flags
               progress_func)).
  unfold extract_tree. apply leaving_body.
  do 3 (apply (leaving_bind same_marks _
                 (fun (_ : wimlib_error_code) => same_marks_absorb));
        [before_planner | intros ?]).
  apply (leaving_bind_yields same_marks _
           (fun ops => ops = normal_apply_operations
                       \/ ops = ntfs_apply_operations)
           _ _ (fun (_ : wimlib_error_code) => same_marks_absorb));
    [ops_known | before_planner | intros ops Hops].
  apply (leaving_bind same_marks _
           (fun (_ : wimlib_error_code) => same_marks_absorb));
    [before_planner | intros [root |]].
  2: { apply (leaving_bind same_marks _
                (fun (_ : wimlib_error_code) => same_marks_absorb));
       [before_planner | intros ?].
       apply runs_goto. intros s.
       apply same_marks_within, out_ntfs_umount_same_marks. }
  do 3 (apply (leaving_bind same_marks _
                 (fun (_ : wimlib_error_code) => same_marks_absorb));
        [before_planner | intros ?]).
  apply (leaving_weaken (fun _ => tree_cleared root));
    [| intros ? ? ?; apply tree_cleared_within].
  repeat (cbv zeta;
          apply (leaving_bind (marks_in_tree root) _
                   (fun (_ : wimlib_error_code) =>
                      marks_in_tree_cleared root));
          [after_planner root Hops | intros ?]).
  apply runs_goto. intros s. apply out_reset_clears.
Qed.

(** ** Mounting and unmounting the NTFS volume *)

(** Events other than the mounting and the unmounting of the volume. *)
Definition calm (e : event) : Prop :=
  match e with
  | Ev_ntfs_mount _ _ | Ev_ntfs_umount _ => False
  | _ => True
  end.

(** Whether [extract_tree] and its labels take the NTFS branches. *)
Definition ntfs_mode (extract_flags : Z) : bool :=
  WITH_NTFS_3G X
  && nonzero (Z.land extract_flags (WIMLIB_EXTRACT_FLAG_NTFS X)).

(** From [s] to [s'] the volume was unmounted once, with the result
    [r0], after events that are calm, and only messages followed. *)
Definition unmounted (r : wimlib_error_code) (s s' : world) : Prop :=
  exists mid r0 msgs,
    trace s' = trace s ++ mid ++ Ev_ntfs_umount r0 :: msgs /\
    Forall calm mid /\ Forall message_only msgs /\
    (r0 <> 0 -> is_error r = true).

Lemma calm_unmounted (r : wimlib_error_code) (a b c : world) :
  adds calm a b -> unmounted r b c -> unmounted r a c.
Proof.
  intros [evs [Ht Hf]] [mid [r0 [msgs [Ht' [Hmid [Hmsgs Hr]]]]]].
  exists (evs ++ mid), r0, msgs. rewrite Ht', Ht, <- !app_assoc.
  repeat split; try assumption. apply Forall_app. split; assumption.
Qed.

Lemma out_ntfs_umount_unmounts (extract_flags : Z)
    (ret : wimlib_error_code) :
  ntfs_mode extract_flags = true ->
  fn_runs unmounted (out_ntfs_umount extract_flags ret).
Proof.
  intros Hmode s. unfold out_ntfs_umount. fold (ntfs_mode extract_flags).
  rewrite Hmode. cbv [body bind ERROR modify pure].
  destruct (x_ntfs_umount X (ext s)) as [r0 e].
  destruct (nonzero r0) eqn:Hr0; unfold unmounted;
    cbn [fst snd trace log with_ext].
  - exists [], r0, [Ev_message LVL_ERROR "Failed to unmount NTFS volume"].
    rewrite <- app_assoc. repeat split; try constructor; try constructor.
    intros _. destruct (is_error ret) eqn:Hret; [exact Hret | reflexivity].
  - exists [], r0, []. repeat split; try constructor.
    intros Hne. unfold nonzero in Hr0.
    apply negb_false_iff, Z.eqb_eq in Hr0. contradiction.
Qed.

Lemma out_reset_unmounts (root : wim_dentry) (extract_flags : Z)
    (ret : wimlib_error_code) :
  ntfs_mode extract_flags = true ->
  fn_runs unmounted
    (out_dentry_reset_needs_extraction root extract_flags ret).
Proof.
  intros Hmode s. unfold out_dentry_reset_needs_extraction.
  cbv [body bind call].
  pose proof (reset_walk_silent root s) as Hw.
  destruct (for_dentry_in_tree root dentry_reset_needs_extraction s)
    as [r0 s1].
  cbn [snd] in Hw.
  pose proof (out_ntfs_umount_unmounts extract_flags ret Hmode s1) as Hu.
  destruct (out_ntfs_umount extract_flags ret s1) as [r1 s2].
  cbn [fst snd] in *. eapply calm_unmounted; [| exact Hu].
  apply silent_adds. exact Hw.
Qed.

Lemma out_ntfs_umount_calm (extract_flags : Z) (ret : wimlib_error_code) :
  ntfs_mode extract_flags = false ->
  fn_respects (adds calm) (out_ntfs_umount extract_flags ret).
Proof.
  intros Hmode s. unfold out_ntfs_umount. fold (ntfs_mode extract_flags).
  rewrite Hmode. apply adds_refl.
Qed.

Lemma out_reset_calm (root : wim_dentry) (extract_flags : Z)
    (ret : wimlib_error_code) :
  ntfs_mode extract_flags = false ->
  fn_respects (adds calm)
    (out_dentry_reset_needs_extraction root extract_flags ret).
Proof.
  intros Hmode. unfold out_dentry_reset_needs_extraction.
  respects_split (adds_refl calm) (adds_trans calm)
    ltac:(first [ apply reset_walk_adds
                | apply out_ntfs_umount_calm; exact Hmode ]).
Qed.

(** The flags with which the labels are reached: those of the call, or
    those without [WIMLIB_EXTRACT_FLAG_SEQUENTIAL]. *)
Definition flags_or_cleared (extract_flags : Z) (sorted : list lte_ptr * Z)
  : Prop :=
  snd sorted = extract_flags \/ snd sorted = clear_sequential extract_flags.

Ltac sorted_known :=
  match goal with
  | |- yields _ (if ?c then _ else _) =>
      intros ?st; destruct c; [| left; reflexivity];
      cbv [bind pure WARNING ERROR modify gets
           sort_stream_list_by_wim_position];
      match goal with
      | |- context [x_malloc ?X0 ?n ?e0] => destruct (x_malloc X0 n e0)
      end;
      cbn; [left | right]; reflexivity
  end.

Lemma ntfs_mode_cleared_off (extract_flags : Z) :
  ntfs_mode extract_flags = false ->
  ntfs_mode (clear_sequential extract_flags) = false.
Proof.
  unfold ntfs_mode, clear_sequential.
  destruct (WITH_NTFS_3G X); [| reflexivity]. cbn [andb].
  unfold nonzero. rewrite !negb_false_iff, !Z.eqb_eq. intros H.
  rewrite <- Z.land_assoc, (Z.land_comm (Z.lnot _)), Z.land_assoc, H.
  apply Z.land_0_l.
Qed.

Lemma ntfs_mode_cleared_on (extract_flags : Z) :
  Z.land (WIMLIB_EXTRACT_FLAG_SEQUENTIAL X) (WIMLIB_EXTRACT_FLAG_NTFS X) = 0 ->
  ntfs_mode extract_flags = true ->
  ntfs_mode (clear_sequential extract_flags) = true.
Proof.
  intros Hapart. unfold ntfs_mode.
  rewrite (clear_sequential_land _ _ Hapart). auto.
Qed.

Lemma timestamps_calm (ops : apply_operations) (dentry : wim_dentry) :
  ops = normal_apply_operations \/ ops = ntfs_apply_operations ->
  fn_respects (adds calm) (ops_apply_dentry_timestamps ops dentry).
Proof.
  intros [-> | ->]; cbn [ops_apply_dentry_timestamps].
  - apply apply_dentry_timestamps_normal_adds. intros; exact I.
  - apply apply_dentry_timestamps_ntfs_adds. intros; exact I.
Qed.

(** A step that keeps [adds calm] and never returns. *)
Ltac calm_normal :=
  apply steps_normal;
  [ intros ?s | intros ?s; eexists; reflexivity ].

Ltac calm_leaf Hops goto_leaf :=
  idtac;
  match goal with
  | |- forall s, adds calm s _ => intros ?s; apply adds_same; reflexivity
  | |- forall s, adds calm s s => apply adds_refl
  | |- steps _ _ (ERROR _) =>
      calm_normal; apply ERROR_adds; intros; exact I
  | |- steps _ _ (WARNING _) =>
      calm_normal; apply WARNING_adds; intros; exact I
  | |- steps _ _ (call_progress _ _) =>
      calm_normal; apply call_progress_adds; intros; exact I
  | |- steps _ _ (sort_stream_list_by_wim_position _) =>
      unfold sort_stream_list_by_wim_position; cbv zeta
  | |- steps _ _ (find_streams_for_extraction _ _) =>
      apply steps_normal; [apply planner_adds | apply planner_normal]
  | |- steps _ _ (calculate_bytes_to_extract _ _) =>
      calm_normal; apply calculate_bytes_adds
  | |- steps _ _ (goto _) => apply runs_goto; goto_leaf
  | |- steps _ _ (fun s => let (_, _) := _ in _) =>
      apply steps_normal;
      [ intros ?s;
        match goal with
        | |- context [let (_, _) := ?x in _] => destruct x
        end; apply adds_same; reflexivity
      | intros ?s;
        match goal with
        | |- context [let (_, _) := ?x in _] => destruct x
        end; eexists; reflexivity ]
  | |- fn_respects _ (extract_dentry_to_stdout _) =>
      apply extract_dentry_to_stdout_adds; intros; exact I
  | |- fn_respects _ (for_dentry_in_tree _ maybe_apply_dentry) =>
      apply visit_each_respects;
      [ apply adds_refl | apply adds_trans
      | intros ?d; apply maybe_apply_dentry_adds; intros; exact I ]
  | |- fn_respects _ (apply_stream_list _ _ _) =>
      apply apply_stream_list_adds; intros; exact I
  | |- fn_respects _ (for_dentry_in_tree_depth _ _) =>
      apply visit_each_respects;
      [ apply adds_refl | apply adds_trans
      | intros ?d; apply timestamps_calm; exact Hops ]
  end.

(** X5: without the NTFS mode ([WIMLIB_EXTRACT_FLAG_NTFS] not given, or a
    library built without NTFS-3g) [extract_tree] neither mounts nor
    unmounts a volume, whatever way it returns. *)
Theorem extract_tree_mounts_nothing (wim_source_path target : list tchar)
    (extract_flags : Z) (progress_func : option wimlib_progress_func_t)
    (s : world) :
  ntfs_mode extract_flags = false ->
  exists evs,
    trace (snd (extract_tree wim_source_path target extract_flags
                  progress_func s))
    = trace s ++ evs /\
    Forall calm evs.
Proof.
  intros Hmode. revert s.
  change (fn_runs (fun _ => adds calm)
            (extract_tree wim_source_path target extract_flags
               progress_func)).
  unfold extract_tree. fold (ntfs_mode extract_flags). rewrite Hmode.
  apply leaving_body.
  pose proof (fun (_ : wimlib_error_code) => adds_trans calm) as Habsorb.
  assert (Hops : normal_apply_operations = normal_apply_operations
                 \/ normal_apply_operations = ntfs_apply_operations)
    by (left; reflexivity).
  pose proof (ntfs_mode_cleared_off _ Hmode) as Hmode'.
  assert (Hgoto : forall flags root ret,
             ntfs_mode flags = false ->
             fn_runs (fun _ : wimlib_error_code => adds calm)
               (out_dentry_reset_needs_extraction root flags ret))
    by (intros flags root ret H s; apply out_reset_calm, H).
  assert (Hgoto0 : forall flags ret,
             ntfs_mode flags = false ->
             fn_runs (fun _ : wimlib_error_code => adds calm)
               (out_ntfs_umount flags ret))
    by (intros flags ret H s; apply out_ntfs_umount_calm, H).
  repeat first
    [ match goal with
      | |- leaving _ (goto (out_ntfs_umount _ _)) =>
          apply runs_goto, Hgoto0; assumption
      | |- leaving _ (goto _) =>
          apply runs_goto; unfold out_free_target_realpath; apply Hgoto;
          assumption
      | |- leaving _ (match ?x with _ => _ end) => destruct x
      | |- leaving _ (bind (pure normal_apply_operations) _) =>
          apply leaving_pure_bind
      | |- leaving _ (bind (if nonzero (Z.land _
                              (WIMLIB_EXTRACT_FLAG_SEQUENTIAL X))
                            then _ else _) _) =>
          apply (leaving_bind_yields (adds calm) _
                   (flags_or_cleared extract_flags) _ _ Habsorb);
          [ sorted_known | | intros ? [-> | ->] ]
      | |- leaving _ (bind _ _) =>
          apply (leaving_bind (adds calm) _ Habsorb); [| intros ?]
      | |- leaving _ _ => progress cbv zeta
      end
    | steps_split (adds_refl calm) (adds_trans calm) Habsorb
        ltac:(calm_leaf Hops
                ltac:(first [ apply Hgoto0; assumption
                            | unfold out_free_target_realpath;
                              apply Hgoto; assumption ])) ].
Qed.

Lemma leaving_bind_runs {A B} (N1 : A -> world -> world -> Prop)
    (E1 E2 E : wimlib_error_code -> world -> world -> Prop)
    (m : @block world A) (k : A -> @block world B) :
  runs N1 E1 m ->
  (forall a, (exists s s1, N1 a s s1) -> leaving E2 (k a)) ->
  (forall r s s1, E1 r s s1 -> E r s s1) ->
  (forall a r s s1 s2, N1 a s s1 -> E2 r s1 s2 -> E r s s2) ->
  leaving E (bind m k).
Proof.
  intros Hm Hk HE1 HE2 s. unfold bind. specialize (Hm s).
  destruct (m s) as [[a | r] s1]; cbn [fst snd] in *; [| apply HE1, Hm].
  specialize (Hk a (ex_intro _ s (ex_intro _ s1 Hm)) s1).
  destruct (k a s1) as [[b | r] s2]; cbn [fst snd] in *;
    [contradiction |].
  eapply HE2; eassumption.
Qed.

(** What [extract_tree] has done with the volume when it returns [r]. *)
Definition mounted_and_unmounted (target : list tchar)
    (r : wimlib_error_code) (s s' : world) : Prop :=
  (r = WIMLIB_ERR_NTFS_3G /\
   trace s' = trace s
              ++ [Ev_ntfs_mount target false;
                  Ev_message LVL_ERROR "Failed to mount NTFS volume"]) \/
  (exists mid r0 msgs,
      trace s' = trace s
                 ++ Ev_ntfs_mount target true
                 :: mid ++ Ev_ntfs_umount r0 :: msgs /\
      Forall calm mid /\ Forall message_only msgs /\
      (r0 <> 0 -> is_error r = true)).

(** X4: in the NTFS mode [extract_tree] unmounts the volume it has
    mounted, once, on every way out: either the mount fails, the function
    returns [WIMLIB_ERR_NTFS_3G] and has done nothing but report it, or
    the mount is followed, after events that neither mount nor unmount, by
    one unmount and then by messages only; and when that unmount fails the
    function returns an error.  (The flag of the NTFS mode shares no bit
    with [WIMLIB_EXTRACT_FLAG_SEQUENTIAL], which the function may clear
    on the way.) *)
Theorem extract_tree_unmounts (wim_source_path target : list tchar)
    (extract_flags : Z) (progress_func : option wimlib_progress_func_t)
    (s : world) :
  ntfs_mode extract_flags = true ->
  Z.land (WIMLIB_EXTRACT_FLAG_SEQUENTIAL X) (WIMLIB_EXTRACT_FLAG_NTFS X) = 0 ->
  let result :=
    extract_tree wim_source_path target extract_flags progress_func s in
  (fst result = WIMLIB_ERR_NTFS_3G /\
   trace (snd result)
   = trace s ++ [Ev_ntfs_mount target false;
                 Ev_message LVL_ERROR "Failed to mount NTFS volume"]) \/
  (exists mid r0 msgs,
      trace (snd result)
      = trace s ++ Ev_ntfs_mount target true
                :: mid ++ Ev_ntfs_umount r0 :: msgs /\
      Forall calm mid /\ Forall message_only msgs /\
      (r0 <> 0 -> is_error (fst result) = true)).
Proof.
  intros Hmode Hapart. cbv zeta. revert s.
  change (fn_runs (mounted_and_unmounted target)
            (extract_tree wim_source_path target extract_flags
               progress_func)).
  unfold extract_tree. fold (ntfs_mode extract_flags). rewrite Hmode.
  apply leaving_body.
  assert (Hsame : forall (r : wimlib_error_code) (a b c : world),
             trace b = trace a ->
             mounted_and_unmounted target r b c ->
             mounted_and_unmounted target r a c).
  { intros r a b c Hab H. unfold mounted_and_unmounted in *.
    rewrite <- Hab. exact H. }
  do 3 (apply (leaving_bind (fun a b => trace b = trace a) _ Hsame);
        [ steps_split (fun a : world => eq_refl (trace a))
            (fun (a b c : world) (H1 : trace b = trace a)
                 (H2 : trace c = trace b) => eq_trans H2 H1)
            Hsame
            ltac:(idtac;
                  match goal with
                  | |- forall s, trace _ = trace s => intros ?s; reflexivity
                  end)
        | intros ? ]).
  apply (leaving_bind_runs
           (fun ops a b =>
              ops = ntfs_apply_operations /\
              trace b = trace a ++ [Ev_ntfs_mount target true])
           (fun r a b =>
              r = WIMLIB_ERR_NTFS_3G /\
              trace b = trace a
                        ++ [Ev_ntfs_mount target false;
                            Ev_message LVL_ERROR
                              "Failed to mount NTFS volume"])
           unmounted).
  - intros s. cbv [bind pure Return ERROR modify].
    destruct (x_ntfs_mount X target (ext s)) as [[|] e];
      cbn [negb fst snd trace log]; split; try reflexivity.
    rewrite <- app_assoc. reflexivity.
  - intros ops [s0 [s1 [-> _]]].
    pose proof (fun (r : wimlib_error_code) => calm_unmounted r) as Habsorb.
    assert (Hops : ntfs_apply_operations = normal_apply_operations
                   \/ ntfs_apply_operations = ntfs_apply_operations)
      by (right; reflexivity).
    pose proof (ntfs_mode_cleared_on _ Hapart Hmode) as Hmode'.
    repeat first
      [ match goal with
        | |- leaving _ (goto (out_ntfs_umount _ _)) =>
            apply runs_goto, out_ntfs_umount_unmounts; assumption
        | |- leaving _ (goto _) =>
            apply runs_goto; unfold out_free_target_realpath;
            apply out_reset_unmounts; assumption
        | |- leaving _ (match ?x with _ => _ end) => destruct x
        | |- leaving _ (bind (if nonzero (Z.land _
                                (WIMLIB_EXTRACT_FLAG_SEQUENTIAL X))
                              then _ else _) _) =>
            apply (leaving_bind_yields (adds calm) _
                     (flags_or_cleared extract_flags) _ _ Habsorb);
            [ sorted_known | | intros ? [-> | ->] ]
        | |- leaving _ (bind _ _) =>
            apply (leaving_bind (adds calm) _ Habsorb); [| intros ?]
        | |- leaving _ _ => progress cbv zeta
        end
      | steps_split (adds_refl calm) (adds_trans calm) Habsorb
          ltac:(calm_leaf Hops
                  ltac:(first [ apply out_ntfs_umount_unmounts; assumption
                              | unfold out_free_target_realpath;
                                apply out_reset_unmounts; assumption ])) ].
  - intros r s0 s1 H. left. exact H.
  - intros ops r s0 s1 s2 [_ Hab] [mid [r0 [msgs [Hbc H]]]]. right.
    exists mid, r0, msgs. split; [| exact H].
    rewrite Hbc, Hab, <- app_assoc. reflexivity.
Qed.

(** ** The directories of the images *)

Lemma slash_forbidden : In "/"%char filename_forbidden_chars.
Proof.
  unfold filename_forbidden_chars. destruct (WIN32 X); cbn; auto 10.
Qed.

(** X6: an image name that [image_name_ok_as_dir] accepts is there, is
    not empty, holds none of the forbidden characters, the slash among
    them on every platform, and is neither [.] nor [..]: used as the last
    component of a path it names an entry of the directory it is put
    in. *)
Theorem image_name_ok_as_dir_safe (image_name : option (list tchar)) :
  image_name_ok_as_dir image_name = true ->
  exists name,
    image_name = Some name /\
    name <> [] /\
    (forall c, In c filename_forbidden_chars -> ~ In c name) /\
    ~ In "/"%char name /\
    name <> list_ascii_of_string "." /\
    name <> list_ascii_of_string "..".
Proof.
  unfold image_name_ok_as_dir. destruct image_name as [name |];
    [| discriminate].
  rewrite !andb_true_iff, !negb_true_iff. intros [[[H1 H2] H3] H4].
  assert (Hforbidden : forall c, In c filename_forbidden_chars ->
                                 ~ In c name).
  { intros c Hc Hin.
    assert (Hex : existsb (fun c0 => existsb (Ascii.eqb c0)
                                       filename_forbidden_chars) name
                  = true).
    { apply existsb_exists. exists c. split; [exact Hin |].
      apply existsb_exists. exists c. split; [exact Hc |].
      apply Ascii.eqb_refl. }
    congruence. }
  exists name. split; [reflexivity |].
  split.
  { intros ->. discriminate H1. }
  split; [exact Hforbidden |].
  split; [apply Hforbidden, slash_forbidden |].
  unfold tstr_eqb in *.
  split; intros ->;
    match goal with
    | H : (if ?d then true else false) = false |- _ =>
        destruct d as [_ | Hne]; [discriminate H | apply Hne; reflexivity]
    end.
Qed.

(** ** A path that is not in the image *)

(** X7: when the path to extract does not exist in the image (looked up
    after the volume has been mounted, in the NTFS mode),
    [extract_tree] returns [WIMLIB_ERR_PATH_DOES_NOT_EXIST] and has written
    nothing to the target or to standard output: it has reported the
    error, besides mounting and unmounting the volume, and the marks on
    dentries and inodes are as they were. *)
Theorem extract_tree_path_not_found
    (wim_source_path target : list tchar) (extract_flags : Z)
    (progress_func : option wimlib_progress_func_t) (s : world) :
  let ntfs := ntfs_mode extract_flags in
  let e1 := if ntfs then snd (x_ntfs_mount X target (ext s)) else ext s in
  let r := extract_tree wim_source_path target extract_flags progress_func
                        s in
  (ntfs = true -> fst (x_ntfs_mount X target (ext s)) = true) ->
  x_get_dentry X (current_image (wim s)) wim_source_path e1 = None ->
  fst r = WIMLIB_ERR_PATH_DOES_NOT_EXIST /\
  (exists evs, trace (snd r) = trace s ++ evs /\ Forall no_output evs) /\
  In (Ev_message LVL_ERROR "Path does not exist in WIM image")
     (trace (snd r)) /\
  needs_extraction (snd r) = needs_extraction s /\
  i_visited (snd r) = i_visited s.
Proof.
  intros ntfs e1 r Hmount Hroot. subst r.
  unfold extract_tree.
  cbv [body bind gets modify when pure Return goto ERROR call].
  fold (ntfs_mode extract_flags). fold ntfs.
  assert (Hn : ntfs = true ->
               exists e, x_ntfs_mount X target (ext s) = (true, e) /\ e1 = e).
  { intros Ht. specialize (Hmount Ht). subst e1. rewrite Ht.
    destruct (x_ntfs_mount X target (ext s)) as [ok e]. cbn in *.
    subst ok. exists e. split; reflexivity. }
  assert (Hf : ntfs = false -> e1 = ext s).
  { intros Hfalse. subst e1. rewrite Hfalse. reflexivity. }
  clearbody e1. clear Hmount. clearbody ntfs.
  destruct (negb (is_null progress_func));
    cbn [ext wim args trace with_args set_args with_ext log set_progress];
    (destruct ntfs;
     [ destruct (Hn eq_refl) as [e [Hm He]];
       cbn [ext wim args trace with_args set_args with_ext log set_progress];
       rewrite Hm; cbn [negb]
     | pose proof (Hf eq_refl) as He ];
     cbn [ext wim args trace with_args set_args with_ext log set_progress]).
  all: subst e1; rewrite Hroot.
  all: cbv beta iota.
  all: match goal with
       | |- context [out_ntfs_umount ?f ?r ?st] =>
           destruct (out_ntfs_umount_meek f r st eq_refl) as [R3 M3];
           pose proof (out_ntfs_umount_same_marks f r st) as [K3 V3];
           destruct (out_ntfs_umount f r st) as [r3 s3];
           cbn [fst snd] in R3, M3, K3, V3 |- *
       end.
  all: split; [exact R3 |].
  all: split;
    [ eapply meek_trans; [| exact M3];
      repeat (apply meek_log; [| exact I]);
      apply same_trace_meek; reflexivity |].
  all: split;
    [ destruct M3 as [evs [Ht _]]; rewrite Ht; apply in_or_app; left;
      cbn [trace log]; apply in_or_app; right; left; reflexivity |].
  all: split; [exact K3 | exact V3].
Qed.

(** ** The totals reported to the progress function *)

Lemma u64_add_l (a b : Z) : u64 (u64 a + b) = u64 (a + b).
Proof. unfold u64. apply Z.add_mod_idemp_l. lia. Qed.

(** The loop of [calculate_bytes_to_extract] in the link modes. *)
Lemma link_totals (e : ext_state) (stream_list : list lte_ptr) :
  forall total n,
    fold_left
      (fun (acc : Z * Z) (l : lte_ptr) =>
         let (total_bytes, num_streams) := acc in
         if negb (x_extracted_file X l e) then
           (u64 (total_bytes + wim_resource_size X (lte_at X l)),
            u64 (num_streams + 1))
         else acc)
      stream_list (u64 total, u64 n)
    = (let fresh :=
         filter (fun l => negb (x_extracted_file X l e)) stream_list in
       (u64 (total
             + zsum (map (fun l => wim_resource_size X (lte_at X l)) fresh)),
        u64 (n + Z.of_nat (List.length fresh)))).
Proof.
  induction stream_list as [| l rest IH]; intros total n;
    cbn [fold_left filter].
  - cbn. rewrite !Z.add_0_r. reflexivity.
  - destruct (negb (x_extracted_file X l e)).
    + rewrite !u64_add_l, IH. cbv zeta. unfold zsum.
      cbn [map fold_right List.length].
      f_equal; f_equal; lia.
    + apply IH.
Qed.

(** The loop outside the link modes. *)
Lemma reference_totals (refcnt : lte_ptr -> Z) (stream_list : list lte_ptr) :
  forall total n,
    fold_left
      (fun (acc : Z * Z) (l : lte_ptr) =>
         let (total_bytes, num_streams) := acc in
         (u64 (total_bytes
               + u64 (refcnt l * wim_resource_size X (lte_at X l))),
          u64 (num_streams + refcnt l)))
      stream_list (u64 total, u64 n)
    = (u64 (total
            + zsum (map (fun l => u64 (refcnt l
                                       * wim_resource_size X (lte_at X l)))
                        stream_list)),
       u64 (n + zsum (map refcnt stream_list))).
Proof.
  induction stream_list as [| l rest IH]; intros total n; cbn [fold_left].
  - cbn. rewrite !Z.add_0_r. reflexivity.
  - rewrite !u64_add_l, IH. unfold zsum. cbn [map fold_right].
    f_equal; f_equal; lia.
Qed.

(** X8: [calculate_bytes_to_extract] resets the bytes completed and sets
    the totals of the progress report, as 64-bit numbers.  Outside the
    link modes a stream counts once for each reference the planner has
    counted: the number of streams is the sum of the reference counts,
    the bytes are the sum of count times size (each product taken as a
    64-bit number).  In a link mode (SYMLINK or HARDLINK) a stream counts
    once, and not at all when it has been extracted before.  Nothing but
    these three fields changes. *)
Theorem calculate_bytes_totals (stream_list : list lte_ptr)
    (extract_flags : Z) (s : world) :
  let s' := snd (calculate_bytes_to_extract stream_list extract_flags s) in
  let size := fun l => wim_resource_size X (lte_at X l) in
  let fresh :=
    filter (fun l => negb (x_extracted_file X l (ext s))) stream_list in
  s' = with_args
         (with_progress
            (set_totals (num_streams (progress (args s')))
                        (total_bytes (progress (args s'))))) s /\
  completed_bytes (progress (args s')) = 0 /\
  if nonzero (Z.land extract_flags link_flags) then
    num_streams (progress (args s')) = u64 (Z.of_nat (List.length fresh)) /\
    total_bytes (progress (args s')) = u64 (zsum (map size fresh))
  else
    num_streams (progress (args s'))
    = u64 (zsum (map (out_refcnt s) stream_list)) /\
    total_bytes (progress (args s'))
    = u64 (zsum (map (fun l => u64 (out_refcnt s l * size l)) stream_list)).
Proof.
  cbv zeta. unfold calculate_bytes_to_extract, modify, link_flags.
  cbn [snd]. cbv zeta.
  destruct (nonzero (Z.land extract_flags _)).
  - change (0, 0) with (u64 0, u64 0).
    rewrite (link_totals (ext s) stream_list 0 0). cbv zeta.
    cbn [args progress with_args set_args with_progress set_progress
         set_totals num_streams total_bytes completed_bytes].
    repeat split.
  - change (0, 0) with (u64 0, u64 0).
    rewrite (reference_totals (out_refcnt s) stream_list 0 0).
    cbn [args progress with_args set_args with_progress set_progress
         set_totals num_streams total_bytes completed_bytes].
    repeat split.
Qed.

(** ** Link modes on some commands only *)

Definition linked (c : wimlib_extract_command) : bool :=
  nonzero (Z.land (cmd_extract_flags c) link_flags).

Lemma check_extract_command_linked (cmd : wimlib_extract_command)
    (wim_header_flags : Z) (s : world) :
  Z.land (WIMLIB_EXTRACT_FLAG_RPFIX X) link_flags = 0 ->
  match fst (check_extract_command cmd wim_header_flags s) with
  | Normal cmd' => linked cmd' = linked cmd
  | Returned _ => True
  end.
Proof.
  intros Hapart. unfold check_extract_command.
  cbv [bind when pure Return ERROR modify].
  repeat (cbn [fst snd andb negb]; run_step);
    cbn [fst snd]; try exact I; unfold linked;
    cbn [cmd_extract_flags]; try reflexivity.
  all: rewrite Z.land_lor_distr_l, Hapart, Z.lor_0_r; reflexivity.
Qed.

Lemma check_commands_mixed (cmds : list wimlib_extract_command) :
  Z.land (WIMLIB_EXTRACT_FLAG_RPFIX X) link_flags = 0 ->
  forall (found_link_cmd found_nolink_cmd : bool) (s : world),
    found_link_cmd && found_nolink_cmd = false ->
    (found_link_cmd = true
     \/ exists c, In c cmds /\ linked c = true) ->
    (found_nolink_cmd = true
     \/ exists c, In c cmds /\ linked c = false) ->
    match fst (check_commands cmds found_link_cmd found_nolink_cmd s) with
    | Normal _ => False
    | Returned r =>
        is_error r = true /\
        only_messages s
          (snd (check_commands cmds found_link_cmd found_nolink_cmd s))
    end.
Proof.
  intros Hapart.
  induction cmds as [| c0 rest IH]; intros fl fnl s Hboth Hl Hn.
  - destruct Hl as [-> | [c [[] _]]], Hn as [-> | [c [[] _]]].
    discriminate Hboth.
  - cbn [check_commands]. cbv [bind gets].
    destruct (check_extract_command_answer c0 (hdr_flags (wim s)) s s)
      as [_ H0].
    pose proof (check_extract_command_linked c0 (hdr_flags (wim s)) s
                  Hapart) as Hlinked.
    destruct (check_extract_command c0 (hdr_flags (wim s)) s)
      as [[c' | r0] s1] eqn:Hc0; cbn [fst snd] in *; [| exact H0].
    subst s1. fold (linked c'). rewrite Hlinked.
    match goal with
    | |- context [if ?b then _ else _] => destruct b eqn:Hnow
    end.
    + cbv [ERROR modify Return]. cbn [fst snd].
      split; [reflexivity | apply only_messages_log].
    + cbv [pure]. cbn [fst snd].
      match goal with
      | |- context [check_commands rest ?a ?b s] =>
          specialize (IH a b s Hnow);
          destruct (check_commands rest a b s) as [[l | r1] s2]
      end; cbn [fst snd] in *; apply IH.
      * destruct Hl as [-> | [c [[<- | Hin] Hc]]].
        -- left. destruct (linked c0); reflexivity.
        -- left. rewrite Hc. reflexivity.
        -- right. exists c. split; assumption.
      * destruct Hn as [-> | [c [[<- | Hin] Hc]]].
        -- left. destruct (linked c0); reflexivity.
        -- left. rewrite Hc. reflexivity.
        -- right. exists c. split; assumption.
      * destruct Hl as [-> | [c [[<- | Hin] Hc]]].
        -- left. destruct (linked c0); reflexivity.
        -- left. rewrite Hc. reflexivity.
        -- right. exists c. split; assumption.
      * destruct Hn as [-> | [c [[<- | Hin] Hc]]].
        -- left. destruct (linked c0); reflexivity.
        -- left. rewrite Hc. reflexivity.
        -- right. exists c. split; assumption.
Qed.


(** A list of commands that the first loop refuses is not executed. *)
Lemma refused_commands_not_executed (image : Z)
    (cmds : list wimlib_extract_command)
    (progress_func : option wimlib_progress_func_t) (s : world) :
  (forall s2,
      match fst (check_commands cmds false false s2) with
      | Normal _ => False
      | Returned r =>
          is_error r = true /\
          only_messages s2 (snd (check_commands cmds false false s2))
      end) ->
  let result := do_wimlib_extract_files image cmds progress_func s in
  is_error (fst result) = true /\
  adds message_only s (snd result) /\
  out_refcnt (snd result) = out_refcnt s /\
  lte_dentry_list (snd result) = lte_dentry_list s /\
  needs_extraction (snd result) = needs_extraction s /\
  i_visited (snd result) = i_visited s.
Proof.
  intros Hcheck. cbv zeta. unfold do_wimlib_extract_files.
  cbv [body bind when Return pure select_wim_image
       wim_checksum_unhashed_streams].
  destruct (x_select_wim_image X image (ext s)) as [r1 e1].
  destruct (is_error r1) eqn:Hr1; cbn [fst snd].
  { split; [exact Hr1 |]. split; [apply adds_same; reflexivity |].
    repeat split. }
  match goal with
  | |- context [x_wim_checksum_unhashed_streams X (ext ?st)] =>
      set (s1 := st);
      destruct (x_wim_checksum_unhashed_streams X (ext s1)) as [r2 e2]
  end.
  destruct (is_error r2) eqn:Hr2; cbn [fst snd].
  { split; [exact Hr2 |]. split; [apply adds_same; reflexivity |].
    repeat split. }
  set (s2 := with_ext e2 s1).
  specialize (Hcheck s2).
  destruct (check_commands cmds false false s2) as [[l | r3] s3];
    cbn [fst snd] in *; [contradiction |].
  destruct Hcheck as [Herr Hmsgs]. split; [exact Herr |].
  destruct Hmsgs as [msgs [-> Hf]].
  split.
  - exists msgs. split; [| exact Hf]. rewrite fold_log_trace. reflexivity.
  - destruct (fold_log_fields msgs s2) as [H1 [H2 [H3 [H4 _]]]].
    cbv zeta in *. rewrite H1, H2, H3, H4. repeat split.
Qed.

(** X9: a link mode (SYMLINK or HARDLINK) has to be set on all commands
    of a call or on none: when one command of the list asks for a link
    mode and another does not, [do_wimlib_extract_files] returns an error
    and executes no command; only messages are added to the trace, and
    the reference counts, the lists of dentries and the marks are as they
    were.  (RPFIX, which the check may add to a command, shares no bit
    with the link modes.) *)
Theorem extract_files_refuses_mixed_links (image : Z)
    (cmds : list wimlib_extract_command)
    (progress_func : option wimlib_progress_func_t) (s : world)
    (c1 c2 : wimlib_extract_command) :
  Z.land (WIMLIB_EXTRACT_FLAG_RPFIX X) link_flags = 0 ->
  In c1 cmds -> Z.land (cmd_extract_flags c1) link_flags <> 0 ->
  In c2 cmds -> Z.land (cmd_extract_flags c2) link_flags = 0 ->
  let result := do_wimlib_extract_files image cmds progress_func s in
  is_error (fst result) = true /\
  adds message_only s (snd result) /\
  out_refcnt (snd result) = out_refcnt s /\
  lte_dentry_list (snd result) = lte_dentry_list s /\
  needs_extraction (snd result) = needs_extraction s /\
  i_visited (snd result) = i_visited s.
Proof.
  intros Hapart Hin1 Hc1 Hin2 Hc2.
  apply refused_commands_not_executed. intros s2.
  apply (check_commands_mixed cmds Hapart false false s2 eq_refl).
  - right. exists c1. split; [exact Hin1 |].
    unfold linked, nonzero. apply negb_true_iff, Z.eqb_neq, Hc1.
  - right. exists c2. split; [exact Hin2 |].
    unfold linked, nonzero. rewrite Hc2. reflexivity.
Qed.

(** ** The events of the commands and of the images *)

(** The events [extract_tree] can produce: all but the merging and
    unmerging of the lookup tables, the freeing of the names of the
    extracted files, and the creation of a directory for the images. *)
Definition extraction_event (e : event) : Prop :=
  match e with
  | Ev_merge_lookup_tables | Ev_unmerge_lookup_table
  | Ev_free_extracted_files | Ev_mkdir _ _ => False
  | _ => True
  end.

Section Commands.
Variable P : event -> Prop.
Hypothesis P_extraction : forall e, extraction_event e -> P e.

Lemma extract_tree_events (wim_source_path target : list tchar)
    (extract_flags : Z) (progress_func : option wimlib_progress_func_t) :
  fn_respects (adds P)
    (extract_tree wim_source_path target extract_flags progress_func).
Proof.
  apply extract_tree_adds; intros; apply P_extraction; exact I.
Qed.

Lemma execute_commands_events (cmds : list wimlib_extract_command)
    (progress_func : option wimlib_progress_func_t) :
  respects (adds P) (execute_commands cmds progress_func).
Proof.
  induction cmds as [| c rest IH]; cbn [execute_commands];
    respects_split (adds_refl P) (adds_trans P)
      ltac:(first [ apply extract_tree_events | apply IH ]).
Qed.

Lemma only_messages_events (s s' : world) :
  only_messages s s' -> adds P s s'.
Proof.
  intros [msgs [-> Hf]]. exists msgs. split; [apply fold_log_trace |].
  eapply Forall_impl; [| exact Hf].
  intros [] H; try discriminate H. apply P_extraction. exact I.
Qed.

Lemma check_commands_events (cmds : list wimlib_extract_command) :
  forall found_link_cmd found_nolink_cmd,
    respects (adds P)
      (check_commands cmds found_link_cmd found_nolink_cmd).
Proof.
  induction cmds as [| c rest IH]; intros fl fnl; cbn [check_commands];
    respects_split (adds_refl P) (adds_trans P)
      ltac:(first
        [ apply IH
        | apply ERROR_adds; intros; apply P_extraction; exact I
        | match goal with
          | |- respects _ (check_extract_command ?c ?f) =>
              intros ?s;
              destruct (check_extract_command_answer c f s s) as [_ H];
              destruct (check_extract_command c f s) as [[? | ?] ?];
              cbn [fst snd] in *;
              [ subst; apply adds_refl
              | apply only_messages_events, H ]
          end ]).
Qed.

Lemma do_wimlib_extract_files_events (image : Z)
    (cmds : list wimlib_extract_command)
    (progress_func : option wimlib_progress_func_t) :
  fn_respects (adds P) (do_wimlib_extract_files image cmds progress_func).
Proof.
  unfold do_wimlib_extract_files.
  respects_split (adds_refl P) (adds_trans P)
    ltac:(first
      [ apply check_commands_events
      | apply execute_commands_events
      | match goal with
        | |- respects _ (select_wim_image _) =>
            intros ?s; unfold select_wim_image;
            destruct (x_select_wim_image X _ (ext s)) as [r e];
            cbn [snd]; destruct (is_error r); apply adds_same; reflexivity
        | |- respects _ wim_checksum_unhashed_streams =>
            intros ?s; unfold wim_checksum_unhashed_streams;
            destruct (x_wim_checksum_unhashed_streams X (ext s));
            apply adds_same; reflexivity
        end ]).
Qed.

Lemma extract_single_image_events (image : Z) (target : list tchar)
    (extract_flags : Z) (progress_func : option wimlib_progress_func_t) :
  fn_respects (adds P)
    (extract_single_image image target extract_flags progress_func).
Proof.
  unfold extract_single_image.
  respects_split (adds_refl P) (adds_trans P)
    ltac:(apply do_wimlib_extract_files_events).
Qed.

Lemma extract_images_events (images : list Z) (target : list tchar)
    (extract_flags : Z) (progress_func : option wimlib_progress_func_t) :
  respects (adds P)
    (extract_images images target extract_flags progress_func).
Proof.
  induction images as [| image rest IH]; cbn [extract_images];
    respects_split (adds_refl P) (adds_trans P)
      ltac:(first [ apply extract_single_image_events | apply IH ]).
Qed.

Hypothesis P_mkdir : forall path r, P (Ev_mkdir path r).

Lemma extract_all_images_events (target : list tchar) (extract_flags : Z)
    (progress_func : option wimlib_progress_func_t) :
  fn_respects (adds P)
    (extract_all_images target extract_flags progress_func).
Proof.
  unfold extract_all_images.
  respects_split (adds_refl P) (adds_trans P)
    ltac:(first
      [ apply extract_images_events
      | apply ERROR_adds; intros; apply P_extraction; exact I
      | match goal with
        | |- respects _ (fun s => let (_, _) := x_tmkdir _ _ _ in _) =>
            intros ?s; destruct (x_tmkdir X target (ext s)); cbn [snd];
            apply adds_log; [apply adds_same; reflexivity | apply P_mkdir]
        end ]).
Qed.
End Commands.

(** ** Split archives: the merged lookup tables *)

(** The events of the extraction of images: all but the merging and
    unmerging of the lookup tables and the freeing of the names of the
    extracted files. *)
Definition image_event (e : event) : Prop :=
  match e with
  | Ev_merge_lookup_tables | Ev_unmerge_lookup_table
  | Ev_free_extracted_files => False
  | _ => True
  end.

Lemma extraction_image_event (e : event) :
  extraction_event e -> image_event e.
Proof. destruct e; intros H; first [exact H | exact I]. Qed.

(** X10: [wimlib_extract_image] returns the error of [verify_swm_set]
    without doing anything when the parts of a split archive do not fit.
    Otherwise it merges the lookup tables of the additional parts first,
    if there are any, and then unmerges them again as the last thing it
    does, whatever the extraction has returned; in between the lookup
    tables are neither merged nor unmerged; and the names of the
    extracted files are freed once, after the extraction, exactly when
    the public flags of the call hold a link mode. *)
Theorem wimlib_extract_image_unmerges (image : Z) (target : list tchar)
    (extract_flags : Z) (num_additional_swms : nat)
    (progress_func : option wimlib_progress_func_t) (s : world) :
  let result :=
    wimlib_extract_image image target extract_flags num_additional_swms
      progress_func s in
  let verified := x_verify_swm_set X num_additional_swms (ext s) in
  let parts := negb (Nat.eqb num_additional_swms 0) in
  let links := nonzero (Z.land (mask_public extract_flags) link_flags) in
  if is_error verified then result = (verified, s)
  else
    exists work,
      Forall image_event work /\
      trace (snd result)
      = trace s
        ++ (if parts then [Ev_merge_lookup_tables] else [])
        ++ work
        ++ (if links then [Ev_free_extracted_files] else [])
        ++ (if parts then [Ev_unmerge_lookup_table] else []).
Proof.
  cbv zeta. unfold wimlib_extract_image, mask_public.
  cbv [body bind gets when pure Return merge_lookup_tables
       unmerge_lookup_table free_extracted_files modify call].
  destruct (is_error (x_verify_swm_set X num_additional_swms (ext s)));
    [reflexivity |].
  destruct (negb (Nat.eqb num_additional_swms 0));
    destruct (image =? WIMLIB_ALL_IMAGES X);
    match goal with
    | |- context [extract_all_images ?t ?f ?p ?st] =>
        destruct (extract_all_images_events image_event
                    extraction_image_event (fun _ _ => I) t f p st)
          as [work [Hwork Hall]];
        destruct (extract_all_images t f p st) as [r1 s1]
    | |- context [extract_single_image ?i ?t ?f ?p ?st] =>
        destruct (extract_single_image_events image_event
                    extraction_image_event i t f p st)
          as [work [Hwork Hall]];
        destruct (extract_single_image i t f p st) as [r1 s1]
    end;
    cbn [snd trace log with_ext] in Hwork;
    destruct (nonzero (Z.land _ link_flags));
    cbn [fst snd trace log with_ext];
    exists work; (split; [exact Hall |]);
    rewrite Hwork, <- ?app_assoc, ?app_nil_r; reflexivity.
Qed.

(** Events other than the merging and unmerging of the lookup tables. *)
Definition unmerged (e : event) : Prop :=
  match e with
  | Ev_merge_lookup_tables | Ev_unmerge_lookup_table => False
  | _ => True
  end.

Lemma extraction_unmerged (e : event) : extraction_event e -> unmerged e.
Proof. destruct e; intros H; first [exact H | exact I]. Qed.

(** X11: [wimlib_extract_files] does nothing at all and returns the
    result of [verify_swm_set] when that is an error or when the list of
    commands is empty.  Otherwise it merges the lookup tables of the
    additional parts first, if there are any, and unmerges them as the
    last thing it does, also when the copy of the commands cannot be
    allocated or a path cannot be canonicalized: then it returns
    [WIMLIB_ERR_NOMEM] and nothing has happened between the merge and
    the unmerge. *)
Theorem wimlib_extract_files_unmerges (image : Z)
    (cmds : list wimlib_extract_command) (default_extract_flags : Z)
    (num_additional_swms : nat)
    (progress_func : option wimlib_progress_func_t) (s : world) :
  let result :=
    wimlib_extract_files image cmds default_extract_flags
      num_additional_swms progress_func s in
  let verified := x_verify_swm_set X num_additional_swms (ext s) in
  let parts := negb (Nat.eqb num_additional_swms 0) in
  let e1 :=
    if parts then x_merge_lookup_tables X num_additional_swms (ext s)
    else ext s in
  let copy :=
    if x_malloc X (Z.of_nat (List.length cmds) * sizeof_extract_command X) e1
    then copy_commands cmds (mask_public default_extract_flags) 0 e1
    else None in
  if is_error verified || Nat.eqb (List.length cmds) 0
  then result = (verified, s)
  else
    exists work,
      Forall unmerged work /\
      trace (snd result)
      = trace s
        ++ (if parts then [Ev_merge_lookup_tables] else [])
        ++ work
        ++ (if parts then [Ev_unmerge_lookup_table] else []) /\
      (copy = None -> fst result = WIMLIB_ERR_NOMEM /\ work = []).
Proof.
  cbv zeta. unfold wimlib_extract_files, mask_public.
  cbv [body bind gets when pure Return merge_lookup_tables
       unmerge_lookup_table free_extracted_files modify call].
  destruct (is_error (x_verify_swm_set X num_additional_swms (ext s)));
    [reflexivity |].
  destruct (Nat.eqb (List.length cmds) 0); [reflexivity |].
  cbn [orb].
  destruct (negb (Nat.eqb num_additional_swms 0));
    cbn [fst snd ext trace log with_ext];
    (destruct (x_malloc X _ _); cbn [negb];
     [ destruct (copy_commands cmds _ 0 _) as [[cmds_copy all_flags] |]
     | ]);
    try match goal with
        | |- context [do_wimlib_extract_files ?i ?c ?p ?st] =>
            destruct (do_wimlib_extract_files_events unmerged
                        extraction_unmerged i c p st)
              as [work [Hwork Hall]];
            destruct (do_wimlib_extract_files i c p st) as [r1 s1];
            cbn [snd trace log with_ext] in Hwork;
            destruct (nonzero (Z.land all_flags link_flags));
            cbn [fst snd trace log with_ext]
        end;
    cbn [fst snd trace log with_ext].
  all: try solve
    [ exists []; split; [constructor |];
      split; [rewrite <- ?app_assoc, ?app_nil_r; reflexivity |];
      intros _; split; reflexivity ].
  all: first
    [ exists work; split; [exact Hall |];
      split; [rewrite Hwork, <- ?app_assoc, ?app_nil_r; reflexivity |];
      intros H; discriminate H
    | exists (work ++ [Ev_free_extracted_files]);
      split; [apply Forall_app; split; [exact Hall | repeat constructor] |];
      split; [rewrite Hwork, <- ?app_assoc, ?app_nil_r; reflexivity |];
      intros H; discriminate H ].
Qed.

(** ** Every dentry of the tree is applied, and once

    The planner puts each dentry on the list of its unnamed stream; the
    first pass applies the dentries it does not skip, the second the
    dentries on the lists. *)
Definition unnamed_of (d : wim_dentry) : option lte_ptr :=
  inode_unnamed_lte_resolved X (inode_at X (d_inode d)).

(** The lists of the descriptors [P] have kept their dentries. *)
Definition lists_kept (P : list lte_ptr) (s s' : world) : Prop :=
  forall l d, In l P -> In d (lte_dentry_list s l) ->
              In d (lte_dentry_list s' l).

(** The lists of the descriptors [P] hold dentries of [T] only. *)
Definition lists_within (T : list wim_dentry) (P : list lte_ptr)
    (s : world) : Prop :=
  forall l d, In l P -> In d (lte_dentry_list s l) -> In d T.

Lemma lists_kept_refl (P : list lte_ptr) (s : world) : lists_kept P s s.
Proof. intros l d _ H. exact H. Qed.

Lemma lists_kept_trans (P P' : list lte_ptr) (a b c : world) :
  incl P P' -> lists_kept P a b -> lists_kept P' b c -> lists_kept P a c.
Proof.
  intros Hincl H1 H2 l d Hl Hd. apply H2; [apply Hincl, Hl |].
  apply H1; assumption.
Qed.

Lemma maybe_add_stream_lists (base : lte_ptr -> Z) (P : list lte_ptr)
    (l : lte_ptr) (s : world) (T : list wim_dentry) :
  planned base P s ->
  base l = 0 ->
  Z.of_nat (List.length P) + 1 < 2 ^ 32 ->
  lists_within T P s ->
  let s' := snd (maybe_add_stream_for_extraction l s) in
  lists_kept P s s' /\ lists_within T (P ++ [l]) s' /\
  needs_extraction s' = needs_extraction s.
Proof.
  intros [Hcnt Hlist] Hbase Hlen HT. cbv zeta.
  unfold maybe_add_stream_for_extraction.
  pose proof (count_occ_bound Nat.eq_dec l P) as Hb.
  assert (Hr : u32 (out_refcnt s l + 1)
               = Z.of_nat (count_occ Nat.eq_dec P l) + 1).
  { rewrite Hcnt, Hbase. apply u32_small.
    change (2 ^ 32) with 4294967296 in *. lia. }
  rewrite Hr.
  destruct (Z.eqb_spec (Z.of_nat (count_occ Nat.eq_dec P l) + 1) 1)
    as [H1 | H1]; cbn [snd].
  - assert (Hnot : ~ In l P).
    { apply (count_occ_not_In Nat.eq_dec). lia. }
    split; [| split; [| reflexivity]].
    + intros l' d Hl' Hd. cbn. unfold upd.
      destruct (Nat.eqb_spec l' l) as [-> | _]; [contradiction | exact Hd].
    + intros l' d Hl' Hd. cbn in Hd. unfold upd in Hd.
      destruct (Nat.eqb_spec l' l) as [-> | Hne]; [destruct Hd |].
      apply in_app_iff in Hl'. destruct Hl' as [Hl' | [Hl' | []]];
        [| congruence].
      eapply HT; eassumption.
  - assert (Hin : In l P).
    { apply (count_occ_In Nat.eq_dec). lia. }
    split; [| split; [| reflexivity]].
    + intros l' d _ Hd. exact Hd.
    + intros l' d Hl' Hd. cbn in Hd. apply in_app_iff in Hl'.
      destruct Hl' as [Hl' | [<- | []]]; eapply HT; eassumption.
Qed.


Lemma add_dentry_lists (T : list wim_dentry) (P : list lte_ptr)
    (d : wim_dentry) (l : lte_ptr) (s : world) :
  let s' := set_lte_dentry_list
              (upd (lte_dentry_list s) l (lte_dentry_list s l ++ [d])) s in
  lists_kept P s s' /\ In d (lte_dentry_list s' l) /\
  (In d T -> lists_within T P s -> lists_within T P s').
Proof.
  cbv zeta. unfold lists_kept, lists_within.
  cbn [lte_dentry_list set_lte_dentry_list]. unfold upd.
  split; [| split].
  - intros l' d' _ Hd. destruct (Nat.eqb l' l) eqn:E; [| exact Hd].
    apply Nat.eqb_eq in E. subst l'. apply in_or_app. left. exact Hd.
  - rewrite Nat.eqb_refl. apply in_or_app. right. left. reflexivity.
  - intros HdT HT l' d' Hl' Hd.
    destruct (Nat.eqb l' l) eqn:E; [| eapply HT; eassumption].
    apply Nat.eqb_eq in E. subst l'. apply in_app_or in Hd.
    destruct Hd as [Hd | [<- | []]]; [eapply HT; eassumption | exact HdT].
Qed.

Lemma find_ads_streams_visited_lists (T : list wim_dentry)
    (P : list lte_ptr) (d : wim_dentry) (entries : list wim_ads_entry)
    (added : bool) (s : world) :
  i_visited s (d_inode d) = true ->
  let s' := snd (find_ads_streams d entries added s) in
  (forall P', lists_kept P' s s') /\
  (In d T -> lists_within T P s -> lists_within T P s') /\
  needs_extraction s' = needs_extraction s.
Proof.
  revert added s. induction entries as [| e rest IH];
    intros added s Hv; cbv zeta.
  - cbn. split; [intros P'; apply lists_kept_refl | split; auto].
  - cbn [find_ads_streams].
    cbv [bind gets when pure add_dentry_to_lte modify].
    destruct (nonzero (stream_name_nbytes e)); [destruct (lte e) as [l |] |];
      rewrite ?Hv; cbn [negb]; try (apply IH; assumption).
    destruct added; cbn [negb]; [apply IH; assumption |].
    match goal with
    | |- context [find_ads_streams d rest true ?st] =>
        destruct (IH true st Hv) as [K2 [W2 N2]]
    end.
    split; [| split; [| exact N2]].
    + intros P'. destruct (add_dentry_lists T P' d l s) as [K1 _].
      eapply lists_kept_trans; [apply incl_refl | exact K1 | apply K2].
    + intros HdT HT. destruct (add_dentry_lists T P d l s) as [_ [_ W1]].
      apply W2; [exact HdT | apply W1; assumption].
Qed.


Lemma dentry_find_streams_visited_lists (T : list wim_dentry)
    (P : list lte_ptr) (d : wim_dentry) (s : world) :
  i_visited s (d_inode d) = true ->
  In d T ->
  lists_within T P s ->
  let s' := snd (dentry_find_streams_to_extract d s) in
  lists_kept P s s' /\ lists_within T P s' /\
  needs_extraction s'
  = upd (needs_extraction s) (d_addr d) true /\
  (forall l, unnamed_of d = Some l -> In d (lte_dentry_list s' l)).
Proof.
  intros Hv HdT HT. cbv zeta. unfold unnamed_of.
  unfold dentry_find_streams_to_extract.
  cbv [body bind gets modify when pure add_dentry_to_lte].
  set (s0 := set_needs_extraction _ s).
  assert (Hv0 : i_visited s0 (d_inode d) = true) by exact Hv.
  assert (HT0 : lists_within T P s0) by exact HT.
  change (ctx s0) with (ctx s).
  destruct (inode_unnamed_lte_resolved X (inode_at X (d_inode d)))
    as [l |].
  - rewrite Hv0. cbn [negb].
    destruct (add_dentry_lists T P d l s0) as [K1 [I1 W1]].
    specialize (W1 HdT HT0).
    set (s1 := set_lte_dentry_list _ s0) in *.
    destruct (ads_included (ctx_extract_flags (ctx s))).
    + pose proof (find_ads_streams_visited_lists T P d
                    (i_ads_entries (inode_at X (d_inode d))) true s1
                    Hv0) as H.
      cbv zeta in H.
      destruct (find_ads_streams d _ true s1) as [[b | r] s2];
        cbn [snd] in *; destruct H as [K2 [W2 N2]];
        (cbn; split; [| split; [exact (W2 HdT W1) | split]];
         [ eapply lists_kept_trans; [apply incl_refl | exact K1 | apply K2]
         | rewrite N2; reflexivity
         | intros l' Hl'; injection Hl' as <-;
           apply (K2 [l]); [left; reflexivity | exact I1] ]).
    + cbn. split; [exact K1 | split; [exact W1 | split; [reflexivity |]]].
      intros l' Hl'. injection Hl' as <-. exact I1.
  - destruct (ads_included (ctx_extract_flags (ctx s))).
    + pose proof (find_ads_streams_visited_lists T P d
                    (i_ads_entries (inode_at X (d_inode d))) false s0
                    Hv0) as H.
      cbv zeta in H.
      destruct (find_ads_streams d _ false s0) as [[b | r] s2];
        cbn [snd] in *; destruct H as [K2 [W2 N2]];
        (cbn; split; [| split; [exact (W2 HdT HT0) | split]];
         [ apply K2 | rewrite N2; reflexivity | intros l' Hl'; discriminate ]).
    + cbn. split; [intros l' d' _ H; exact H | split; [exact HT |]].
      split; [reflexivity | intros l' Hl'; discriminate].
Qed.

Lemma find_ads_streams_lists (base : lte_ptr -> Z) (T : list wim_dentry)
    (d : wim_dentry) (entries : list wim_ads_entry) (added : bool)
    (P : list lte_ptr) (s : world) :
  planned base P s ->
  i_visited s (d_inode d) = false ->
  (forall l, In l (ads_streams entries) -> base l = 0) ->
  Z.of_nat (List.length (P ++ ads_streams entries)) < 2 ^ 32 ->
  In d T ->
  lists_within T P s ->
  let s' := snd (find_ads_streams d entries added s) in
  lists_kept P s s' /\ lists_within T (P ++ ads_streams entries) s' /\
  needs_extraction s' = needs_extraction s.
Proof.
  revert added P s.
  induction entries as [| e rest IH];
    intros added P s Hp Hv Hbase Hlen HdT HT; cbv zeta.
  - cbn. rewrite app_nil_r.
    split; [apply lists_kept_refl | split; [exact HT | reflexivity]].
  - rewrite ads_streams_cons in Hbase, Hlen |- *.
    cbn [find_ads_streams]. cbv [bind gets when pure].
    destruct (nonzero (stream_name_nbytes e));
      [destruct (lte e) as [l |] |]; cbn [app] in *;
      try (apply IH; assumption).
    rewrite Hv. cbn [negb].
    assert (Hl0 : base l = 0) by (apply Hbase; left; reflexivity).
    assert (Hlen1 : Z.of_nat (List.length P) + 1 < 2 ^ 32).
    { rewrite length_app in Hlen. simpl in Hlen. lia. }
    destruct (maybe_add_stream_planned base P l s Hp Hl0 Hlen1) as
      [s1 [Hrun [Hp1 [Hv1 Hf1]]]].
    pose proof (maybe_add_stream_lists base P l s T Hp Hl0 Hlen1 HT) as Hl.
    cbv zeta in Hl. rewrite Hrun in Hl |- *. cbn [snd] in Hl.
    destruct Hl as [K1 [W1 N1]].
    assert (Hstep : forall b st,
               planned base (P ++ [l]) st ->
               i_visited st = i_visited s1 ->
               lists_within T (P ++ [l]) st ->
               lists_kept P s1 st ->
               needs_extraction st = needs_extraction s1 ->
               let s' := snd (find_ads_streams d rest b st) in
               lists_kept P s s' /\
               lists_within T (P ++ l :: ads_streams rest) s' /\
               needs_extraction s' = needs_extraction s).
    { intros b st Hpst Hvst Wst Kst Nst.
      destruct (IH b (P ++ [l]) st Hpst) as [K2 [W2 N2]].
      - rewrite Hvst, Hv1. exact Hv.
      - intros l' Hl'. apply Hbase. right. exact Hl'.
      - rewrite <- app_assoc. exact Hlen.
      - exact HdT.
      - exact Wst.
      - cbv zeta. rewrite <- app_assoc in W2.
        split; [| split; [exact W2 | congruence]].
        eapply lists_kept_trans; [apply incl_refl | exact K1 |].
        eapply lists_kept_trans; [apply incl_refl | exact Kst |].
        intros l' d' Hl' Hd'. apply K2; [| exact Hd'].
        apply in_or_app. left. exact Hl'. }
    destruct added; cbn [negb].
    + apply Hstep; [exact Hp1 | reflexivity | exact W1
                   | apply lists_kept_refl | reflexivity].
    + cbv [add_dentry_to_lte modify].
      destruct (add_dentry_lists T (P ++ [l]) d l s1) as [_ [_ W']].
      destruct (add_dentry_lists T P d l s1) as [K' _].
      apply Hstep; [exact Hp1 | reflexivity | apply W'; assumption
                   | exact K' | reflexivity].
Qed.

Lemma dentry_find_streams_lists (base : lte_ptr -> Z) (T : list wim_dentry)
    (d : wim_dentry) (P : list lte_ptr) (s : world) :
  let streams :=
    counted_streams (ctx_extract_flags (ctx s)) (inode_at X (d_inode d)) in
  planned base P s ->
  i_visited s (d_inode d) = false ->
  (forall l, In l streams -> base l = 0) ->
  Z.of_nat (List.length (P ++ streams)) < 2 ^ 32 ->
  In d T ->
  lists_within T P s ->
  let s' := snd (dentry_find_streams_to_extract d s) in
  lists_kept P s s' /\ lists_within T (P ++ streams) s' /\
  needs_extraction s'
  = upd (needs_extraction s) (d_addr d) true /\
  (forall l, unnamed_of d = Some l -> In d (lte_dentry_list s' l)).
Proof.
  intros streams Hp Hv Hbase Hlen HdT HT. subst streams. cbv zeta.
  unfold counted_streams, unnamed_of in *.
  unfold dentry_find_streams_to_extract.
  cbv [body bind gets modify when pure add_dentry_to_lte].
  set (s0 := set_needs_extraction _ s).
  assert (Hp0 : planned base P s0) by exact Hp.
  assert (Hv0 : i_visited s0 (d_inode d) = false) by exact Hv.
  assert (HT0 : lists_within T P s0) by exact HT.
  change (ctx s0) with (ctx s).
  destruct (inode_unnamed_lte_resolved X (inode_at X (d_inode d)))
    as [l |].
  - rewrite Hv0. cbn [negb].
    assert (Hl0 : base l = 0) by (apply Hbase; left; reflexivity).
    assert (Hlen1 : Z.of_nat (List.length P) + 1 < 2 ^ 32).
    { rewrite !length_app in Hlen. simpl in Hlen. lia. }
    destruct (maybe_add_stream_planned base P l s0 Hp0 Hl0 Hlen1)
      as [s1 [Hrun [Hp1 [Hv1 Hf1]]]].
    pose proof (maybe_add_stream_lists base P l s0 T Hp0 Hl0 Hlen1 HT0)
      as Hl.
    cbv zeta in Hl. rewrite Hrun in Hl |- *. cbn [snd] in Hl.
    destruct Hl as [K1 [W1 N1]]. cbn [app] in *.
    destruct (add_dentry_lists T (P ++ [l]) d l s1) as [K2 [I2 W2]].
    specialize (W2 HdT W1).
    set (s2 := set_lte_dentry_list _ s1) in *.
    assert (K02 : lists_kept P s s2).
    { intros l' d' Hl' Hd'. apply K2; [apply in_or_app; left; exact Hl' |].
      apply K1; [exact Hl' | exact Hd']. }
    destruct (ads_included (ctx_extract_flags (ctx s))).
    + pose proof (find_ads_streams_lists base T d
                    (i_ads_entries (inode_at X (d_inode d))) true
                    (P ++ [l]) s2) as H.
      cbv zeta in H.
      destruct H as [K3 [W3 N3]].
      * exact Hp1.
      * subst s2. cbn. rewrite Hv1. exact Hv.
      * intros l' Hl'. apply Hbase. right. exact Hl'.
      * rewrite <- app_assoc. exact Hlen.
      * exact HdT.
      * exact W2.
      * rewrite <- app_assoc in W3. cbn [app] in W3.
        destruct (find_ads_streams d _ true s2) as [[b | r] s3];
          cbn [snd] in *;
          (cbn; split; [| split; [exact W3 | split]];
           [ intros l' d' Hl' Hd'; apply K3;
             [apply in_or_app; left; exact Hl' | apply K02; assumption]
           | rewrite N3; subst s2; cbn; rewrite N1; reflexivity
           | intros l' Hl'; injection Hl' as <-;
             apply K3; [apply in_or_app; right; left; reflexivity
                       | exact I2] ]).
    + cbn.
      split; [exact K02 | split; [exact W2 | split]].
      * subst s2. cbn. rewrite N1. reflexivity.
      * intros l' Hl'. injection Hl' as <-. exact I2.
  - cbn [app] in *. destruct (ads_included (ctx_extract_flags (ctx s))).
    + pose proof (find_ads_streams_lists base T d
                    (i_ads_entries (inode_at X (d_inode d))) false P s0
                    Hp0 Hv0 Hbase Hlen HdT HT0) as H.
      cbv zeta in H. destruct H as [K3 [W3 N3]].
      destruct (find_ads_streams d _ false s0) as [[b | r] s3];
        cbn [snd] in *;
        (cbn; split; [exact K3 | split; [exact W3 | split]];
         [ rewrite N3; reflexivity | intros l' Hl'; discriminate ]).
    + cbn. rewrite app_nil_r.
      split; [intros l' d' _ H; exact H | split; [exact HT |]].
      split; [reflexivity | intros l' Hl'; discriminate].
Qed.

(** The second walk of the planner, with the lists: every dentry it has
    passed is marked and stands on the list of its unnamed stream, a
    stream that has been counted; the lists of the counted streams hold
    dentries of [T] only. *)
Lemma find_streams_walk_lists (base : lte_ptr -> Z) (extract_flags : Z)
    (T : list wim_dentry) (ds : list wim_dentry) (seen : list inode_ptr)
    (s : world) :
  planned base (pairs_of extract_flags seen) s ->
  ctx_extract_flags (ctx s) = extract_flags ->
  (forall d, In d ds ->
             (i_visited s (d_inode d) = true <-> In (d_inode d) seen)) ->
  (forall d l, In d ds ->
               In l (counted_streams extract_flags (inode_at X (d_inode d)))
               -> base l = 0) ->
  Z.of_nat (List.length (pairs_of extract_flags (seen ++ map d_inode ds)))
    < 2 ^ 32 ->
  incl ds T ->
  lists_within T (pairs_of extract_flags seen) s ->
  let all := pairs_of extract_flags (seen ++ map d_inode ds) in
  exists s',
    visit_each dentry_find_streams_to_extract ds s
      = (WIMLIB_ERR_SUCCESS, s') /\
    planned base all s' /\
    lists_kept (pairs_of extract_flags seen) s s' /\
    lists_within T all s' /\
    (forall a, needs_extraction s a = true -> needs_extraction s' a = true) /\
    (forall d, In d ds ->
               needs_extraction s' (d_addr d) = true /\
               forall l, unnamed_of d = Some l ->
                         In l all /\ In d (lte_dentry_list s' l)).
Proof.
  revert seen s.
  induction ds as [| d ds IH]; intros seen s Hp Hf Hvis Hbase Hlen HdsT HT;
    cbv zeta.
  - exists s. simpl. rewrite app_nil_r.
    split; [reflexivity |]. split; [exact Hp |].
    split; [apply lists_kept_refl |]. split; [exact HT |].
    split; [auto | intros d []].
  - cbn [visit_each map]. cbn [map] in Hlen.
    replace (seen ++ d_inode d :: map d_inode ds)
      with ((seen ++ [d_inode d]) ++ map d_inode ds) in *
      by (rewrite <- app_assoc; reflexivity).
    assert (HdT : In d T) by (apply HdsT; left; reflexivity).
    assert (Hstep : exists s1,
               dentry_find_streams_to_extract d s
                 = (WIMLIB_ERR_SUCCESS, s1) /\
               planned base (pairs_of extract_flags (seen ++ [d_inode d]))
                       s1 /\
               i_visited s1 = upd (i_visited s) (d_inode d) true /\
               ctx_extract_flags (ctx s1) = extract_flags /\
               lists_kept (pairs_of extract_flags seen) s s1 /\
               lists_within T (pairs_of extract_flags (seen ++ [d_inode d]))
                            s1 /\
               needs_extraction s1
               = upd (needs_extraction s) (d_addr d) true /\
               (forall l, unnamed_of d = Some l ->
                          In d (lte_dentry_list s1 l))).
    { rewrite pairs_of_snoc.
      destruct (in_dec Nat.eq_dec (d_inode d) seen) as [Hin | Hin].
      - assert (Hv : i_visited s (d_inode d) = true)
          by (apply Hvis; [left; reflexivity | exact Hin]).
        destruct (dentry_find_streams_visited d s Hv)
          as [s1 [Hrun [Ho [Hc Hi]]]].
        pose proof (dentry_find_streams_visited_lists T
                      (pairs_of extract_flags seen) d s Hv HdT HT) as Hl.
        cbv zeta in Hl. rewrite Hrun in Hl. cbn [snd] in Hl.
        exists s1. split; [exact Hrun |].
        split; [| split; [exact Hi | split; [congruence | exact Hl]]].
        destruct Hp as [Hcnt Hlist]. split; [| congruence].
        intros l. rewrite Ho. apply Hcnt.
      - assert (Hv : i_visited s (d_inode d) = false).
        { destruct (i_visited s (d_inode d)) eqn:E; [| reflexivity].
          exfalso. apply Hin, Hvis; [left; reflexivity | exact E]. }
        assert (Hb : forall l,
                   In l (counted_streams extract_flags
                           (inode_at X (d_inode d))) -> base l = 0).
        { intros l Hl. eapply Hbase; [left; reflexivity | exact Hl]. }
        assert (Hle : Z.of_nat
                        (List.length
                           (pairs_of extract_flags seen
                            ++ counted_streams extract_flags
                                 (inode_at X (d_inode d)))) < 2 ^ 32).
        { pose proof (pairs_of_prefix extract_flags (seen ++ [d_inode d])
                        (map d_inode ds)) as Hle.
          rewrite pairs_of_snoc in Hle.
          destruct (in_dec Nat.eq_dec (d_inode d) seen); [contradiction |].
          lia. }
        destruct (dentry_find_streams_planned base d
                    (pairs_of extract_flags seen) s)
          as [s1 [Hrun [Hp1 [Hi Hc]]]];
          rewrite ?Hf; try assumption.
        pose proof (dentry_find_streams_lists base T d
                      (pairs_of extract_flags seen) s) as Hl.
        cbv zeta in Hl. rewrite Hf, Hrun in Hl. cbn [snd] in Hl.
        specialize (Hl Hp Hv Hb Hle HdT HT).
        exists s1. rewrite Hf in *.
        split; [exact Hrun |].
        split; [exact Hp1 | split; [exact Hi | split; [exact Hc | exact Hl]]]. }
    destruct Hstep as [s1 [Hrun [Hp1 [Hi [Hc [K1 [W1 [N1 I1]]]]]]]].
    rewrite Hrun. cbn [is_error].
    destruct (IH (seen ++ [d_inode d]) s1) as
      [s' [Hrun' [Hp' [K' [W' [N' I']]]]]]; try assumption.
    + intros d' Hd'. rewrite Hi, in_app_iff. unfold upd. simpl.
      destruct (Nat.eqb_spec (d_inode d') (d_inode d)) as [E | E].
      * split; [intros _; right; left; congruence | reflexivity].
      * rewrite (Hvis d' (or_intror Hd')).
        split; [tauto |]. intros [H | [H | []]]; [exact H | congruence].
    + intros d' l Hd'. apply Hbase. right. exact Hd'.
    + intros d' Hd'. apply HdsT. right. exact Hd'.
    + exists s'. split; [exact Hrun' |]. split; [exact Hp' |].
      assert (Hsub : incl (pairs_of extract_flags seen)
                          (pairs_of extract_flags (seen ++ [d_inode d]))).
      { rewrite pairs_of_snoc.
        destruct (in_dec Nat.eq_dec (d_inode d) seen);
          [apply incl_refl | apply incl_appl, incl_refl]. }
      split; [eapply lists_kept_trans; eassumption |].
      split; [exact W' |].
      split.
      * intros a Ha. apply N'. rewrite N1. unfold upd.
        destruct (Nat.eqb a (d_addr d)); [reflexivity | exact Ha].
      * intros d' [<- | Hd'].
        -- split.
           ++ apply N'. rewrite N1. unfold upd. rewrite Nat.eqb_refl.
              reflexivity.
           ++ intros l Hl.
              assert (Hin1 : In l (pairs_of extract_flags
                                     (seen ++ [d_inode d]))).
              { unfold pairs_of. apply in_flat_map.
                exists (d_inode d). split.
                - apply (proj2 (in_distinct _ _)), in_or_app.
                  right. left. reflexivity.
                - unfold counted_streams. unfold unnamed_of in Hl.
                  rewrite Hl. left. reflexivity. }
              split.
              ** unfold pairs_of in *. apply in_flat_map in Hin1.
                 destruct Hin1 as [i [Hi1 Hi2]]. apply in_flat_map.
                 exists i. split; [| exact Hi2].
                 apply (proj1 (in_distinct _ _)) in Hi1.
                 apply (proj2 (in_distinct _ _)).
                 apply in_or_app. left. exact Hi1.
              ** apply K'; [exact Hin1 | apply I1, Hl].
        -- apply I'. exact Hd'.
Qed.

(** What the planner relies on (see C1): no inode of the tree is marked
    visited, the streams it counts are among those whose counts it sets to
    zero, and the references fit the 32-bit counters. *)
Definition plannable (extract_flags : Z) (root : wim_dentry) (s : world)
  : Prop :=
  (forall d, In d (dentry_preorder root) ->
             i_visited s (d_inode d) = false) /\
  (forall d, In d (dentry_preorder root) ->
             incl (counted_streams extract_flags (inode_at X (d_inode d)))
                  (stream_slots (inode_at X (d_inode d)))) /\
  Z.of_nat (List.length (inode_stream_pairs extract_flags root)) < 2 ^ 32.

(** After the planner every dentry of the tree is marked and stands on
    the list of its unnamed stream, which is on the stream list; the lists
    of the streams on the stream list hold dentries of the tree only. *)
Lemma planner_lists (root : wim_dentry) (extract_flags : Z) (s : world) :
  plannable extract_flags root s ->
  exists stream_list s',
    find_streams_for_extraction root extract_flags s
      = (Normal stream_list, s') /\
    trace s' = trace s /\
    (forall d, In d (dentry_preorder root) ->
               needs_extraction s' (d_addr d) = true /\
               forall l, unnamed_of d = Some l ->
                         In l stream_list /\ In d (lte_dentry_list s' l)) /\
    lists_within (dentry_preorder root) stream_list s'.
Proof.
  intros [Hvis [Hslots Hlen]].
  pose proof (find_streams_for_extraction_silent root extract_flags s)
    as Hsil.
  revert Hsil.
  unfold find_streams_for_extraction, for_dentry_in_tree.
  cbv [bind modify call gets].
  set (s0 := set_ctx _ s).
  destruct (resolve_walk (dentry_preorder root) s0)
    as [s1 [Hrun1 [Hz [_ [Hv1 Hc1]]]]].
  rewrite Hrun1.
  destruct (find_streams_walk_lists (out_refcnt s1) extract_flags
              (dentry_preorder root) (dentry_preorder root) [] s1)
    as [s2 [Hrun2 [[Hcnt Hlist] [_ [W [_ I]]]]]].
  - split; [intros l; simpl; lia | rewrite Hc1; reflexivity].
  - rewrite Hc1. reflexivity.
  - intros d Hd. rewrite Hv1. subst s0. cbn [i_visited set_ctx].
    rewrite (Hvis d Hd). split; [discriminate | contradiction].
  - intros d l Hd Hl. eapply Hz; [exact Hd |]. apply (Hslots d Hd), Hl.
  - exact Hlen.
  - apply incl_refl.
  - intros l d [].
  - rewrite Hrun2. cbn [app] in *. cbn [snd]. intros [_ [Ht _]].
    exists (stream_list (ctx s2)), s2. split; [reflexivity |].
    split; [exact Ht |]. rewrite Hlist. split.
    + intros d Hd. destruct (I d Hd) as [Hn Hl]. split; [exact Hn |].
      intros l Hu. destruct (Hl l Hu) as [H1 H2].
      split; [apply (proj2 (in_distinct _ _)), H1 | exact H2].
    + intros l d Hl Hd. apply (W l d); [| exact Hd].
      apply (proj1 (in_distinct _ _)), Hl.
Qed.

(** The dentries an event applies, by address. *)
Definition applied (e : event) : list nat :=
  match e with
  | Ev_do_apply_dentry _ _ d _ => [d]
  | Ev_apply_dentry_ntfs d _ => [d]
  | _ => []
  end.

Definition applied_dentries (evs : list event) : list nat :=
  flat_map applied evs.

Definition no_apply (e : event) : Prop := applied e = [].

Lemma applied_dentries_app (a b : list event) :
  applied_dentries (a ++ b) = applied_dentries a ++ applied_dentries b.
Proof. apply flat_map_app. Qed.

Lemma no_apply_dentries (evs : list event) :
  Forall no_apply evs -> applied_dentries evs = [].
Proof.
  induction 1 as [| e evs He _ IH]; [reflexivity |].
  cbn [applied_dentries flat_map]. rewrite He. exact IH.
Qed.

(** Since the trace was [t0]: the dentries applied are dentries of [T],
    none was applied twice, and a dentry of [T] has been applied exactly
    when it is no longer marked. *)
Definition applying (t0 : list event) (T : list wim_dentry) (s : world)
  : Prop :=
  exists evs,
    trace s = t0 ++ evs /\
    NoDup (applied_dentries evs) /\
    (forall a, In a (applied_dentries evs) -> In a (map d_addr T)) /\
    (forall d, In d T ->
               (needs_extraction s (d_addr d) = false
                <-> In (d_addr d) (applied_dentries evs))).

Lemma applying_inert (t0 : list event) (T : list wim_dentry)
    (s s' : world) :
  applying t0 T s ->
  adds no_apply s s' ->
  needs_extraction s' = needs_extraction s ->
  applying t0 T s'.
Proof.
  intros [evs [Ht [Hnd [Hin Hiff]]]] [more [Ht' Hmore]] Hn.
  exists (evs ++ more). rewrite Ht', Ht, app_assoc.
  rewrite applied_dentries_app, (no_apply_dentries more Hmore), app_nil_r.
  rewrite Hn. repeat split; try assumption; apply Hiff; assumption.
Qed.

Lemma applying_apply (t0 : list event) (T : list wim_dentry)
    (s s' : world) (d : wim_dentry) (pre : list event) (e : event) :
  applying t0 T s ->
  In d T ->
  needs_extraction s (d_addr d) = true ->
  trace s' = trace s ++ pre ++ [e] ->
  Forall no_apply pre ->
  applied e = [d_addr d] ->
  needs_extraction s' = upd (needs_extraction s) (d_addr d) false ->
  applying t0 T s'.
Proof.
  intros [evs [Ht [Hnd [Hin Hiff]]]] HdT Hneed Ht' Hpre He Hn.
  exists (evs ++ pre ++ [e]). rewrite Ht', Ht.
  rewrite !applied_dentries_app, (no_apply_dentries pre Hpre).
  cbn [app applied_dentries flat_map]. rewrite He. cbn [app].
  assert (Hfresh : ~ In (d_addr d) (applied_dentries evs)).
  { intros H. apply (Hiff d HdT) in H. congruence. }
  split; [rewrite <- !app_assoc; reflexivity |]. split; [| split].
  - apply NoDup_app; [exact Hnd | repeat constructor; intros [] |].
    intros a Ha [<- | []]. exact (Hfresh Ha).
  - intros a Ha. apply in_app_or in Ha. destruct Ha as [Ha | [<- | []]];
      [apply Hin, Ha | apply in_map, HdT].
  - intros d' Hd'. rewrite Hn. unfold upd. rewrite in_app_iff. cbn [In].
    destruct (Nat.eqb_spec (d_addr d') (d_addr d)) as [E | E].
    + split; [intros _; right; left; symmetry; exact E | reflexivity].
    + rewrite (Hiff d' Hd'). split; [tauto |].
      intros [H | [H | []]]; [exact H | congruence].
Qed.

Lemma call_apply_dentry_event (ptr : apply_dentry_ptr) (d : wim_dentry)
    (s : world) :
  ptr <> ptr_null ->
  let s' := snd (call_apply_dentry ptr d s) in
  exists e,
    applied e = [d_addr d] /\
    trace s' = trace s ++ [e] /\
    needs_extraction s' = needs_extraction s /\
    lte_dentry_list s' = lte_dentry_list s /\
    apply_dentry (args s') = apply_dentry (args s) /\
    a_extract_flags (args s') = a_extract_flags (args s).
Proof.
  intros Hptr. cbv zeta.
  destruct ptr; [contradiction | |]; cbn [call_apply_dentry];
    unfold apply_dentry_normal, do_apply_op, platform_do_apply_dentry,
      apply_dentry_ntfs, run_backend; cbv zeta.
  - destruct (negb (is_extract_root d (args s)));
      match goal with
      | |- context [let '(_, _) := ?x in _] => destruct x as [[ret c] e]
      end; eexists; cbn;
      (refine (conj _ (conj eq_refl _)); [reflexivity | repeat split]).
  - match goal with
    | |- context [let '(_, _) := ?x in _] => destruct x as [[ret c] e]
    end; eexists; cbn;
      (refine (conj _ (conj eq_refl _)); [reflexivity | repeat split]).
Qed.

(** The report [maybe_apply_dentry] makes before it applies a dentry. *)
Definition announce (d : wim_dentry) (s : world) : world :=
  match progress_func (args s) with
  | Some f =>
      if nonzero (Z.land (a_extract_flags (args s))
                         (WIMLIB_EXTRACT_FLAG_VERBOSE X))
      then snd (call_progress f WIMLIB_PROGRESS_MSG_EXTRACT_DENTRY
                  (with_args (with_progress (set_cur_path (_full_path d)))
                             s))
      else s
  | None => s
  end.

(** Whether [maybe_apply_dentry] leaves a marked dentry for later. *)
Definition skipped (d : wim_dentry) (s : world) : bool :=
  nonzero (Z.land (a_extract_flags (args s))
                  (WIMLIB_EXTRACT_FLAG_NO_STREAMS X))
  && negb (dentry_is_directory X d)
  && negb (is_null (inode_unnamed_lte_resolved X (inode_at X (d_inode d)))).

Lemma maybe_apply_dentry_unfold (d : wim_dentry) (s : world) :
  maybe_apply_dentry d s
  = if negb (needs_extraction s (d_addr d)) then (WIMLIB_ERR_SUCCESS, s)
    else if skipped d s then (WIMLIB_ERR_SUCCESS, s)
    else
      let (ret, s2) :=
        call_apply_dentry (apply_dentry (args s)) d (announce d s) in
      (ret,
       if negb (is_error ret) then
         set_needs_extraction (upd (needs_extraction s2) (d_addr d) false) s2
       else s2).
Proof.
  unfold maybe_apply_dentry, skipped, announce.
  cbv [body bind gets when pure Return modify call].
  destruct (needs_extraction s (d_addr d)); cbn [negb]; [| reflexivity].
  destruct (nonzero (Z.land (a_extract_flags (args s))
                            (WIMLIB_EXTRACT_FLAG_NO_STREAMS X))
            && negb (dentry_is_directory X d)
            && negb (is_null (inode_unnamed_lte_resolved X
                                (inode_at X (d_inode d)))));
    [reflexivity |].
  destruct (progress_func (args s)) as [f |];
    [destruct (nonzero (Z.land (a_extract_flags (args s))
                               (WIMLIB_EXTRACT_FLAG_VERBOSE X))) |];
    cbn [call_progress snd];
    match goal with
    | |- context [call_apply_dentry ?p d ?st] =>
        destruct (call_apply_dentry p d st) as [ret s2]
    end;
    destruct (is_error ret); reflexivity.
Qed.

Lemma announce_inert (d : wim_dentry) (s : world) :
  adds no_apply s (announce d s) /\
  needs_extraction (announce d s) = needs_extraction s /\
  lte_dentry_list (announce d s) = lte_dentry_list s /\
  apply_dentry (args (announce d s)) = apply_dentry (args s) /\
  a_extract_flags (args (announce d s)) = a_extract_flags (args s).
Proof.
  unfold announce.
  destruct (progress_func (args s)) as [f |];
    [destruct (nonzero (Z.land (a_extract_flags (args s))
                               (WIMLIB_EXTRACT_FLAG_VERBOSE X))) |];
    cbn; repeat split; try apply adds_refl.
  eexists [_]. split; [reflexivity | repeat constructor].
Qed.

Lemma maybe_apply_dentry_applying (t0 : list event) (T : list wim_dentry)
    (d : wim_dentry) (s : world) :
  In d T ->
  applying t0 T s ->
  apply_dentry (args s) <> ptr_null ->
  let r := fst (maybe_apply_dentry d s) in
  let s' := snd (maybe_apply_dentry d s) in
  is_error r = false ->
  applying t0 T s' /\ lte_dentry_list s' = lte_dentry_list s /\
  apply_dentry (args s') = apply_dentry (args s) /\
  a_extract_flags (args s') = a_extract_flags (args s) /\
  (forall a, needs_extraction s a = false ->
             needs_extraction s' a = false) /\
  (unnamed_of d = None
   \/ Z.land (a_extract_flags (args s)) (WIMLIB_EXTRACT_FLAG_NO_STREAMS X)
      = 0 ->
   needs_extraction s' (d_addr d) = false).
Proof.
  intros HdT Happ Hptr. cbv zeta. rewrite maybe_apply_dentry_unfold.
  destruct (needs_extraction s (d_addr d)) eqn:Hneed; cbn [negb].
  2: { cbn. intros _. repeat split; auto. }
  destruct (skipped d s) eqn:Hskip.
  { cbn. intros _. repeat split; auto. unfold skipped in Hskip.
    apply andb_prop in Hskip. destruct Hskip as [Hskip Hnull].
    apply andb_prop in Hskip. destruct Hskip as [Hns _].
    unfold unnamed_of. intros [Hu | Hz].
    - rewrite Hu in Hnull. discriminate.
    - rewrite Hz in Hns. discriminate. }
  destruct (announce_inert d s) as [[pre [Ht1 Hpre]] [Hn1 [Hl1 [Ha1 Hf1]]]].
  pose proof (call_apply_dentry_event (apply_dentry (args s)) d
                (announce d s) Hptr) as Hev.
  cbv zeta in Hev.
  destruct (call_apply_dentry (apply_dentry (args s)) d (announce d s))
    as [ret s2].
  cbn [fst snd] in *. intros Hok. rewrite Hok. cbn [negb].
  destruct Hev as [e [He [Ht2 [Hn2 [Hl2 [Ha2 Hf2]]]]]].
  cbn. split; [| repeat split; try congruence].
  - apply (applying_apply t0 T s _ d pre e Happ HdT Hneed);
      [| exact Hpre | exact He |].
    + cbn. rewrite Ht2, Ht1, <- app_assoc. reflexivity.
    + cbn. rewrite Hn2, Hn1. reflexivity.
  - intros a Ha. unfold upd. destruct (Nat.eqb a (d_addr d));
      [reflexivity |]. rewrite Hn2, Hn1. exact Ha.
  - intros _. unfold upd. rewrite Nat.eqb_refl. reflexivity.
Qed.

(** From [s] to [s'] the lists of dentries, the backend and the flags of
    [args] are as they were, and no mark has appeared. *)
Definition settled (s s' : world) : Prop :=
  lte_dentry_list s' = lte_dentry_list s /\
  apply_dentry (args s') = apply_dentry (args s) /\
  a_extract_flags (args s') = a_extract_flags (args s) /\
  (forall a, needs_extraction s a = false -> needs_extraction s' a = false).

Lemma settled_refl (s : world) : settled s s.
Proof. repeat split; auto. Qed.

Lemma settled_trans (a b c : world) :
  settled a b -> settled b c -> settled a c.
Proof.
  intros [H1 [H2 [H3 H4]]] [K1 [K2 [K3 K4]]].
  repeat split; try congruence. auto.
Qed.

(** The first pass: the dentries without unnamed stream are done. *)
Lemma first_pass_applying (t0 : list event) (T ds : list wim_dentry) :
  incl ds T ->
  forall s,
    applying t0 T s ->
    apply_dentry (args s) <> ptr_null ->
    let r := fst (visit_each maybe_apply_dentry ds s) in
    let s' := snd (visit_each maybe_apply_dentry ds s) in
    is_error r = false ->
    applying t0 T s' /\ settled s s' /\
    (forall d, In d ds -> unnamed_of d = None ->
               needs_extraction s' (d_addr d) = false).
Proof.
  induction ds as [| d ds IH]; intros Hincl s Happ Hptr; cbv zeta.
  - cbn. intros _. split; [exact Happ |].
    split; [apply settled_refl | intros d []].
  - cbn [visit_each].
    pose proof (maybe_apply_dentry_applying t0 T d s
                  (Hincl d (or_introl eq_refl)) Happ Hptr) as Hd.
    cbv zeta in Hd.
    destruct (maybe_apply_dentry d s) as [r1 s1]. cbn [fst snd] in Hd.
    destruct (is_error r1) eqn:E1; [cbn; intros H; congruence |].
    destruct (Hd eq_refl) as [Happ1 [Hl1 [Ha1 [Hf1 [Hm1 Hdone]]]]].
    assert (Hincl' : incl ds T).
    { intros d' Hd'. apply Hincl. right. exact Hd'. }
    assert (Hptr1 : apply_dentry (args s1) <> ptr_null)
      by (rewrite Ha1; exact Hptr).
    specialize (IH Hincl' s1 Happ1 Hptr1). cbv zeta in IH.
    intros Hok. destruct (IH Hok) as [Happ2 [Hset2 Hdone2]].
    split; [exact Happ2 |]. split.
    + eapply settled_trans; [| exact Hset2]. repeat split; assumption.
    + intros d' [<- | Hd'] Hu; [| apply Hdone2; assumption].
      apply Hset2, Hdone. left. exact Hu.
Qed.

(** The second pass, for the dentries of one stream. *)
Lemma apply_stream_dentries_applying (t0 : list event)
    (T dentries : list wim_dentry)
    (progress_func : option wimlib_progress_func_t)
    (bytes_per_progress : Z) :
  incl dentries T ->
  forall next_progress s,
    applying t0 T s ->
    apply_dentry (args s) <> ptr_null ->
    Z.land (a_extract_flags (args s)) (WIMLIB_EXTRACT_FLAG_NO_STREAMS X)
    = 0 ->
    let run := apply_stream_dentries dentries progress_func
                 bytes_per_progress next_progress s in
    match fst run with
    | Normal _ =>
        applying t0 T (snd run) /\ settled s (snd run) /\
        (forall d, In d dentries ->
                   needs_extraction (snd run) (d_addr d) = false)
    | Returned r => is_error r = true
    end.
Proof.
  induction dentries as [| d rest IH];
    intros Hincl next s Happ Hptr Hns; cbv zeta.
  - cbn. split; [exact Happ |].
    split; [apply settled_refl | intros d []].
  - cbn [apply_stream_dentries]. cbv [bind call when gets pure Return].
    pose proof (maybe_apply_dentry_applying t0 T d s
                  (Hincl d (or_introl eq_refl)) Happ Hptr) as Hd.
    cbv zeta in Hd.
    destruct (maybe_apply_dentry d s) as [r1 s1]. cbn [fst snd] in Hd.
    destruct (is_error r1) eqn:E1; [cbn; exact E1 |].
    destruct (Hd eq_refl) as [Happ1 [Hl1 [Ha1 [Hf1 [Hm1 Hdone]]]]].
    assert (Hincl' : incl rest T).
    { intros d' Hd'. apply Hincl. right. exact Hd'. }
    assert (Hstep : forall next' s2,
               applying t0 T s2 -> settled s1 s2 ->
               let run := apply_stream_dentries rest progress_func
                            bytes_per_progress next' s2 in
               match fst run with
               | Normal _ =>
                   applying t0 T (snd run) /\ settled s (snd run) /\
                   (forall d0, In d0 (d :: rest) ->
                               needs_extraction (snd run) (d_addr d0)
                               = false)
               | Returned r => is_error r = true
               end).
    { intros next' s2 Happ2 [Hl2 [Ha2 [Hf2 Hm2]]]. cbv zeta.
      specialize (IH Hincl' next' s2 Happ2). cbv zeta in IH.
      destruct (fst (apply_stream_dentries rest progress_func
                       bytes_per_progress next' s2));
        [| apply IH; congruence].
      destruct IH as [Happ3 [Hset3 Hdone3]]; [congruence | congruence |].
      split; [exact Happ3 |]. split.
      - eapply settled_trans; [| exact Hset3].
        repeat split; try congruence. auto.
      - intros d' [<- | Hd']; [| apply Hdone3; exact Hd'].
        apply Hset3, Hm2, Hdone. right. exact Hns. }
    destruct progress_func as [f |]; cbn [fst snd];
      [| apply Hstep; [exact Happ1 | apply settled_refl]].
    destruct (next <=? completed_bytes (progress (args s1)));
      [| apply Hstep; [exact Happ1 | apply settled_refl]].
    cbn [call_progress].
    match goal with
    | |- context [total_bytes ?p <=? completed_bytes ?p] =>
        destruct (total_bytes p <=? completed_bytes p)
    end;
      (apply Hstep;
       [ eapply applying_inert; [exact Happ1 | | reflexivity];
         eexists [_]; split; [reflexivity | repeat constructor]
       | repeat split; auto ]).
Qed.

Lemma apply_streams_applying (t0 : list event) (T : list wim_dentry)
    (streams : list lte_ptr)
    (progress_func : option wimlib_progress_func_t)
    (bytes_per_progress : Z) :
  forall next_progress s,
    lists_within T streams s ->
    applying t0 T s ->
    apply_dentry (args s) <> ptr_null ->
    Z.land (a_extract_flags (args s)) (WIMLIB_EXTRACT_FLAG_NO_STREAMS X)
    = 0 ->
    let run := apply_streams streams progress_func bytes_per_progress
                 next_progress s in
    match fst run with
    | Normal _ =>
        applying t0 T (snd run) /\ settled s (snd run) /\
        (forall l d, In l streams -> In d (lte_dentry_list s l) ->
                     needs_extraction (snd run) (d_addr d) = false)
    | Returned r => is_error r = true
    end.
Proof.
  induction streams as [| l rest IH];
    intros next s HT Happ Hptr Hns; cbv zeta.
  - cbn. split; [exact Happ |].
    split; [apply settled_refl | intros l d []].
  - cbn [apply_streams]. cbv [bind gets].
    pose proof (apply_stream_dentries_applying t0 T (lte_dentry_list s l)
                  progress_func bytes_per_progress) as H1.
    specialize (H1 (fun d Hd => HT l d (or_introl eq_refl) Hd)
                   next s Happ Hptr Hns).
    cbv zeta in H1.
    destruct (apply_stream_dentries (lte_dentry_list s l) progress_func
                bytes_per_progress next s) as [[next1 | r] s1];
      cbn [fst snd] in *; [| exact H1].
    destruct H1 as [Happ1 [[Hl1 [Ha1 [Hf1 Hm1]]] Hdone1]].
    specialize (IH next1 s1). cbv zeta in IH.
    destruct (fst (apply_streams rest progress_func bytes_per_progress
                     next1 s1));
      [| apply IH; try congruence;
         intros l' d' Hl' Hd'; rewrite Hl1 in Hd';
         apply (HT l' d'); [right; exact Hl' | exact Hd'] ].
    destruct IH as [Happ2 [Hset2 Hdone2]]; try congruence.
    { intros l' d' Hl' Hd'. rewrite Hl1 in Hd'.
      apply (HT l' d'); [right; exact Hl' | exact Hd']. }
    split; [exact Happ2 |]. split.
    + eapply settled_trans; [| exact Hset2]. repeat split; assumption.
    + intros l' d' [<- | Hl'] Hd'.
      * apply Hset2, Hdone1, Hd'.
      * apply (Hdone2 l' d' Hl'). rewrite Hl1. exact Hd'.
Qed.

(** The second pass: the dentries on the lists of the streams are done. *)
Lemma apply_stream_list_applying (t0 : list event) (T : list wim_dentry)
    (streams : list lte_ptr) (ops : apply_operations)
    (progress_func : option wimlib_progress_func_t) (s : world) :
  lists_within T streams s ->
  applying t0 T s ->
  apply_dentry (args s) <> ptr_null ->
  Z.land (a_extract_flags (args s)) (WIMLIB_EXTRACT_FLAG_NO_STREAMS X)
  = 0 ->
  let run := apply_stream_list streams ops progress_func s in
  is_error (fst run) = false ->
  applying t0 T (snd run) /\ settled s (snd run) /\
  (forall l d, In l streams -> In d (lte_dentry_list s l) ->
               needs_extraction (snd run) (d_addr d) = false).
Proof.
  intros HT Happ Hptr Hns. cbv zeta. unfold apply_stream_list.
  cbv [body bind gets pure].
  pose proof (apply_streams_applying t0 T streams progress_func
                (total_bytes (progress (args s)) / 100)
                (total_bytes (progress (args s)) / 100) s
                HT Happ Hptr Hns) as H.
  cbv zeta in H.
  destruct (apply_streams streams progress_func _ _ s) as [[next | r] s1];
    cbn [fst snd] in *; [intros _; exact H | congruence].
Qed.

Lemma land_lor_same (a b : Z) : Z.land (Z.lor a b) b = b.
Proof.
  apply Z.bits_inj'. intros n _. rewrite Z.land_spec, Z.lor_spec.
  destruct (Z.testbit a n), (Z.testbit b n); reflexivity.
Qed.

Lemma skipped_ext (d : wim_dentry) (s s' : world) :
  a_extract_flags (args s') = a_extract_flags (args s) ->
  skipped d s' = skipped d s.
Proof. intros H. unfold skipped. rewrite H. reflexivity. Qed.

(** The first pass applies the dentries it does not skip in the order of
    the walk. *)
Lemma first_pass_order (ds : list wim_dentry) :
  NoDup (map d_addr ds) ->
  forall s,
    (forall d, In d ds -> needs_extraction s (d_addr d) = true) ->
    apply_dentry (args s) <> ptr_null ->
    let r := fst (visit_each maybe_apply_dentry ds s) in
    let s' := snd (visit_each maybe_apply_dentry ds s) in
    is_error r = false ->
    exists evs,
      trace s' = trace s ++ evs /\
      applied_dentries evs
      = map d_addr (filter (fun d => negb (skipped d s)) ds).
Proof.
  induction ds as [| d ds IH]; intros Hnd s Hneed Hptr; cbv zeta.
  - cbn. intros _. exists []. rewrite app_nil_r. split; reflexivity.
  - cbn [visit_each filter]. rewrite maybe_apply_dentry_unfold.
    rewrite (Hneed d (or_introl eq_refl)). cbn [negb].
    cbn [map] in Hnd. apply NoDup_cons_iff in Hnd.
    destruct Hnd as [Hfresh Hnd].
    assert (Hneed' : forall d', In d' ds ->
                                needs_extraction s (d_addr d') = true).
    { intros d' Hd'. apply Hneed. right. exact Hd'. }
    destruct (skipped d s) eqn:Hskip; cbn [negb is_error].
    + apply (IH Hnd s Hneed' Hptr).
    + destruct (announce_inert d s)
        as [[pre [Ht1 Hpre]] [Hn1 [Hl1 [Ha1 Hf1]]]].
      pose proof (call_apply_dentry_event (apply_dentry (args s)) d
                    (announce d s) Hptr) as Hev.
      cbv zeta in Hev.
      destruct (call_apply_dentry (apply_dentry (args s)) d (announce d s))
        as [ret s2].
      cbn [fst snd] in Hev.
      destruct Hev as [e [He [Ht2 [Hn2 [Hl2 [Ha2 Hf2]]]]]].
      destruct (is_error ret) eqn:Eret; cbn [negb fst snd];
        [intros H; congruence |].
      set (s1 := set_needs_extraction _ s2).
      specialize (IH Hnd s1). cbv zeta in IH. intros Hok.
      destruct IH as [evs [Ht Happ]]; try assumption.
      * intros d' Hd'. subst s1. cbn. unfold upd.
        destruct (Nat.eqb_spec (d_addr d') (d_addr d)) as [E | _].
        -- exfalso. apply Hfresh. rewrite <- E. apply in_map, Hd'.
        -- rewrite Hn2, Hn1. apply Hneed', Hd'.
      * subst s1. cbn. rewrite Ha2, Ha1. exact Hptr.
      * exists (pre ++ e :: evs). split.
        -- rewrite Ht. subst s1. cbn. rewrite Ht2, Ht1, <- !app_assoc.
           reflexivity.
        -- rewrite applied_dentries_app, (no_apply_dentries pre Hpre).
           cbn [app applied_dentries flat_map map]. rewrite He. cbn [app].
           f_equal. fold (applied_dentries evs). rewrite Happ.
           f_equal. apply filter_ext. intros d'. f_equal.
           apply skipped_ext. subst s1. cbn. rewrite Hf2, Hf1. reflexivity.
Qed.

Lemma find_ads_streams_keeps_args (d : wim_dentry)
    (entries : list wim_ads_entry) :
  forall added s, args (snd (find_ads_streams d entries added s)) = args s.
Proof.
  induction entries as [| e rest IH]; intros added s; [reflexivity |].
  cbn [find_ads_streams].
  cbv [bind gets when pure add_dentry_to_lte modify
       maybe_add_stream_for_extraction].
  destruct (nonzero (stream_name_nbytes e)); [destruct (lte e) as [l |] |];
    try apply IH.
  destruct (negb (i_visited s (d_inode d)));
    [destruct (_ =? 1) |]; destruct (negb added); rewrite IH; reflexivity.
Qed.

Lemma planner_keeps_args (root : wim_dentry) (extract_flags : Z)
    (s : world) :
  args (snd (find_streams_for_extraction root extract_flags s)) = args s.
Proof.
  revert s.
  change (respects (fun a b => args b = args a)
            (find_streams_for_extraction root extract_flags)).
  assert (Hrefl : forall a : world, args a = args a) by reflexivity.
  assert (Htrans : forall a b c : world,
             args b = args a -> args c = args b -> args c = args a)
    by (intros; congruence).
  unfold find_streams_for_extraction, for_dentry_in_tree.
  respects_split Hrefl Htrans
    ltac:(idtac; match goal with
          | |- fn_respects _ (visit_each _ _) =>
              apply visit_each_respects; [exact Hrefl | exact Htrans |];
              intros ?d
          | |- forall s, args _ = args s => intros ?s; reflexivity
          end).
  - intros s. unfold dentry_resolve_and_zero_lte_refcnt. cbn [snd].
    generalize (seq 0 (S (i_num_ads (inode_at X (d_inode d))))).
    intros idxs. revert s. induction idxs as [| i idxs IH]; intros s;
      [reflexivity |].
    cbn [fold_left].
    destruct (inode_stream_lte_resolved X (inode_at X (d_inode d)) i);
      rewrite IH; reflexivity.
  - unfold dentry_find_streams_to_extract. cbv zeta.
    respects_split Hrefl Htrans
      ltac:(idtac; match goal with
            | |- respects _ (maybe_add_stream_for_extraction _) =>
                intros ?s; unfold maybe_add_stream_for_extraction;
                cbv zeta; destruct (_ =? 1); reflexivity
            | |- respects _ (add_dentry_to_lte _ _) =>
                intros ?s; reflexivity
            | |- respects _ (find_ads_streams _ _ _) =>
                intros ?s; apply find_ads_streams_keeps_args
            | |- forall s, args _ = args s => intros ?s; reflexivity
            end).
Qed.

(** ** Assertions along a run

    [triple P m Q E]: started in a state that satisfies [P], the block
    [m] runs to its end with a value [a] in a state that satisfies [Q a],
    or returns [r] from the function in a state that satisfies [E r]. *)
Definition triple {A} (P : world -> Prop) (m : @block world A)
    (Q : A -> world -> Prop) (E : wimlib_error_code -> world -> Prop)
  : Prop :=
  forall s, P s ->
    match fst (m s) with
    | Normal a => Q a (snd (m s))
    | Returned r => E r (snd (m s))
    end.

Lemma triple_bind {A B} (P : world -> Prop) (Q : A -> world -> Prop)
    (R : B -> world -> Prop) (E : wimlib_error_code -> world -> Prop)
    (m : @block world A) (k : A -> @block world B) :
  triple P m Q E -> (forall a, triple (Q a) (k a) R E) ->
  triple P (bind m k) R E.
Proof.
  intros Hm Hk s HP. unfold bind. specialize (Hm s HP).
  destruct (m s) as [[a | r] s1]; cbn [fst snd] in *; [| exact Hm].
  apply (Hk a s1 Hm).
Qed.

Lemma triple_pure {A} (P : world -> Prop) (Q : A -> world -> Prop)
    (E : wimlib_error_code -> world -> Prop) (a : A) :
  (forall s, P s -> Q a s) -> triple P (pure a) Q E.
Proof. intros H s HP. apply H, HP. Qed.

Lemma triple_gets {A} (P : world -> Prop) (Q : A -> world -> Prop)
    (E : wimlib_error_code -> world -> Prop) (f : world -> A) :
  (forall s, P s -> Q (f s) s) -> triple P (gets f) Q E.
Proof. intros H s HP. apply H, HP. Qed.

Lemma triple_modify (P : world -> Prop) (Q : unit -> world -> Prop)
    (E : wimlib_error_code -> world -> Prop) (f : world -> world) :
  (forall s, P s -> Q tt (f s)) -> triple P (modify f) Q E.
Proof. intros H s HP. apply H, HP. Qed.

Lemma triple_Return {A} (P : world -> Prop) (Q : A -> world -> Prop)
    (E : wimlib_error_code -> world -> Prop) (r : wimlib_error_code) :
  (forall s, P s -> E r s) -> triple P (Return r) Q E.
Proof. intros H s HP. apply H, HP. Qed.

Lemma triple_call (P : world -> Prop)
    (Q : wimlib_error_code -> world -> Prop)
    (E : wimlib_error_code -> world -> Prop) (f : @fn world) :
  (forall s, P s -> Q (fst (f s)) (snd (f s))) -> triple P (call f) Q E.
Proof.
  intros H s HP. unfold call. specialize (H s HP).
  destruct (f s) as [r s1]. exact H.
Qed.

Lemma triple_goto {A} (P : world -> Prop) (Q : A -> world -> Prop)
    (E : wimlib_error_code -> world -> Prop) (label : @fn world) :
  (forall s, P s -> E (fst (label s)) (snd (label s))) ->
  triple P (goto label) Q E.
Proof.
  intros H s HP. unfold goto. specialize (H s HP).
  destruct (label s) as [r s1]. exact H.
Qed.

Lemma triple_body (P : world -> Prop)
    (E : wimlib_error_code -> world -> Prop)
    (m : @block world wimlib_error_code) :
  triple P m E E ->
  forall s, P s -> E (fst (body m s)) (snd (body m s)).
Proof.
  intros H s HP. unfold body. specialize (H s HP).
  destruct (m s) as [[r | r] s1]; exact H.
Qed.

(** A fact that does not depend on the state can be taken out of the
    precondition. *)
Lemma triple_assume {A} (F : Prop) (P : world -> Prop)
    (Q : A -> world -> Prop) (E : wimlib_error_code -> world -> Prop)
    (m : @block world A) :
  (F -> triple P m Q E) -> triple (fun s => F /\ P s) m Q E.
Proof. intros H s [HF HP]. apply (H HF s HP). Qed.

Lemma triple_weaken {A} (P P' : world -> Prop) (Q Q' : A -> world -> Prop)
    (E : wimlib_error_code -> world -> Prop) (m : @block world A) :
  triple P m Q E ->
  (forall s, P' s -> P s) -> (forall a s, Q a s -> Q' a s) ->
  triple P' m Q' E.
Proof.
  intros H HP HQ s HP'. specialize (H s (HP s HP')).
  destruct (fst (m s)); [apply HQ, H | exact H].
Qed.

(** *** Steps that leave an assertion alone

    [inert s s']: from [s] to [s'] no dentry was applied, and the marks,
    the lists of dentries, the backend and the flags of [args] are as they
    were. *)
Definition inert (s s' : world) : Prop :=
  adds no_apply s s' /\
  needs_extraction s' = needs_extraction s /\
  i_visited s' = i_visited s /\
  lte_dentry_list s' = lte_dentry_list s /\
  apply_dentry (args s') = apply_dentry (args s) /\
  a_extract_flags (args s') = a_extract_flags (args s).

Definition stable (P : world -> Prop) : Prop :=
  forall s s', P s -> inert s s' -> P s'.

Lemma inert_same (s s' : world) :
  trace s' = trace s ->
  needs_extraction s' = needs_extraction s ->
  i_visited s' = i_visited s ->
  lte_dentry_list s' = lte_dentry_list s ->
  apply_dentry (args s') = apply_dentry (args s) ->
  a_extract_flags (args s') = a_extract_flags (args s) ->
  inert s s'.
Proof.
  intros Ht. repeat split; try assumption. apply adds_same, Ht.
Qed.

Lemma inert_log (s s' : world) (e : event) :
  no_apply e ->
  trace s' = trace s ++ [e] ->
  needs_extraction s' = needs_extraction s ->
  i_visited s' = i_visited s ->
  lte_dentry_list s' = lte_dentry_list s ->
  apply_dentry (args s') = apply_dentry (args s) ->
  a_extract_flags (args s') = a_extract_flags (args s) ->
  inert s s'.
Proof.
  intros He Ht. repeat split; try assumption.
  exists [e]. split; [exact Ht | repeat constructor; exact He].
Qed.

Lemma triple_modify_stable (P : world -> Prop)
    (E : wimlib_error_code -> world -> Prop) (f : world -> world) :
  stable P -> (forall s, inert s (f s)) ->
  triple P (modify f) (fun _ => P) E.
Proof. intros HP Hf. apply triple_modify. intros s H. apply (HP s), Hf. exact H. Qed.

Lemma triple_report_stable (P : world -> Prop)
    (E : wimlib_error_code -> world -> Prop)
    (progress_func : option wimlib_progress_func_t)
    (msg : wimlib_progress_msg) :
  stable P ->
  triple P (match progress_func with
            | Some f => call_progress f msg
            | None => pure tt
            end) (fun _ => P) E.
Proof.
  intros HP. destruct progress_func as [f |];
    [| apply triple_pure; auto].
  intros s H. cbn. apply (HP s); [exact H |].
  eapply inert_log; [| reflexivity ..]; exact eq_refl.
Qed.

Lemma triple_message_stable (P : world -> Prop)
    (E : wimlib_error_code -> world -> Prop) (level : msg_level)
    (text : string) :
  stable P ->
  triple P (modify (log (Ev_message level text))) (fun _ => P) E.
Proof.
  intros HP. apply triple_modify_stable; [exact HP |].
  intros s. eapply inert_log; [| reflexivity ..]; exact eq_refl.
Qed.

Lemma out_ntfs_umount_success (extract_flags : Z) (ret : wimlib_error_code)
    (s : world) :
  fst (out_ntfs_umount extract_flags ret s) = WIMLIB_ERR_SUCCESS ->
  ret = WIMLIB_ERR_SUCCESS.
Proof.
  unfold out_ntfs_umount.
  destruct (WITH_NTFS_3G X && _); [| intros H; exact H].
  cbv [body bind ERROR modify pure].
  destruct (x_ntfs_umount X (ext s)) as [r e].
  destruct (nonzero r); cbn [fst]; [| intros H; exact H].
  destruct ret; cbn [is_error]; intros H; first [exact H | discriminate H].
Qed.

Lemma out_reset_success (root : wim_dentry) (extract_flags : Z)
    (ret : wimlib_error_code) (s : world) :
  fst (out_dentry_reset_needs_extraction root extract_flags ret s)
  = WIMLIB_ERR_SUCCESS ->
  ret = WIMLIB_ERR_SUCCESS.
Proof.
  unfold out_dentry_reset_needs_extraction. cbv [body bind call].
  destruct (for_dentry_in_tree root dentry_reset_needs_extraction s)
    as [r0 s1].
  pose proof (out_ntfs_umount_success extract_flags ret s1) as H.
  destruct (out_ntfs_umount extract_flags ret s1) as [r1 s2].
  exact H.
Qed.

(** Whether the first pass leaves a dentry to the second: it is not a
    directory and has an unnamed stream ([NO_STREAMS] being a flag that is
    not zero). *)
Definition deferred (d : wim_dentry) : bool :=
  nonzero (WIMLIB_EXTRACT_FLAG_NO_STREAMS X)
  && negb (dentry_is_directory X d)
  && negb (is_null (inode_unnamed_lte_resolved X (inode_at X (d_inode d)))).

Lemma skipped_deferred (extract_flags : Z) (d : wim_dentry) (s : world) :
  a_extract_flags (args s)
  = Z.lor extract_flags (WIMLIB_EXTRACT_FLAG_NO_STREAMS X) ->
  skipped d s = deferred d.
Proof.
  intros H. unfold skipped, deferred. rewrite H, land_lor_same. reflexivity.
Qed.

Section Once.
(** The trace and the marks on the inodes when [extract_tree] was called,
    its flags, and the tree it extracts. *)
Variable t0 : list event.
Variable v0 : inode_ptr -> bool.
Variable flags : Z.
Variable root : wim_dentry.

(** The dentries the first pass applies. *)
Definition first_applied : list nat :=
  map d_addr (filter (fun d => negb (deferred d)) (dentry_preorder root)).

(** Nothing was applied since the call. *)
Definition untouched (s : world) : Prop :=
  exists evs, trace s = t0 ++ evs /\ Forall no_apply evs.

(** Every dentry of the tree is on the list of its unnamed stream, a
    stream of [streams], and these lists hold dentries of the tree. *)
Definition listed (streams : list lte_ptr) (s : world) : Prop :=
  (forall d l, In d (dentry_preorder root) -> unnamed_of d = Some l ->
               In l streams /\ In d (lte_dentry_list s l)) /\
  lists_within (dentry_preorder root) streams s.

(** Before the planner. *)
Definition started (s : world) : Prop :=
  i_visited s = v0 /\ a_extract_flags (args s) = flags /\ untouched s.

(** What the planner leaves behind. *)
Definition prepared (streams : list lte_ptr) (s : world) : Prop :=
  untouched s /\
  (forall d, In d (dentry_preorder root) ->
             needs_extraction s (d_addr d) = true) /\
  listed streams s.

(** From the planner to the first pass. *)
Definition ready (streams : list lte_ptr) (s : world) : Prop :=
  a_extract_flags (args s) = flags /\ prepared streams s.

(** Between the passes. *)
Definition halfway (streams : list lte_ptr) (s : world) : Prop :=
  applying t0 (dentry_preorder root) s /\
  listed streams s /\
  apply_dentry (args s) <> ptr_null /\
  Z.land (a_extract_flags (args s)) (WIMLIB_EXTRACT_FLAG_NO_STREAMS X) = 0 /\
  (forall d, In d (dentry_preorder root) -> unnamed_of d = None ->
             needs_extraction s (d_addr d) = false) /\
  exists evs, trace s = t0 ++ evs /\ applied_dentries evs = first_applied.

(** After the second pass. *)
Definition all_applied (s : world) : Prop :=
  exists evs rest,
    trace s = t0 ++ evs /\
    applied_dentries evs = first_applied ++ rest /\
    Permutation (applied_dentries evs) (tree_addrs root).

Lemma untouched_adds (s s' : world) :
  untouched s -> adds no_apply s s' -> untouched s'.
Proof.
  intros [evs [Ht Hall]] [more [Ht' Hmore]]. exists (evs ++ more).
  rewrite Ht', Ht, app_assoc. split; [reflexivity |].
  apply Forall_app. split; assumption.
Qed.

Lemma listed_same (streams : list lte_ptr) (s s' : world) :
  listed streams s -> lte_dentry_list s' = lte_dentry_list s ->
  listed streams s'.
Proof.
  intros [Hl Hw] H. unfold listed, lists_within. rewrite H.
  split; assumption.
Qed.

Lemma listed_permuted (streams streams' : list lte_ptr) (s : world) :
  Permutation streams' streams -> listed streams s -> listed streams' s.
Proof.
  intros Hperm [Hl Hw]. split.
  - intros d l Hd Hu. destruct (Hl d l Hd Hu) as [H1 H2].
    split; [| exact H2].
    eapply Permutation_in; [apply Permutation_sym, Hperm | exact H1].
  - intros l d Hl' Hd. apply (Hw l d); [| exact Hd].
    eapply Permutation_in; [exact Hperm | exact Hl'].
Qed.

Lemma started_stable : stable started.
Proof.
  intros s s' [Hv [Hf Hu]] [Hadds [_ [Hv' [_ [_ Hf']]]]].
  split; [congruence |]. split; [congruence |].
  eapply untouched_adds; eassumption.
Qed.

Lemma ready_stable (streams : list lte_ptr) : stable (ready streams).
Proof.
  intros s s' [Hf [Hu [Hn Hl]]] [Hadds [Hn' [_ [Hlists [_ Hf']]]]].
  split; [congruence |]. split; [eapply untouched_adds; eassumption |].
  split; [rewrite Hn'; exact Hn |].
  eapply listed_same; eassumption.
Qed.

Lemma ready_permuted (streams streams' : list lte_ptr) (s : world) :
  Permutation streams' streams -> ready streams s -> ready streams' s.
Proof.
  intros Hperm [Hf [Hu [Hn Hl]]].
  split; [exact Hf |]. split; [exact Hu |]. split; [exact Hn |].
  apply (listed_permuted streams streams' s Hperm Hl).
Qed.

Lemma prepared_applying (streams : list lte_ptr) (s : world) :
  prepared streams s -> applying t0 (dentry_preorder root) s.
Proof.
  intros [[evs [Ht Hno]] [Hn _]]. exists evs. split; [exact Ht |].
  rewrite (no_apply_dentries evs Hno).
  split; [constructor |]. split; [intros a [] |].
  intros d Hd. rewrite (Hn d Hd). split; [discriminate | intros []].
Qed.

Lemma halfway_stable (streams : list lte_ptr) : stable (halfway streams).
Proof.
  intros s s' [Happ [Hl [Hp [Hf [Hd [evs [Ht Hfirst]]]]]]]
         [Hadds [Hn [_ [Hlists [Ha Hfl]]]]].
  split; [eapply applying_inert; eassumption |].
  split; [eapply listed_same; eassumption |].
  rewrite Ha, Hfl, Hn. repeat split; try assumption.
  destruct Hadds as [more [Ht' Hmore]]. exists (evs ++ more).
  rewrite Ht', Ht, app_assoc. split; [reflexivity |].
  rewrite applied_dentries_app, (no_apply_dentries more Hmore), app_nil_r.
  exact Hfirst.
Qed.

Lemma all_applied_adds (s s' : world) :
  all_applied s -> adds no_apply s s' -> all_applied s'.
Proof.
  intros [evs [rest [Ht [Hfirst Hperm]]]] [more [Ht' Hmore]].
  exists (evs ++ more), rest. rewrite Ht', Ht, app_assoc.
  split; [reflexivity |].
  rewrite applied_dentries_app, (no_apply_dentries more Hmore), app_nil_r.
  split; assumption.
Qed.

Lemma all_applied_stable : stable all_applied.
Proof. intros s s' H [Hadds _]. exact (all_applied_adds s s' H Hadds). Qed.

(** When the first pass is through, the dentries it does not defer have
    been applied, in pre-order. *)
Lemma prepared_halfway (streams : list lte_ptr) (s : world) :
  NoDup (tree_addrs root) ->
  prepared streams s ->
  apply_dentry (args s) <> ptr_null ->
  a_extract_flags (args s)
  = Z.lor flags (WIMLIB_EXTRACT_FLAG_NO_STREAMS X) ->
  let run := for_dentry_in_tree root maybe_apply_dentry s in
  is_error (fst run) = false ->
  applying t0 (dentry_preorder root) (snd run) /\
  listed streams (snd run) /\
  apply_dentry (args (snd run)) <> ptr_null /\
  (forall d, In d (dentry_preorder root) -> unnamed_of d = None ->
             needs_extraction (snd run) (d_addr d) = false) /\
  exists evs,
    trace (snd run) = t0 ++ evs /\ applied_dentries evs = first_applied.
Proof.
  intros Hnd Hready Hp Hflags. cbv zeta. unfold for_dentry_in_tree.
  intros Hok.
  pose proof (prepared_applying streams s Hready) as Happ.
  destruct Hready as [[evs0 [Ht0 Hno]] [Hn Hl]].
  destruct (first_pass_applying t0 (dentry_preorder root)
              (dentry_preorder root) (incl_refl _) s Happ Hp Hok)
    as [Happ' [[Hlists [Ha [Hf Hm]]] Hnone]].
  destruct (first_pass_order (dentry_preorder root) Hnd s Hn Hp Hok)
    as [evs1 [Ht1 Hfirst]].
  split; [exact Happ' |]. split; [eapply listed_same; eassumption |].
  split; [rewrite Ha; exact Hp |]. split; [exact Hnone |].
  exists (evs0 ++ evs1). rewrite Ht1, Ht0, app_assoc. split; [reflexivity |].
  rewrite applied_dentries_app, (no_apply_dentries evs0 Hno), Hfirst.
  cbn [app]. unfold first_applied. f_equal. apply filter_ext.
  intros d. f_equal. apply (skipped_deferred flags), Hflags.
Qed.

(** When both passes are through, every dentry of the tree has been
    applied once. *)
Lemma halfway_all_applied (streams : list lte_ptr) (s s' : world) :
  NoDup (tree_addrs root) ->
  halfway streams s ->
  applying t0 (dentry_preorder root) s' ->
  settled s s' ->
  (exists more, trace s' = trace s ++ more) ->
  (forall l d, In l streams -> In d (lte_dentry_list s l) ->
               needs_extraction s' (d_addr d) = false) ->
  all_applied s'.
Proof.
  intros Hnd [_ [[Hl _] [_ [_ [Hnone [evs1 [Ht1 Hfirst]]]]]]]
         [evs [Ht [Hnd' [Hin Hiff]]]] [_ [_ [_ Hmono]]] [more Hmore] Hdone.
  exists evs, (applied_dentries more). split; [exact Ht |].
  split.
  - rewrite Hmore, Ht1, <- app_assoc in Ht.
    apply app_inv_head in Ht. rewrite <- Ht, applied_dentries_app, Hfirst.
    reflexivity.
  - apply NoDup_Permutation; [exact Hnd' | exact Hnd |].
    intros a. split; [apply Hin |].
    intros Ha. unfold tree_addrs in Ha. apply in_map_iff in Ha.
    destruct Ha as [d [<- Hd]]. apply (Hiff d Hd).
    destruct (unnamed_of d) as [l |] eqn:Hu.
    + destruct (Hl d l Hd Hu) as [H1 H2]. apply (Hdone l d H1 H2).
    + apply Hmono, Hnone; assumption.
Qed.
End Once.

(** The choice of the operations, with the mounting of the volume. *)
Lemma mount_step_started (t0 : list event) (v0 : inode_ptr -> bool)
    (flags : Z) (target : list tchar) (extract_flags : Z)
    (E : wimlib_error_code -> world -> Prop) :
  (forall s, E WIMLIB_ERR_NTFS_3G s) ->
  triple (started t0 v0 flags)
    (if WITH_NTFS_3G X
        && nonzero (Z.land extract_flags (WIMLIB_EXTRACT_FLAG_NTFS X))
     then
       ok <- (fun s => let (ok, e) := x_ntfs_mount X target (ext s) in
                       (Normal ok,
                        log (Ev_ntfs_mount target ok)
                            (with_args (set_vol_mounted ok)
                                       (with_ext e s)))) ;;
       (if negb ok then
          ERROR "Failed to mount NTFS volume" ;;
          Return WIMLIB_ERR_NTFS_3G
        else pure tt) ;;
       pure ntfs_apply_operations
     else pure normal_apply_operations)
    (fun ops s => (ops = normal_apply_operations
                   \/ ops = ntfs_apply_operations)
                  /\ started t0 v0 flags s) E.
Proof.
  intros HE.
  destruct (WITH_NTFS_3G X && _);
    [| apply triple_pure; intros s H; split; [left; reflexivity | exact H]].
  apply (triple_bind _ (fun _ => started t0 v0 flags)).
  { intros s H. destruct (x_ntfs_mount X target (ext s)) as [ok e].
    cbn [fst snd]. apply (started_stable t0 v0 flags s); [exact H |].
    eapply inert_log; [| reflexivity ..]; exact eq_refl. }
  intros ok. apply (triple_bind _ (fun _ => started t0 v0 flags)).
  { destruct (negb ok); [| apply triple_pure; auto].
    apply (triple_bind _ (fun _ => started t0 v0 flags)).
    - apply triple_message_stable, started_stable.
    - intros _. apply triple_Return. intros s _. apply HE. }
  intros _. apply triple_pure. intros s H.
  split; [right; reflexivity | exact H].
Qed.

(** The sorting of the stream list, with the fallback. *)
Lemma sort_step_ready (t0 : list event) (flags : Z) (root : wim_dentry)
    (stream_list : list lte_ptr) (extract_flags : Z)
    (E : wimlib_error_code -> world -> Prop) :
  (forall size e, x_malloc X size e = false) \/ qsort_contract ->
  triple (ready t0 flags root stream_list)
    (if nonzero (Z.land extract_flags
                        (WIMLIB_EXTRACT_FLAG_SEQUENTIAL X)) then
       r <- sort_stream_list_by_wim_position stream_list ;;
       if is_error (fst r) then
         WARNING "Falling back to non-sequential extraction" ;;
         pure (snd r,
               Z.land extract_flags
                      (Z.lnot (WIMLIB_EXTRACT_FLAG_SEQUENTIAL X)))
       else pure (snd r, extract_flags)
     else pure (stream_list, extract_flags))
    (fun sorted s => ready t0 flags root (fst sorted) s) E.
Proof.
  intros Hq.
  destruct (nonzero _); [| apply triple_pure; auto].
  apply (triple_bind _
           (fun r s => Permutation (snd r) stream_list
                       /\ ready t0 flags root stream_list s)).
  { unfold sort_stream_list_by_wim_position. cbv zeta.
    apply (triple_bind _
             (fun ok s => (ok = false \/ qsort_contract)
                          /\ ready t0 flags root stream_list s)).
    { apply triple_gets. intros s H. split; [| exact H].
      destruct Hq as [Hm | Hq]; [left; apply Hm | right; exact Hq]. }
    intros ok. apply triple_assume. intros Hok. destruct ok.
    - destruct Hok as [Hok | Hc]; [discriminate |].
      apply triple_pure. intros s H. split; [| exact H]. apply Hc.
    - apply (triple_bind _ (fun _ => ready t0 flags root stream_list));
        [apply triple_message_stable, ready_stable |].
      intros _. apply triple_pure. intros s H. split; [| exact H].
      apply Permutation_refl. }
  intros r. apply triple_assume. intros Hperm.
  destruct (is_error (fst r)).
  - apply (triple_bind _ (fun _ => ready t0 flags root stream_list));
      [apply triple_message_stable, ready_stable |].
    intros _. apply triple_pure. intros s H.
    apply (ready_permuted t0 flags root stream_list); assumption.
  - apply triple_pure. intros s H.
    apply (ready_permuted t0 flags root stream_list); assumption.
Qed.

(** A step that keeps the outside, or sets it. *)
Lemma triple_outside {A} (P : world -> Prop) (m : @block world A)
    (Q : A -> world -> Prop) (E : wimlib_error_code -> world -> Prop)
    (e e' : ext_state) :
  triple P m Q E ->
  (forall s, ext s = e ->
             match fst (m s) with
             | Normal _ => ext (snd (m s)) = e'
             | Returned _ => True
             end) ->
  triple (fun s => ext s = e /\ P s) m
    (fun a s => ext s = e' /\ Q a s) E.
Proof.
  intros H He s [Hs HP]. specialize (H s HP). specialize (He s Hs).
  destruct (fst (m s)); [split; assumption | exact H].
Qed.

(** The two passes of a successful [extract_tree]: what has been handed
    to the backend, and in which order.  The sort permutes the list, or
    is not reached: its array cannot be allocated.  The tree is the one
    found in the state of the outside in which the path is looked up. *)
Lemma extract_tree_passes_at (wim_source_path target : list tchar)
    (extract_flags : Z) (progress_func : option wimlib_progress_func_t)
    (s : world) :
  let run := extract_tree wim_source_path target extract_flags
               progress_func s in
  let e1 :=
    if WITH_NTFS_3G X
       && nonzero (Z.land extract_flags (WIMLIB_EXTRACT_FLAG_NTFS X))
    then snd (x_ntfs_mount X target (ext s)) else ext s in
  Z.land extract_flags (WIMLIB_EXTRACT_FLAG_TO_STDOUT X) = 0 ->
  (forall size e, x_malloc X size e = false) \/ qsort_contract ->
  (forall root,
      x_get_dentry X (current_image (wim s)) wim_source_path e1 = Some root ->
      plannable extract_flags root s /\ NoDup (tree_addrs root)) ->
  fst run = WIMLIB_ERR_SUCCESS ->
  exists root evs rest,
    x_get_dentry X (current_image (wim s)) wim_source_path e1 = Some root /\
    trace (snd run) = trace s ++ evs /\
    applied_dentries evs = first_applied root ++ rest /\
    Permutation (applied_dentries evs) (tree_addrs root).
Proof.
  intros run e1 Hstdout Hq Htree. subst run.
  set (E := fun (r : wimlib_error_code) (s' : world) =>
              r = WIMLIB_ERR_SUCCESS ->
              exists root evs rest,
                x_get_dentry X (current_image (wim s)) wim_source_path e1
                = Some root /\
                trace s' = trace s ++ evs /\
                applied_dentries evs = first_applied root ++ rest /\
                Permutation (applied_dentries evs) (tree_addrs root)).
  change (E (fst (extract_tree wim_source_path target extract_flags
                    progress_func s))
            (snd (extract_tree wim_source_path target extract_flags
                    progress_func s))).
  assert (Hbad : forall r s', r <> WIMLIB_ERR_SUCCESS -> E r s')
    by (intros r s' H1 H2; contradiction).
  assert (Humount : forall flags ret st,
             is_error ret = true ->
             E (fst (out_ntfs_umount flags ret st))
               (snd (out_ntfs_umount flags ret st))).
  { intros flags ret st Hret. apply Hbad. intros H.
    apply out_ntfs_umount_success in H. subst ret. discriminate. }
  assert (Hreset : forall root flags ret st,
             is_error ret = true ->
             E (fst (out_dentry_reset_needs_extraction root flags ret st))
               (snd (out_dentry_reset_needs_extraction root flags ret st))).
  { intros root flags ret st Hret. apply Hbad. intros H.
    apply out_reset_success in H. subst ret. discriminate. }
  unfold extract_tree.
  apply (triple_body (fun st => st = s)); [| reflexivity].
  set (t0 := trace s). set (v0 := i_visited s).
  (* the arguments *)
  apply (triple_bind _ (fun w st => w = wim s /\ st = s)).
  { apply triple_gets. intros st ->. split; reflexivity. }
  intros w. apply triple_assume. intros ->.
  apply (triple_bind _ (fun _ st => ext st = ext s
                                    /\ started t0 v0 extract_flags st)).
  { apply triple_modify. intros st ->. split; [reflexivity |].
    split; [reflexivity |]. split; [reflexivity |].
    exists []. subst t0. cbn. rewrite app_nil_r.
    split; [reflexivity | constructor]. }
  intros _.
  apply (triple_bind _ (fun _ st => ext st = ext s
                                    /\ started t0 v0 extract_flags st)).
  { apply triple_outside; [| intros st Hst].
    - destruct (negb (is_null progress_func)); [| apply triple_pure; auto].
      apply triple_modify_stable; [apply started_stable |].
      intros st. apply inert_same; reflexivity.
    - destruct (negb (is_null progress_func)); exact Hst. }
  intros _.
  (* the operations *)
  apply (triple_bind _ (fun ops st =>
                          (ops = normal_apply_operations
                           \/ ops = ntfs_apply_operations)
                          /\ ext st = e1
                          /\ started t0 v0 extract_flags st)).
  { eapply triple_weaken;
      [ apply (triple_outside
                 (started t0 v0 extract_flags) _
                 (fun ops st => (ops = normal_apply_operations
                                 \/ ops = ntfs_apply_operations)
                                /\ started t0 v0 extract_flags st)
                 _ (ext s) e1);
        [ apply mount_step_started; intros st; apply Hbad; discriminate
        | intros st Hst ]
      | auto
      | intros a st (H1 & H2 & H3); auto ].
    subst e1.
    destruct (WITH_NTFS_3G X && _); [| exact Hst].
    cbv [bind pure Return ERROR modify]. rewrite Hst.
    destruct (x_ntfs_mount X target (ext s)) as [[|] e];
      cbn; [reflexivity | exact I]. }
  intros ops.
  apply triple_assume. intros Hops.
  assert (Hptr : ops_apply_dentry ops <> ptr_null)
    by (destruct Hops as [-> | ->]; discriminate).
  (* the root of the tree *)
  apply (triple_bind _
           (fun r st =>
              x_get_dentry X (current_image (wim s)) wim_source_path e1 = r
              /\ started t0 v0 extract_flags st)).
  { apply triple_gets. intros st [He H]. split; [| exact H].
    rewrite He. reflexivity. }
  intros [root |]; apply triple_assume; intros Hroot.
  2: { apply (triple_bind _ (fun _ => started t0 v0 extract_flags));
         [apply triple_message_stable, started_stable |].
       intros _. apply triple_goto. intros st _. apply Humount.
       reflexivity. }
  destruct (Htree root Hroot) as [Hplan Hnd].
  apply (triple_bind _ (fun _ => started t0 v0 extract_flags)).
  { apply triple_modify_stable; [apply started_stable |].
    intros st. apply inert_same; reflexivity. }
  intros _.
  apply (triple_bind _ (fun _ => started t0 v0 extract_flags)).
  { intros st H.
    destruct (x_calculate_dentry_tree_full_paths X root (ext st))
      as [r e2].
    cbn [fst snd].
    apply (started_stable t0 v0 extract_flags st); [exact H |].
    apply inert_same; reflexivity. }
  intros ret.
  apply (triple_bind _ (fun _ => started t0 v0 extract_flags)).
  { destruct (is_error ret) eqn:Eret; [| apply triple_pure; auto].
    apply triple_goto. intros st _. apply Humount, Eret. }
  intros _.
  (* the planner *)
  apply (triple_bind _ (fun streams st =>
                          ready t0 extract_flags root streams st)).
  { intros st [Hv [Hf Hu]].
    pose proof (planner_keeps_args root extract_flags st) as Hargs.
    destruct (planner_lists root extract_flags st)
      as [streams [st' [Hrun [Htr [Hmarks Hwithin]]]]].
    { destruct Hplan as [H1 [H2 H3]].
      split; [| split; assumption].
      intros d Hd. rewrite Hv. apply H1, Hd. }
    rewrite Hrun in Hargs |- *. cbn [fst snd] in *.
    split; [rewrite Hargs; exact Hf |].
    split; [destruct Hu as [evs [Ht Hno]]; exists evs; rewrite Htr;
            split; assumption |].
    split; [intros d Hd; apply (Hmarks d Hd) |].
    split; [| exact Hwithin].
    intros d l Hd Hu'. apply (Hmarks d Hd), Hu'. }
  intros stream_list.
  apply (triple_bind _ (fun _ => ready t0 extract_flags root stream_list)).
  { unfold calculate_bytes_to_extract.
    apply triple_modify_stable; [apply ready_stable |].
    intros st. cbv zeta. destruct (fold_left _ stream_list (0, 0)).
    apply inert_same; reflexivity. }
  intros _.
  assert (Hno_stdout : nonzero (Z.land extract_flags
                                  (WIMLIB_EXTRACT_FLAG_TO_STDOUT X))
                       = false) by (rewrite Hstdout; reflexivity).
  rewrite Hno_stdout.
  apply (triple_bind _ (fun _ => ready t0 extract_flags root stream_list));
    [apply triple_pure; auto |].
  intros _.
  apply (triple_bind _ (fun _ => ready t0 extract_flags root stream_list));
    [apply triple_report_stable, ready_stable |].
  intros _.
  (* the order of the streams *)
  apply (triple_bind _ (fun sorted st =>
                          ready t0 extract_flags root (fst sorted) st));
    [apply sort_step_ready, Hq |].
  intros sorted. cbv zeta.
  apply (triple_bind _ (fun _ => ready t0 extract_flags root (fst sorted)));
    [apply triple_report_stable, ready_stable |].
  intros _.
  (* the first pass *)
  apply (triple_bind _
           (fun _ st =>
              prepared t0 root (fst sorted) st /\
              apply_dentry (args st) <> ptr_null /\
              a_extract_flags (args st)
              = Z.lor extract_flags (WIMLIB_EXTRACT_FLAG_NO_STREAMS X))).
  { apply triple_modify. intros st [Hf Hprep].
    split; [exact Hprep |]. split; [exact Hptr |].
    cbn. rewrite Hf. reflexivity. }
  intros _.
  apply (triple_bind _
           (fun ret st =>
              is_error ret = false ->
              applying t0 (dentry_preorder root) st /\
              listed root (fst sorted) st /\
              apply_dentry (args st) <> ptr_null /\
              (forall d, In d (dentry_preorder root) ->
                         unnamed_of d = None ->
                         needs_extraction st (d_addr d) = false) /\
              exists evs, trace st = t0 ++ evs
                          /\ applied_dentries evs = first_applied root)).
  { apply triple_call. intros st [Hprep [Hp Hf]].
    apply (prepared_halfway t0 extract_flags root (fst sorted) st);
      assumption. }
  intros ret1.
  apply (triple_bind _
           (fun _ st => is_error ret1 = false ->
                        halfway t0 root (fst sorted) st)).
  { apply triple_modify. intros st H Hok.
    destruct (H Hok) as [Happ [Hl [Hp [Hnone Hfirst]]]].
    split; [exact Happ |]. split; [exact Hl |]. split; [exact Hp |].
    split; [| split; [exact Hnone | exact Hfirst]].
    cbn. rewrite <- Z.land_assoc, (Z.land_comm (Z.lnot _)),
           Z.land_lnot_diag. apply Z.land_0_r. }
  intros _.
  apply (triple_bind _ (fun _ => halfway t0 root (fst sorted))).
  { destruct (is_error ret1) eqn:E1.
    - apply triple_goto. intros st _. apply Hreset, E1.
    - apply triple_pure. intros st H. apply H. reflexivity. }
  intros _.
  apply (triple_bind _ (fun _ => halfway t0 root (fst sorted)));
    [apply triple_report_stable, halfway_stable |].
  intros _.
  apply (triple_bind _ (fun _ => halfway t0 root (fst sorted))).
  { destruct (nonzero (Z.land (snd sorted) (WIMLIB_EXTRACT_FLAG_RPFIX X)));
      [| apply triple_pure; auto].
    apply (triple_bind _ (fun _ => halfway t0 root (fst sorted)));
      [apply triple_gets; auto |].
    intros [path |].
    - apply triple_modify_stable; [apply halfway_stable |].
      intros st. apply inert_same; reflexivity.
    - apply triple_goto. intros st _. apply Hreset. reflexivity. }
  intros _.
  (* the second pass *)
  apply (triple_bind _
           (fun ret st => is_error ret = false -> all_applied t0 root st)).
  { apply triple_call. intros st Hhalf Hok.
    pose proof Hhalf as [Happ [[Hl Hw] [Hp [Hns _]]]].
    destruct (apply_stream_list_applying t0 (dentry_preorder root)
                (fst sorted) ops progress_func st Hw Happ Hp Hns Hok)
      as [Happ' [Hset Hdone]].
    apply (halfway_all_applied t0 root (fst sorted) st); try assumption.
    assert (Hgrow : adds (fun _ => True) st
                      (snd (apply_stream_list (fst sorted) ops
                              progress_func st)))
      by (apply apply_stream_list_adds; intros; exact I).
    destruct Hgrow as [more [Hmore _]]. exists more. exact Hmore. }
  intros ret2.
  apply (triple_bind _ (fun _ => all_applied t0 root)).
  { destruct (is_error ret2) eqn:E2.
    - apply triple_goto. intros st _. apply Hreset, E2.
    - apply triple_pure. intros st H. apply H. reflexivity. }
  intros _.
  apply (triple_bind _ (fun _ => all_applied t0 root));
    [apply triple_report_stable, all_applied_stable |].
  intros _.
  (* the timestamps *)
  apply (triple_bind _ (fun _ => all_applied t0 root)).
  { apply triple_call. intros st H.
    apply (all_applied_adds t0 root st); [exact H |].
    assert (Hstamp : fn_respects (adds no_apply)
                       (for_dentry_in_tree_depth root
                          (ops_apply_dentry_timestamps ops))).
    { apply visit_each_respects; [apply adds_refl | apply adds_trans |].
      intros d.
      destruct Hops as [-> | ->]; cbn [ops_apply_dentry_timestamps];
        [ apply apply_dentry_timestamps_normal_adds
        | apply apply_dentry_timestamps_ntfs_adds ];
        intros; exact eq_refl. }
    exact (Hstamp st). }
  intros ret3.
  apply (triple_bind _ (fun _ => all_applied t0 root)).
  { destruct (is_error ret3) eqn:E3.
    - apply triple_goto. intros st _. apply Hreset, E3.
    - apply triple_pure. auto. }
  intros _.
  apply (triple_bind _ (fun _ => all_applied t0 root));
    [apply triple_report_stable, all_applied_stable |].
  intros _.
  apply triple_goto. intros st H _.
  assert (Hfin : all_applied t0 root
                   (snd (out_free_target_realpath root (snd sorted) ret3
                           st))).
  { apply (all_applied_adds t0 root st); [exact H |].
    apply out_dentry_reset_needs_extraction_adds; intros; exact eq_refl. }
  destruct Hfin as [evs [rest [Ht [Hfirst Hperm]]]].
  exists root, evs, rest. split; [exact Hroot |].
  split; [exact Ht |]. split; assumption.
Qed.

(** The same for a sort that does what the C library promises, and for
    a tree that does not depend on the outside. *)
Lemma extract_tree_passes (wim_source_path target : list tchar)
    (extract_flags : Z) (progress_func : option wimlib_progress_func_t)
    (s : world) :
  let run := extract_tree wim_source_path target extract_flags
               progress_func s in
  Z.land extract_flags (WIMLIB_EXTRACT_FLAG_TO_STDOUT X) = 0 ->
  qsort_contract ->
  (forall e root,
      x_get_dentry X (current_image (wim s)) wim_source_path e = Some root ->
      plannable extract_flags root s /\ NoDup (tree_addrs root)) ->
  fst run = WIMLIB_ERR_SUCCESS ->
  exists root evs e rest,
    x_get_dentry X (current_image (wim s)) wim_source_path e = Some root /\
    trace (snd run) = trace s ++ evs /\
    applied_dentries evs = first_applied root ++ rest /\
    Permutation (applied_dentries evs) (tree_addrs root).
Proof.
  intros run Hstdout Hq Htree Hok.
  destruct (extract_tree_passes_at wim_source_path target extract_flags
              progress_func s Hstdout (or_intror Hq)
              (fun root => Htree _ root) Hok)
    as [root [evs [rest [Hroot H]]]].
  exists root, evs. eexists. exists rest. split; [exact Hroot | exact H].
Qed.

(** X19: a call of [extract_tree] without [TO_STDOUT] that returns success
    has applied every dentry of the tree at [wim_source_path] exactly
    once, and no other dentry: the addresses of the dentries handed to
    the backend ([do_apply_dentry] or [apply_dentry_ntfs]) during the
    call, in the order of the calls, are a permutation of the addresses of
    the dentries of the tree.  It is assumed that [qsort] keeps the
    elements of the array, that the dentries of the tree have distinct
    addresses, and that the tree is as the planner expects it (see C1). *)
Theorem extract_tree_applies_each_once (wim_source_path target : list tchar)
    (extract_flags : Z) (progress_func : option wimlib_progress_func_t)
    (s : world) :
  let run := extract_tree wim_source_path target extract_flags
               progress_func s in
  Z.land extract_flags (WIMLIB_EXTRACT_FLAG_TO_STDOUT X) = 0 ->
  qsort_contract ->
  (forall e root,
      x_get_dentry X (current_image (wim s)) wim_source_path e = Some root ->
      plannable extract_flags root s /\ NoDup (tree_addrs root)) ->
  fst run = WIMLIB_ERR_SUCCESS ->
  exists root evs e,
    x_get_dentry X (current_image (wim s)) wim_source_path e = Some root /\
    trace (snd run) = trace s ++ evs /\
    Permutation (applied_dentries evs) (tree_addrs root).
Proof.
  intros run Hstdout Hq Htree Hok.
  destruct (extract_tree_passes wim_source_path target extract_flags
              progress_func s Hstdout Hq Htree Hok)
    as [root [evs [e [rest [Hroot [Ht [_ Hperm]]]]]]].
  exists root, evs, e. split; [exact Hroot |]. split; assumption.
Qed.

(** X20: a successful [extract_tree] (without [TO_STDOUT]) applies the
    directories and the dentries without unnamed stream first, in the
    pre-order of the tree, so that a directory is applied before
    everything below it; the dentries it applies afterwards are all
    deferred ones: not directories, and with an unnamed stream.  The
    hypotheses are those of X19. *)
Theorem extract_tree_directories_first (wim_source_path target : list tchar)
    (extract_flags : Z) (progress_func : option wimlib_progress_func_t)
    (s : world) :
  let run := extract_tree wim_source_path target extract_flags
               progress_func s in
  Z.land extract_flags (WIMLIB_EXTRACT_FLAG_TO_STDOUT X) = 0 ->
  qsort_contract ->
  (forall e root,
      x_get_dentry X (current_image (wim s)) wim_source_path e = Some root ->
      plannable extract_flags root s /\ NoDup (tree_addrs root)) ->
  fst run = WIMLIB_ERR_SUCCESS ->
  exists root evs e rest,
    x_get_dentry X (current_image (wim s)) wim_source_path e = Some root /\
    trace (snd run) = trace s ++ evs /\
    applied_dentries evs
    = map d_addr (filter (fun d => negb (deferred d)) (dentry_preorder root))
      ++ rest /\
    (forall a, In a rest ->
               exists d, In d (dentry_preorder root) /\
                         deferred d = true /\ d_addr d = a).
Proof.
  intros run Hstdout Hq Htree Hok.
  destruct (extract_tree_passes wim_source_path target extract_flags
              progress_func s Hstdout Hq Htree Hok)
    as [root [evs [e [rest [Hroot [Ht [Hfirst Hperm]]]]]]].
  destruct (Htree e root Hroot) as [_ Hnd].
  exists root, evs, e, rest. split; [exact Hroot |].
  split; [exact Ht |]. split; [exact Hfirst |].
  intros a Ha.
  assert (Hnd' : NoDup (first_applied root ++ rest)).
  { rewrite <- Hfirst.
    eapply Permutation_NoDup; [apply Permutation_sym, Hperm | exact Hnd]. }
  assert (Hin : In a (tree_addrs root)).
  { eapply Permutation_in; [exact Hperm |].
    rewrite Hfirst. apply in_or_app. right. exact Ha. }
  unfold tree_addrs in Hin. apply in_map_iff in Hin.
  destruct Hin as [d [Hd Hdin]]. exists d.
  split; [exact Hdin |]. split; [| exact Hd].
  destruct (deferred d) eqn:Hdef; [reflexivity | exfalso].
  assert (Hf : In a (first_applied root)).
  { unfold first_applied. rewrite <- Hd. apply in_map, filter_In.
    split; [exact Hdin | rewrite Hdef; reflexivity]. }
  revert Hnd' Hf Ha. generalize (first_applied root).
  intros l Hl Hf Ha. induction l as [| x l IH]; [destruct Hf |].
  cbn [app] in Hl. apply NoDup_cons_iff in Hl. destruct Hl as [Hx Hl].
  destruct Hf as [-> | Hf]; [| apply IH; assumption].
  apply Hx, in_or_app. right. exact Ha.
Qed.

(** ** The timestamps

    The dentries an event sets the timestamps of, by address. *)
Definition stamped (e : event) : list nat :=
  match e with
  | Ev_do_apply_dentry_timestamps _ _ d _ => [d]
  | Ev_apply_dentry_timestamps_ntfs d _ => [d]
  | _ => []
  end.

Definition stamped_dentries (evs : list event) : list nat :=
  flat_map stamped evs.

Definition no_stamp (e : event) : Prop := stamped e = [].

Lemma stamped_dentries_app (a b : list event) :
  stamped_dentries (a ++ b) = stamped_dentries a ++ stamped_dentries b.
Proof. apply flat_map_app. Qed.

Lemma no_stamp_dentries (evs : list event) :
  Forall no_stamp evs -> stamped_dentries evs = [].
Proof.
  induction 1 as [| e evs He _ IH]; [reflexivity |].
  cbn [stamped_dentries flat_map]. rewrite He. exact IH.
Qed.

Lemma apply_dentry_timestamps_event (ops : apply_operations)
    (d : wim_dentry) (s : world) :
  ops = normal_apply_operations \/ ops = ntfs_apply_operations ->
  exists e,
    trace (snd (ops_apply_dentry_timestamps ops d s)) = trace s ++ [e] /\
    stamped e = [d_addr d] /\ applied e = [].
Proof.
  intros [-> | ->];
    unfold normal_apply_operations, ntfs_apply_operations;
    cbn [ops_apply_dentry_timestamps];
    unfold apply_dentry_timestamps_normal, do_apply_op,
      platform_do_apply_dentry_timestamps, apply_dentry_timestamps_ntfs,
      run_backend; cbv zeta.
  - destruct (negb (is_extract_root d (args s)));
      match goal with
      | |- context [let '(_, _) := ?x in _] => destruct x as [[ret c] e]
      end; eexists; cbn;
      (refine (conj eq_refl _); split; reflexivity).
  - match goal with
    | |- context [let '(_, _) := ?x in _] => destruct x as [[ret c] e]
    end; eexists; cbn;
      (refine (conj eq_refl _); split; reflexivity).
Qed.

(** The third pass sets the timestamps of the dentries in the order of
    the walk. *)
Lemma timestamps_pass (ops : apply_operations) (ds : list wim_dentry) :
  ops = normal_apply_operations \/ ops = ntfs_apply_operations ->
  forall s,
    let run := visit_each (ops_apply_dentry_timestamps ops) ds s in
    exists evs,
      trace (snd run) = trace s ++ evs /\
      applied_dentries evs = [] /\
      (is_error (fst run) = false ->
       stamped_dentries evs = map d_addr ds).
Proof.
  intros Hops. induction ds as [| d ds IH]; intros s; cbv zeta.
  - exists []. cbn. rewrite app_nil_r. repeat split.
  - cbn [visit_each map].
    destruct (apply_dentry_timestamps_event ops d s Hops)
      as [e [Ht [Hs Ha]]].
    destruct (ops_apply_dentry_timestamps ops d s) as [r s1].
    cbn [snd] in Ht. destruct (is_error r) eqn:Er.
    + exists [e]. cbn [fst snd]. split; [exact Ht |].
      split; [cbn; rewrite Ha; reflexivity | congruence].
    + specialize (IH s1). cbv zeta in IH.
      destruct IH as [evs [Ht' [Ha' Hs']]].
      exists (e :: evs). rewrite Ht', Ht, <- app_assoc.
      split; [reflexivity |]. split.
      * cbn [applied_dentries flat_map]. rewrite Ha. exact Ha'.
      * intros Hok. cbn [stamped_dentries flat_map]. rewrite Hs.
        cbn [app]. f_equal. apply Hs', Hok.
Qed.

(** Events of no backend: neither a dentry applied nor timestamps set. *)
Definition no_backend (e : event) : Prop := applied e = [] /\ stamped e = [].

(** *** Steps that add events of one kind

    [grown P t0 s]: since the trace was [t0], only events that satisfy
    [P] were added. *)
Section Grown.
Variable P : event -> Prop.
Variable t0 : list event.

Definition grown (s : world) : Prop :=
  exists evs, trace s = t0 ++ evs /\ Forall P evs.

Lemma grown_adds (s s' : world) : grown s -> adds P s s' -> grown s'.
Proof.
  intros [evs [Ht Hall]] [more [Ht' Hmore]]. exists (evs ++ more).
  rewrite Ht', Ht, app_assoc. split; [reflexivity |].
  apply Forall_app. split; assumption.
Qed.

End Grown.

(** A step that adds events of the kind [P] keeps an assertion that
    such events do not disturb. *)
Lemma triple_kept {A} (P : event -> Prop) (I : world -> Prop)
    (E : wimlib_error_code -> world -> Prop) (m : @block world A) :
  (forall s s', I s -> adds P s s' -> I s') ->
  respects (adds P) m ->
  (forall s, exists a, fst (m s) = Normal a) ->
  triple I m (fun _ => I) E.
Proof.
  intros Hkeep Hm Hn s H. destruct (Hn s) as [a Ha]. rewrite Ha.
  apply (Hkeep s); [exact H | apply Hm].
Qed.

Lemma triple_call_kept (P : event -> Prop) (I : world -> Prop)
    (E : wimlib_error_code -> world -> Prop) (f : @fn world) :
  (forall s s', I s -> adds P s s' -> I s') ->
  fn_respects (adds P) f ->
  triple I (call f) (fun _ => I) E.
Proof.
  intros Hkeep Hf. apply triple_call. intros s H.
  apply (Hkeep s); [exact H | apply Hf].
Qed.

(** The timestamps of the dentries of [root] were set, children first;
    none were set before, and no dentry has been applied since the first
    of them. *)
Definition stamped_last (t0 : list event) (root : wim_dentry) (s : world)
  : Prop :=
  exists before after,
    trace s = t0 ++ before ++ after /\
    stamped_dentries before = [] /\
    applied_dentries after = [] /\
    stamped_dentries after = map d_addr (dentry_postorder root).

Lemma stamped_last_adds (t0 : list event) (root : wim_dentry)
    (s s' : world) :
  stamped_last t0 root s -> adds no_backend s s' -> stamped_last t0 root s'.
Proof.
  intros [before [after [Ht [Hb [Ha Hs]]]]] [more [Ht' Hmore]].
  exists before, (after ++ more). rewrite Ht', Ht, <- !app_assoc.
  split; [reflexivity |]. split; [exact Hb |].
  rewrite applied_dentries_app, stamped_dentries_app, Ha, Hs.
  assert (H1 : applied_dentries more = []).
  { apply no_apply_dentries. eapply Forall_impl; [| exact Hmore].
    intros e [H _]. exact H. }
  assert (H2 : stamped_dentries more = []).
  { apply no_stamp_dentries. eapply Forall_impl; [| exact Hmore].
    intros e [_ H]. exact H. }
  rewrite H1, H2, !app_nil_r. split; reflexivity.
Qed.

(** Splits a goal [triple U m (fun _ => U) E] along the structure of [m]
    when the assertion [U] stays the same; [leaf] is tried on the steps
    first. *)
Ltac triple_split leaf :=
  repeat first
    [ leaf
    | match goal with
      | |- triple _ (pure _) _ _ => apply triple_pure; intros ?s ?H; exact H
      | |- triple _ (gets _) _ _ => apply triple_gets; intros ?s ?H; exact H
      | |- triple ?U (bind _ _) _ _ =>
          apply (triple_bind U (fun _ => U)); [| intros ?]
      | |- triple _ (when _ _) _ _ => unfold when
      | |- triple _ (if ?c then _ else _) _ _ => destruct c eqn:?
      | |- triple _ (match ?x with _ => _ end) _ _ => destruct x eqn:?
      end ].

(** The steps of [extract_tree] under an assertion that the events of
    the kind [P] do not disturb: [keep] shows that they do not, [kind]
    that the events of a step are of that kind, [exit] that the function
    may leave where it does. *)
Ltac kept_leaf keep exit kind :=
  idtac;
  match goal with
  | |- triple _ (ERROR _) _ _ =>
      eapply triple_kept;
      [ keep | apply ERROR_adds; intros; kind
      | intros ?s; eexists; reflexivity ]
  | |- triple _ (WARNING _) _ _ =>
      eapply triple_kept;
      [ keep | apply WARNING_adds; intros; kind
      | intros ?s; eexists; reflexivity ]
  | |- triple _ (call_progress _ _) _ _ =>
      eapply triple_kept;
      [ keep | apply call_progress_adds; intros; kind
      | intros ?s; eexists; reflexivity ]
  | |- triple _ (sort_stream_list_by_wim_position _) _ _ =>
      unfold sort_stream_list_by_wim_position; cbv zeta
  | |- triple _ (find_streams_for_extraction _ _) _ _ =>
      eapply triple_kept;
      [ keep | apply planner_adds | apply planner_normal ]
  | |- triple _ (calculate_bytes_to_extract _ _) _ _ =>
      eapply triple_kept;
      [ keep | apply calculate_bytes_adds
      | intros ?s; eexists; reflexivity ]
  | |- triple _ (modify _) _ _ =>
      apply triple_modify; intros ?s ?H; exact H
  | |- triple _ (Return _) _ _ =>
      apply triple_Return; intros ?s ?H; solve [exit]
  | |- triple _ (goto _) _ _ =>
      apply triple_goto; intros ?s ?H; solve [exit]
  | |- triple _ (call (for_dentry_in_tree _ maybe_apply_dentry)) _ _ =>
      eapply triple_call_kept; [keep |];
      apply visit_each_respects;
      [ apply adds_refl | apply adds_trans
      | intros ?d; apply maybe_apply_dentry_adds; intros; kind ]
  | |- triple _ (call (apply_stream_list _ _ _)) _ _ =>
      eapply triple_call_kept; [keep |];
      apply apply_stream_list_adds; intros; kind
  | |- triple _ (fun s => let (_, _) := _ in _) _ _ =>
      eapply triple_kept;
      [ keep
      | intros ?s;
        match goal with
        | |- context [let (_, _) := ?x in _] => destruct x
        end;
        first [ apply adds_same; reflexivity
              | apply adds_log; [apply adds_same; reflexivity | kind] ]
      | intros ?s;
        match goal with
        | |- context [let (_, _) := ?x in _] => destruct x
        end; eexists; reflexivity ]
  end.

(** X21: a successful [extract_tree] (without [TO_STDOUT]) sets the
    timestamps of every dentry of the tree exactly once, in the
    post-order of the tree, so that the timestamps of a directory are set
    after those of everything below it; no timestamps are set before, and
    once the first timestamps are set no dentry is applied any more. *)
Theorem extract_tree_timestamps_last (wim_source_path target : list tchar)
    (extract_flags : Z) (progress_func : option wimlib_progress_func_t)
    (s : world) :
  let run := extract_tree wim_source_path target extract_flags
               progress_func s in
  Z.land extract_flags (WIMLIB_EXTRACT_FLAG_TO_STDOUT X) = 0 ->
  fst run = WIMLIB_ERR_SUCCESS ->
  exists root e before after,
    x_get_dentry X (current_image (wim s)) wim_source_path e = Some root /\
    trace (snd run) = trace s ++ before ++ after /\
    stamped_dentries before = [] /\
    applied_dentries after = [] /\
    stamped_dentries after = map d_addr (dentry_postorder root).
Proof.
  intros run Hstdout. subst run.
  set (E := fun (r : wimlib_error_code) (s' : world) =>
              r = WIMLIB_ERR_SUCCESS ->
              exists root e before after,
                x_get_dentry X (current_image (wim s)) wim_source_path e
                = Some root /\
                trace s' = trace s ++ before ++ after /\
                stamped_dentries before = [] /\
                applied_dentries after = [] /\
                stamped_dentries after
                = map d_addr (dentry_postorder root)).
  change (E (fst (extract_tree wim_source_path target extract_flags
                    progress_func s))
            (snd (extract_tree wim_source_path target extract_flags
                    progress_func s))).
  assert (Hbad : forall r s', r <> WIMLIB_ERR_SUCCESS -> E r s')
    by (intros r s' H1 H2; contradiction).
  assert (Humount : forall flags ret st,
             is_error ret = true ->
             E (fst (out_ntfs_umount flags ret st))
               (snd (out_ntfs_umount flags ret st))).
  { intros flags ret st Hret. apply Hbad. intros H.
    apply out_ntfs_umount_success in H. subst ret. discriminate. }
  assert (Hreset : forall root flags ret st,
             is_error ret = true ->
             E (fst (out_dentry_reset_needs_extraction root flags ret st))
               (snd (out_dentry_reset_needs_extraction root flags ret st))).
  { intros root flags ret st Hret. apply Hbad. intros H.
    apply out_reset_success in H. subst ret. discriminate. }
  assert (Hno_stdout : nonzero (Z.land extract_flags
                                  (WIMLIB_EXTRACT_FLAG_TO_STDOUT X))
                       = false) by (rewrite Hstdout; reflexivity).
  unfold extract_tree. rewrite Hno_stdout.
  apply (triple_body (fun st => st = s)); [| reflexivity].
  set (t0 := trace s).
  pose (U := grown no_stamp t0).
  assert (Hstart : U s).
  { exists []. subst t0. rewrite app_nil_r.
    split; [reflexivity | constructor]. }
  apply (triple_bind _ (fun w st => w = wim s /\ U st)).
  { apply triple_gets. intros st ->. split; [reflexivity | exact Hstart]. }
  intros w. apply triple_assume. intros ->.
  do 2 (apply (triple_bind _ (fun _ => U));
        [ triple_split
            ltac:(kept_leaf ltac:(apply grown_adds)
                    ltac:(first [ apply Humount | apply Hreset
                                | apply Hbad; discriminate ];
                          first [assumption | reflexivity])
                    ltac:(exact eq_refl))
        | intros _ ]).
  (* the operations *)
  apply (triple_bind _ (fun ops st => (ops = normal_apply_operations
                                       \/ ops = ntfs_apply_operations)
                                      /\ U st)).
  { destruct (WITH_NTFS_3G X && _);
      [| apply triple_pure; intros st H; split; [left; reflexivity | exact H]].
    apply (triple_bind _ (fun _ => U)); [| intros ok].
    { kept_leaf ltac:(apply grown_adds) ltac:(fail) ltac:(exact eq_refl). }
    apply (triple_bind _ (fun _ => U)); [| intros _].
    { triple_split
        ltac:(kept_leaf ltac:(apply grown_adds)
                        ltac:(apply Hbad; discriminate)
                         ltac:(exact eq_refl)). }
    apply triple_pure. intros st H. split; [right; reflexivity | exact H]. }
  intros ops. apply triple_assume. intros Hops.
  (* the root of the tree *)
  apply (triple_bind _
           (fun r st =>
              (exists e, x_get_dentry X (current_image (wim s))
                           wim_source_path e = r)
              /\ U st)).
  { apply triple_gets. intros st H. split; [eexists; reflexivity | exact H]. }
  intros [root |]; apply triple_assume; intros [e0 Hroot];
    [| triple_split
         ltac:(kept_leaf ltac:(apply grown_adds)
                         ltac:(apply Humount; reflexivity)
                          ltac:(exact eq_refl)) ].
  (* up to the third pass *)
  repeat (apply (triple_bind _ (fun _ => U));
          [ solve [ triple_split
                      ltac:(kept_leaf ltac:(apply grown_adds)
                              ltac:(first [apply Humount | apply Hreset];
                                    first [assumption | reflexivity])
                              ltac:(exact eq_refl)) ]
          | intros ? ]; cbv zeta).
  (* the third pass *)
  apply (triple_bind _ (fun ret st => is_error ret = false
                                      -> stamped_last t0 root st)).
  { apply triple_call. intros st [evs [Ht Hno]] Hok.
    destruct (timestamps_pass ops (dentry_postorder root) Hops st)
      as [stamps [Ht' [Ha Hs]]].
    unfold for_dentry_in_tree_depth in *.
    exists evs, stamps. rewrite Ht', Ht, <- app_assoc.
    split; [reflexivity |]. split; [apply no_stamp_dentries, Hno |].
    split; [exact Ha | apply Hs, Hok]. }
  intros ret.
  apply (triple_bind _ (fun _ => stamped_last t0 root)).
  { destruct (is_error ret) eqn:Eret.
    - apply triple_goto. intros st _. apply Hreset, Eret.
    - apply triple_pure. intros st H. apply H. reflexivity. }
  intros _.
  apply (triple_bind _ (fun _ => stamped_last t0 root)).
  { destruct progress_func as [f |]; [| apply triple_pure; auto].
    intros st H. cbn. apply (stamped_last_adds t0 root st); [exact H |].
    eexists [_]. split; [reflexivity |]. repeat constructor. }
  intros _.
  apply triple_goto. intros st H _.
  match goal with
  | |- context [out_free_target_realpath root ?f ret st] =>
      assert (Hfin : stamped_last t0 root
                       (snd (out_free_target_realpath root f ret st)))
  end.
  { apply (stamped_last_adds t0 root st); [exact H |].
    apply out_dentry_reset_needs_extraction_adds; intros; split;
      reflexivity. }
  destruct Hfin as [before [after [Ht [Hb [Ha Hs]]]]].
  exists root, e0, before, after. repeat split; assumption.
Qed.

(** ** Extraction to standard output, whatever the root

    What [extract_tree] has put on standard output when it returns [r]:
    nothing, or the unnamed stream of the root, a regular file, once and
    whole. *)
Definition printed (wim_source_path : list tchar) (image : Z)
    (t0 : list event) (r : wimlib_error_code) (s' : world) : Prop :=
  exists before after,
    Forall no_output before /\ Forall no_output after /\
    (trace s' = t0 ++ before ++ after \/
     exists root e l ret,
       x_get_dentry X image wim_source_path e = Some root /\
       dentry_is_regular_file X root = true /\
       unnamed_of root = Some l /\
       trace s' = t0 ++ before
                     ++ Ev_extract_to_stdout l
                          (wim_resource_size X (lte_at X l)) ret
                     :: after /\
       (is_error ret = true -> r = ret)).

Lemma grown_printed (wim_source_path : list tchar) (image : Z)
    (t0 : list event) (r : wimlib_error_code) (s s' : world) :
  grown no_output t0 s -> adds no_output s s' ->
  printed wim_source_path image t0 r s'.
Proof.
  intros H Hadds.
  destruct (grown_adds no_output t0 s s' H Hadds) as [evs [Ht Hall]].
  exists evs, []. rewrite app_nil_r.
  split; [exact Hall |]. split; [constructor | left; exact Ht].
Qed.

Lemma extract_dentry_to_stdout_prints (root : wim_dentry) (s : world) :
  let run := extract_dentry_to_stdout root s in
  adds no_output s (snd run) \/
  exists l,
    dentry_is_regular_file X root = true /\
    unnamed_of root = Some l /\
    trace (snd run)
    = trace s ++ [Ev_extract_to_stdout l (wim_resource_size X (lte_at X l))
                    (fst run)].
Proof.
  cbv zeta. unfold extract_dentry_to_stdout, unnamed_of.
  cbv [body bind ERROR modify pure].
  destruct (dentry_is_regular_file X root); cbn [negb].
  - destruct (inode_unnamed_lte_resolved X (inode_at X (d_inode root)))
      as [l |]; [| left; apply adds_refl].
    right. exists l.
    destruct (x_extract_wim_resource_to_fd X l _ (ext s)) as [ret e].
    cbn. repeat split.
  - left. cbn. eexists [_]. split; [reflexivity | repeat constructor].
Qed.

(** X22: with [TO_STDOUT], [extract_tree] hands nothing to a backend, sets
    no timestamps and reports no progress, on any path: besides messages
    and the mounting and unmounting of the volume, all it does is to
    write at most one stream to standard output, and that is the unnamed
    stream of the root of the tree, which is then a regular file, in its
    whole size; when that write fails, its error is the result. *)
Theorem extract_tree_to_stdout (wim_source_path target : list tchar)
    (extract_flags : Z) (progress_func : option wimlib_progress_func_t)
    (s : world) :
  let run := extract_tree wim_source_path target extract_flags
               progress_func s in
  nonzero (Z.land extract_flags (WIMLIB_EXTRACT_FLAG_TO_STDOUT X)) = true ->
  printed wim_source_path (current_image (wim s)) (trace s)
          (fst run) (snd run).
Proof.
  intros run Hstdout. subst run.
  set (t0 := trace s).
  set (E := printed wim_source_path (current_image (wim s)) t0).
  pose (U := grown no_output t0).
  assert (HE : forall r st, U st -> E r st).
  { intros r st H. apply (grown_printed _ _ t0 r st st H), adds_refl. }
  assert (Humount : forall flags ret st,
             U st ->
             E (fst (out_ntfs_umount flags ret st))
               (snd (out_ntfs_umount flags ret st))).
  { intros flags ret st H. apply (grown_printed _ _ t0 _ st); [exact H |].
    apply out_ntfs_umount_adds; intros; exact I. }
  assert (Hstart : U s).
  { exists []. subst t0. rewrite app_nil_r.
    split; [reflexivity | constructor]. }
  unfold extract_tree. rewrite Hstdout.
  apply (triple_body (fun st => st = s)); [| reflexivity].
  apply (triple_bind _ (fun w st => w = wim s /\ U st)).
  { apply triple_gets. intros st ->. split; [reflexivity | exact Hstart]. }
  intros w. apply triple_assume. intros ->.
  do 2 (apply (triple_bind _ (fun _ => U));
        [ triple_split
            ltac:(kept_leaf ltac:(apply grown_adds) ltac:(fail) ltac:(exact I))
        | intros _ ]).
  (* the operations *)
  apply (triple_bind _ (fun _ => U)); [| intros ops].
  { triple_split
      ltac:(kept_leaf ltac:(apply grown_adds) ltac:(apply HE; assumption) ltac:(exact I)). }
  (* the root of the tree *)
  apply (triple_bind _
           (fun r st =>
              (exists e, x_get_dentry X (current_image (wim s))
                           wim_source_path e = r)
              /\ U st)).
  { apply triple_gets. intros st H. split; [eexists; reflexivity | exact H]. }
  intros [root |]; apply triple_assume; intros [e0 Hroot];
    [| triple_split
         ltac:(kept_leaf ltac:(apply grown_adds) ltac:(apply Humount; assumption)
                          ltac:(exact I)) ].
  repeat (apply (triple_bind _ (fun _ => U));
          [ solve [ triple_split
                      ltac:(kept_leaf ltac:(apply grown_adds) ltac:(apply Humount; assumption)
                                       ltac:(exact I)) ]
          | intros ? ]; cbv zeta).
  (* the stream of the root *)
  apply (triple_bind _ (fun _ _ => False)); [| intros ? st []].
  intros st HU. unfold bind, call, goto.
  pose proof (extract_dentry_to_stdout_prints root st) as Hp.
  cbv zeta in Hp.
  destruct (extract_dentry_to_stdout root st) as [ret st1].
  cbn [fst snd] in Hp.
  assert (Hr : adds no_output st1
                 (snd (out_dentry_reset_needs_extraction root extract_flags
                         ret st1)))
    by (apply out_dentry_reset_needs_extraction_adds; intros; exact I).
  pose proof (out_dentry_reset_meek root extract_flags ret st1) as Hm.
  destruct (out_dentry_reset_needs_extraction root extract_flags ret st1)
    as [r2 st2].
  cbn [fst snd] in *.
  destruct Hp as [Hquiet | [l [Hreg [Hu Ht]]]].
  - apply (grown_printed _ _ t0 r2 st st2 HU).
    eapply adds_trans; eassumption.
  - destruct HU as [evs [Ht0 Hall]]. destruct Hr as [more [Htm Hmore]].
    exists evs, more. split; [exact Hall |]. split; [exact Hmore |].
    right. exists root, e0, l, ret.
    split; [exact Hroot |]. split; [exact Hreg |]. split; [exact Hu |].
    split; [| intros Hret; apply Hm, Hret].
    rewrite Htm, Ht, Ht0, <- !app_assoc. reflexivity.
Qed.

(** ** The reports of progress are made as soon as they are due *)

(** The loop of [apply_stream_list] over a list of dentries is the loop
    over its first part followed by the loop over the rest. *)
Lemma apply_stream_dentries_app (a b : list wim_dentry)
    (progress_func : option wimlib_progress_func_t)
    (bytes_per_progress : Z) :
  forall next_progress s,
    apply_stream_dentries (a ++ b) progress_func bytes_per_progress
      next_progress s
    = match apply_stream_dentries a progress_func bytes_per_progress
              next_progress s with
      | (Normal next, s1) =>
          apply_stream_dentries b progress_func bytes_per_progress next s1
      | (Returned r, s1) => (Returned r, s1)
      end.
Proof.
  induction a as [| d a IH]; intros next s; [reflexivity |].
  cbn [app apply_stream_dentries]. cbv [bind call when Return pure gets].
  destruct (maybe_apply_dentry d s) as [ret s1].
  destruct (is_error ret); [reflexivity |].
  destruct progress_func as [f |]; [| apply IH].
  destruct (next <=? completed_bytes (progress (args s1))); [| apply IH].
  cbv [call_progress]. cbn [args log with_ext progress].
  destruct (total_bytes (progress (args s1))
            <=? completed_bytes (progress (args s1))); apply IH.
Qed.

(** The loop leaves the lists of dentries as they are. *)
Lemma apply_stream_dentries_keeps_lists (dentries : list wim_dentry)
    (progress_func : option wimlib_progress_func_t)
    (bytes_per_progress : Z) :
  forall next_progress s,
    lte_dentry_list
      (snd (apply_stream_dentries dentries progress_func
              bytes_per_progress next_progress s))
    = lte_dentry_list s.
Proof.
  induction dentries as [| d rest IH]; intros next s; [reflexivity |].
  cbn [apply_stream_dentries]. cbv [bind call when Return pure gets].
  pose proof (maybe_apply_dentry_quiet d s) as [Hl _].
  destruct (maybe_apply_dentry d s) as [ret s1]. cbn [snd] in Hl.
  destruct (is_error ret); [exact Hl |].
  destruct progress_func as [f |]; [| rewrite IH; exact Hl].
  destruct (next <=? completed_bytes (progress (args s1)));
    [| rewrite IH; exact Hl].
  cbv [call_progress]. cbn [args log with_ext progress].
  destruct (total_bytes (progress (args s1))
            <=? completed_bytes (progress (args s1)));
    rewrite IH; exact Hl.
Qed.

(** The two loops of [apply_stream_list] are one loop over the dentries
    that stand under the descriptors of the list, taken in order. *)
Lemma apply_streams_flat (streams : list lte_ptr)
    (progress_func : option wimlib_progress_func_t)
    (bytes_per_progress : Z) :
  forall next_progress s,
    apply_streams streams progress_func bytes_per_progress next_progress s
    = apply_stream_dentries (flat_map (lte_dentry_list s) streams)
        progress_func bytes_per_progress next_progress s.
Proof.
  induction streams as [| l rest IH]; intros next s; [reflexivity |].
  cbn [apply_streams flat_map]. cbv [bind gets].
  rewrite apply_stream_dentries_app.
  pose proof (apply_stream_dentries_keeps_lists (lte_dentry_list s l)
                progress_func bytes_per_progress next s) as Hl.
  destruct (apply_stream_dentries (lte_dentry_list s l) progress_func
              bytes_per_progress next s) as [[next1 | r] s1];
    [| reflexivity].
  cbn [snd] in Hl. rewrite IH, Hl. reflexivity.
Qed.

(** No report is overdue in [s]: the bytes completed are below the
    threshold [next], or they are what the last report said. *)
Definition up_to_date (s0 : world) (next : Z) (s : world) : Prop :=
  completed_bytes (progress (args s)) < next \/
  exists evs l,
    trace s = trace s0 ++ evs /\
    streams_infos evs = l ++ [progress (args s)].

(** One turn of the loop. *)
Lemma apply_stream_dentry_prompt (s0 : world) (f : wimlib_progress_func_t)
    (d : wim_dentry) (next : Z) (s : world) :
  let bpp := total_bytes (progress (args s0)) / 100 in
  0 <= total_bytes (progress (args s0)) ->
  loop_inv s0 next s ->
  match apply_stream_dentries [d] (Some f) bpp next s with
  | (Normal next', s') => loop_inv s0 next' s' /\ up_to_date s0 next' s'
  | (Returned r, s') => True
  end.
Proof.
  intros bpp Htotal Hinv.
  pose proof (dentries_loop s0 f Htotal [d] next s false Hinv
                ltac:(discriminate)) as Hloop.
  fold bpp in Hloop. revert Hloop.
  cbn [apply_stream_dentries]. cbv [bind call when Return pure gets].
  pose proof (maybe_apply_dentry_quiet d s) as Hq.
  destruct (maybe_apply_dentry d s) as [ret s1]. cbn [snd] in Hq.
  destruct (is_error ret); [intros _; exact I |].
  destruct (Z.leb_spec next (completed_bytes (progress (args s1))))
    as [Hle | Hgt].
  - cbv [call_progress]. cbn [args log with_ext progress].
    destruct (total_bytes (progress (args s1))
              <=? completed_bytes (progress (args s1)));
      intros [Hinv' _]; (split; [exact Hinv' |]); right;
      destruct (loop_inv_quiet s0 _ _ _ Hinv Hq)
        as [_ [_ [evs [Htr _]]]];
      exists (evs ++ [Ev_progress WIMLIB_PROGRESS_MSG_EXTRACT_STREAMS
                        (progress (args s1))]), (streams_infos evs);
      cbn [trace log with_ext args progress];
      rewrite Htr, app_assoc, streams_infos_app;
      split; reflexivity.
  - intros [Hinv' _]. split; [exact Hinv' |]. left. exact Hgt.
Qed.

(** After any number of turns. *)
Lemma apply_stream_dentries_prompt (s0 : world)
    (f : wimlib_progress_func_t) (dentries : list wim_dentry) :
  let bpp := total_bytes (progress (args s0)) / 100 in
  0 <= total_bytes (progress (args s0)) ->
  match apply_stream_dentries dentries (Some f) bpp bpp s0 with
  | (Normal next, s1) =>
      loop_inv s0 next s1 /\ (dentries <> [] -> up_to_date s0 next s1)
  | (Returned r, s1) => True
  end.
Proof.
  intros bpp Htotal.
  assert (Hinv : loop_inv s0 bpp s0).
  { split; [reflexivity |]. split; [reflexivity |].
    exists []. rewrite app_nil_r. repeat split. constructor. }
  destruct dentries as [| d0 ds0] eqn:E.
  { cbn. split; [exact Hinv | intros H; contradiction]. }
  assert (Hne : d0 :: ds0 <> []) by discriminate.
  destruct (exists_last Hne) as [init [d E2]]. rewrite E2.
  rewrite apply_stream_dentries_app.
  pose proof (dentries_loop s0 f Htotal init bpp s0 false Hinv
                ltac:(discriminate)) as Hloop.
  fold bpp in Hloop.
  destruct (apply_stream_dentries init (Some f) bpp bpp s0)
    as [[next1 | r] s1]; [| exact I].
  destruct Hloop as [Hinv1 _].
  pose proof (apply_stream_dentry_prompt s0 f d next1 s1 Htotal Hinv1)
    as Hstep.
  cbv zeta in Hstep. fold bpp in Hstep.
  destruct (apply_stream_dentries [d] (Some f) bpp next1 s1)
    as [[next2 | r] s2]; [| exact I].
  destruct Hstep as [Hinv2 Hup]. split; [exact Hinv2 | intros _; exact Hup].
Qed.

(** C5, as the code has it.  In [apply_stream_list] with a progress
    function: every [EXTRACT_STREAMS] report is made with the bytes
    completed at or above the threshold in force, which is one hundredth
    of the total at first and after a report one hundredth of the total
    beyond the bytes that report gave (the total at most), no report being
    due any more once one has said the extraction is complete.  A report
    that is due is made at once: after any number of the dentries that
    stand under the descriptors of the list (the loop over the first
    dentries [handled]), the loop has returned the error of a backend, or
    the bytes completed are below the threshold in force, or they are
    what the last report said.  So when the function succeeds after at
    least one dentry and the bytes completed have reached the total, a
    report saying so has been made; and when no dentry stands under any
    descriptor of the list, nothing is reported at all. *)
Theorem apply_stream_list_progress
    (stream_list : list lte_ptr) (ops : apply_operations)
    (f : wimlib_progress_func_t) (s : world) :
  let total := total_bytes (progress (args s)) in
  let bpp := total / 100 in
  let r := apply_stream_list stream_list ops (Some f) s in
  0 <= total ->
  exists evs,
    trace (snd r) = trace s ++ evs /\
    spaced bpp bpp (streams_infos evs) /\
    (forall handled rest,
        flat_map (lte_dentry_list s) stream_list = handled ++ rest ->
        match apply_stream_dentries handled (Some f) bpp bpp s with
        | (Normal next, s1) =>
            exists evs1 evs2,
              trace s1 = trace s ++ evs1 /\ evs = evs1 ++ evs2 /\
              next = last_threshold bpp bpp (streams_infos evs1) /\
              (handled <> [] ->
               completed_bytes (progress (args s1)) < next \/
               exists l, streams_infos evs1 = l ++ [progress (args s1)])
        | (Returned ret, s1) => r = (ret, s1)
        end) /\
    (fst r = WIMLIB_ERR_SUCCESS ->
     (exists l, In l stream_list /\ lte_dentry_list s l <> []) ->
     total <= completed_bytes (progress (args (snd r))) ->
     exists i, In i (streams_infos evs) /\
               total_bytes i <= completed_bytes i) /\
    ((forall l, In l stream_list -> lte_dentry_list s l = []) ->
     evs = []).
Proof.
  intros total bpp r Htotal.
  destruct (progress_spacing stream_list ops f s Htotal)
    as [evs [Ht [Hsp [Hdone Hnone]]]].
  fold total bpp r in Ht, Hsp, Hdone, Hnone.
  exists evs. split; [exact Ht |]. split; [exact Hsp |].
  split; [| split; assumption].
  intros handled rest Hsplit.
  assert (Hr : r = match apply_stream_dentries (handled ++ rest) (Some f)
                           bpp bpp s with
                   | (Normal _, s') => (WIMLIB_ERR_SUCCESS, s')
                   | (Returned ret, s') => (ret, s')
                   end).
  { subst r. unfold apply_stream_list. cbv [body bind gets pure].
    fold total bpp. rewrite apply_streams_flat, Hsplit.
    destruct (apply_stream_dentries (handled ++ rest) (Some f) bpp bpp s)
      as [[n | ret] s']; reflexivity. }
  rewrite apply_stream_dentries_app in Hr.
  pose proof (apply_stream_dentries_prompt s f handled Htotal) as Hp.
  cbv zeta in Hp. fold total bpp in Hp.
  destruct (apply_stream_dentries handled (Some f) bpp bpp s)
    as [[next | ret] s1]; [| exact Hr].
  destruct Hp as [[_ [_ [evs1 [Ht1 [_ [Hnext _]]]]]] Hup].
  destruct (apply_stream_dentries_adds (fun _ => True)
              (fun _ _ => I) (fun _ _ _ _ => I) (fun _ _ => I)
              rest (Some f) bpp next s1) as [evs2 [Ht2 _]].
  exists evs1, evs2. split; [exact Ht1 |]. split; [| split; [exact Hnext |]].
  - apply (app_inv_head (trace s)). rewrite <- Ht, Hr, app_assoc, <- Ht1.
    destruct (apply_stream_dentries rest (Some f) bpp next s1)
      as [[n | ret] s']; exact Ht2.
  - intros Hne. destruct (Hup Hne) as [Hlt | [evs' [l [Ht' Hl]]]];
      [left; exact Hlt | right].
    exists l. rewrite Ht1 in Ht'. apply app_inv_head in Ht'. subst evs'.
    exact Hl.
Qed.

(** ** The fall-back from a sequential extraction, by itself *)

(** [l] is [l'] with some of its elements left out. *)
Inductive subsequence {A : Type} : list A -> list A -> Prop :=
| subsequence_nil : forall l, subsequence [] l
| subsequence_take :
    forall x l l', subsequence l l' -> subsequence (x :: l) (x :: l')
| subsequence_skip :
    forall x l l', subsequence l l' -> subsequence l (x :: l').

Lemma subsequence_app {A : Type} (a a' b b' : list A) :
  subsequence a a' -> subsequence b b' -> subsequence (a ++ b) (a' ++ b').
Proof.
  intros Ha Hb. induction Ha as [l | x l l' _ IH | x l l' _ IH];
    cbn [app].
  - induction l as [| y l IH]; [exact Hb |].
    cbn [app]. apply subsequence_skip, IH.
  - apply subsequence_take, IH.
  - apply subsequence_skip, IH.
Qed.

(** From [s] to [s'] the lists of dentries and the planner's stream list
    have stayed as they were, and the dentries applied, in the order of
    the calls, are some of [ds], in the order of [ds]. *)
Definition applies (ds : list nat) (s s' : world) : Prop :=
  lte_dentry_list s' = lte_dentry_list s /\
  ctx s' = ctx s /\
  exists evs,
    trace s' = trace s ++ evs /\ subsequence (applied_dentries evs) ds.

Lemma applies_refl (s : world) : applies [] s s.
Proof.
  split; [reflexivity |]. split; [reflexivity |].
  exists []. split; [symmetry; apply app_nil_r | constructor].
Qed.

Lemma applies_trans (a b : list nat) (s1 s2 s3 : world) :
  applies a s1 s2 -> applies b s2 s3 -> applies (a ++ b) s1 s3.
Proof.
  intros [Hl1 [Hc1 [e1 [Ht1 Hs1]]]] [Hl2 [Hc2 [e2 [Ht2 Hs2]]]].
  split; [congruence |]. split; [congruence |].
  exists (e1 ++ e2). rewrite Ht2, Ht1, app_assoc.
  split; [reflexivity |].
  rewrite applied_dentries_app. apply subsequence_app; assumption.
Qed.

Lemma applies_none_trans (s1 s2 s3 : world) :
  applies [] s1 s2 -> applies [] s2 s3 -> applies [] s1 s3.
Proof. apply (applies_trans [] []). Qed.

Lemma applies_more (a b c : list nat) (s s' : world) :
  applies b s s' -> applies (a ++ b ++ c) s s'.
Proof.
  intros [Hl [Hc [evs [Ht Hs]]]].
  split; [exact Hl |]. split; [exact Hc |].
  exists evs. split; [exact Ht |].
  change (applied_dentries evs) with ([] ++ applied_dentries evs).
  apply subsequence_app; [constructor |].
  rewrite <- (app_nil_r (applied_dentries evs)).
  apply subsequence_app; [exact Hs | constructor].
Qed.

(** A step that changes neither the lists nor the planner's context and
    adds events that apply no dentry. *)
Lemma applies_adds (s s' : world) :
  lte_dentry_list s' = lte_dentry_list s -> ctx s' = ctx s ->
  adds no_apply s s' -> applies [] s s'.
Proof.
  intros Hl Hc [evs [Ht Hno]].
  split; [exact Hl |]. split; [exact Hc |].
  exists evs. split; [exact Ht |].
  rewrite (no_apply_dentries evs Hno). constructor.
Qed.

Lemma applies_same (s s' : world) :
  lte_dentry_list s' = lte_dentry_list s -> ctx s' = ctx s ->
  trace s' = trace s -> applies [] s s'.
Proof.
  intros Hl Hc Ht. apply applies_adds; [exact Hl | exact Hc |].
  apply adds_same, Ht.
Qed.

Lemma applies_log (e : event) (s s' : world) :
  no_apply e ->
  lte_dentry_list s' = lte_dentry_list s -> ctx s' = ctx s ->
  trace s' = trace s ++ [e] -> applies [] s s'.
Proof.
  intros He Hl Hc Ht. apply applies_adds; [exact Hl | exact Hc |].
  exists [e]. split; [exact Ht | repeat constructor; exact He].
Qed.

Lemma applies_one (d : nat) (s s' : world) :
  applies [] s s' -> applies [d] s s'.
Proof. intros H. apply (applies_more [] [] [d]), H. Qed.

Lemma run_backend_applies (r : wimlib_error_code * Z * ext_state)
    (ev : wimlib_error_code -> event) (ds : list nat) (s : world) :
  (forall ret, subsequence (applied (ev ret)) ds) ->
  applies ds s (snd (run_backend r ev s)).
Proof.
  intros Hev. destruct r as [[ret completed] e]. cbn [run_backend snd].
  split; [reflexivity |]. split; [reflexivity |].
  exists [ev ret]. split; [reflexivity |].
  cbn [applied_dentries flat_map]. rewrite app_nil_r. apply Hev.
Qed.

Lemma subsequence_same {A : Type} (x : A) : subsequence [x] [x].
Proof. apply subsequence_take, subsequence_nil. Qed.

Lemma call_apply_dentry_applies (ptr : apply_dentry_ptr) (d : wim_dentry)
    (s : world) :
  applies [d_addr d] s (snd (call_apply_dentry ptr d s)).
Proof.
  destruct ptr; cbn [call_apply_dentry].
  - apply applies_one, applies_refl.
  - unfold apply_dentry_normal, do_apply_op, platform_do_apply_dentry.
    cbv zeta.
    destruct (negb (is_extract_root d (args s)));
      apply run_backend_applies; intros ret; apply subsequence_same.
  - unfold apply_dentry_ntfs.
    apply run_backend_applies; intros ret; apply subsequence_same.
Qed.

Lemma announce_applies (d : wim_dentry) (s : world) :
  applies [] s (announce d s).
Proof.
  unfold announce.
  destruct (progress_func (args s)) as [f |];
    [destruct (nonzero (Z.land (a_extract_flags (args s))
                               (WIMLIB_EXTRACT_FLAG_VERBOSE X))) |];
    try apply applies_refl.
  eapply applies_log; [| reflexivity ..]. reflexivity.
Qed.

Lemma maybe_apply_dentry_applies (d : wim_dentry) (s : world) :
  applies [d_addr d] s (snd (maybe_apply_dentry d s)).
Proof.
  rewrite maybe_apply_dentry_unfold.
  destruct (negb (needs_extraction s (d_addr d)));
    [apply applies_one, applies_refl |].
  destruct (skipped d s); [apply applies_one, applies_refl |].
  pose proof (announce_applies d s) as H1.
  pose proof (call_apply_dentry_applies (apply_dentry (args s)) d
                (announce d s)) as H2.
  destruct (call_apply_dentry (apply_dentry (args s)) d (announce d s))
    as [ret s2].
  cbn [snd] in *.
  pose proof (applies_trans _ _ _ _ _ H1 H2) as H12. cbn [app] in H12.
  destruct (negb (is_error ret)); [| exact H12].
  change [d_addr d] with ([d_addr d] ++ []).
  eapply applies_trans; [exact H12 |].
  apply applies_same; reflexivity.
Qed.

Lemma first_pass_applies (ds : list wim_dentry) (s : world) :
  applies (map d_addr ds) s (snd (visit_each maybe_apply_dentry ds s)).
Proof.
  revert s. induction ds as [| d ds IH]; intros s; cbn [visit_each map].
  - apply applies_refl.
  - pose proof (maybe_apply_dentry_applies d s) as H1.
    destruct (maybe_apply_dentry d s) as [ret s1]. cbn [snd] in H1.
    destruct (is_error ret); cbn [snd].
    + apply (applies_more [] [d_addr d] (map d_addr ds)), H1.
    + apply (applies_trans [d_addr d] (map d_addr ds) s s1); [exact H1 |].
      apply IH.
Qed.

Lemma apply_stream_dentries_applies (ds : list wim_dentry)
    (progress_func : option wimlib_progress_func_t)
    (bytes_per_progress : Z) :
  forall next_progress s,
    applies (map d_addr ds) s
      (snd (apply_stream_dentries ds progress_func bytes_per_progress
              next_progress s)).
Proof.
  induction ds as [| d ds IH]; intros next s;
    cbn [apply_stream_dentries map].
  - apply applies_refl.
  - cbv [bind call when Return pure gets].
    pose proof (maybe_apply_dentry_applies d s) as H1.
    destruct (maybe_apply_dentry d s) as [ret s1]. cbn [snd] in H1.
    destruct (is_error ret); cbn [snd].
    { apply (applies_more [] [d_addr d] (map d_addr ds)), H1. }
    assert (Hstep : forall n s2,
               applies [] s1 s2 ->
               applies (d_addr d :: map d_addr ds) s
                 (snd (apply_stream_dentries ds progress_func
                         bytes_per_progress n s2))).
    { intros n s2 H2.
      apply (applies_trans [d_addr d] (map d_addr ds) s s1); [exact H1 |].
      change (map d_addr ds) with ([] ++ map d_addr ds).
      eapply applies_trans; [exact H2 | apply IH]. }
    destruct progress_func as [f |]; [| apply Hstep, applies_refl].
    destruct (next <=? completed_bytes (progress (args s1)));
      [| apply Hstep, applies_refl].
    cbv [call_progress]. cbn [args log with_ext progress].
    destruct (total_bytes (progress (args s1))
              <=? completed_bytes (progress (args s1)));
      apply Hstep; (eapply applies_log; [| reflexivity ..]); reflexivity.
Qed.

(** The second pass applies dentries in the order of the stream list it
    is given, and under each descriptor in the order of its list. *)
Lemma apply_stream_list_applies (stream_list : list lte_ptr)
    (ops : apply_operations)
    (progress_func : option wimlib_progress_func_t) (s : world) :
  applies (map d_addr (flat_map (lte_dentry_list s) stream_list)) s
    (snd (apply_stream_list stream_list ops progress_func s)).
Proof.
  unfold apply_stream_list. cbv [body bind gets pure].
  rewrite apply_streams_flat.
  pose proof (apply_stream_dentries_applies
                (flat_map (lte_dentry_list s) stream_list) progress_func
                (total_bytes (progress (args s)) / 100)
                (total_bytes (progress (args s)) / 100) s) as H.
  destruct (apply_stream_dentries _ progress_func _ _ s) as [[n | r] s1];
    exact H.
Qed.

Lemma timestamps_apply_nothing (ops : apply_operations) (root : wim_dentry)
    (s : world) :
  ops = normal_apply_operations \/ ops = ntfs_apply_operations ->
  applies [] s
    (snd (for_dentry_in_tree_depth root (ops_apply_dentry_timestamps ops)
            s)).
Proof.
  intros Hops. revert s.
  apply (visit_each_respects (applies [])
           (ops_apply_dentry_timestamps ops) (dentry_postorder root)
           applies_refl applies_none_trans).
  intros d s.
  destruct Hops as [-> | ->];
    unfold normal_apply_operations, ntfs_apply_operations;
    cbn [ops_apply_dentry_timestamps].
  - unfold apply_dentry_timestamps_normal, do_apply_op,
      platform_do_apply_dentry_timestamps. cbv zeta.
    destruct (negb (is_extract_root d (args s)));
      apply run_backend_applies; intros ret; constructor.
  - unfold apply_dentry_timestamps_ntfs.
    apply run_backend_applies; intros ret; constructor.
Qed.

Lemma out_ntfs_umount_applies (extract_flags : Z)
    (ret : wimlib_error_code) (s : world) :
  applies [] s (snd (out_ntfs_umount extract_flags ret s)).
Proof.
  unfold out_ntfs_umount.
  destruct (WITH_NTFS_3G X && _); [| apply applies_refl].
  cbv [body bind pure ERROR modify].
  destruct (x_ntfs_umount X (ext s)) as [r e].
  destruct (nonzero r); cbn [fst snd].
  - apply (applies_none_trans s (log (Ev_ntfs_umount r) (with_ext e s)));
      (eapply applies_log; [| reflexivity ..]); reflexivity.
  - eapply applies_log; [| reflexivity ..]. reflexivity.
Qed.

Lemma out_reset_applies (root : wim_dentry) (extract_flags : Z)
    (ret : wimlib_error_code) (s : world) :
  applies [] s
    (snd (out_dentry_reset_needs_extraction root extract_flags ret s)).
Proof.
  unfold out_dentry_reset_needs_extraction. cbv [body bind call].
  assert (H1 : applies [] s
                 (snd (for_dentry_in_tree root
                         dentry_reset_needs_extraction s))).
  { revert s.
    apply (visit_each_respects (applies []) dentry_reset_needs_extraction
             (dentry_preorder root) applies_refl applies_none_trans).
    intros d s. apply applies_same; reflexivity. }
  destruct (for_dentry_in_tree root dentry_reset_needs_extraction s)
    as [r1 s1]. cbn [snd] in H1.
  pose proof (out_ntfs_umount_applies extract_flags ret s1) as H2.
  destruct (out_ntfs_umount extract_flags ret s1) as [r2 s2].
  cbn [snd] in *. exact (applies_none_trans _ _ _ H1 H2).
Qed.

(** Right after the warning: since the trace was [t0] no dentry was
    applied, and the planner's list is [sl]. *)
Definition warned (t0 : list event) (sl : list lte_ptr) (sw : world)
  : Prop :=
  stream_list (ctx sw) = sl /\
  exists pre,
    trace sw = t0 ++ pre ++ fallback_messages /\ Forall no_apply pre.

(** What a run that has fallen back leaves: the two messages stand in
    the trace, no dentry was applied before them, and the dentries applied
    after them are, in this order, some of the dentries of the tree in
    pre-order and then some of the dentries that stand under the
    descriptors of the planner's stream list, in the order of that list
    and of the list of each descriptor. *)
Definition fallen_back (t0 : list event) (root : wim_dentry) (s' : world)
  : Prop :=
  exists pre post,
    trace s' = t0 ++ pre ++ fallback_messages ++ post /\
    Forall no_apply pre /\
    subsequence (applied_dentries post)
      (map d_addr (dentry_preorder root)
       ++ map d_addr (flat_map (lte_dentry_list s')
                               (stream_list (ctx s')))).

Lemma warned_fallen_back (t0 : list event) (root : wim_dentry)
    (sl : list lte_ptr) (sw s' : world) :
  warned t0 sl sw ->
  applies (map d_addr (dentry_preorder root)
           ++ map d_addr (flat_map (lte_dentry_list sw) sl)) sw s' ->
  fallen_back t0 root s'.
Proof.
  intros [Hsl [pre [Ht Hno]]] [Hl [Hc [post [Ht' Hsub]]]].
  exists pre, post. rewrite Ht', Ht, <- !app_assoc.
  split; [reflexivity |]. split; [exact Hno |].
  rewrite Hl, Hc, Hsl. exact Hsub.
Qed.

Lemma planner_value (root : wim_dentry) (extract_flags : Z) (s : world) :
  fst (find_streams_for_extraction root extract_flags s)
  = Normal (stream_list
              (ctx (snd (find_streams_for_extraction root extract_flags
                           s)))).
Proof.
  unfold find_streams_for_extraction. cbv [bind modify call gets].
  repeat match goal with
         | |- context [for_dentry_in_tree ?r ?v ?st] =>
             destruct (for_dentry_in_tree r v st)
         end.
  reflexivity.
Qed.

Lemma triple_from {A} (P : world -> Prop) (m : @block world A)
    (Q : A -> world -> Prop) (E : wimlib_error_code -> world -> Prop) :
  (forall s0, P s0 -> triple (fun s => s = s0) m Q E) -> triple P m Q E.
Proof. intros H s HP. exact (H s HP s eq_refl). Qed.

(** A report of progress, if there is a progress function. *)
Lemma triple_report_applies (I : world -> Prop)
    (E : wimlib_error_code -> world -> Prop)
    (progress_func : option wimlib_progress_func_t)
    (msg : wimlib_progress_msg) :
  (forall s s', I s -> applies [] s s' -> I s') ->
  triple I (match progress_func with
            | Some f => call_progress f msg
            | None => pure tt
            end) (fun _ => I) E.
Proof.
  intros HI. destruct progress_func as [f |];
    [| apply triple_pure; auto].
  intros s H. cbn. apply (HI s); [exact H |].
  eapply applies_log; [| reflexivity ..]. reflexivity.
Qed.

(** A sequential extraction whose sort cannot allocate its array, seen
    by itself: once the volume is mounted, the path found and the full
    paths computed, the run falls back. *)
Lemma extract_tree_falls_back (wim_source_path target : list tchar)
    (extract_flags : Z) (progress_func : option wimlib_progress_func_t)
    (s : world) (root : wim_dentry) :
  let ntfs :=
    WITH_NTFS_3G X
    && nonzero (Z.land extract_flags (WIMLIB_EXTRACT_FLAG_NTFS X)) in
  let e1 := if ntfs then snd (x_ntfs_mount X target (ext s)) else ext s in
  nonzero (Z.land extract_flags (WIMLIB_EXTRACT_FLAG_SEQUENTIAL X)) = true ->
  (forall size e, x_malloc X size e = false) ->
  nonzero (Z.land extract_flags (WIMLIB_EXTRACT_FLAG_TO_STDOUT X)) = false ->
  (ntfs = true -> fst (x_ntfs_mount X target (ext s)) = true) ->
  x_get_dentry X (current_image (wim s)) wim_source_path e1 = Some root ->
  fst (x_calculate_dentry_tree_full_paths X root e1) = WIMLIB_ERR_SUCCESS ->
  fallen_back (trace s) root
    (snd (extract_tree wim_source_path target extract_flags progress_func
            s)).
Proof.
  intros ntfs e1 Hseq Hmalloc Hstdout Hmount Hroot Hpaths.
  assert (Hn : ntfs = true ->
               x_ntfs_mount X target (ext s) = (true, e1)).
  { intros Ht. specialize (Hmount Ht). subst e1. rewrite Ht.
    destruct (x_ntfs_mount X target (ext s)) as [ok e]. cbn in *.
    subst ok. reflexivity. }
  assert (Hf : ntfs = false -> e1 = ext s).
  { intros Hfalse. subst e1. rewrite Hfalse. reflexivity. }
  assert (Hdef : WITH_NTFS_3G X
                 && nonzero (Z.land extract_flags
                               (WIMLIB_EXTRACT_FLAG_NTFS X)) = ntfs)
    by reflexivity.
  clearbody e1. clear Hmount. clearbody ntfs.
  set (t0 := trace s).
  set (E := fun (_ : wimlib_error_code) (st' : world) =>
              fallen_back t0 root st').
  change (E (fst (extract_tree wim_source_path target extract_flags
                    progress_func s))
            (snd (extract_tree wim_source_path target extract_flags
                    progress_func s))).
  unfold extract_tree. rewrite Hdef, Hstdout, Hseq.
  apply (triple_body (fun st => st = s)); [| reflexivity].
  apply (triple_bind _ (fun w st => w = wim s /\ st = s)).
  { apply triple_gets. intros st ->. split; reflexivity. }
  intros w. apply triple_assume. intros ->.
  pose (I0 := fun st : world => ext st = ext s /\ trace st = t0).
  apply (triple_bind _ (fun _ => I0)).
  { apply triple_modify. intros st ->. split; reflexivity. }
  intros _.
  apply (triple_bind _ (fun _ => I0)).
  { unfold when. destruct (negb (is_null progress_func));
      [| apply triple_pure; auto].
    apply triple_modify. intros st [He Ht]. split; [exact He | exact Ht]. }
  intros _.
  (* the volume *)
  pose (I1 := fun st : world => ext st = e1 /\ grown no_apply t0 st).
  apply (triple_bind _ (fun ops st =>
                          (ops = normal_apply_operations
                           \/ ops = ntfs_apply_operations) /\ I1 st)).
  { destruct ntfs.
    - apply (triple_bind _ (fun ok st => ok = true /\ I1 st)).
      { intros st [He Ht]. rewrite He, (Hn eq_refl). cbn.
        split; [reflexivity |]. split; [reflexivity |].
        exists [Ev_ntfs_mount target true].
        cbn [ext wim args trace with_args set_args with_ext log
             set_progress].
        rewrite Ht. split; [reflexivity | repeat constructor]. }
      intros ok. apply triple_assume. intros ->. cbn [negb].
      apply (triple_bind _ (fun _ => I1)); [apply triple_pure; auto |].
      intros _. apply triple_pure. intros st H.
      split; [right; reflexivity | exact H].
    - apply triple_pure. intros st [He Ht].
      split; [left; reflexivity |].
      split; [rewrite (Hf eq_refl); exact He |].
      exists []. rewrite app_nil_r. split; [exact Ht | constructor]. }
  intros ops. apply triple_assume. intros Hops.
  (* the root *)
  apply (triple_bind _ (fun r st => r = Some root /\ I1 st)).
  { apply triple_gets. intros st [He Hg].
    split; [rewrite He; exact Hroot | split; assumption]. }
  intros r. apply triple_assume. intros ->.
  apply (triple_bind _ (fun _ => I1)).
  { apply triple_modify. intros st [He Hg]. split; [exact He | exact Hg]. }
  intros _.
  apply (triple_bind _ (fun ret st => ret = WIMLIB_ERR_SUCCESS
                                      /\ grown no_apply t0 st)).
  { intros st [He Hg]. rewrite He.
    destruct (x_calculate_dentry_tree_full_paths X root e1) as [rc e2].
    cbn in *. split; [exact Hpaths | exact Hg]. }
  intros ret. apply triple_assume. intros ->. cbn [is_error].
  apply (triple_bind _ (fun _ => grown no_apply t0));
    [apply triple_pure; auto |].
  intros _.
  (* the planner *)
  pose (I2 := fun (sl : list lte_ptr) (st : world) =>
                grown no_apply t0 st /\ stream_list (ctx st) = sl).
  apply (triple_bind _ I2).
  { intros st Hg. rewrite planner_value.
    split; [| reflexivity].
    apply (grown_adds no_apply t0 st); [exact Hg |].
    apply planner_adds. }
  intros sl.
  apply (triple_bind _ (fun _ => I2 sl)).
  { unfold calculate_bytes_to_extract. apply triple_modify.
    intros st [Hg Hsl]. cbv zeta. destruct (fold_left _ sl (0, 0)).
    split; [exact Hg | exact Hsl]. }
  intros _.
  apply (triple_bind _ (fun _ => I2 sl)); [apply triple_pure; auto |].
  intros _.
  apply (triple_bind _ (fun _ => I2 sl)).
  { destruct progress_func as [f |]; [| apply triple_pure; auto].
    intros st [Hg Hsl]. cbn. split; [| exact Hsl].
    apply (grown_adds no_apply t0 st); [exact Hg |].
    eexists [_]. split; [reflexivity | repeat constructor]. }
  intros _.
  (* the sort fails *)
  apply (triple_bind _ (fun sorted st => fst sorted = sl
                                         /\ warned t0 sl st)).
  { intros st [Hg Hsl]. unfold bind.
    rewrite sort_stream_list_nomem by apply Hmalloc.
    cbn [fst snd is_error]. cbv [WARNING modify pure]. cbn [fst snd].
    split; [reflexivity |]. split; [exact Hsl |].
    destruct Hg as [pre [Ht Hno]]. exists pre. cbn [trace log].
    rewrite Ht, <- !app_assoc. split; [reflexivity | exact Hno]. }
  intros sorted. apply triple_assume. intros Hsorted. cbv zeta.
  rewrite Hsorted. apply triple_from. intros sw Hw.
  set (PRE := map d_addr (dentry_preorder root)).
  set (FLAT := map d_addr (flat_map (lte_dentry_list sw) sl)).
  pose (A0 := applies [] sw). pose (A1 := applies PRE sw).
  pose (A2 := applies (PRE ++ FLAT) sw).
  assert (K0 : forall st st', A0 st -> applies [] st st' -> A0 st')
    by (intros st st'; apply applies_none_trans).
  assert (K1 : forall st st', A1 st -> applies [] st st' -> A1 st').
  { intros st st' H1 H2. unfold A1. rewrite <- (app_nil_r PRE).
    exact (applies_trans _ _ _ _ _ H1 H2). }
  assert (K2 : forall st st', A2 st -> applies [] st st' -> A2 st').
  { intros st st' H1 H2. unfold A2. rewrite <- (app_nil_r (PRE ++ FLAT)).
    exact (applies_trans _ _ _ _ _ H1 H2). }
  assert (F2 : forall r st', A2 st' -> E r st')
    by (intros r st' H; exact (warned_fallen_back t0 root sl sw st' Hw H)).
  assert (F1 : forall r st', A1 st' -> E r st').
  { intros r st' H. apply F2. unfold A2.
    apply (applies_more [] PRE FLAT), H. }
  assert (L2 : forall flags ret st,
             A2 st ->
             E (fst (out_dentry_reset_needs_extraction root flags ret st))
               (snd (out_dentry_reset_needs_extraction root flags ret st))).
  { intros flags ret st H. apply F2, (K2 st); [exact H |].
    apply out_reset_applies. }
  assert (L1 : forall flags ret st,
             A1 st ->
             E (fst (out_dentry_reset_needs_extraction root flags ret st))
               (snd (out_dentry_reset_needs_extraction root flags ret st))).
  { intros flags ret st H. apply F1, (K1 st); [exact H |].
    apply out_reset_applies. }
  apply (triple_bind _ (fun _ => A0)).
  { apply (triple_weaken A0 _ (fun _ => A0));
      [ apply triple_report_applies, K0
      | intros st ->; apply applies_refl | auto ]. }
  intros _.
  apply (triple_bind _ (fun _ => A0)).
  { apply triple_modify. intros st H. apply (K0 st); [exact H |].
    apply applies_same; reflexivity. }
  intros _.
  (* the first pass *)
  apply (triple_bind _ (fun _ => A1)).
  { apply triple_call. intros st H.
    exact (applies_trans [] PRE sw st _ H (first_pass_applies _ st)). }
  intros ret1.
  apply (triple_bind _ (fun _ => A1)).
  { apply triple_modify. intros st H. apply (K1 st); [exact H |].
    apply applies_same; reflexivity. }
  intros _.
  apply (triple_bind _ (fun _ => A1)).
  { destruct (is_error ret1); [| apply triple_pure; auto].
    apply triple_goto. intros st H. apply L1, H. }
  intros _.
  apply (triple_bind _ (fun _ => A1));
    [apply triple_report_applies, K1 |].
  intros _.
  apply (triple_bind _ (fun _ => A1)).
  { destruct (nonzero (Z.land (snd sorted) _));
      [| apply triple_pure; auto].
    apply (triple_bind _ (fun _ => A1)); [apply triple_gets; auto |].
    intros [path |].
    - apply triple_modify. intros st H. apply (K1 st); [exact H |].
      apply applies_same; reflexivity.
    - apply triple_goto. intros st H. apply L1, H. }
  intros _.
  (* the second pass *)
  apply (triple_bind _ (fun _ => A2)).
  { apply triple_call. intros st H.
    pose proof (apply_stream_list_applies sl ops progress_func st) as H2.
    destruct H as [Hl HH]. rewrite Hl in H2.
    exact (applies_trans PRE FLAT sw st _ (conj Hl HH) H2). }
  intros ret2.
  apply (triple_bind _ (fun _ => A2)).
  { destruct (is_error ret2); [| apply triple_pure; auto].
    apply triple_goto. intros st H. apply L2, H. }
  intros _.
  apply (triple_bind _ (fun _ => A2));
    [apply triple_report_applies, K2 |].
  intros _.
  apply (triple_bind _ (fun _ => A2)).
  { apply triple_call. intros st H. apply (K2 st); [exact H |].
    apply timestamps_apply_nothing, Hops. }
  intros ret3.
  apply (triple_bind _ (fun _ => A2)).
  { destruct (is_error ret3); [| apply triple_pure; auto].
    apply triple_goto. intros st H. apply L2, H. }
  intros _.
  apply (triple_bind _ (fun _ => A2));
    [apply triple_report_applies, K2 |].
  intros _.
  apply triple_goto. intros st H. apply L2, H.
Qed.

(** C8, as the code has it.  A sequential extraction is asked for and
    the array of the sort cannot be allocated.  A run that reaches the
    sort (it is not sent to standard output, the volume is mounted, the
    path is found, the full paths are computed) logs the error of the
    sort and the warning of the fall-back before it applies any dentry;
    the dentries it applies afterwards are, in this order, dentries of
    the tree in pre-order and then dentries standing under the
    descriptors of the planner's stream list, in the order of that list,
    which was not sorted; and if the run returns success it has applied
    every dentry of the tree once (the tree being as the planner expects
    it, its dentries at distinct addresses).  The flag is
    cleared in the local variable only: [args.extract_flags] and the
    flags reported to the progress function keep its bit.  So the run is
    the run without the flag only for backends and a progress function
    that do not look at that bit, the flags the code tests being other
    bits: then both runs return the same value, leave the outside in the
    same state, and their traces are the same, the two messages of the
    fall-back and that bit in the reported flags apart. *)
Theorem sequential_falls_back (wim_source_path target : list tchar)
    (extract_flags : Z) (progress_func : option wimlib_progress_func_t)
    (s : world) :
  let ntfs :=
    WITH_NTFS_3G X
    && nonzero (Z.land extract_flags (WIMLIB_EXTRACT_FLAG_NTFS X)) in
  let e1 := if ntfs then snd (x_ntfs_mount X target (ext s)) else ext s in
  let r1 := extract_tree wim_source_path target extract_flags
              progress_func s in
  let r2 := extract_tree wim_source_path target
              (clear_sequential extract_flags) progress_func s in
  nonzero (Z.land extract_flags (WIMLIB_EXTRACT_FLAG_SEQUENTIAL X)) = true ->
  (forall size e, x_malloc X size e = false) ->
  (forall root,
      nonzero (Z.land extract_flags (WIMLIB_EXTRACT_FLAG_TO_STDOUT X))
      = false ->
      (ntfs = true -> fst (x_ntfs_mount X target (ext s)) = true) ->
      x_get_dentry X (current_image (wim s)) wim_source_path e1
      = Some root ->
      fst (x_calculate_dentry_tree_full_paths X root e1)
      = WIMLIB_ERR_SUCCESS ->
      exists pre post,
        trace (snd r1) = trace s ++ pre ++ fallback_messages ++ post /\
        Forall no_apply pre /\
        subsequence (applied_dentries post)
          (map d_addr (dentry_preorder root)
           ++ map d_addr (flat_map (lte_dentry_list (snd r1))
                                   (stream_list (ctx (snd r1))))) /\
        (fst r1 = WIMLIB_ERR_SUCCESS ->
         plannable extract_flags root s -> NoDup (tree_addrs root) ->
         Permutation (applied_dentries post) (tree_addrs root))) /\
  (flags_apart -> backends_ignore_sequential ->
   progress_ignores_sequential progress_func ->
   fst r1 = fst r2 /\
   ext (snd r1) = ext (snd r2) /\
   visible (trace (snd r1)) = visible (trace (snd r2))).
Proof.
  intros ntfs e1 r1 r2 Hseq Hmalloc. split.
  - intros root Hstdout Hmount Hroot Hpaths.
    destruct (extract_tree_falls_back wim_source_path target extract_flags
                progress_func s root Hseq Hmalloc Hstdout Hmount Hroot
                Hpaths)
      as [pre [post [Ht [Hno Hsub]]]].
    exists pre, post. split; [exact Ht |]. split; [exact Hno |].
    split; [exact Hsub |].
    intros Hok Hplan Hnd.
    assert (H0 : Z.land extract_flags (WIMLIB_EXTRACT_FLAG_TO_STDOUT X) = 0).
    { unfold nonzero in Hstdout. apply Bool.negb_false_iff in Hstdout.
      apply Z.eqb_eq, Hstdout. }
    destruct (extract_tree_passes_at wim_source_path target extract_flags
                progress_func s H0 (or_introl Hmalloc))
      as [root' [evs [rest [Hroot' [Ht' [_ Hperm]]]]]].
    + intros root0 Hroot0. fold ntfs in Hroot0. fold e1 in Hroot0.
      rewrite Hroot in Hroot0. injection Hroot0 as <-.
      split; assumption.
    + exact Hok.
    + fold ntfs in Hroot'. fold e1 in Hroot'. rewrite Hroot in Hroot'.
      injection Hroot' as <-.
      assert (Hevs : evs = pre ++ fallback_messages ++ post).
      { apply (app_inv_head (trace s)). rewrite <- Ht'. exact Ht. }
      rewrite Hevs, !applied_dentries_app, (no_apply_dentries pre Hno)
        in Hperm.
      exact Hperm.
  - intros Hf Hb Hp.
    destruct (extract_tree_simulates progress_func Hf Hb Hp wim_source_path
                target extract_flags progress_func s eq_refl Hseq Hmalloc)
      as [Hr (_ & _ & _ & _ & _ & _ & _ & _ & _ & He & Ht)].
    split; [exact Hr |]. split; [exact He | exact Ht].
Qed.

End Model.

Arguments out_refcnt {_} _ _.
Arguments lte_dentry_list {_} _ _.
Arguments i_visited {_} _ _.
Arguments needs_extraction {_} _ _.
Arguments args {_} _.
Arguments wim {_} _.
Arguments ext {_} _.
Arguments trace {_} _.
Arguments progress {_} _.
Arguments target {_} _.
Arguments target_nchars {_} _.
Arguments wim_source_path_nchars {_} _.

(** ** A small archive to run the extraction on

  Three images.  Image 1 is a directory with one file under two names
  (hard links); image 2 is an empty directory; image 3 is a directory
  with three files of 15, 7 and 978 bytes.  The outside state counts the
  calls of the backends; a backend adds the size of the file it extracts
  to the bytes completed. *)
Module Demo.
Definition file_inode (l : nat) : wim_inode :=
  {| i_ads_entries := [ {| stream_name_nbytes := 0; lte := Some l |} ] |}.

Definition dir_inode : wim_inode := {| i_ads_entries := [] |}.

(** Inode 1 is a directory; inodes 2, 3 and 4 are files whose contents
    are the streams 7, 8 and 9. *)
Definition inodes (i : nat) : wim_inode :=
  match i with
  | 2%nat => file_inode 7
  | 3%nat => file_inode 8
  | 4%nat => file_inode 9
  | _ => dir_inode
  end.

(** The streams 7 and 8 lie at the same offset (of two parts of a split
    archive), the stream 9 before them. *)
Definition descriptors (l : nat) : wim_lookup_table_entry :=
  match l with
  | 7%nat => {| resource_entry_offset := 300;
                resource_entry_original_size := 15 |}
  | 8%nat => {| resource_entry_offset := 300;
                resource_entry_original_size := 7 |}
  | 9%nat => {| resource_entry_offset := 100;
                resource_entry_original_size := 978 |}
  | _ => {| resource_entry_offset := 0;
            resource_entry_original_size := 0 |}
  end.

Definition unnamed (inode : wim_inode) : option nat :=
  match find (fun e => stream_name_nbytes e =? 0) (i_ads_entries inode) with
  | Some e => lte e
  | None => None
  end.

Definition stream_lte (inode : wim_inode) (i : nat) : option nat :=
  match i with
  | O => None
  | S j => match nth_error (i_ads_entries inode) j with
           | Some e => lte e
           | None => None
           end
  end.

Definition size_of (d : wim_dentry) : Z :=
  match unnamed (inodes (d_inode d)) with
  | Some l => resource_entry_original_size (descriptors l)
  | None => 0
  end.

Definition path (name : string) : list tchar := list_ascii_of_string name.

Definition file (addr inode : nat) (name : string) : wim_dentry :=
  mk_dentry addr inode (path name) (Z.of_nat (String.length name)) [].

Definition directory (addr : nat) (children : list wim_dentry)
  : wim_dentry :=
  mk_dentry addr 1 (path "/") 1 children.

Definition file_a : wim_dentry := file 11 2 "/a".
Definition file_b : wim_dentry := file 12 2 "/b".
Definition hardlinks : wim_dentry := directory 10 [file_a; file_b].
Definition empty_dir : wim_dentry := directory 20 [].
Definition three_files : wim_dentry :=
  directory 30 [file 31 2 "/a"; file 32 3 "/b"; file 33 4 "/c"].

Definition get_dentry (image : Z) (p : list tchar) : option wim_dentry :=
  match p with
  | [] => match image with
          | 1 => Some hardlinks
          | 2 => Some empty_dir
          | 3 => Some three_files
          | _ => None
          end
  | _ => None
  end.

(** A backend: it succeeds, the bytes of the file are completed, one
    more call has been made. *)
Definition backend (d : wim_dentry) (a : apply_args Z) (e : Z)
  : wimlib_error_code * Z * Z :=
  (WIMLIB_ERR_SUCCESS, completed_bytes (progress a) + size_of d, e + 1).

(** A backend for the timestamps: no byte is extracted. *)
Definition stamp (d : wim_dentry) (a : apply_args Z) (e : Z)
  : wimlib_error_code * Z * Z :=
  (WIMLIB_ERR_SUCCESS, completed_bytes (progress a), e + 1).

(** A stable sort, as the merge sort of the C library's [qsort] is: an
    element goes after the elements that are not greater, so that elements
    that compare equal keep their order. *)
Fixpoint insert (cmp : nat -> nat -> Z) (x : nat) (l : list nat)
  : list nat :=
  match l with
  | [] => [x]
  | y :: r => if cmp y x <=? 0 then y :: insert cmp x r else x :: y :: r
  end.

Definition insertion_sort (cmp : nat -> nat -> Z) (l : list nat)
  : list nat :=
  fold_left (fun acc x => insert cmp x acc) l [].

Definition compare_offsets (a b : wim_lookup_table_entry) : Z :=
  if resource_entry_offset a <? resource_entry_offset b then -1
  else if resource_entry_offset a =? resource_entry_offset b then 0
  else 1.

(** The externals, with a [malloc] that succeeds or fails. *)
Definition demo (malloc_ok : bool) : externals Z :=
  {| WITH_NTFS_3G := false;
     WIN32 := false;
     sizeof_tchar := 1;
     sizeof_pointer := 8;
     sizeof_extract_command := 24;
     WIMLIB_ALL_IMAGES := -1;
     WIM_HDR_FLAG_RP_FIX := 128;
     WIMLIB_EXTRACT_FLAG_NTFS := 1;
     WIMLIB_EXTRACT_FLAG_HARDLINK := 2;
     WIMLIB_EXTRACT_FLAG_SYMLINK := 4;
     WIMLIB_EXTRACT_FLAG_VERBOSE := 8;
     WIMLIB_EXTRACT_FLAG_SEQUENTIAL := 16;
     WIMLIB_EXTRACT_FLAG_UNIX_DATA := 32;
     WIMLIB_EXTRACT_FLAG_RPFIX := 256;
     WIMLIB_EXTRACT_FLAG_NORPFIX := 512;
     WIMLIB_EXTRACT_FLAG_TO_STDOUT := 1024;
     WIMLIB_EXTRACT_FLAG_NO_STREAMS := 2147483648;
     WIMLIB_EXTRACT_FLAG_MULTI_IMAGE := 1073741824;
     WIMLIB_EXTRACT_MASK_PUBLIC := 1073741823;
     inode_at := inodes;
     lte_at := descriptors;
     inode_unnamed_lte_resolved := unnamed;
     inode_stream_lte_resolved := stream_lte;
     dentry_is_directory := fun d => Nat.eqb (d_inode d) 1;
     dentry_is_regular_file := fun d => negb (Nat.eqb (d_inode d) 1);
     wim_resource_size := resource_entry_original_size;
     cmp_streams_by_wim_position := compare_offsets;
     x_extracted_file := fun _ _ => false;
     unix_do_apply_dentry := fun _ _ => backend;
     unix_do_apply_dentry_timestamps := fun _ _ => stamp;
     win32_do_apply_dentry := fun _ _ => backend;
     win32_do_apply_dentry_timestamps := fun _ _ => stamp;
     x_apply_dentry_ntfs := backend;
     x_apply_dentry_timestamps_ntfs := stamp;
     x_extract_wim_resource_to_fd := fun _ _ e => (WIMLIB_ERR_SUCCESS, e);
     x_ntfs_mount := fun _ e => (true, e);
     x_ntfs_umount := fun e => (0, e);
     x_realpath := fun t _ => Some t;
     x_malloc := fun _ _ => malloc_ok;
     qsort := insertion_sort;
     x_get_dentry := fun image p _ => get_dentry image p;
     x_calculate_dentry_tree_full_paths :=
       fun _ e => (WIMLIB_ERR_SUCCESS, e);
     wimlib_get_image_name := fun _ _ => Some [];
     x_select_wim_image := fun _ e => (WIMLIB_ERR_SUCCESS, e);
     x_wim_checksum_unhashed_streams := fun e => (WIMLIB_ERR_SUCCESS, e);
     x_verify_swm_set := fun _ _ => WIMLIB_ERR_SUCCESS;
     x_merge_lookup_tables := fun _ e => e;
     x_unmerge_lookup_table := fun e => e;
     x_free_extracted_files := fun e => e;
     canonicalize_wim_path := fun p _ => Some p;
     canonicalize_fs_path := fun p _ => Some p;
     x_tstat := fun _ _ => (0, false, true);
     x_tmkdir := fun _ e => (0, e);
     xml_get_max_image_name_len := fun _ => 0;
     decimal := fun _ => [] |}.

Definition X : externals Z := demo true.
Definition X_nomem : externals Z := demo false.

(** The same externals with another [ntfs_mount], another [qsort] and
    another backend. *)
Definition with_libraries (mount : list tchar -> Z -> bool * Z)
    (sort : (nat -> nat -> Z) -> list nat -> list nat)
    (apply : wim_dentry -> apply_args Z -> Z -> wimlib_error_code * Z * Z)
    (x : externals Z)
  : externals Z :=
  {| WITH_NTFS_3G := WITH_NTFS_3G Z x;
     WIN32 := WIN32 Z x;
     sizeof_tchar := sizeof_tchar Z x;
     sizeof_pointer := sizeof_pointer Z x;
     sizeof_extract_command := sizeof_extract_command Z x;
     WIMLIB_ALL_IMAGES := WIMLIB_ALL_IMAGES Z x;
     WIM_HDR_FLAG_RP_FIX := WIM_HDR_FLAG_RP_FIX Z x;
     WIMLIB_EXTRACT_FLAG_NTFS := WIMLIB_EXTRACT_FLAG_NTFS Z x;
     WIMLIB_EXTRACT_FLAG_SYMLINK := WIMLIB_EXTRACT_FLAG_SYMLINK Z x;
     WIMLIB_EXTRACT_FLAG_HARDLINK := WIMLIB_EXTRACT_FLAG_HARDLINK Z x;
     WIMLIB_EXTRACT_FLAG_SEQUENTIAL := WIMLIB_EXTRACT_FLAG_SEQUENTIAL Z x;
     WIMLIB_EXTRACT_FLAG_VERBOSE := WIMLIB_EXTRACT_FLAG_VERBOSE Z x;
     WIMLIB_EXTRACT_FLAG_UNIX_DATA := WIMLIB_EXTRACT_FLAG_UNIX_DATA Z x;
     WIMLIB_EXTRACT_FLAG_RPFIX := WIMLIB_EXTRACT_FLAG_RPFIX Z x;
     WIMLIB_EXTRACT_FLAG_NORPFIX := WIMLIB_EXTRACT_FLAG_NORPFIX Z x;
     WIMLIB_EXTRACT_FLAG_TO_STDOUT := WIMLIB_EXTRACT_FLAG_TO_STDOUT Z x;
     WIMLIB_EXTRACT_FLAG_NO_STREAMS := WIMLIB_EXTRACT_FLAG_NO_STREAMS Z x;
     WIMLIB_EXTRACT_FLAG_MULTI_IMAGE := WIMLIB_EXTRACT_FLAG_MULTI_IMAGE Z x;
     WIMLIB_EXTRACT_MASK_PUBLIC := WIMLIB_EXTRACT_MASK_PUBLIC Z x;
     inode_at := inode_at Z x;
     lte_at := lte_at Z x;
     inode_unnamed_lte_resolved := inode_unnamed_lte_resolved Z x;
     inode_stream_lte_resolved := inode_stream_lte_resolved Z x;
     dentry_is_directory := dentry_is_directory Z x;
     dentry_is_regular_file := dentry_is_regular_file Z x;
     wim_resource_size := wim_resource_size Z x;
     cmp_streams_by_wim_position := cmp_streams_by_wim_position Z x;
     x_extracted_file := x_extracted_file Z x;
     unix_do_apply_dentry := fun _ _ => apply;
     unix_do_apply_dentry_timestamps := unix_do_apply_dentry_timestamps Z x;
     win32_do_apply_dentry := fun _ _ => apply;
     win32_do_apply_dentry_timestamps := win32_do_apply_dentry_timestamps Z x;
     x_apply_dentry_ntfs := apply;
     x_apply_dentry_timestamps_ntfs := x_apply_dentry_timestamps_ntfs Z x;
     x_extract_wim_resource_to_fd := x_extract_wim_resource_to_fd Z x;
     x_ntfs_mount := mount;
     x_ntfs_umount := x_ntfs_umount Z x;
     x_realpath := x_realpath Z x;
     x_malloc := x_malloc Z x;
     qsort := sort;
     x_get_dentry := x_get_dentry Z x;
     x_calculate_dentry_tree_full_paths := x_calculate_dentry_tree_full_paths Z x;
     wimlib_get_image_name := wimlib_get_image_name Z x;
     x_select_wim_image := x_select_wim_image Z x;
     x_wim_checksum_unhashed_streams := x_wim_checksum_unhashed_streams Z x;
     x_verify_swm_set := x_verify_swm_set Z x;
     x_merge_lookup_tables := x_merge_lookup_tables Z x;
     x_unmerge_lookup_table := x_unmerge_lookup_table Z x;
     x_free_extracted_files := x_free_extracted_files Z x;
     canonicalize_wim_path := canonicalize_wim_path Z x;
     canonicalize_fs_path := canonicalize_fs_path Z x;
     x_tstat := x_tstat Z x;
     x_tmkdir := x_tmkdir Z x;
     xml_get_max_image_name_len := xml_get_max_image_name_len Z x;
     decimal := decimal Z x |}.

(** A progress function that leaves the outside alone. *)
Definition report : wimlib_progress_func_t Z := fun _ _ e => e.

(** The state in which an extraction of [image] starts. *)
Definition start (image : Z) : world Z :=
  {| out_refcnt := fun _ => 0;
     lte_dentry_list := fun _ => [];
     i_visited := fun _ => false;
     needs_extraction := fun _ => false;
     args := zero_args Z;
     ctx := {| stream_list := []; ctx_extract_flags := 0 |};
     wim := {| filename := Some (path "a.wim"); current_image := image;
               hdr_flags := 0; hdr_image_count := 3 |};
     ext := 0;
     trace := [] |}.

Definition out : list tchar := path "out".

(** The dentries the planner has put under the descriptors of image 3,
    and the bytes to extract: the state in which [apply_stream_list] is
    entered. *)
Definition planned_three_files : world Z :=
  with_args Z (set_apply_dentry Z ptr_apply_dentry_normal)
    (snd ((stream_list <- find_streams_for_extraction Z X three_files 0 ;;
           calculate_bytes_to_extract Z X stream_list 0) (start 3))).

(** The state in which the dentries of image 3 are applied to [out]. *)
Definition applying : world Z :=
  set_args Z
    {| target := out; target_nchars := 3; wim_source_path_nchars := 0;
       a_extract_flags := 0; progress_func := None;
       progress := zero_progress; extract_root := Some 30%nat;
       apply_dentry := ptr_apply_dentry_normal; target_realpath := None;
       target_realpath_len := 0; vol_mounted := false |}
    (start 3).

(** *** The sort of the demo meets the contract of [qsort] *)
Lemma insert_perm (cmp : nat -> nat -> Z) (x : nat) (l : list nat) :
  Permutation (insert cmp x l) (x :: l).
Proof.
  induction l as [| y r IH]; cbn [insert]; [reflexivity |].
  destruct (cmp y x <=? 0); [| reflexivity].
  rewrite IH. apply perm_swap.
Qed.

Lemma insertion_sort_perm (cmp : nat -> nat -> Z) (l : list nat) :
  Permutation (insertion_sort cmp l) l.
Proof.
  unfold insertion_sort.
  assert (H : forall acc,
             Permutation (fold_left (fun acc x => insert cmp x acc) l acc)
                         (l ++ acc)).
  { induction l as [| x l IH]; intros acc; cbn [fold_left app];
      [reflexivity |].
    rewrite IH, insert_perm. symmetry. apply Permutation_middle. }
  rewrite H, app_nil_r. reflexivity.
Qed.

Lemma insert_sorted (cmp : nat -> nat -> Z) (x : nat) (l : list nat) :
  (forall a b, cmp a b <= 0 \/ cmp b a <= 0) ->
  (forall a b c, cmp a b <= 0 -> cmp b c <= 0 -> cmp a c <= 0) ->
  StronglySorted (fun a b => cmp a b <= 0) l ->
  StronglySorted (fun a b => cmp a b <= 0) (insert cmp x l).
Proof.
  intros Htotal Htrans. induction 1 as [| y r Hr IH Hall]; cbn [insert].
  - repeat constructor.
  - destruct (Z.leb_spec (cmp y x) 0) as [Hyx | Hyx].
    + constructor; [exact IH |].
      eapply Permutation_Forall;
        [symmetry; apply insert_perm |].
      constructor; assumption.
    + assert (Hxy : cmp x y <= 0)
        by (destruct (Htotal x y); [assumption | lia]).
      constructor; [constructor; assumption |].
      constructor; [exact Hxy |].
      eapply Forall_impl; [| exact Hall].
      intros z Hz. eapply Htrans; eassumption.
Qed.

Lemma insertion_sort_sorted (cmp : nat -> nat -> Z) (l : list nat) :
  (forall a b, cmp a b <= 0 \/ cmp b a <= 0) ->
  (forall a b c, cmp a b <= 0 -> cmp b c <= 0 -> cmp a c <= 0) ->
  StronglySorted (fun a b => cmp a b <= 0) (insertion_sort cmp l).
Proof.
  intros Htotal Htrans. unfold insertion_sort.
  assert (H : forall acc,
             StronglySorted (fun a b => cmp a b <= 0) acc ->
             StronglySorted (fun a b => cmp a b <= 0)
               (fold_left (fun acc x => insert cmp x acc) l acc)).
  { induction l as [| x l IH]; intros acc Hacc; cbn [fold_left];
      [exact Hacc |].
    apply IH, insert_sorted; assumption. }
  apply H. constructor.
Qed.

Lemma demo_qsort_contract (malloc_ok : bool) :
  qsort_contract Z (demo malloc_ok).
Proof.
  intros cmp l. split.
  - apply insertion_sort_perm.
  - apply insertion_sort_sorted.
Qed.

Lemma demo_cmp_by_offset (malloc_ok : bool) :
  cmp_by_offset Z (demo malloc_ok).
Proof.
  intros a b. cbn [cmp_streams_by_wim_position demo].
  unfold compare_offsets.
  destruct (Z.ltb_spec (resource_entry_offset a) (resource_entry_offset b));
    [lia |].
  destruct (Z.eqb_spec (resource_entry_offset a) (resource_entry_offset b));
    lia.
Qed.

(** *** The backends and the progress function of the demo do not look at
    the flags *)
Lemma completed_alike (a1 a2 : apply_args Z) :
  erase_args Z X_nomem a1 = erase_args Z X_nomem a2 ->
  completed_bytes (progress a1) = completed_bytes (progress a2).
Proof.
  intros H. apply erase_args_fields in H.
  destruct H as (_ & _ & _ & _ & _ & Hp & _).
  apply erase_progress_fields in Hp. apply Hp.
Qed.

Lemma demo_backends : backends_ignore_sequential Z X_nomem.
Proof.
  unfold backends_ignore_sequential, ignores_sequential.
  cbn [unix_do_apply_dentry unix_do_apply_dentry_timestamps
       win32_do_apply_dentry win32_do_apply_dentry_timestamps
       x_apply_dentry_ntfs x_apply_dentry_timestamps_ntfs X_nomem demo].
  unfold backend, stamp.
  repeat split; intros; rewrite (completed_alike a1 a2) by assumption;
    reflexivity.
Qed.

Lemma demo_flags_apart : flags_apart Z X_nomem.
Proof. unfold flags_apart. repeat constructor. Qed.

Lemma demo_progress : progress_ignores_sequential Z X_nomem (Some report).
Proof. intros f Hf msg p1 p2 e _. injection Hf as <-. reflexivity. Qed.

(** *** The planner *)

(** Image 1: the stream 7 is the content of one inode that two dentries
    name.  The planner puts both dentries under the descriptor and counts
    the descriptor once: the sum of [out_refcnt] is 1, the (dentry,
    stream) pairs are 2. *)
Lemma hard_links_counted_once :
  fst (find_streams_for_extraction Z X hardlinks 0 (start 1))
  = Normal [7%nat] /\
  lte_dentry_list
    (snd (find_streams_for_extraction Z X hardlinks 0 (start 1))) 7%nat
  = [file_a; file_b] /\
  zsum (map (out_refcnt
               (snd (find_streams_for_extraction Z X hardlinks 0 (start 1))))
            [7%nat]) = 1 /\
  Z.of_nat (List.length (dentry_stream_pairs Z X 0 hardlinks)) = 2.
Proof. repeat split. Qed.

(** On image 1: one inode with one stream, counted once. *)
Lemma planner_counts_inode_references_witness :
  (forall d, In d (dentry_preorder hardlinks) ->
             i_visited (start 1) (d_inode d) = false) /\
  (forall d, In d (dentry_preorder hardlinks) ->
             incl (counted_streams Z X 0 (inode_at Z X (d_inode d)))
                  (stream_slots Z X (inode_at Z X (d_inode d)))) /\
  Z.of_nat (List.length (inode_stream_pairs Z X 0 hardlinks)) < 2 ^ 32 /\
  exists stream_list s',
    find_streams_for_extraction Z X hardlinks 0 (start 1)
      = (Normal stream_list, s') /\
    stream_list = [7%nat] /\
    out_refcnt s' 7%nat = 1 /\
    zsum (map (out_refcnt s') stream_list) = 1.
Proof.
  assert (H1 : forall d, In d (dentry_preorder hardlinks) ->
                         i_visited (start 1) (d_inode d) = false)
    by (intros d _; reflexivity).
  assert (H2 : forall d, In d (dentry_preorder hardlinks) ->
             incl (counted_streams Z X 0 (inode_at Z X (d_inode d)))
                  (stream_slots Z X (inode_at Z X (d_inode d)))).
  { intros d Hd. simpl in Hd.
    destruct Hd as [<- | [<- | [<- | []]]]; intros l Hl; exact Hl. }
  assert (H3 : Z.of_nat (List.length (inode_stream_pairs Z X 0 hardlinks))
               < 2 ^ 32) by reflexivity.
  split; [exact H1 |]. split; [exact H2 |]. split; [exact H3 |].
  destruct (planner_counts_inode_references Z X hardlinks 0 (start 1)
              H1 H2 H3) as [stream_list [s' [Hrun [Hlist [Hcnt Hsum]]]]].
  exists stream_list, s'. split; [exact Hrun |].
  split; [exact Hlist |]. split; [| rewrite Hsum; reflexivity].
  apply (Hcnt file_a 7%nat); simpl; tauto.
Defined.

(** *** The sort *)

(** *** The sort of the C library without its buffer

    [qsort] of the GNU C library (2.36, stdlib/msort.c) sorts by merging
    in a temporary buffer; for an array of 1024 bytes or more the buffer
    comes from [malloc], and when it cannot be had the function calls
    [_quicksort] (stdlib/qsort.c), which sorts in place: a quicksort with
    a median of three as pivot that leaves partitions of at most four
    elements alone, and an insertion sort over the whole array at the
    end.  The array is a list; [lo], [hi], [mid], [left_ptr], [right_ptr]
    are indices into it. *)
Definition at_index (a : list nat) (i : Z) : nat := nth (Z.to_nat i) a O.

Fixpoint put (a : list nat) (i v : nat) : list nat :=
  match a, i with
  | [], _ => []
  | _ :: r, O => v :: r
  | x :: r, S j => x :: put r j v
  end.

Definition SWAP (a : list nat) (i j : Z) : list nat :=
  put (put a (Z.to_nat i) (at_index a j)) (Z.to_nat j) (at_index a i).

(** [while (cmp(left_ptr, mid) < 0) left_ptr += size] *)
Fixpoint scan_up (cmp : nat -> nat -> Z) (fuel : nat) (a : list nat)
    (mid left_ptr : Z) : Z :=
  match fuel with
  | O => left_ptr
  | S f =>
      if cmp (at_index a left_ptr) (at_index a mid) <? 0
      then scan_up cmp f a mid (left_ptr + 1) else left_ptr
  end.

(** [while (cmp(mid, right_ptr) < 0) right_ptr -= size] *)
Fixpoint scan_down (cmp : nat -> nat -> Z) (fuel : nat) (a : list nat)
    (mid right_ptr : Z) : Z :=
  match fuel with
  | O => right_ptr
  | S f =>
      if cmp (at_index a mid) (at_index a right_ptr) <? 0
      then scan_down cmp f a mid (right_ptr - 1) else right_ptr
  end.

(** The [do ... while (left_ptr <= right_ptr)] loop that collapses the
    walls. *)
Fixpoint collapse (cmp : nat -> nat -> Z) (fuel : nat) (a : list nat)
    (mid left_ptr right_ptr : Z) : list nat * Z * Z :=
  match fuel with
  | O => (a, left_ptr, right_ptr)
  | S f =>
      let left_ptr := scan_up cmp (List.length a) a mid left_ptr in
      let right_ptr := scan_down cmp (List.length a) a mid right_ptr in
      if left_ptr <? right_ptr then
        let a := SWAP a left_ptr right_ptr in
        let mid := if mid =? left_ptr then right_ptr
                   else if mid =? right_ptr then left_ptr else mid in
        if left_ptr + 1 <=? right_ptr - 1
        then collapse cmp f a mid (left_ptr + 1) (right_ptr - 1)
        else (a, left_ptr + 1, right_ptr - 1)
      else if left_ptr =? right_ptr then (a, left_ptr + 1, right_ptr - 1)
      else (a, left_ptr, right_ptr)
  end.

(** [(size_t) d <= max_thresh], in elements; [MAX_THRESH] is 4. *)
Definition small (d : Z) : bool := (0 <=? d) && (d <=? 4).

(** The loop [while (STACK_NOT_EMPTY)]; the stack holds the partitions
    pushed above the entry that [PUSH (NULL, NULL)] puts at its bottom. *)
Fixpoint partitions (cmp : nat -> nat -> Z) (fuel : nat) (a : list nat)
    (lo hi : Z) (stack : list (Z * Z)) : list nat :=
  match fuel with
  | O => a
  | S f =>
      let mid := lo + Z.shiftr (hi - lo) 1 in
      let a := if cmp (at_index a mid) (at_index a lo) <? 0
               then SWAP a mid lo else a in
      let a := if cmp (at_index a hi) (at_index a mid) <? 0 then
                 let a := SWAP a mid hi in
                 if cmp (at_index a mid) (at_index a lo) <? 0
                 then SWAP a mid lo else a
               else a in
      match collapse cmp (List.length a) a mid (lo + 1) (hi - 1) with
      | (a, left_ptr, right_ptr) =>
          if small (right_ptr - lo) then
            if small (hi - left_ptr) then
              (* POP (lo, hi) *)
              match stack with
              | [] => a
              | (lo, hi) :: stack => partitions cmp f a lo hi stack
              end
            else partitions cmp f a left_ptr hi stack
          else if small (hi - left_ptr) then partitions cmp f a lo right_ptr stack
          else if right_ptr - lo >? hi - left_ptr then
            (* PUSH (lo, right_ptr) *)
            partitions cmp f a left_ptr hi ((lo, right_ptr) :: stack)
          else
            (* PUSH (left_ptr, hi) *)
            partitions cmp f a lo right_ptr ((left_ptr, hi) :: stack)
      end
  end.

(** The smallest element of the first elements, up to [thresh]. *)
Fixpoint smallest (cmp : nat -> nat -> Z) (fuel : nat) (a : list nat)
    (run thresh tmp : Z) : Z :=
  match fuel with
  | O => tmp
  | S f =>
      if run <=? thresh then
        smallest cmp f a (run + 1) thresh
          (if cmp (at_index a run) (at_index a tmp) <? 0 then run else tmp)
      else tmp
  end.

(** [while (cmp(run_ptr, tmp_ptr) < 0) tmp_ptr -= size] *)
Fixpoint place (cmp : nat -> nat -> Z) (fuel : nat) (a : list nat)
    (run tmp : Z) : Z :=
  match fuel with
  | O => tmp
  | S f =>
      if cmp (at_index a run) (at_index a tmp) <? 0
      then place cmp f a run (tmp - 1) else tmp
  end.

(** The element at [run] moves down to [tmp], those between move up. *)
Definition move_down (a : list nat) (tmp run : Z) : list nat :=
  firstn (Z.to_nat tmp) a
  ++ at_index a run
  :: firstn (Z.to_nat (run - tmp)) (skipn (Z.to_nat tmp) a)
  ++ skipn (Z.to_nat (run + 1)) a.

(** [while ((run_ptr += size) <= end_ptr)] *)
Fixpoint insertions (cmp : nat -> nat -> Z) (fuel : nat) (a : list nat)
    (run end_ptr : Z) : list nat :=
  match fuel with
  | O => a
  | S f =>
      let run := run + 1 in
      if run <=? end_ptr then
        let tmp := place cmp (List.length a) a run (run - 1) + 1 in
        insertions cmp f (if tmp =? run then a else move_down a tmp run)
                   run end_ptr
      else a
  end.

Definition _quicksort (cmp : nat -> nat -> Z) (a : list nat) : list nat :=
  let total_elems := Z.of_nat (List.length a) in
  if total_elems =? 0 then a
  else
    let a := if total_elems >? 4
             then partitions cmp (List.length a) a 0 (total_elems - 1) []
             else a in
    let end_ptr := total_elems - 1 in
    let thresh := Z.min end_ptr 4 in
    let tmp := smallest cmp (List.length a) a 1 thresh 0 in
    let a := if tmp =? 0 then a else SWAP a tmp 0 in
    insertions cmp (List.length a) a 1 end_ptr.

(** [qsort] when the buffer of its merge sort cannot be allocated: an
    array of less than 1024 bytes is sorted by merging all the same (its
    buffer is on the stack), a larger one by [_quicksort]. *)
Definition qsort_without_buffer (cmp : nat -> nat -> Z) (l : list nat)
  : list nat :=
  if Z.of_nat (List.length l) * 8 <? 1024 then insertion_sort cmp l
  else _quicksort cmp l.

Definition X_quicksort : externals Z :=
  with_libraries (x_ntfs_mount Z X) qsort_without_buffer backend X.

(** Whether [b] occurs behind the first [a]. *)
Fixpoint behind_first (a b : nat) (l : list nat) : bool :=
  match l with
  | [] => false
  | x :: r =>
      if Nat.eqb x a then existsb (Nat.eqb b) r else behind_first a b r
  end.

Lemma precedes_behind_first (a b : nat) (l : list nat) :
  precedes a b l -> behind_first a b l = true.
Proof.
  intros (l1 & l2 & l3 & ->).
  assert (Hb : forall l0, existsb (Nat.eqb b) (l0 ++ b :: l3) = true).
  { intros l0. apply existsb_exists. exists b.
    split; [apply in_or_app; right; left; reflexivity
           | apply Nat.eqb_refl]. }
  induction l1 as [| x l1 IH]; cbn [app behind_first].
  - rewrite Nat.eqb_refl. apply Hb.
  - destruct (Nat.eqb x a); [| exact IH].
    rewrite app_comm_cons, app_assoc. apply Hb.
Qed.

(** 130 streams that lie at the same offset, in the order in which the
    planner found them, and the order in which they come out of the
    sort. *)
Definition ties : list nat := seq 100 130.

Definition ties_sorted : list nat :=
  [100; 187; 186; 185; 184; 183; 182; 188; 189; 195; 194; 193;
  192; 191; 190; 181; 180; 171; 170; 169; 168; 167; 166; 172;
  173; 179; 178; 177; 176; 175; 174; 196; 197; 198; 220; 219;
  218; 217; 216; 215; 221; 222; 228; 227; 226; 225; 224; 223;
  214; 213; 204; 203; 202; 201; 200; 199; 205; 206; 212; 211;
  210; 209; 208; 207; 165; 164; 122; 121; 120; 119; 118; 117;
  123; 124; 130; 129; 128; 127; 126; 125; 116; 115; 106; 105;
  104; 103; 102; 101; 107; 108; 114; 113; 112; 111; 110; 109;
  131; 132; 133; 155; 154; 153; 152; 151; 150; 156; 157; 163;
  162; 161; 160; 159; 158; 149; 148; 139; 138; 137; 136; 135;
  134; 140; 141; 147; 146; 145; 144; 143; 142; 229]%nat.

(** The array of the 130 streams is allocated, but the C library has no
    memory for the buffer of its sort: [sort_stream_list_by_wim_position]
    succeeds, and of the 130 streams, all of the same offset, only the
    first and the last are where they were.  The stream 101 stood before
    the stream 187 and stands behind it now. *)
Lemma sort_reorders_ties :
  x_malloc Z X_quicksort
    (Z.of_nat (List.length ties) * sizeof_pointer Z X_quicksort)
    (ext (start 3)) = true /\
  sort_stream_list_by_wim_position Z X_quicksort ties (start 3)
  = (Normal (WIMLIB_ERR_SUCCESS, ties_sorted), start 3) /\
  Forall (fun l => wim_position Z X_quicksort l = 0) ties /\
  List.length (filter (fun p => negb (Nat.eqb (fst p) (snd p)))
                      (combine ties ties_sorted)) = 128%nat /\
  precedes 101 187 ties /\
  ~ precedes 101 187 ties_sorted /\
  ~ stable_by (wim_position Z X_quicksort) ties ties_sorted.
Proof.
  assert (Hin : precedes 101 187 ties)
    by (exists [100%nat], (seq 102 85), (seq 188 42); reflexivity).
  assert (Hout : ~ precedes 101 187 ties_sorted).
  { intros H. apply precedes_behind_first in H. vm_compute in H.
    discriminate H. }
  split; [reflexivity |].
  split; [vm_compute; reflexivity |].
  split; [unfold ties; cbn [seq]; repeat constructor |].
  split; [vm_compute; reflexivity |].
  split; [exact Hin |]. split; [exact Hout |].
  intros Hstable. apply Hout, Hstable; [reflexivity | exact Hin].
Qed.

(** The streams of image 3, sorted: 9 comes first, its offset being 100;
    7 and 8 stand at the same offset, 300. *)
Lemma sort_stream_list_sorted_witness :
  x_malloc Z X (Z.of_nat (List.length [7; 8; 9]%nat) * sizeof_pointer Z X)
           (ext (start 3)) = true /\
  qsort_contract Z X /\
  cmp_by_offset Z X /\
  sort_stream_list_by_wim_position Z X [7; 8; 9]%nat (start 3)
  = (Normal (WIMLIB_ERR_SUCCESS, [9; 7; 8]%nat), start 3) /\
  Permutation [9; 7; 8]%nat [7; 8; 9]%nat /\
  StronglySorted (fun a b => wim_position Z X a <= wim_position Z X b)
                 [9; 7; 8]%nat.
Proof.
  destruct (sort_stream_list_sorted Z X [7; 8; 9]%nat (start 3) eq_refl)
    as [Hrun Hsorted].
  destruct (Hsorted (demo_qsort_contract true) (demo_cmp_by_offset true))
    as [Hperm Hs].
  split; [reflexivity |].
  split; [apply demo_qsort_contract |].
  split; [apply demo_cmp_by_offset |].
  split; [exact Hrun |]. split; [exact Hperm | exact Hs].
Defined.

(** *** The reports of progress *)

(** Image 2 has no stream: the extraction succeeds and no
    [EXTRACT_STREAMS] report is made.  Image 3 has 1000 bytes in files of
    15, 7 and 978 bytes: the reports are made at 15 and at 1000 bytes;
    at 22 bytes, past two hundredths of the total, none is made, the
    threshold being 25 after the report at 15. *)
Lemma reports_fewer_than_thresholds :
  fst (extract_tree Z X [] out 0 (Some report) (start 2))
  = WIMLIB_ERR_SUCCESS /\
  streams_infos
    (trace (snd (extract_tree Z X [] out 0 (Some report) (start 2)))) = [] /\
  fst (extract_tree Z X [] out 0 (Some report) (start 3))
  = WIMLIB_ERR_SUCCESS /\
  total_bytes
    (progress (args (snd (extract_tree Z X [] out 0 (Some report)
                            (start 3))))) = 1000 /\
  map completed_bytes
    (streams_infos
       (trace (snd (extract_tree Z X [] out 0 (Some report) (start 3)))))
  = [15; 1000] /\
  next_threshold 10 {| wimfile_name := None; image := 3;
                       p_extract_flags := 0; image_name := [];
                       extract_root_wim_source_path := [];
                       p_target := out; cur_path := [];
                       num_streams := 3; total_bytes := 1000;
                       completed_bytes := 15 |} = 25.
Proof. repeat split. Qed.

(** On image 3, planned: the reports are spaced as the code spaces
    them. *)
Lemma apply_stream_list_progress_witness :
  0 <= total_bytes (progress (args planned_three_files)) /\
  exists evs,
    trace (snd (apply_stream_list Z X [7; 8; 9]%nat
                  (normal_apply_operations Z X) (Some report)
                  planned_three_files))
    = trace planned_three_files ++ evs /\
    spaced 10 10 (streams_infos evs) /\
    map completed_bytes (streams_infos evs) = [15; 1000].
Proof.
  assert (H0 : 0 <= total_bytes (progress (args planned_three_files)))
    by (vm_compute; discriminate).
  split; [exact H0 |].
  destruct (apply_stream_list_progress Z X [7; 8; 9]%nat
              (normal_apply_operations Z X) report planned_three_files H0)
    as [evs [Ht [Hs _]]].
  exists evs. split; [exact Ht |]. split; [exact Hs |].
  vm_compute in Ht. subst evs. reflexivity.
Defined.

(** *** The output path *)


(** *** The fall-back from a sequential extraction *)

(** Image 3, extracted sequentially with a [malloc] that fails: the two
    messages stand in the trace before the first dentry is applied, the
    four dentries of the tree are applied once each, the directory first
    and the files in the order of the planner's list, and the run returns
    what the run without the flag returns. *)
Lemma sequential_falls_back_witness :
  nonzero (Z.land 16 (WIMLIB_EXTRACT_FLAG_SEQUENTIAL Z X_nomem)) = true /\
  (forall size e, x_malloc Z X_nomem size e = false) /\
  (exists pre post,
      trace (snd (extract_tree Z X_nomem [] out 16 (Some report) (start 3)))
      = trace (start 3) ++ pre ++ fallback_messages ++ post /\
      Forall no_apply pre /\
      subsequence (applied_dentries post)
        (map d_addr (dentry_preorder three_files)
         ++ map d_addr
              (flat_map
                 (lte_dentry_list
                    (snd (extract_tree Z X_nomem [] out 16 (Some report)
                            (start 3))))
                 (stream_list
                    (ctx Z (snd (extract_tree Z X_nomem [] out 16
                                   (Some report) (start 3))))))) /\
      Permutation (applied_dentries post) (tree_addrs three_files)) /\
  fst (extract_tree Z X_nomem [] out 16 (Some report) (start 3))
  = fst (extract_tree Z X_nomem [] out (clear_sequential Z X_nomem 16)
           (Some report) (start 3)) /\
  ext (snd (extract_tree Z X_nomem [] out 16 (Some report) (start 3)))
  = ext (snd (extract_tree Z X_nomem [] out (clear_sequential Z X_nomem 16)
                (Some report) (start 3))) /\
  visible Z X_nomem
    (trace (snd (extract_tree Z X_nomem [] out 16 (Some report) (start 3))))
  = visible Z X_nomem
      (trace (snd (extract_tree Z X_nomem [] out
                     (clear_sequential Z X_nomem 16) (Some report)
                     (start 3)))).
Proof.
  pose proof (sequential_falls_back Z X_nomem [] out 16 (Some report)
                (start 3) eq_refl (fun _ _ => eq_refl)) as [Habs Hrel].
  split; [reflexivity |]. split; [intros size e; reflexivity |].
  split; [| exact (Hrel demo_flags_apart demo_backends demo_progress)].
  destruct (Habs three_files) as [pre [post [Ht [Hno [Hsub Hperm]]]]];
    [reflexivity | discriminate | reflexivity | reflexivity |].
  exists pre, post. split; [exact Ht |]. split; [exact Hno |].
  split; [exact Hsub |]. apply Hperm.
  - vm_compute. reflexivity.
  - split; [intros d _; reflexivity |]. split; [| reflexivity].
    intros d Hd. simpl in Hd.
    destruct Hd as [<- | [<- | [<- | [<- | []]]]]; intros l Hl; exact Hl.
  - repeat constructor; simpl; intuition discriminate.
Defined.

(** A progress function that acts on the outside when it is told that
    the extraction is sequential: it adds 100 to the state. *)
Definition tell : wimlib_progress_func_t Z :=
  fun _ info e =>
    if nonzero (Z.land (p_extract_flags info)
                       (WIMLIB_EXTRACT_FLAG_SEQUENTIAL Z X_nomem))
    then e + 100 else e.

(** A backend that cannot write any more once the outside has reached
    the state 100. *)
Definition fragile (d : wim_dentry) (a : apply_args Z) (e : Z)
  : wimlib_error_code * Z * Z :=
  if 100 <=? e then (WIMLIB_ERR_WRITE, completed_bytes (progress a), e)
  else backend d a e.

Definition X_fragile : externals Z :=
  with_libraries (x_ntfs_mount Z X_nomem) insertion_sort fragile X_nomem.

(** Image 3 again, with this progress function.  The run that falls
    back succeeds, as the run without the flag does, but it is not that
    run: at its end [args.extract_flags] still has the bit of the flag,
    every report to the progress function carried it, and the outside is
    left in the state 708, where the run without the flag leaves it in
    the state 8.  With the backend that depends on the outside, the run
    that falls back fails where the run without the flag succeeds. *)
Lemma fallback_keeps_sequential_bit :
  nonzero (Z.land 16 (WIMLIB_EXTRACT_FLAG_SEQUENTIAL Z X_nomem)) = true /\
  (forall size e, x_malloc Z X_nomem size e = false) /\
  clear_sequential Z X_nomem 16 = 0 /\
  fst (extract_tree Z X_nomem [] out 16 (Some tell) (start 3))
  = WIMLIB_ERR_SUCCESS /\
  fst (extract_tree Z X_nomem [] out 0 (Some tell) (start 3))
  = WIMLIB_ERR_SUCCESS /\
  a_extract_flags Z
    (args (snd (extract_tree Z X_nomem [] out 16 (Some tell) (start 3))))
  = 16 /\
  a_extract_flags Z
    (args (snd (extract_tree Z X_nomem [] out 0 (Some tell) (start 3))))
  = 0 /\
  Forall (fun e => match e with
                   | Ev_progress _ info => p_extract_flags info = 16
                   | _ => True
                   end)
    (trace (snd (extract_tree Z X_nomem [] out 16 (Some tell) (start 3)))) /\
  ext (snd (extract_tree Z X_nomem [] out 16 (Some tell) (start 3))) = 708 /\
  ext (snd (extract_tree Z X_nomem [] out 0 (Some tell) (start 3))) = 8 /\
  (forall size e, x_malloc Z X_fragile size e = false) /\
  fst (extract_tree Z X_fragile [] out 16 (Some tell) (start 3))
  = WIMLIB_ERR_WRITE /\
  fst (extract_tree Z X_fragile [] out 0 (Some tell) (start 3))
  = WIMLIB_ERR_SUCCESS.
Proof.
  split; [reflexivity |]. split; [intros size e; reflexivity |].
  split; [reflexivity |].
  repeat (split; [vm_compute; reflexivity |]).
  split; [vm_compute; repeat constructor |].
  do 2 (split; [vm_compute; reflexivity |]).
  split; [intros size e; reflexivity |].
  split; vm_compute; reflexivity.
Qed.

(** The same externals in a library built with NTFS-3g. *)
Definition with_ntfs_3g (x : externals Z) : externals Z :=
  {| WITH_NTFS_3G := true;
     WIN32 := WIN32 Z x;
     sizeof_tchar := sizeof_tchar Z x;
     sizeof_pointer := sizeof_pointer Z x;
     sizeof_extract_command := sizeof_extract_command Z x;
     WIMLIB_ALL_IMAGES := WIMLIB_ALL_IMAGES Z x;
     WIM_HDR_FLAG_RP_FIX := WIM_HDR_FLAG_RP_FIX Z x;
     WIMLIB_EXTRACT_FLAG_NTFS := WIMLIB_EXTRACT_FLAG_NTFS Z x;
     WIMLIB_EXTRACT_FLAG_SYMLINK := WIMLIB_EXTRACT_FLAG_SYMLINK Z x;
     WIMLIB_EXTRACT_FLAG_HARDLINK := WIMLIB_EXTRACT_FLAG_HARDLINK Z x;
     WIMLIB_EXTRACT_FLAG_SEQUENTIAL := WIMLIB_EXTRACT_FLAG_SEQUENTIAL Z x;
     WIMLIB_EXTRACT_FLAG_VERBOSE := WIMLIB_EXTRACT_FLAG_VERBOSE Z x;
     WIMLIB_EXTRACT_FLAG_UNIX_DATA := WIMLIB_EXTRACT_FLAG_UNIX_DATA Z x;
     WIMLIB_EXTRACT_FLAG_RPFIX := WIMLIB_EXTRACT_FLAG_RPFIX Z x;
     WIMLIB_EXTRACT_FLAG_NORPFIX := WIMLIB_EXTRACT_FLAG_NORPFIX Z x;
     WIMLIB_EXTRACT_FLAG_TO_STDOUT := WIMLIB_EXTRACT_FLAG_TO_STDOUT Z x;
     WIMLIB_EXTRACT_FLAG_NO_STREAMS := WIMLIB_EXTRACT_FLAG_NO_STREAMS Z x;
     WIMLIB_EXTRACT_FLAG_MULTI_IMAGE := WIMLIB_EXTRACT_FLAG_MULTI_IMAGE Z x;
     WIMLIB_EXTRACT_MASK_PUBLIC := WIMLIB_EXTRACT_MASK_PUBLIC Z x;
     inode_at := inode_at Z x;
     lte_at := lte_at Z x;
     inode_unnamed_lte_resolved := inode_unnamed_lte_resolved Z x;
     inode_stream_lte_resolved := inode_stream_lte_resolved Z x;
     dentry_is_directory := dentry_is_directory Z x;
     dentry_is_regular_file := dentry_is_regular_file Z x;
     wim_resource_size := wim_resource_size Z x;
     cmp_streams_by_wim_position := cmp_streams_by_wim_position Z x;
     x_extracted_file := x_extracted_file Z x;
     unix_do_apply_dentry := unix_do_apply_dentry Z x;
     unix_do_apply_dentry_timestamps := unix_do_apply_dentry_timestamps Z x;
     win32_do_apply_dentry := win32_do_apply_dentry Z x;
     win32_do_apply_dentry_timestamps := win32_do_apply_dentry_timestamps Z x;
     x_apply_dentry_ntfs := x_apply_dentry_ntfs Z x;
     x_apply_dentry_timestamps_ntfs := x_apply_dentry_timestamps_ntfs Z x;
     x_extract_wim_resource_to_fd := x_extract_wim_resource_to_fd Z x;
     x_ntfs_mount := x_ntfs_mount Z x;
     x_ntfs_umount := x_ntfs_umount Z x;
     x_realpath := x_realpath Z x;
     x_malloc := x_malloc Z x;
     qsort := qsort Z x;
     x_get_dentry := x_get_dentry Z x;
     x_calculate_dentry_tree_full_paths := x_calculate_dentry_tree_full_paths Z x;
     wimlib_get_image_name := wimlib_get_image_name Z x;
     x_select_wim_image := x_select_wim_image Z x;
     x_wim_checksum_unhashed_streams := x_wim_checksum_unhashed_streams Z x;
     x_verify_swm_set := x_verify_swm_set Z x;
     x_merge_lookup_tables := x_merge_lookup_tables Z x;
     x_unmerge_lookup_table := x_unmerge_lookup_table Z x;
     x_free_extracted_files := x_free_extracted_files Z x;
     canonicalize_wim_path := canonicalize_wim_path Z x;
     canonicalize_fs_path := canonicalize_fs_path Z x;
     x_tstat := x_tstat Z x;
     x_tmkdir := x_tmkdir Z x;
     xml_get_max_image_name_len := xml_get_max_image_name_len Z x;
     decimal := decimal Z x |}.

Definition X_ntfs : externals Z := with_ntfs_3g X.

(** A command for the whole of an image, and one without destination. *)
Definition whole_image : wimlib_extract_command :=
  {| cmd_wim_source_path := []; cmd_fs_dest_path := out;
     cmd_extract_flags := 0 |}.
Definition no_destination : wimlib_extract_command :=
  {| cmd_wim_source_path := []; cmd_fs_dest_path := [];
     cmd_extract_flags := 0 |}.

Lemma extract_files_checks_first_witness :
  In no_destination [whole_image; no_destination] /\
  fst (check_extract_command Z X no_destination (hdr_flags (wim (start 3)))
         (start 3))
  = Returned WIMLIB_ERR_INVALID_PARAM /\
  is_error (fst (do_wimlib_extract_files Z X 3
                   [whole_image; no_destination] None (start 3))) = true /\
  adds Z (message_only) (start 3)
    (snd (do_wimlib_extract_files Z X 3 [whole_image; no_destination]
            None (start 3))).
Proof.
  split; [right; left; reflexivity |]. split; [reflexivity |].
  pose proof (extract_files_checks_first Z X 3
                [whole_image; no_destination] None (start 3)
                no_destination WIMLIB_ERR_INVALID_PARAM
                (or_intror (or_introl eq_refl)) eq_refl) as H.
  cbv zeta in H. split; [apply H | apply H].
Defined.

Lemma extract_tree_unmounts_witness :
  ntfs_mode Z X_ntfs 1 = true /\
  Z.land (WIMLIB_EXTRACT_FLAG_SEQUENTIAL Z X_ntfs)
         (WIMLIB_EXTRACT_FLAG_NTFS Z X_ntfs) = 0 /\
  ((fst (extract_tree Z X_ntfs [] out 1 None (start 3))
    = WIMLIB_ERR_NTFS_3G /\
    trace (snd (extract_tree Z X_ntfs [] out 1 None (start 3)))
    = trace (start 3)
      ++ [Ev_ntfs_mount out false;
          Ev_message LVL_ERROR "Failed to mount NTFS volume"]) \/
   (exists mid r0 msgs,
       trace (snd (extract_tree Z X_ntfs [] out 1 None (start 3)))
       = trace (start 3)
         ++ Ev_ntfs_mount out true :: mid ++ Ev_ntfs_umount r0 :: msgs /\
       Forall calm mid /\ Forall (message_only) msgs /\
       (r0 <> 0 ->
        is_error (fst (extract_tree Z X_ntfs [] out 1 None (start 3)))
        = true))).
Proof.
  split; [reflexivity |]. split; [reflexivity |].
  apply (extract_tree_unmounts Z X_ntfs [] out 1 None (start 3)
           eq_refl eq_refl).
Defined.

Lemma extract_tree_mounts_nothing_witness :
  ntfs_mode Z X 0 = false /\
  exists evs,
    trace (snd (extract_tree Z X [] out 0 (Some report) (start 3)))
    = trace (start 3) ++ evs /\
    Forall calm evs.
Proof.
  split; [reflexivity |].
  apply (extract_tree_mounts_nothing Z X [] out 0 (Some report) (start 3)
           eq_refl).
Defined.

Lemma image_name_ok_as_dir_safe_witness :
  image_name_ok_as_dir Z X (Some (path "Windows 7")) = true /\
  exists name,
    Some (path "Windows 7") = Some name /\
    name <> [] /\
    (forall c, In c (filename_forbidden_chars Z X) -> ~ In c name) /\
    ~ In "/"%char name /\
    name <> list_ascii_of_string "." /\
    name <> list_ascii_of_string "..".
Proof.
  split; [reflexivity |].
  apply (image_name_ok_as_dir_safe Z X (Some (path "Windows 7")) eq_refl).
Defined.

Lemma extract_tree_path_not_found_witness :
  (ntfs_mode Z X 0 = true ->
   fst (x_ntfs_mount Z X out (ext (start 3))) = true) /\
  x_get_dentry Z X (current_image (wim (start 3))) (path "/none")
    (ext (start 3)) = None /\
  fst (extract_tree Z X (path "/none") out 0 None (start 3))
  = WIMLIB_ERR_PATH_DOES_NOT_EXIST /\
  (exists evs,
      trace (snd (extract_tree Z X (path "/none") out 0 None (start 3)))
      = trace (start 3) ++ evs /\
      Forall no_output evs) /\
  In (Ev_message LVL_ERROR "Path does not exist in WIM image")
     (trace (snd (extract_tree Z X (path "/none") out 0 None (start 3)))) /\
  needs_extraction
    (snd (extract_tree Z X (path "/none") out 0 None (start 3)))
  = needs_extraction (start 3) /\
  i_visited (snd (extract_tree Z X (path "/none") out 0 None (start 3)))
  = i_visited (start 3).
Proof.
  split; [intros _; reflexivity |]. split; [reflexivity |].
  apply (extract_tree_path_not_found Z X (path "/none") out 0 None
           (start 3) (fun _ => eq_refl) eq_refl).
Defined.

(** A command that asks for hard links. *)
Definition hard_linked : wimlib_extract_command :=
  {| cmd_wim_source_path := []; cmd_fs_dest_path := out;
     cmd_extract_flags := 2 |}.

Lemma extract_files_refuses_mixed_links_witness :
  Z.land (WIMLIB_EXTRACT_FLAG_RPFIX Z X) (link_flags Z X) = 0 /\
  In hard_linked [whole_image; hard_linked] /\
  Z.land (cmd_extract_flags hard_linked) (link_flags Z X) <> 0 /\
  In whole_image [whole_image; hard_linked] /\
  Z.land (cmd_extract_flags whole_image) (link_flags Z X) = 0 /\
  is_error (fst (do_wimlib_extract_files Z X 3 [whole_image; hard_linked]
                   None (start 3))) = true /\
  adds Z message_only (start 3)
    (snd (do_wimlib_extract_files Z X 3 [whole_image; hard_linked]
            None (start 3))).
Proof.
  split; [reflexivity |].
  split; [right; left; reflexivity |].
  split; [discriminate |].
  split; [left; reflexivity |].
  split; [reflexivity |].
  pose proof (extract_files_refuses_mixed_links Z X 3
                [whole_image; hard_linked] None (start 3)
                hard_linked whole_image eq_refl
                (or_intror (or_introl eq_refl))
                ltac:(discriminate)
                (or_introl eq_refl) eq_refl) as H.
  cbv zeta in H. split; apply H.
Defined.

(** The two hard-linked files of image 1 and their directory are each
    applied once. *)
Lemma extract_tree_applies_each_once_witness :
  Z.land 0 (WIMLIB_EXTRACT_FLAG_TO_STDOUT Z X) = 0 /\
  qsort_contract Z X /\
  (forall e root,
      x_get_dentry Z X (current_image (wim (start 1))) [] e = Some root ->
      plannable Z X 0 root (start 1) /\ NoDup (tree_addrs root)) /\
  fst (extract_tree Z X [] out 0 None (start 1)) = WIMLIB_ERR_SUCCESS /\
  exists root evs e,
    x_get_dentry Z X (current_image (wim (start 1))) [] e = Some root /\
    trace (snd (extract_tree Z X [] out 0 None (start 1)))
    = trace (start 1) ++ evs /\
    Permutation (applied_dentries evs) (tree_addrs root).
Proof.
  assert (H1 : Z.land 0 (WIMLIB_EXTRACT_FLAG_TO_STDOUT Z X) = 0)
    by reflexivity.
  assert (H2 : forall e root,
             x_get_dentry Z X (current_image (wim (start 1))) [] e
             = Some root ->
             plannable Z X 0 root (start 1) /\ NoDup (tree_addrs root)).
  { intros e root H. cbn in H. injection H as <-. split.
    - split; [intros d _; reflexivity |]. split; [| reflexivity].
      intros d Hd. simpl in Hd.
      destruct Hd as [<- | [<- | [<- | []]]]; intros l Hl; exact Hl.
    - repeat constructor; simpl; intuition discriminate. }
  assert (H3 : fst (extract_tree Z X [] out 0 None (start 1))
               = WIMLIB_ERR_SUCCESS) by (vm_compute; reflexivity).
  split; [exact H1 |]. split; [apply demo_qsort_contract |].
  split; [exact H2 |]. split; [exact H3 |].
  exact (extract_tree_applies_each_once Z X [] out 0 None (start 1)
           H1 (demo_qsort_contract true) H2 H3).
Defined.

(** The directory of image 3 is applied before its three files. *)
Lemma extract_tree_directories_first_witness :
  Z.land 0 (WIMLIB_EXTRACT_FLAG_TO_STDOUT Z X) = 0 /\
  qsort_contract Z X /\
  (forall e root,
      x_get_dentry Z X (current_image (wim (start 3))) [] e = Some root ->
      plannable Z X 0 root (start 3) /\ NoDup (tree_addrs root)) /\
  fst (extract_tree Z X [] out 0 None (start 3)) = WIMLIB_ERR_SUCCESS /\
  exists root evs e rest,
    x_get_dentry Z X (current_image (wim (start 3))) [] e = Some root /\
    trace (snd (extract_tree Z X [] out 0 None (start 3)))
    = trace (start 3) ++ evs /\
    applied_dentries evs
    = map d_addr (filter (fun d => negb (deferred Z X d))
                         (dentry_preorder root))
      ++ rest /\
    (forall a, In a rest ->
               exists d, In d (dentry_preorder root) /\
                         deferred Z X d = true /\ d_addr d = a).
Proof.
  assert (H1 : Z.land 0 (WIMLIB_EXTRACT_FLAG_TO_STDOUT Z X) = 0)
    by reflexivity.
  assert (H2 : forall e root,
             x_get_dentry Z X (current_image (wim (start 3))) [] e
             = Some root ->
             plannable Z X 0 root (start 3) /\ NoDup (tree_addrs root)).
  { intros e root H. cbn in H. injection H as <-. split.
    - split; [intros d _; reflexivity |]. split; [| reflexivity].
      intros d Hd. simpl in Hd.
      destruct Hd as [<- | [<- | [<- | [<- | []]]]]; intros l Hl; exact Hl.
    - repeat constructor; simpl; intuition discriminate. }
  assert (H3 : fst (extract_tree Z X [] out 0 None (start 3))
               = WIMLIB_ERR_SUCCESS) by (vm_compute; reflexivity).
  split; [exact H1 |]. split; [apply demo_qsort_contract |].
  split; [exact H2 |]. split; [exact H3 |].
  exact (extract_tree_directories_first Z X [] out 0 None (start 3)
           H1 (demo_qsort_contract true) H2 H3).
Defined.

(** The timestamps of image 1: the two files, then their directory. *)
Lemma extract_tree_timestamps_last_witness :
  Z.land 0 (WIMLIB_EXTRACT_FLAG_TO_STDOUT Z X) = 0 /\
  fst (extract_tree Z X [] out 0 None (start 1)) = WIMLIB_ERR_SUCCESS /\
  exists root e before after,
    x_get_dentry Z X (current_image (wim (start 1))) [] e = Some root /\
    trace (snd (extract_tree Z X [] out 0 None (start 1)))
    = trace (start 1) ++ before ++ after /\
    stamped_dentries before = [] /\
    applied_dentries after = [] /\
    stamped_dentries after = map d_addr (dentry_postorder root).
Proof.
  assert (H1 : Z.land 0 (WIMLIB_EXTRACT_FLAG_TO_STDOUT Z X) = 0)
    by reflexivity.
  assert (H2 : fst (extract_tree Z X [] out 0 None (start 1))
               = WIMLIB_ERR_SUCCESS) by (vm_compute; reflexivity).
  split; [exact H1 |]. split; [exact H2 |].
  exact (extract_tree_timestamps_last Z X [] out 0 None (start 1) H1 H2).
Defined.

(** Image 2, an empty directory, asked for on standard output. *)
Lemma extract_tree_to_stdout_witness :
  nonzero (Z.land 1024 (WIMLIB_EXTRACT_FLAG_TO_STDOUT Z X)) = true /\
  printed Z X [] (current_image (wim (start 2))) (trace (start 2))
    (fst (extract_tree Z X [] out 1024 None (start 2)))
    (snd (extract_tree Z X [] out 1024 None (start 2))).
Proof.
  assert (H : nonzero (Z.land 1024 (WIMLIB_EXTRACT_FLAG_TO_STDOUT Z X))
              = true) by reflexivity.
  split; [exact H |].
  exact (extract_tree_to_stdout Z X [] out 1024 None (start 2) H).
Defined.

(** *** Extraction to standard output *)

(** Image 2 is a directory.  Sent to standard output in the NTFS mode,
    on a volume that can be mounted, its extraction fails with
    [WIMLIB_ERR_NOT_A_REGULAR_FILE]; the volume has been mounted and
    unmounted and a message printed, nothing else. *)
Lemma to_stdout_not_regular_file_witness :
  nonzero (Z.land 1025 (WIMLIB_EXTRACT_FLAG_TO_STDOUT Z X_ntfs)) = true /\
  x_get_dentry Z X_ntfs (current_image (wim (start 2))) []
    (snd (x_ntfs_mount Z X_ntfs out (ext (start 2)))) = Some empty_dir /\
  dentry_is_regular_file Z X_ntfs empty_dir = false /\
  fst (extract_tree Z X_ntfs [] out 1025 None (start 2))
  = WIMLIB_ERR_NOT_A_REGULAR_FILE /\
  exists evs,
    trace (snd (extract_tree Z X_ntfs [] out 1025 None (start 2)))
    = trace (start 2) ++ evs /\
    Forall (writes_nothing true) evs.
Proof.
  split; [reflexivity |]. split; [reflexivity |]. split; [reflexivity |].
  destruct (to_stdout_not_regular_file Z X_ntfs [] out 1025 None (start 2)
              empty_dir eq_refl eq_refl eq_refl) as [Hr [_ Hevs]].
  split; [exact Hr | exact Hevs].
Defined.

(** The library built with NTFS-3g, and a target that is no NTFS
    volume. *)
Definition X_unmountable : externals Z :=
  with_libraries (fun _ e => (false, e)) insertion_sort backend X_ntfs.

(** Image 2, a directory, sent to standard output in the NTFS mode on a
    target that cannot be mounted: the extraction fails with
    [WIMLIB_ERR_NTFS_3G], not with [WIMLIB_ERR_NOT_A_REGULAR_FILE]; the
    root of the tree has not been looked at. *)
Lemma to_stdout_unmountable :
  nonzero (Z.land 1025 (WIMLIB_EXTRACT_FLAG_TO_STDOUT Z X_unmountable))
  = true /\
  x_get_dentry Z X_unmountable (current_image (wim (start 2))) []
    (ext (start 2)) = Some empty_dir /\
  dentry_is_regular_file Z X_unmountable empty_dir = false /\
  fst (extract_tree Z X_unmountable [] out 1025 None (start 2))
  = WIMLIB_ERR_NTFS_3G /\
  trace (snd (extract_tree Z X_unmountable [] out 1025 None (start 2)))
  = [Ev_ntfs_mount out false;
     Ev_message LVL_ERROR "Failed to mount NTFS volume"].
Proof. repeat split. Qed.
End Demo.
End WimExtract.
